(* ===== verification/_CoqProject ===== *)
-Q . S2P
Prelude.v
GoStd.v
Platform.v
Link.v
Message.v
Messaging.v
Rpc.v
PeerGraph.v
MuxChannel.v
Pipe.v
Multiplexer.v
Mux.v
PeerMap.v
Meta.v
Acme.v
Server.v
Gossip.v
Directory.v
Handshake.v
Leader.v
Renewal.v
Network.v
Cluster.v
Alpn.v
Gateway.v
Provider.v
Client.v
TunnelLoop.v
Relay.v
Startup.v
