(* ===== verification/Prelude.v ===== *)
(** * A verification library for [t], a clustered tunnelling server

    [t] exposes applications behind a firewall.  A client ([cmd/client],
    [client/]) connects to one of several servers ([cmd/server], [server/]) and
    is given a host name; visitors of that name reach a gateway ([gateway/]) on
    any server, which opens a stream to the client over a multiplexed session
    ([mux/], [multiplexer/]), directly or through the server the client is
    connected to.  The servers find each other by gossip, exchange which clients
    they have as compact filters ([state/]), talk over messaging streams
    ([messaging/]) and share one ACME account and certificate ([acme/],
    [provider/]), renewed by an elected leader.

    ** Files

    [Prelude]      outcomes of Go calls (value, error, panic), machine integers,
                   byte slices, channels, labelled transition systems with
                   reachability and forward simulation, map iteration orders,
                   tactics
    [GoStd]        what is used of the standard library: strings, [hash/fnv],
                   [hash/crc64], [sort], readers, accept loops
    [Platform]     [sock/], [workaround/dns_android.go], [profiler/]: socket
                   options, the resolver on Android, metrics and debug pages
    [Link]         [multiplexer/link.go], [multiplexer/alpn], [multiplexer/protocol],
                   [mux/common.go]: stream headers and their codec
    [Message]      [messaging/message.go], [messaging/const.go]: frames, envelopes
                   and the decoding loop
    [Messaging]    [messaging/channel.go]: the registry of streams and its
                   goroutines
    [Rpc]          [messaging/rpc.go]: requests and replies over these streams
    [PeerGraph]    [state/connected_clients.go], [state/peer_graph.go]:
                   announcements, their filters and the graph of the cluster
    [MuxChannel]   [multiplexer/channel.go]: the channel of accepted streams
    [Pipe]         [multiplexer/pipe.go], [util/reader.go]: copying between two
                   connections
    [Multiplexer]  [multiplexer/const.go], [constructor.go], [dialer.go], [peer.go]:
                   configuration, registries and the [Peer] interface, which is
                   the class [MuxPeer] with the promise [ConstructorsOk]
    [Mux]          [mux/yamux.go], [mux/mplex.go], [mux/quic.go]: the three
                   implementations, which discharge that promise
    [PeerMap]      [state/peer_map.go]: live sessions; the calls statement by
                   statement, and what an enumeration may report meanwhile
    [Meta]         [server/meta.go]: what a server publishes about itself, with the
                   parser and printer of IP addresses
    [Acme]         [acme/]: the certificate manager, as a state monad
    [Server]       [server/server.go], [config.go], [peers.go], [clients.go],
                   [backgroud.go], [shared/]: state, handshakes, routing, session
                   events; [routine] is a goroutine at work on the session maps
    [Gossip]       [server/gossip.go], [server/messaging.go]: membership, state
                   exchange, peering; [server_step] runs a server with all its
                   goroutines
    [Directory]    the abstract specification of a server's routing tables and the
                   proof that the handlers implement it
    [Handshake]    the four listener handlers, concurrently, against arbitrary
                   strangers
    [Leader]       [server/leader.go]: election, the timer goroutine, the checks
    [Renewal]      a renewed certificate on its way from the leader's check over
                   the messaging streams to the other servers
    [Network]      streams followed through a cluster of servers
    [Cluster]      several servers that start, stop and exchange announcements,
                   with the buffers in flight and the history of announcements
    [Alpn]         [gateway/alpn.go]: connections by negotiated protocol
    [Gateway]      [gateway/gateway.go], [accepter.go], [apex.go], [tunnel_http.go],
                   [redirect.go], [cmd/server/authz.go]
    [Provider]     [provider/rfc2136.go]: dynamic DNS updates
    [Client]       [client/], [cmd/client/main.go]: the commands up to the point
                   where they serve
    [TunnelLoop]   [client/tunnel.go], [cmd/client/main.go]: the goroutines of a
                   serving tunnel, its output and the life of the command
    [Relay]        a visitor on one server and the client on another
    [Startup]      [cmd/server/config.go], [cmd/server/main.go]: the whole server
                   program put together

    ** How code becomes definitions

    A pure function is a function; a fallible one returns [go A]; a method that
    changes its receiver returns the new one; the certificate manager, which is
    changed also by calls that fail, uses the monad [Acme.M].  Panics are values,
    so that their absence is a theorem: out-of-range slices, nil dereferences,
    closing a closed channel, and [logger.Fatal], which ends the process.
    Integers are [Z] with their wrap-around written out ([wrap64],
    [uint64_of_int], [int_of_uint64]); bytes are [Z] below 256.  Map iteration
    takes an arbitrary enumeration.  Third-party code is a class of operations
    with a second class stating documented behaviour ([Crypto]/[CryptoOk],
    [XorFilter]/[XorFilterOk], [Json]/[JsonOk], [Dns]/[DnsOk],
    [Prometheus]/[PrometheusOk], [Sessions]) or the answer of a call, given as
    an argument (dialing, listening, the CA, the file system); each such class
    has an instance that a closed example evaluates.

    ** Concurrency

    Goroutines that share memory are labelled step functions, one label per
    statement on it, and theorems about them speak of every reachable state.
    [NewPeer] and [Remove] hold no lock and wait a second between the check and
    the [Store], so in [PeerMap] and in the life of a server
    ([Gossip.server_step]) every access to a session map, every addition to its
    counter and every token send is a step of its own: a handshake or an
    outgoing connection is a function of its own connection up to the call of
    [NewPeer] (it reads only the server's identifier and domain, which never
    change) and a [routine] from there on.  The sessions that a racing [Store]
    replaces are kept as history.  [sync.Map.Range] is no snapshot: an
    enumeration that overlaps with other calls may report any set between the
    keys that were there all the time and those that were there at some moment
    ([range_window], [snapshot_ok]); the dispatcher and the election use it so.
    The functions [NewPeer], [PeerMap_Remove], [peerNegotiation],
    [clientNegotiation], [connectPeer] and [removePeer] are the same code when
    nothing interrupts it; [NewPeer_steps] and [Remove_steps] relate them to the
    statements, and the theorems that use them say so.  One step each are: a
    receive or send on a channel with the code up to the next one; an operation
    on the graph or the certificate manager, which have locks of their own (the
    two imports of a join are one step); and the reads of [findPath] and of
    [peerReconciliation], whose results are used only to open a stream or to
    start a connection.

    Accept loops start one goroutine per stream ([Mux.start_step]); the order in
    which links are handed on is that in which headers arrive.  The copying of
    [Pipe] takes for each connection whether its [Close] ends blocked reads, as
    [net.Conn] documents, or only writes, as the streams of QUIC do.

    ** What the theorems show

    Tunnels end to end: [Client.tunnel_end_to_end], [Relay.relayed_tunnel],
    [Client.tunnel_handshake], [Client.tunnel_established],
    [TunnelLoop.tunnel_serves], [Startup.names_lead_back],
    [Gateway.visitor_errors], [Alpn.alpn_mux_conserves], [Pipe.connect_copies],
    [Pipe.connect_terminates].
    A server's state: [Gossip.server_invariant], [Startup.main_starts_server],
    [Directory.server_refines_directory], [Directory.ack_reports_sessions],
    [Server.client_registered], [Handshake.handshakes_isolated].
    The cluster: [Cluster.cluster_converges], [Cluster.announcements_truthful],
    [Gossip.peering_agreement], [Gossip.reach_out_exactly_one],
    [Gossip.reconciliation_targets], [Leader.leader_agreement].
    Certificates: [Acme.acme_consistent], [Acme.acme_restart],
    [Acme.acme_account_once], [Gossip.join_synchronizes],
    [Renewal.renewal_propagates], [Startup.certificates_cover_tunnels],
    [Provider.challenge_provisioned].
    Wire formats: [Link.link_codec_bijection], [Meta.meta_codec],
    [Message.reader_delivers_in_order].
    Goroutines: [MuxChannel.channel_never_panics], [MuxChannel.channel_fifo],
    [MuxChannel.channel_shutdown], [Mux.mux_life_cycle], [Mux.start_accepts],
    [PeerMap.peermap_count_interleaved], [Rpc.rpc_round_trip],
    [Rpc.rpc_call_outcome].
    Smaller parts: [Platform.Sock.listeners_reuse], [Platform.Dns.dns_pair_set],
    [Platform.Profiler.profiler_starts], [Platform.Profiler.expvars_object],
    [Mux.constructed_addr], [Messaging.messaging_never_panics],
    [PeerGraph.single_client_change_merged], [Acme.acme_transfer],
    [Network.one_hop_delivery], [Gossip.announced_client_routable].
    Each file also proves the flaws that modelling brought to light, as theorems
    about the definitions (for instance [Messaging.messaging_reconnect_crash],
    [PeerMap.peermap_duplicate_race], [Leader.leader_timer_deadlock],
    [Network.forwarding_loop], [Cluster.stale_push_wins],
    [Pipe.connect_quic_lingers], [Gateway.wrapped_timeout_missed]).

    ** Bounds and fuel

    [make_bytes] fails above 2^48 bytes, the address space of the platforms Go
    allocates on; the decoding loop of [Message] takes the number of frames it
    may read, and its theorem gives the number that suffices; [parseIPv6_loop]
    takes the eight groups of an address as its structural argument;
    [Network.follow] takes the number of hops, which the one-hop theorem fixes
    and the loop theorem quantifies over; every other recursion is structural.

    ** Not modelled

    Log messages and the counters that are incremented have no effect on the
    rest; the objects that are logged are modelled.  System calls, the resolver
    of the standard library, the page templates, the reverse proxies of the standard library,
    TLS itself (only what the code decides about a finished handshake), the
    multiplexing libraries, memberlist, the ACME client and the YAML reader are
    third-party code and enter as parameters; of the name server only what it is
    asked is stated.  Time appears only as the outcome of the selects that wait
    for it. *)

From stdpp Require Export base gmap list list_numbers strings sorting.
From Stdlib Require Export ZArith Lia.

Open Scope Z_scope.

(** ** Errors

    A Go [error] value.  Package-level error variables are compared by identity
    ([errors.Is] walks the chain of wrapped errors and compares pointers), so
    each of them is a constructor of [sentinel].  [Wrapf] is [fmt.Errorf] with a
    [%w] verb, [Errorf] is [fmt.Errorf] without one (its integer arguments kept)
    or [errors.New], [NetError] is a value that implements [net.Error], and
    [Foreign] is any other error produced by a library. *)
Inductive sentinel :=
| io_EOF
| os_ErrNotExist
| net_ErrClosed
| context_Canceled
| context_DeadlineExceeded
| yamux_ErrTimeout
| ErrUnknownProtocol
| ErrDestinationNotFound
| ErrSessionAlreadyEstablished
| ErrPeerGone
| ErrRPCTimeout
| ErrNoAccount
| ErrAccountExists
| ErrNoPKey
| ErrPKeyExists
| ErrNoCert.

Inductive error :=
| Sentinel (s : sentinel)
| NetError (timeout : bool)
| Errorf (msg : string) (args : list Z)
| Wrapf (msg : string) (e : error)
| Foreign (code : Z).

#[export] Instance sentinel_eq_dec : EqDecision sentinel.
Proof. solve_decision. Defined.

#[export] Instance error_eq_dec : EqDecision error.
Proof. solve_decision. Defined.

(** [errors.Is(e, target)] for a package-level [target]. *)
Fixpoint errors_Is (e : error) (target : sentinel) : bool :=
  match e with
  | Sentinel s => bool_decide (s = target)
  | Wrapf _ e' => errors_Is e' target
  | _ => false
  end.

(** ** Outcomes of a Go call

    A call either returns, returns a non-nil error, or panics. *)
Inductive panic :=
| IndexOutOfRange
| SliceOutOfRange
| MakeLenOutOfRange
| NilDereference
| CloseOfClosedChannel
| SendOnClosedChannel
| PanicMsg (msg : string)
| FatalExit (msg : string).

Inductive go (A : Type) :=
| Ok (a : A)
| Err (e : error)
| Panic (p : panic).
Arguments Ok {_} _.
Arguments Err {_} _.
Arguments Panic {_} _.

#[export] Instance panic_eq_dec : EqDecision panic.
Proof. solve_decision. Defined.

#[export] Instance go_eq_dec `{EqDecision A} : EqDecision (go A).
Proof. solve_decision. Defined.

#[export] Instance go_ret : MRet go := λ A a, Ok a.
#[export] Instance go_bind : MBind go := λ A B f m,
  match m with
  | Ok a => f a
  | Err e => Err e
  | Panic p => Panic p
  end.

(** [if err != nil { return fmt.Errorf(msg + ": %w", err) }] *)
Definition wrap_err {A} (msg : string) (m : go A) : go A :=
  match m with
  | Err e => Err (Wrapf msg e)
  | _ => m
  end.

Definition is_ok {A} (m : go A) : bool :=
  match m with Ok _ => true | _ => false end.

Definition is_panic {A} (m : go A) : bool :=
  match m with Panic _ => true | _ => false end.

Definition is_err {A} (m : go A) : bool :=
  match m with Err _ => true | _ => false end.

Lemma go_bind_no_err {A B} (m : go A) (f : A → go B) :
  is_err m = false → (∀ a, m = Ok a → is_err (f a) = false) → is_err (m ≫= f) = false.
Proof. destruct m; cbn; auto. Qed.

Lemma go_bind_no_panic {A B} (m : go A) (f : A → go B) :
  is_panic m = false → (∀ a, m = Ok a → is_panic (f a) = false) → is_panic (m ≫= f) = false.
Proof. destruct m; cbn; auto. Qed.

Lemma wrap_err_no_panic {A} msg (m : go A) : is_panic m = false → is_panic (wrap_err msg m) = false.
Proof. by destruct m. Qed.

Lemma go_bind_Ok {A B} (m : go A) (f : A → go B) b :
  (m ≫= f) = Ok b ↔ ∃ a, m = Ok a ∧ f a = Ok b.
Proof. destruct m; cbn; split; intros; naive_solver. Qed.

Lemma wrap_err_Ok {A} msg (m : go A) a : wrap_err msg m = Ok a ↔ m = Ok a.
Proof. destruct m; cbn; naive_solver. Qed.

(** ** Machine integers

    A [uint64] is a [Z] in [0, 2^64); an [int] (64-bit platforms) is a [Z] in
    [-2^63, 2^63).  The conversions are Go's: they keep the bit pattern. *)
Definition two64 : Z := 2 ^ 64.
Definition u64 (z : Z) : Prop := 0 ≤ z < 2 ^ 64.
Definition u32 (z : Z) : Prop := 0 ≤ z < 2 ^ 32.
Definition u8 (z : Z) : Prop := 0 ≤ z < 2 ^ 8.
Definition i64 (z : Z) : Prop := - 2 ^ 63 ≤ z < 2 ^ 63.

Definition wrap64 (z : Z) : Z := z `mod` 2 ^ 64.
Definition wrap8 (z : Z) : Z := z `mod` 2 ^ 8.

(** [uint64(i)] for an [int] [i]. *)
Definition uint64_of_int (i : Z) : Z := wrap64 i.
(** [int(u)] for a [uint64] [u]. *)
Definition int_of_uint64 (u : Z) : Z := if u <? 2 ^ 63 then u else u - 2 ^ 64.

Lemma wrap64_u64 z : u64 (wrap64 z).
Proof. apply Z.mod_pos_bound. lia. Qed.

Lemma wrap64_small z : u64 z → wrap64 z = z.
Proof. intros. by apply Z.mod_small. Qed.

Lemma wrap8_small z : u8 z → wrap8 z = z.
Proof. intros. by apply Z.mod_small. Qed.

Lemma int_of_uint64_of_int i : i64 i → int_of_uint64 (uint64_of_int i) = i.
Proof.
  unfold i64, int_of_uint64, uint64_of_int, wrap64. intros Hi.
  destruct (Z.ltb_spec i 0).
  - rewrite <-(Z.mod_unique i (2 ^ 64) (-1) (i + 2 ^ 64)) by lia.
    rewrite (proj2 (Z.ltb_ge _ _)) by lia. lia.
  - rewrite Z.mod_small by lia. rewrite (proj2 (Z.ltb_lt _ _)) by lia. lia.
Qed.

Lemma uint64_of_int_of_uint64 u : u64 u → uint64_of_int (int_of_uint64 u) = u.
Proof.
  unfold u64, int_of_uint64, uint64_of_int, wrap64. intros Hu.
  destruct (Z.ltb_spec u (2 ^ 63)).
  - by apply Z.mod_small.
  - symmetry. apply (Z.mod_unique _ _ (-1)); lia.
Qed.

Lemma int_of_uint64_i64 u : u64 u → i64 (int_of_uint64 u).
Proof. unfold u64, i64, int_of_uint64. case_match; lia. Qed.

(** ** Byte slices

    A [[]byte] is the list of its bytes.  Every slice the code takes apart was
    made with capacity equal to its length, so slicing past the length panics. *)
Definition bytes := list Z.
Definition wf_bytes (b : list Z) : Prop := Forall u8 b.

(** The largest request the Go runtime accepts ([maxAlloc] on 64-bit
    platforms): [make] panics above it and for negative lengths. *)
Definition maxAlloc : Z := 2 ^ 48.

Definition zlen {A} (l : list A) : Z := Z.of_nat (length l).

Definition make_bytes (n : Z) : go (list Z) :=
  if (0 <=? n) && (n <=? maxAlloc) then Ok (replicate (Z.to_nat n) 0)
  else Panic MakeLenOutOfRange.

(** [b[lo:hi]] *)
Definition slice {A} (b : list A) (lo hi : Z) : go (list A) :=
  if (0 <=? lo) && (lo <=? hi) && (hi <=? zlen b)
  then Ok (take (Z.to_nat (hi - lo)) (drop (Z.to_nat lo) b))
  else Panic SliceOutOfRange.

(** [b[lo:]] *)
Definition slice_from {A} (b : list A) (lo : Z) : go (list A) := slice b lo (zlen b).

(** [b[i]] *)
Definition index {A} (b : list A) (i : Z) : go A :=
  if 0 <=? i then
    match b !! Z.to_nat i with
    | Some x => Ok x
    | None => Panic IndexOutOfRange
    end
  else Panic IndexOutOfRange.

(** [b[i] = x] *)
Definition set_index {A} (b : list A) (i : Z) (x : A) : go (list A) :=
  if (0 <=? i) && (i <? zlen b) then Ok (<[Z.to_nat i := x]> b)
  else Panic IndexOutOfRange.

(** [copy(dst, src)]: the new contents of [dst]. *)
Definition copy {A} (dst src : list A) : list A :=
  take (length dst) src ++ drop (length src) dst.

(** [copy(b[lo:], src)]: the new contents of [b]. *)
Definition copy_from {A} (b : list A) (lo : Z) (src : list A) : go (list A) :=
  d ← slice_from b lo;
  Ok (take (Z.to_nat lo) b ++ copy d src).

(** ** [encoding/binary], big endian *)

(** The [n] bytes of [v], most significant first. *)
Definition be_bytes (n : nat) (v : Z) : list Z :=
  reverse (Z_to_little_endian (Z.of_nat n) 8 v).
Definition be_to_Z (b : list Z) : Z := little_endian_to_Z 8 (reverse b).

(** [binary.BigEndian.PutUintN(b[lo:hi], v)], [n] the width in bytes. *)
Definition PutUint (n : nat) (b : list Z) (lo hi v : Z) : go (list Z) :=
  d ← slice b lo hi;
  if zlen d <? Z.of_nat n then Panic IndexOutOfRange
  else Ok (take (Z.to_nat lo) b ++ be_bytes n v ++ drop (Z.to_nat lo + n) b).
Abbreviation PutUint64 := (PutUint 8).
Abbreviation PutUint32 := (PutUint 4).

(** [binary.BigEndian.UintN(b)] *)
Definition Uint (n : nat) (b : list Z) : go Z :=
  if zlen b <? Z.of_nat n then Panic IndexOutOfRange
  else Ok (be_to_Z (take n b)).
Abbreviation Uint64 := (Uint 8).
Abbreviation Uint32 := (Uint 4).

Lemma length_be_bytes n v : length (be_bytes n v) = n.
Proof.
  unfold be_bytes. rewrite length_reverse.
  pose proof (length_Z_to_little_endian (Z.of_nat n) 8 v). lia.
Qed.

Lemma zlen_be_bytes n v : zlen (be_bytes n v) = Z.of_nat n.
Proof. unfold zlen. by rewrite length_be_bytes. Qed.

Lemma wf_be_bytes n v : wf_bytes (be_bytes n v).
Proof.
  unfold wf_bytes, be_bytes. apply Forall_reverse.
  apply (Z_to_little_endian_bound (Z.of_nat n) 8 v); lia.
Qed.

Lemma be_to_Z_be_bytes n v : be_to_Z (be_bytes n v) = v `mod` 2 ^ (Z.of_nat n * 8).
Proof.
  unfold be_to_Z, be_bytes. rewrite reverse_involutive.
  apply little_endian_to_Z_to_little_endian; lia.
Qed.

Lemma be_bytes_be_to_Z n b :
  wf_bytes b → length b = n → be_bytes n (be_to_Z b) = b.
Proof.
  intros Hwf <-. unfold be_bytes, be_to_Z.
  rewrite Z_to_little_endian_to_Z; [apply reverse_involutive| |lia|].
  - by rewrite length_reverse.
  - by apply Forall_reverse.
Qed.

Lemma be_to_Z_bound b : wf_bytes b → 0 ≤ be_to_Z b < 2 ^ (zlen b * 8).
Proof.
  intros Hwf. unfold be_to_Z, zlen. rewrite <-(length_reverse b).
  apply little_endian_to_Z_bound; [lia|by apply Forall_reverse].
Qed.

Lemma be_to_Z_u64 b : wf_bytes b → length b = 8%nat → u64 (be_to_Z b).
Proof. intros Hwf Hl. pose proof (be_to_Z_bound b Hwf). unfold zlen in *. by rewrite Hl in *. Qed.

Lemma be_to_Z_u32 b : wf_bytes b → length b = 4%nat → u32 (be_to_Z b).
Proof. intros Hwf Hl. pose proof (be_to_Z_bound b Hwf). unfold zlen in *. by rewrite Hl in *. Qed.

Lemma be64_roundtrip v : u64 v → be_to_Z (be_bytes 8 v) = v.
Proof. intros. rewrite be_to_Z_be_bytes. by apply Z.mod_small. Qed.

Lemma be32_roundtrip v : u32 v → be_to_Z (be_bytes 4 v) = v.
Proof. intros. rewrite be_to_Z_be_bytes. by apply Z.mod_small. Qed.

(** *** Reading and writing segment by segment

    A buffer is kept as a concatenation of segments of known lengths; an access
    past the first segment is an access to the rest, shifted. *)
Lemma zlen_app {A} (a b : list A) : zlen (a ++ b) = zlen a + zlen b.
Proof. unfold zlen. rewrite length_app. lia. Qed.

Lemma zlen_nonneg {A} (a : list A) : 0 ≤ zlen a.
Proof. unfold zlen. lia. Qed.

Lemma zlen_replicate {A} n (x : A) : zlen (replicate n x) = Z.of_nat n.
Proof. unfold zlen. by rewrite length_replicate. Qed.

Lemma slice_inv {A} (b r : list A) lo hi :
  slice b lo hi = Ok r →
  0 ≤ lo ≤ hi ∧ hi ≤ zlen b ∧ zlen r = hi - lo ∧
  r = take (Z.to_nat (hi - lo)) (drop (Z.to_nat lo) b).
Proof.
  unfold slice. destruct (_ && _) eqn:E; [|done]. intros [= <-].
  repeat split; try lia. unfold zlen in *. rewrite length_take, length_drop. lia.
Qed.

Lemma slice_not_Err {A} (b : list A) lo hi e : slice b lo hi ≠ Err e.
Proof. unfold slice. by destruct (_ && _). Qed.

Lemma slice_hit {A} (a b : list A) hi : zlen a = hi → slice (a ++ b) 0 hi = Ok a.
Proof.
  intros <-. unfold slice. pose proof (zlen_nonneg a). pose proof (zlen_nonneg b).
  rewrite zlen_app, Z.sub_0_r.
  replace (_ && _) with true by lia. unfold zlen.
  by rewrite Nat2Z.id, Z2Nat.inj_0, drop_0, take_app_length.
Qed.

Lemma slice_skip {A} (a b : list A) lo hi :
  zlen a ≤ lo → slice (a ++ b) lo hi = slice b (lo - zlen a) (hi - zlen a).
Proof.
  intros Hlo. unfold slice. pose proof (zlen_nonneg a). rewrite zlen_app.
  replace (hi - zlen a - (lo - zlen a)) with (hi - lo) by lia.
  replace (_ && _) with
    ((0 <=? lo - zlen a) && (lo - zlen a <=? hi - zlen a) && (hi - zlen a <=? zlen b)) by lia.
  case_match; [|done]. rewrite drop_app_ge by (unfold zlen in *; lia).
  do 3 f_equal. unfold zlen in *. lia.
Qed.

Lemma slice_all {A} (a : list A) hi : zlen a = hi → slice a 0 hi = Ok a.
Proof. intros. rewrite <-(app_nil_r a) at 1. by apply slice_hit. Qed.

Lemma index_hit {A} (x : A) b : index (x :: b) 0 = Ok x.
Proof. done. Qed.

Lemma index_skip {A} (a b : list A) i :
  zlen a ≤ i → index (a ++ b) i = index b (i - zlen a).
Proof.
  intros Hi. unfold index. pose proof (zlen_nonneg a).
  replace (0 <=? i) with true by lia. replace (0 <=? i - zlen a) with true by lia.
  rewrite lookup_app_r by (unfold zlen in *; lia).
  by replace (Z.to_nat i - length a)%nat with (Z.to_nat (i - zlen a))
    by (unfold zlen in *; lia).
Qed.

Lemma set_index_hit {A} (x y : A) b : set_index (x :: b) 0 y = Ok (y :: b).
Proof. unfold set_index. rewrite (proj2 (Z.ltb_lt _ _)); [done|unfold zlen; cbn; lia]. Qed.

Lemma set_index_skip {A} (a b : list A) i y :
  zlen a ≤ i → set_index (a ++ b) i y = r ← set_index b (i - zlen a) y; Ok (a ++ r).
Proof.
  intros Hi. unfold set_index. pose proof (zlen_nonneg a). rewrite zlen_app.
  replace ((0 <=? i) && _) with ((0 <=? i - zlen a) && (i - zlen a <? zlen b)) by lia.
  case_match; [|done]. cbn.
  rewrite insert_app_r_alt by (unfold zlen in *; lia).
  do 3 f_equal. unfold zlen in *. lia.
Qed.

Lemma PutUint_hit n (a b : list Z) hi v :
  length a = n → hi = Z.of_nat n → PutUint n (a ++ b) 0 hi v = Ok (be_bytes n v ++ b).
Proof.
  intros <- ->. unfold PutUint. rewrite slice_hit by done.
  unfold mbind, go_bind. replace (_ <? _) with false by (unfold zlen; lia).
  by rewrite Z2Nat.inj_0, take_0, Nat.add_0_l, drop_app_length.
Qed.

Lemma PutUint_skip n (a b : list Z) lo hi v :
  zlen a ≤ lo →
  PutUint n (a ++ b) lo hi v = r ← PutUint n b (lo - zlen a) (hi - zlen a) v; Ok (a ++ r).
Proof.
  intros Hlo. unfold PutUint. rewrite slice_skip by done.
  destruct (slice b _ _); cbn; [|done..]. case_match; [done|]. cbn. f_equal.
  pose proof (zlen_nonneg a).
  rewrite take_app_ge, drop_app_ge by (unfold zlen in *; lia).
  rewrite <-!app_assoc. repeat f_equal; unfold zlen in *; lia.
Qed.

Lemma slice_from_skip {A} (a b : list A) lo :
  zlen a ≤ lo → slice_from (a ++ b) lo = slice_from b (lo - zlen a).
Proof.
  intros. unfold slice_from. rewrite slice_skip by done. rewrite zlen_app. f_equal. lia.
Qed.

Lemma slice_from_0 {A} (b : list A) : slice_from b 0 = Ok b.
Proof. by apply slice_all. Qed.

Lemma copy_from_skip {A} (a b src : list A) lo :
  zlen a ≤ lo → copy_from (a ++ b) lo src = r ← copy_from b (lo - zlen a) src; Ok (a ++ r).
Proof.
  intros. unfold copy_from. rewrite slice_from_skip by done.
  destruct (slice_from _ _); cbn; [|done..].
  rewrite take_app_ge by (unfold zlen in *; lia).
  rewrite <-app_assoc. repeat f_equal; unfold zlen in *; lia.
Qed.

Lemma copy_full {A} (d src : list A) : length d = length src → copy d src = src.
Proof.
  intros Heq. unfold copy. rewrite Heq, firstn_all, drop_ge by lia. apply app_nil_r.
Qed.

Lemma copy_from_0 {A} (b src : list A) : length b = length src → copy_from b 0 src = Ok src.
Proof. intros. unfold copy_from. rewrite slice_from_0. cbn. by rewrite copy_full. Qed.

Lemma length_copy {A} (d src : list A) : length (copy d src) = length d.
Proof. unfold copy. rewrite length_app, length_take, length_drop. lia. Qed.

Lemma make_bytes_Ok n :
  0 ≤ n ≤ maxAlloc → make_bytes n = Ok (replicate (Z.to_nat n) 0).
Proof. intros. unfold make_bytes. by replace (_ && _) with true by lia. Qed.

Lemma Uint_full n b : length b = n → Uint n b = Ok (be_to_Z b).
Proof.
  intros <-. unfold Uint. replace (_ <? _) with false by (unfold zlen; lia).
  by rewrite firstn_all.
Qed.

Lemma zlen_nil {A} : zlen (@nil A) = 0.
Proof. done. Qed.

Lemma zlen_cons {A} (x : A) l : zlen (x :: l) = 1 + zlen l.
Proof. unfold zlen. cbn. lia. Qed.

Lemma index_cons {A} (x : A) b i : 0 < i → index (x :: b) i = index b (i - 1).
Proof. intros. change (x :: b) with ([x] ++ b). by rewrite index_skip by (unfold zlen; cbn; lia). Qed.

Lemma set_index_cons {A} (x : A) b i y :
  0 < i → set_index (x :: b) i y = r ← set_index b (i - 1) y; Ok (x :: r).
Proof. intros. change (x :: b) with ([x] ++ b). by rewrite set_index_skip by (unfold zlen; cbn; lia). Qed.

Lemma slice_from_cons {A} (x : A) b i : 0 < i → slice_from (x :: b) i = slice_from b (i - 1).
Proof. intros. change (x :: b) with ([x] ++ b). by rewrite slice_from_skip by (unfold zlen; cbn; lia). Qed.

Lemma copy_from_cons {A} (x : A) b i src :
  0 < i → copy_from (x :: b) i src = r ← copy_from b (i - 1) src; Ok (x :: r).
Proof. intros. change (x :: b) with ([x] ++ b). by rewrite copy_from_skip by (unfold zlen; cbn; lia). Qed.

(** [slice_eval] runs the accesses of a codec on a segmented buffer. *)
Create Rewrite HintDb zlen.
#[export] Hint Rewrite @zlen_nil @zlen_cons @zlen_app zlen_be_bytes @zlen_replicate : zlen.

Ltac zlen_solve :=
  autorewrite with zlen; rewrite ?length_be_bytes, ?length_replicate;
  first [ reflexivity | done | eassumption | cbn; lia | unfold zlen in *; cbn; lia ].

Ltac closed_sub :=
  repeat match goal with
  | |- context [?a - zlen ?l] =>
      let H := fresh in
      eassert (zlen l = _) as H by (autorewrite with zlen; eassumption || reflexivity);
      rewrite H; clear H
  end;
  repeat match goal with
  | |- context [(?a - ?b)%Z] =>
      let r := eval vm_compute in (a - b) in
      lazymatch r with
      | Z0 => idtac | Zpos _ => idtac | Zneg _ => idtac
      end;
      change (a - b) with r
  end.

Ltac slice_eval_step :=
  first
    [ rewrite slice_hit by zlen_solve
    | rewrite slice_all by zlen_solve
    | rewrite index_hit
    | rewrite set_index_hit
    | rewrite slice_from_0
    | rewrite PutUint_hit by zlen_solve
    | rewrite copy_from_0 by zlen_solve
    | rewrite slice_skip by zlen_solve; closed_sub
    | rewrite index_skip by zlen_solve; closed_sub
    | rewrite index_cons by lia; closed_sub
    | rewrite set_index_skip by zlen_solve; closed_sub
    | rewrite set_index_cons by lia; closed_sub
    | rewrite PutUint_skip by zlen_solve; closed_sub
    | rewrite slice_from_skip by zlen_solve; closed_sub
    | rewrite copy_from_skip by zlen_solve; closed_sub
    | rewrite slice_from_cons by lia; closed_sub
    | rewrite copy_from_cons by lia; closed_sub
    | rewrite Uint_full by zlen_solve
    | rewrite be64_roundtrip by eauto
    | rewrite be32_roundtrip by eauto ].

Ltac go_reduce := unfold mbind, go_bind, mret, go_ret; cbv beta iota.
Ltac slice_eval := go_reduce; repeat (slice_eval_step; go_reduce).

(** Resolves the innermost Boolean guard on lengths that arithmetic decides. *)
Ltac guard_false :=
  match goal with
  | |- context [if ?c then _ else _] =>
      replace c with false
        by (autorewrite with zlen; first [reflexivity|lia|unfold zlen in *; cbn; first [reflexivity|lia]]);
      cbv beta iota
  end.
Ltac guard_true :=
  match goal with
  | |- context [if ?c then _ else _] =>
      replace c with true
        by (autorewrite with zlen; first [reflexivity|lia|unfold zlen in *; cbn; first [reflexivity|lia]]);
      cbv beta iota
  end.

#[global] Arguments slice : simpl never.
#[global] Arguments index : simpl never.
#[global] Arguments set_index : simpl never.
#[global] Arguments PutUint : simpl never.
#[global] Arguments Uint : simpl never.
#[global] Arguments be_bytes : simpl never.
#[global] Arguments make_bytes : simpl never.

(** ** Buffered channels

    [make(chan T, n)].  A send on a closed channel panics, a send on a full one
    blocks; a receive takes the oldest element, blocks on an empty open channel
    and returns the zero value (here: [RecvClosed]) on an empty closed one.
    Closing a closed channel panics. *)
Record chan (A : Type) := mkChan {
  ch_cap : nat;
  ch_buf : list A;
  ch_closed : bool;
}.
Arguments mkChan {_} _ _ _.
Arguments ch_cap {_} _.
Arguments ch_buf {_} _.
Arguments ch_closed {_} _.

Inductive send_result (A : Type) :=
| Sent (c : chan A)
| SendBlocks
| SendPanics.
Arguments Sent {_} _.
Arguments SendBlocks {_}.
Arguments SendPanics {_}.

Inductive recv_result (A : Type) :=
| Received (x : A) (c : chan A)
| RecvClosed
| RecvBlocks.
Arguments Received {_} _ _.
Arguments RecvClosed {_}.
Arguments RecvBlocks {_}.

Definition make_chan {A} (n : nat) : chan A := mkChan n [] false.

Definition chan_send {A} (c : chan A) (x : A) : send_result A :=
  if ch_closed c then SendPanics
  else if (length (ch_buf c) <? ch_cap c)%nat
  then Sent (mkChan (ch_cap c) (ch_buf c ++ [x]) (ch_closed c))
  else SendBlocks.

Definition chan_recv {A} (c : chan A) : recv_result A :=
  match ch_buf c with
  | x :: b => Received x (mkChan (ch_cap c) b (ch_closed c))
  | [] => if ch_closed c then RecvClosed else RecvBlocks
  end.

Definition chan_close {A} (c : chan A) : go (chan A) :=
  if ch_closed c then Panic CloseOfClosedChannel
  else Ok (mkChan (ch_cap c) (ch_buf c) true).

(** ** Transition systems

    Concurrent code is a labelled step function: the label names the goroutine
    and the statement it executes, [None] says that the statement is not
    enabled in that state. *)
Section Transitions.
Context {St L : Type} (step : L → St → option St).

Fixpoint run (ls : list L) (s : St) : option St :=
  match ls with
  | [] => Some s
  | l :: ls' => step l s ≫= run ls'
  end.

Inductive reachable (s0 : St) : St → Prop :=
| reach_start : reachable s0 s0
| reach_step s l s' : reachable s0 s → step l s = Some s' → reachable s0 s'.

Lemma run_app ls1 ls2 s : run (ls1 ++ ls2) s = run ls1 s ≫= run ls2.
Proof.
  revert s. induction ls1 as [|l ls1 IH]; intros s; [done|].
  cbn. destruct (step l s); cbn; [apply IH|done].
Qed.

Lemma run_reachable_from s0 ls s s' : reachable s0 s → run ls s = Some s' → reachable s0 s'.
Proof.
  revert s. induction ls as [|l ls IH]; intros s Hr Hrun; [naive_solver|].
  cbn in Hrun. destruct (step l s) as [s1|] eqn:E; [|done].
  eapply IH; [|done]. by eapply reach_step.
Qed.

Lemma run_reachable ls s0 s : run ls s0 = Some s → reachable s0 s.
Proof. apply run_reachable_from, reach_start. Qed.

Lemma reachable_run s0 s : reachable s0 s → ∃ ls, run ls s0 = Some s.
Proof.
  induction 1 as [|s l s' _ [ls IH] Hs]; [by exists []|].
  exists (ls ++ [l]). rewrite run_app, IH. cbn. by rewrite Hs.
Qed.

Lemma reachable_trans s0 s1 s2 : reachable s0 s1 → reachable s1 s2 → reachable s0 s2.
Proof. intros H1. induction 1; [done|by eapply reach_step]. Qed.

Lemma reachable_invariant (P : St → Prop) s0 :
  P s0 → (∀ l s s', P s → step l s = Some s' → P s') → ∀ s, reachable s0 s → P s.
Proof. intros H0 Hstep s. induction 1; [done|by eapply Hstep]. Qed.

(** Forward simulation: when every step from a state of the invariant is
    matched by steps of the specification between the abstractions, every
    reachable state abstracts to one the specification can reach. *)
Lemma reachable_simulation {A} (abs : St → A) (spec : relation A) (I : St → Prop) s0 :
  I s0 →
  (∀ l s s', I s → step l s = Some s' → I s' ∧ rtc spec (abs s) (abs s')) →
  ∀ s, reachable s0 s → I s ∧ rtc spec (abs s0) (abs s).
Proof.
  intros H0 Hsim s. induction 1 as [|s l s' _ [Hs Hr] Hl]; [by split|].
  destruct (Hsim l s s' Hs Hl). split; [done|]. by etrans.
Qed.
End Transitions.

(** ** Iteration order of a map

    [sync.Map.Range] and [range] over a map visit every entry once, in an order
    the code cannot rely on: an enumeration is any permutation of the entries. *)
Definition enumerates `{Countable K} {V} (m : gmap K V) (l : list (K * V)) : Prop :=
  l ≡ₚ map_to_list m.

Lemma enumerates_elem `{Countable K} {V} (m : gmap K V) l k v :
  enumerates m l → (k, v) ∈ l ↔ m !! k = Some v.
Proof. intros Hl. unfold enumerates in Hl. rewrite Hl. apply elem_of_map_to_list. Qed.

Lemma enumerates_NoDup_fst `{Countable K} {V} (m : gmap K V) l :
  enumerates m l → NoDup l.*1.
Proof. intros Hl. unfold enumerates in Hl. rewrite Hl. apply NoDup_fst_map_to_list. Qed.

Lemma enumerates_self `{Countable K} {V} (m : gmap K V) : enumerates m (map_to_list m).
Proof. by unfold enumerates. Qed.

Lemma enumerates_length `{Countable K} {V} (m : gmap K V) l :
  enumerates m l → length l = size m.
Proof. intros Hl. unfold enumerates in Hl. rewrite Hl. apply length_map_to_list. Qed.

(** ** Tactics *)

(** Splits a monadic computation known to have returned. *)
Ltac go_inv :=
  repeat match goal with
  | H : _ ≫= _ = Ok _ |- _ => apply go_bind_Ok in H as (? & ? & ?)
  | H : wrap_err _ _ = Ok _ |- _ => apply wrap_err_Ok in H
  | H : Ok _ = Ok _ |- _ => injection H as H; subst
  | H : Err _ = Ok _ |- _ => discriminate H
  | H : Panic _ = Ok _ |- _ => discriminate H
  end.

(** Case analysis on every match of the goal's transition. *)
Ltac step_cases H :=
  repeat (case_match; try discriminate H); simplify_eq/=.
