(* ===== verification/GoStd.v ===== *)
(** * GoStd: the parts of Go's standard library the program calls

    [strings], [strconv], [hash/fnv], [hash/crc64], [sort] and the
    contract of [io.Reader], as executable functions. *)
From S2P Require Import Prelude.
From stdpp Require Import pretty.

Open Scope Z_scope.

(** ** [strings] *)

#[global] Arguments String.append !_ _ /.

(** The bytes of a string: [[]byte(s)]. *)
Fixpoint bytes_of_string (s : string) : list Z :=
  match s with
  | EmptyString => []
  | String.String c s' => Z.of_N (Ascii.N_of_ascii c) :: bytes_of_string s'
  end.

Abbreviation strlen := String.length.

(** The newline. *)
Definition nl : string := String.String (Ascii.ascii_of_nat 10) "".

(** [s[:n]] and [s[n:]] for an index inside the string. *)
Fixpoint str_take (n : nat) (s : string) : string :=
  match n, s with
  | S n', String.String c s' => String.String c (str_take n' s')
  | _, _ => EmptyString
  end.
Fixpoint str_drop (n : nat) (s : string) : string :=
  match n, s with
  | S n', String.String _ s' => str_drop n' s'
  | _, _ => s
  end.

Definition HasPrefix (s pre : string) : bool := bool_decide (str_take (strlen pre) s = pre).

Definition HasSuffix (s suffix : string) : bool :=
  (strlen suffix <=? strlen s)%nat &&
  bool_decide (str_drop (strlen s - strlen suffix) s = suffix).

Definition TrimSuffix (s suffix : string) : string :=
  if HasSuffix s suffix then str_take (strlen s - strlen suffix) s else s.

Fixpoint Contains (s sub : string) : bool :=
  HasPrefix s sub ||
  match s with
  | EmptyString => false
  | String.String _ s' => Contains s' sub
  end.

(** [strings.SplitN(s, ".", 2)[0]]: everything before the first separator. *)
Fixpoint before_sep (sep : Ascii.ascii) (s : string) : string :=
  match s with
  | EmptyString => EmptyString
  | String.String c s' =>
      if Ascii.eqb c sep then EmptyString else String.String c (before_sep sep s')
  end.

(** [s[i:]] as Go evaluates it: slicing past the end panics. *)
Definition str_from (s : string) (i : nat) : go string :=
  if (i <=? strlen s)%nat then Ok (str_drop i s) else Panic SliceOutOfRange.

(** [s[i]] *)
Definition str_index (s : string) (i : nat) : go Ascii.ascii :=
  match String.get i s with
  | Some c => Ok c
  | None => Panic IndexOutOfRange
  end.

Lemma str_take_app s t : str_take (strlen s) (s +:+ t) = s.
Proof. induction s as [|c s IH]; cbn; [by destruct t|by rewrite IH]. Qed.

Lemma str_drop_app s t : str_drop (strlen s) (s +:+ t) = t.
Proof. induction s; cbn; [by destruct t|done]. Qed.

Lemma strlen_app s t : strlen (s +:+ t) = (strlen s + strlen t)%nat.
Proof. induction s; cbn; [done|by f_equal]. Qed.

Lemma str_take_drop n s : str_take n s +:+ str_drop n s = s.
Proof. revert s. induction n; intros [|c s]; cbn; try done. by rewrite IHn. Qed.

Lemma strlen_str_drop n s : strlen (str_drop n s) = (strlen s - n)%nat.
Proof. revert s. induction n; intros [|c s]; cbn; done || apply IHn. Qed.

Lemma str_app_nil_r s : s +:+ "" = s.
Proof. induction s; cbn; [done|by f_equal]. Qed.

Lemma str_app_assoc s t u : (s +:+ t) +:+ u = s +:+ (t +:+ u).
Proof. induction s; cbn; [done|by f_equal]. Qed.

Lemma HasSuffix_spec s suffix :
  HasSuffix s suffix = true ↔ ∃ pre, s = pre +:+ suffix.
Proof.
  unfold HasSuffix. rewrite andb_true_iff, bool_decide_eq_true. split.
  - intros [_ Heq]. exists (str_take (strlen s - strlen suffix) s).
    rewrite <-Heq at 2. by rewrite str_take_drop.
  - intros [pre ->]. rewrite strlen_app, Nat.add_sub, str_drop_app.
    split; [apply Nat.leb_le; lia|done].
Qed.

Lemma HasSuffix_app pre suffix : HasSuffix (pre +:+ suffix) suffix = true.
Proof. apply HasSuffix_spec. by exists pre. Qed.

Lemma TrimSuffix_app pre suffix : TrimSuffix (pre +:+ suffix) suffix = pre.
Proof.
  unfold TrimSuffix. rewrite HasSuffix_app, strlen_app, Nat.add_sub. apply str_take_app.
Qed.

Lemma TrimSuffix_empty s suffix : HasSuffix s suffix = false → TrimSuffix s suffix = s.
Proof. unfold TrimSuffix. by intros ->. Qed.

(** A string without the separator is a single label. *)
Fixpoint has_char (c : Ascii.ascii) (s : string) : bool :=
  match s with
  | EmptyString => false
  | String.String c' s' => Ascii.eqb c' c || has_char c s'
  end.

Lemma before_sep_app sep s t :
  has_char sep s = false → before_sep sep (s +:+ String.String sep t) = s.
Proof.
  induction s as [|c s IH]; cbn; intros H.
  - by rewrite Ascii.eqb_refl.
  - apply orb_false_elim in H as [-> H]. by rewrite IH.
Qed.

(** What follows the first separator does not matter. *)
Lemma before_sep_prefix sep s t : has_char sep s = true → before_sep sep (s +:+ t) = before_sep sep s.
Proof.
  induction s as [|c s IH]; cbn; [done|].
  destruct (Ascii.eqb c sep); [done|]. intros H. by rewrite IH.
Qed.

Lemma before_sep_none sep s : has_char sep s = false → before_sep sep s = s.
Proof.
  induction s as [|c s IH]; cbn; intros H; [done|].
  apply orb_false_elim in H as [-> H]. by rewrite IH.
Qed.

Lemma before_sep_no_char sep s : has_char sep (before_sep sep s) = false.
Proof.
  induction s as [|c s IH]; cbn; [done|].
  destruct (Ascii.eqb c sep) eqn:E; cbn; [done|by rewrite E].
Qed.

(** ** [strconv.FormatInt(n, 10)] *)
Definition itoa (n : Z) : string := pretty n.

#[export] Instance itoa_inj : Inj (=) (=) itoa.
Proof. apply pretty_Z_inj. Qed.

(** ** [hash/fnv]: [fnv.New64a] *)
Definition fnv_offset64 : Z := 14695981039346656037.
Definition fnv_prime64 : Z := 1099511628211.

Definition fnv64a_step (hash c : Z) : Z := wrap64 (Z.lxor hash c * fnv_prime64).
Definition fnv64a (b : list Z) : Z := foldl fnv64a_step fnv_offset64 b.

Lemma fnv64a_u64 b : u64 (fnv64a b).
Proof.
  unfold fnv64a. destruct b as [|x b _] using rev_ind; [by cbv|].
  rewrite foldl_snoc. apply wrap64_u64.
Qed.

(** ** [hash/crc64] with the ECMA polynomial

    [crc64.New(crcTable)], [Write] and [Sum64].  Writes of fewer than 64 bytes
    take the byte-at-a-time path of the library. *)
Definition crc64_ECMA : Z := 0xC96C5795D7870F42.

Definition crc64_bit (crc : Z) : Z :=
  if Z.testbit crc 0 then Z.lxor (Z.shiftr crc 1) crc64_ECMA else Z.shiftr crc 1.
(** [crcTable[i]] *)
Definition crcTable (i : Z) : Z := Nat.iter 8 crc64_bit i.

Definition not64 (z : Z) : Z := Z.lxor z (Z.ones 64).

(** [crc = tab[byte(crc)^v] ^ (crc >> 8)] *)
Definition crc64_byte (crc v : Z) : Z :=
  Z.lxor (crcTable (Z.lxor (Z.land crc 255) v)) (Z.shiftr crc 8).
(** [crc.Write(p)] on the digest state. *)
Definition crc64_Write (crc : Z) (p : list Z) : Z := not64 (foldl crc64_byte (not64 crc) p).

Example crc64_check : crc64_Write 0 (bytes_of_string "123456789") = 0x995DC9BBDF1939FA.
Proof. reflexivity. Qed.

Example fnv64a_check : fnv64a (bytes_of_string "a") = 0xaf63dc4c8601ec8c.
Proof. reflexivity. Qed.

(** ** [sort.SliceStable] on a slice of integers *)
Definition sort_uint64 (l : list Z) : list Z := merge_sort Z.le l.

Lemma sort_uint64_perm l : sort_uint64 l ≡ₚ l.
Proof. apply merge_sort_Permutation. Qed.

(** Sorting forgets the order the elements came in. *)
Lemma sort_uint64_ext l1 l2 : l1 ≡ₚ l2 → sort_uint64 l1 = sort_uint64 l2.
Proof.
  intros Hp. apply (Sorted_unique Z.le).
  - apply Sorted_merge_sort. apply _.
  - apply Sorted_merge_sort. apply _.
  - by rewrite !sort_uint64_perm.
Qed.

(** ** [io.Reader]

    A connection is the script of the reads still to come: each entry is the
    bytes that arrive together and the error, if any, reported once they have
    been handed out.  [Read(p)] returns at most [len(p)] bytes of the first
    entry and keeps the rest for the next call; an exhausted script is
    end-of-file. *)
Definition reader := list (list Z * option error).

Definition Read (n : Z) (r : reader) : list Z * option error * reader :=
  match r with
  | [] => ([], Some (Sentinel io_EOF), [])
  | (c, e) :: r' =>
      if zlen c <=? n then (c, e, r')
      else (take (Z.to_nat n) c, None, (drop (Z.to_nat n) c, e) :: r')
  end.

(** A buffer of length [n] after a read of [got]. *)
Definition fill (n : Z) (got : list Z) : list Z := copy (replicate (Z.to_nat n) 0) got.

Lemma Read_exact (a b : list Z) e r :
  b ≠ [] → Read (zlen a) ((a ++ b, e) :: r) = (a, None, (b, e) :: r).
Proof.
  intros Hb. unfold Read. rewrite zlen_app.
  assert (0 < zlen b) by (destruct b; [done|]; unfold zlen; cbn; lia).
  replace (_ <=? _) with false by lia.
  unfold zlen. by rewrite Nat2Z.id, take_app_length, drop_app_length.
Qed.

Lemma Read_all (a : list Z) e r : Read (zlen a) ((a, e) :: r) = (a, e, r).
Proof. unfold Read. by rewrite Z.leb_refl. Qed.

Lemma fill_exact (got : list Z) n : zlen got = n → fill n got = got.
Proof.
  intros <-. unfold fill. apply copy_full. rewrite length_replicate. unfold zlen. lia.
Qed.

Lemma length_fill n got : length (fill n got) = Z.to_nat n.
Proof. unfold fill. by rewrite length_copy, length_replicate. Qed.

(** ** The CRC as 64 steps of a linear feedback register *)
Ltac lxor_bits :=
  let n := fresh in
  apply Z.bits_inj'; intros n _; rewrite ?Z.lxor_spec;
  repeat match goal with |- context [Z.testbit ?x n] => destruct (Z.testbit x n) end;
  reflexivity.

Lemma crc64_bit_lxor a b : crc64_bit (Z.lxor a b) = Z.lxor (crc64_bit a) (crc64_bit b).
Proof.
  unfold crc64_bit. rewrite Z.lxor_spec, Z.shiftr_lxor.
  destruct (Z.testbit a 0), (Z.testbit b 0); cbn [xorb]; lxor_bits.
Qed.

Lemma u64_testbit_high a n : u64 a → 64 ≤ n → Z.testbit a n = false.
Proof.
  unfold u64. intros Ha Hn. destruct (Z.eq_dec a 0) as [->|]; [apply Z.testbit_0_l|].
  apply Z.bits_above_log2; [lia|]. apply Z.lt_le_trans with 64; [|lia].
  apply Z.log2_lt_pow2; lia.
Qed.

Lemma u64_of_bits a : (∀ n, 64 ≤ n → Z.testbit a n = false) → u64 a.
Proof.
  intros H. assert (a = a `mod` 2 ^ 64) as ->; [|apply wrap64_u64].
  rewrite <-Z.land_ones by lia. apply Z.bits_inj'. intros n Hn. rewrite Z.land_spec.
  destruct (Z.lt_ge_cases n 64).
  - by rewrite Z.ones_spec_low, andb_true_r by lia.
  - by rewrite H by lia.
Qed.

Lemma u64_lxor a b : u64 a → u64 b → u64 (Z.lxor a b).
Proof.
  intros Ha Hb. apply u64_of_bits. intros n Hn.
  by rewrite Z.lxor_spec, !u64_testbit_high.
Qed.

Lemma crc64_bit_u64 a : u64 a → u64 (crc64_bit a).
Proof.
  intros Ha. assert (u64 (Z.shiftr a 1)) as Hs.
  { apply u64_of_bits. intros n Hn. rewrite Z.shiftr_spec by lia. apply u64_testbit_high; [done|lia]. }
  unfold crc64_bit. case_match; [|done]. by apply u64_lxor.
Qed.

Lemma crc64_bit_top a : u64 a → Z.testbit (crc64_bit a) 63 = Z.testbit a 0.
Proof.
  intros Ha. unfold crc64_bit. destruct (Z.testbit a 0) eqn:E.
  - rewrite Z.lxor_spec, Z.shiftr_spec, u64_testbit_high by (done || lia). done.
  - by rewrite Z.shiftr_spec, u64_testbit_high by (done || lia).
Qed.

Lemma crc64_bit_inj a b : u64 a → u64 b → crc64_bit a = crc64_bit b → a = b.
Proof.
  intros Ha Hb Heq.
  assert (Z.testbit a 0 = Z.testbit b 0) as H0.
  { rewrite <-(crc64_bit_top a), <-(crc64_bit_top b) by done. by rewrite Heq. }
  assert (Z.shiftr a 1 = Z.shiftr b 1) as H1.
  { unfold crc64_bit in Heq. rewrite <-H0 in Heq. destruct (Z.testbit a 0); [|done].
    apply (f_equal (λ x, Z.lxor x crc64_ECMA)) in Heq.
    by rewrite !Z.lxor_assoc, !Z.lxor_nilpotent, !Z.lxor_0_r in Heq. }
  apply Z.bits_inj'. intros n Hn. destruct (Z.eq_dec n 0) as [->|]; [done|].
  apply (f_equal (λ x, Z.testbit x (n - 1))) in H1.
  rewrite !Z.shiftr_spec in H1 by lia. by replace (n - 1 + 1) with n in H1 by lia.
Qed.

Lemma crc64_iter_lxor n a b :
  Nat.iter n crc64_bit (Z.lxor a b) = Z.lxor (Nat.iter n crc64_bit a) (Nat.iter n crc64_bit b).
Proof. induction n; [done|]. by rewrite !Nat.iter_succ, IHn, crc64_bit_lxor. Qed.

Lemma crc64_iter_u64 n a : u64 a → u64 (Nat.iter n crc64_bit a).
Proof. intros. induction n; [done|rewrite Nat.iter_succ; by apply crc64_bit_u64]. Qed.

Lemma crc64_iter_inj n a b :
  u64 a → u64 b → Nat.iter n crc64_bit a = Nat.iter n crc64_bit b → a = b.
Proof.
  intros Ha Hb. induction n; [done|]. rewrite !Nat.iter_succ. intros Heq. apply IHn.
  by apply crc64_bit_inj; [apply crc64_iter_u64..|].
Qed.

(** Low zero bits are shifted out. *)
Lemma crc64_iter_shift n x : 0 ≤ x → Nat.iter n crc64_bit (Z.shiftl x (Z.of_nat n)) = x.
Proof.
  intros Hx. induction n; [by rewrite Z.shiftl_0_r|].
  rewrite Nat.iter_succ_r. unfold crc64_bit at 2.
  rewrite Z.shiftl_spec_low by lia. rewrite Z.shiftr_shiftl_l by lia.
  by replace (Z.of_nat (S n) - 1) with (Z.of_nat n) by lia.
Qed.

(** One byte of input is eight steps after mixing it into the low byte. *)
Lemma crc64_byte_iter crc v :
  u64 crc → u8 v → crc64_byte crc v = Nat.iter 8 crc64_bit (Z.lxor crc v).
Proof.
  intros Hc Hv. unfold crc64_byte, crcTable.
  rewrite <-(crc64_iter_shift 8 (Z.shiftr crc 8)) at 1
    by (apply Z.shiftr_nonneg; unfold u64 in *; lia).
  rewrite <-crc64_iter_lxor. f_equal. change (Z.of_nat 8) with 8.
  apply Z.bits_inj'. intros n Hn. rewrite !Z.lxor_spec, Z.land_spec.
  change 255 with (Z.ones 8). destruct (Z.lt_ge_cases n 8).
  - rewrite Z.ones_spec_low, Z.shiftl_spec_low by lia. by rewrite andb_true_r, xorb_false_r.
  - rewrite Z.ones_spec_high, Z.shiftl_spec, Z.shiftr_spec by lia.
    rewrite andb_false_r, xorb_false_l. replace (n - 8 + 8) with n by lia. apply xorb_comm.
Qed.


(** Up to eight bytes of input are mixed into the register at once. *)
Lemma crc64_bytes_iter vs r :
  u64 r → wf_bytes vs → (length vs ≤ 8)%nat →
  foldl crc64_byte r vs = Nat.iter (8 * length vs) crc64_bit (Z.lxor r (little_endian_to_Z 8 vs)).
Proof.
  intros Hr Hvs. revert r Hr. induction Hvs as [|v vs Hv Hvs IH]; intros r Hr Hlen.
  { cbn. by rewrite Z.lxor_0_r. }
  cbn [length] in *. cbn [foldl little_endian_to_Z].
  assert (u64 v) by (unfold u64, u8 in *; lia).
  rewrite crc64_byte_iter by done.
  rewrite IH by (lia || apply crc64_iter_u64, u64_lxor; done).
  assert (0 ≤ little_endian_to_Z 8 vs) by (apply little_endian_to_Z_bound; done).
  rewrite <-(crc64_iter_shift 8 (little_endian_to_Z 8 vs)) at 1 by done.
  rewrite <-crc64_iter_lxor, <-Nat.iter_add.
  replace (8 * length vs + 8)%nat with (8 * S (length vs))%nat by lia. f_equal.
  change (Z.of_nat 8) with 8. rewrite Z.lxor_assoc. f_equal.
  apply Z.bits_inj'. intros n Hn. rewrite Z.lxor_spec, Z.lor_spec.
  destruct (Z.lt_ge_cases n 8).
  - rewrite Z.shiftl_spec_low by lia. by rewrite xorb_false_r, orb_false_r.
  - assert (Z.testbit v n = false) as ->; [|done].
    destruct (Z.eq_dec v 0) as [->|]; [apply Z.testbit_0_l|].
    unfold u8 in Hv. apply Z.bits_above_log2; [lia|]. apply Z.lt_le_trans with 8; [|lia].
    apply Z.log2_lt_pow2; lia.
Qed.

Lemma not64_not64 z : not64 (not64 z) = z.
Proof. unfold not64. by rewrite Z.lxor_assoc, Z.lxor_nilpotent, Z.lxor_0_r. Qed.

Lemma not64_u64 z : u64 z → u64 (not64 z).
Proof. intros. by apply u64_lxor. Qed.

(** Writing a 64-bit word. *)
Lemma crc64_Write_word r c :
  u64 r →
  crc64_Write r (be_bytes 8 c) =
    not64 (Nat.iter 64 crc64_bit (Z.lxor (not64 r) (little_endian_to_Z 8 (be_bytes 8 c)))).
Proof.
  intros Hr. unfold crc64_Write.
  rewrite crc64_bytes_iter; [|by apply not64_u64|apply wf_be_bytes|by rewrite length_be_bytes].
  by rewrite length_be_bytes.
Qed.

Lemma le_be_bytes_u64 c : u64 (little_endian_to_Z 8 (be_bytes 8 c)).
Proof.
  pose proof (little_endian_to_Z_bound 8 (be_bytes 8 c)) as Hb.
  rewrite length_be_bytes in Hb. apply Hb; [lia|apply wf_be_bytes].
Qed.

Lemma crc64_Write_u64 r c : u64 r → u64 (crc64_Write r (be_bytes 8 c)).
Proof.
  intros. rewrite crc64_Write_word by done.
  apply not64_u64, crc64_iter_u64, u64_lxor; [by apply not64_u64|apply le_be_bytes_u64].
Qed.

Lemma lxor_cancel_l a b c : Z.lxor a b = Z.lxor a c → b = c.
Proof.
  intros H%(f_equal (Z.lxor a)). by rewrite <-!Z.lxor_assoc, Z.lxor_nilpotent, !Z.lxor_0_l in H.
Qed.

(** Neither a difference in the register nor one in the word is lost. *)
Lemma crc64_Write_inj r r' c c' :
  u64 r → u64 r' → crc64_Write r (be_bytes 8 c) = crc64_Write r' (be_bytes 8 c') →
  Z.lxor (not64 r) (little_endian_to_Z 8 (be_bytes 8 c)) =
  Z.lxor (not64 r') (little_endian_to_Z 8 (be_bytes 8 c')).
Proof.
  intros Hr Hr' Heq. rewrite !crc64_Write_word in Heq by done.
  apply (f_equal not64) in Heq. rewrite !not64_not64 in Heq.
  by apply crc64_iter_inj in Heq;
    [|apply u64_lxor; [by apply not64_u64|apply le_be_bytes_u64]..].
Qed.

Lemma crc64_Write_state_inj r r' c :
  u64 r → u64 r' → crc64_Write r (be_bytes 8 c) = crc64_Write r' (be_bytes 8 c) → r = r'.
Proof.
  intros Hr Hr' Heq. apply crc64_Write_inj in Heq; [|done..].
  rewrite !(Z.lxor_comm (not64 _)) in Heq. apply lxor_cancel_l in Heq.
  apply (f_equal not64) in Heq. by rewrite !not64_not64 in Heq.
Qed.

Lemma crc64_Write_word_inj r c c' :
  u64 r → u64 c → u64 c' →
  crc64_Write r (be_bytes 8 c) = crc64_Write r (be_bytes 8 c') → c = c'.
Proof.
  intros Hr Hc Hc' Heq. apply crc64_Write_inj in Heq; [|done..].
  apply lxor_cancel_l in Heq. rewrite <-(be64_roundtrip c), <-(be64_roundtrip c') by done.
  f_equal.
  rewrite <-(Z_to_little_endian_to_Z 8 8 (be_bytes 8 c)),
    <-(Z_to_little_endian_to_Z 8 8 (be_bytes 8 c'));
    rewrite ?length_be_bytes; try lia; try apply wf_be_bytes.
  by rewrite Heq.
Qed.

(** ** Accept loops

    [for { conn, err := l.Accept(); if err != nil { return }; go f(conn) }]: the
    connections a goroutine was started for, in order. *)
Fixpoint accept_each {A} (accepts : list (A + error)) : list A :=
  match accepts with
  | inl conn :: rest => conn :: accept_each rest
  | _ => []
  end.

(** [time.Second], in nanoseconds. *)
Definition second : Z := 1000000000.
