(* ===== verification/Platform.v ===== *)
(** * Platform: socket options, the resolver on Android, and the profiler

    [sock/control*.go], [workaround/dns_android.go] and [profiler/*.go], with
    the two listen functions of [cmd/server/main.go] that use the first.  The
    operating system's answers, [net]'s resolver update and the metrics
    library are parameters. *)
From S2P Require Import Prelude GoStd.

Open Scope Z_scope.

(** ** Socket options *)
Module Sock.

(** The build targets [Control] distinguishes, by its files' build tags. *)
Inductive platform := Unix | BSD | Plan9 | Wasm | Windows.

Inductive sockopt := SO_REUSEADDR | IP_PKTINFO | IP_RECVDSTADDR.
Inductive sol := SOL_SOCKET | IPPROTO_IP.

(** One [SetsockoptInt] call. *)
Record setsockopt := mkOpt { so_fd : Z; so_level : sol; so_opt : sockopt; so_value : Z }.

(** A raw connection: its descriptor, and the error with which [Control]
    refuses to run the function. *)
Record RawConn := mkRaw { rc_fd : Z; rc_err : option error }.

(** [RawConn.Control] calls the function unless it fails; the function's own
    calls report through [setsockopt] results, which the code ignores. *)
Definition RawConn_Control (conn : RawConn) (f : Z → list setsockopt) : list setsockopt * option error :=
  match rc_err conn with
  | Some e => ([], Some e)
  | None => (f (rc_fd conn), None)
  end.

Definition Control_unix (network address : string) (conn : RawConn) : list setsockopt * option error :=
  RawConn_Control conn (λ fd, [mkOpt fd SOL_SOCKET SO_REUSEADDR 1; mkOpt fd IPPROTO_IP IP_PKTINFO 1]).
Definition Control_bsd (network address : string) (conn : RawConn) : list setsockopt * option error :=
  RawConn_Control conn (λ fd, [mkOpt fd SOL_SOCKET SO_REUSEADDR 1; mkOpt fd IPPROTO_IP IP_RECVDSTADDR 1]).
Definition Control_windows (network address : string) (conn : RawConn) : list setsockopt * option error :=
  RawConn_Control conn (λ fd, [mkOpt fd SOL_SOCKET SO_REUSEADDR 1; mkOpt fd IPPROTO_IP IP_PKTINFO 1]).
Definition Control_plan9 (network address : string) (conn : RawConn) : list setsockopt * option error :=
  ([], None).
Definition Control_wasm (network address : string) (conn : RawConn) : list setsockopt * option error :=
  ([], None).

Definition Control (p : platform) : string → string → RawConn → list setsockopt * option error :=
  match p with
  | Unix => Control_unix
  | BSD => Control_bsd
  | Windows => Control_windows
  | Plan9 => Control_plan9
  | Wasm => Control_wasm
  end.

(** [net.ListenConfig]: a socket is made, [Control] is called on it before it
    is bound, and an error of [Control] is the error of the listen. *)
Record net_env := mkNet {
  ne_socket : string → string → RawConn + error;
  ne_bind : string → string → Z → Z + error;     (* descriptor to listener *)
}.

Record listen_result := mkListen { lr_opts : list setsockopt; lr_listener : Z + error }.

Definition ListenConfig_Listen (ctl : string → string → RawConn → list setsockopt * option error)
    (env : net_env) (network address : string) : listen_result :=
  match ne_socket env network address with
  | inr e => mkListen [] (inr e)
  | inl conn =>
      let '(opts, err) := ctl network address conn in
      match err with
      | Some e => mkListen opts (inr e)
      | None => mkListen opts (ne_bind env network address (rc_fd conn))
      end
  end.

Definition getReuseListener (p : platform) (env : net_env) (network address : string) : listen_result :=
  ListenConfig_Listen (Control p) env network address.
Definition getReusePacketConn (p : platform) (env : net_env) (network address : string) : listen_result :=
  ListenConfig_Listen (Control p) env network address.

(** What [sock/doc.go] promises: the address can be shared, and datagrams come
    with their destination address, on the platforms that have those options. *)
Definition has_sockets (p : platform) : bool := match p with Plan9 | Wasm => false | _ => true end.
Definition dst_option (p : platform) : sockopt := match p with BSD => IP_RECVDSTADDR | _ => IP_PKTINFO end.

(** A listener of the program was bound on a socket that shares its address
    and reports destination addresses, with the option of its platform; where
    the platform has no such options the socket is left alone. *)
Theorem listeners_reuse p env network address l :
  lr_listener (getReuseListener p env network address) = inl l →
  ∃ conn, ne_socket env network address = inl conn ∧ ne_bind env network address (rc_fd conn) = inl l ∧
    lr_opts (getReuseListener p env network address) =
      if has_sockets p
      then [mkOpt (rc_fd conn) SOL_SOCKET SO_REUSEADDR 1; mkOpt (rc_fd conn) IPPROTO_IP (dst_option p) 1]
      else [].
Proof.
  unfold getReuseListener, ListenConfig_Listen. destruct (ne_socket _ _ _) as [conn|]; [|done].
  destruct p; cbn; unfold Control_unix, Control_bsd, Control_windows, RawConn_Control;
    try destruct (rc_err conn); cbn; try done; intros Hl; exists conn; done.
Qed.

Lemma listeners_reuse_witness :
  lr_opts (getReuseListener BSD (mkNet (λ _ _, inl (mkRaw 3 None)) (λ _ _ _, inl 9)) "tcp" "127.0.0.1:443") =
    [mkOpt 3 SOL_SOCKET SO_REUSEADDR 1; mkOpt 3 IPPROTO_IP IP_RECVDSTADDR 1].
Proof.
  destruct (listeners_reuse BSD (mkNet (λ _ _, inl (mkRaw 3 None)) (λ _ _ _, inl 9)) "tcp" "127.0.0.1:443" 9
    eq_refl) as (conn & [= <-] & _ & ->). reflexivity.
Defined.
End Sock.

(** ** The resolver on Android *)
Module Dns.

Record dnsConfig := mkDns {
  dns_servers : list string;
  dns_search : list string;
  dns_ndots : Z;
  dns_timeout : Z;
  dns_attempts : Z;
  dns_rotate : bool;
  dns_unknownOpt : bool;
  dns_lookup : list string;
  dns_err : option error;
  dns_mtime : Z;
  dns_soffset : Z;
}.

(** The lock and the semaphore are not touched by this file. *)
Record resolverConfig := mkResolver {
  rv_lastChecked : Z;
  rv_dnsConfig : option dnsConfig;     (* nil until the first update *)
}.

Definition with_servers (addrs : list string) (d : dnsConfig) : dnsConfig :=
  mkDns addrs (dns_search d) (dns_ndots d) (dns_timeout d) (dns_attempts d) (dns_rotate d)
    (dns_unknownOpt d) (dns_lookup d) (dns_err d) (dns_mtime d) (dns_soffset d).
Definition with_mtime (t : Z) (d : dnsConfig) : dnsConfig :=
  mkDns (dns_servers d) (dns_search d) (dns_ndots d) (dns_timeout d) (dns_attempts d) (dns_rotate d)
    (dns_unknownOpt d) (dns_lookup d) (dns_err d) t (dns_soffset d).

(** [net]'s own [tryUpdate], linked by name. *)
Section Resolver.
Variable tryUpdate : resolverConfig → resolverConfig.

Definition setDefaultNS (now : Z) (addrs : list string) (loadFromSystem : bool) (r : resolverConfig)
    : go resolverConfig :=
  let r := match rv_dnsConfig r with None => tryUpdate r | Some _ => r end in
  if loadFromSystem then
    let checked := now - 6 * second in
    match rv_dnsConfig r with
    | None => Panic NilDereference
    | Some d => Ok (mkResolver checked (Some (with_servers addrs (with_mtime now d))))
    end
  else
    match rv_dnsConfig r with
    | None => Panic NilDereference
    | Some d => Ok (mkResolver (rv_lastChecked r) (Some (with_servers addrs d)))
    end.

Definition SetDNSPair (now : Z) (primary secondary : string) (loadFromSystem : bool) (r : resolverConfig)
    : go resolverConfig :=
  setDefaultNS now [primary; secondary] loadFromSystem r.

Definition dns_init (now : Z) (r : resolverConfig) : go resolverConfig :=
  SetDNSPair now "1.1.1.1:53" "8.8.8.8:53" false r.

(** Whatever the resolver held, afterwards it asks the two servers given, in
    that order, with every other setting kept; the time of the last check is
    moved back six seconds exactly when the system's file is to be read again;
    and if the first update leaves no configuration, the process panics. *)
Theorem dns_pair_set now p s load r :
  let r1 := match rv_dnsConfig r with None => tryUpdate r | Some _ => r end in
  match rv_dnsConfig r1 with
  | None => SetDNSPair now p s load r = Panic NilDereference
  | Some d => ∃ r' d', SetDNSPair now p s load r = Ok r' ∧ rv_dnsConfig r' = Some d' ∧
      dns_servers d' = [p; s] ∧
      with_servers (dns_servers d) (with_mtime (dns_mtime d) d') = d ∧
      (dns_mtime d' = if load then now else dns_mtime d) ∧
      (rv_lastChecked r' = if load then now - 6 * second else rv_lastChecked r1)
  end.
Proof.
  unfold SetDNSPair, setDefaultNS. cbn zeta. destruct (rv_dnsConfig r) as [d|] eqn:E.
  - rewrite E. destruct load; eexists _, _; split_and!; try done; by destruct d.
  - destruct (rv_dnsConfig (tryUpdate r)) as [d|]; destruct load; try done;
      eexists _, _; split_and!; try done; by destruct d.
Qed.
End Resolver.
End Dns.

(** ** The profiler *)
Module Profiler.

(** [%q] on ASCII text; [None] for text outside of it. *)
Definition hex_digit (n : nat) : Ascii.ascii :=
  Ascii.ascii_of_nat (if (n <? 10)%nat then 48 + n else 87 + n).

(** A backslash and the character with code [c]. *)
Definition backslash (c : nat) : string :=
  String.String (Ascii.ascii_of_nat 92) (String.String (Ascii.ascii_of_nat c) "").

Definition quote_char (c : Ascii.ascii) : option string :=
  let n := Ascii.nat_of_ascii c in
  if (128 <=? n)%nat then None else
  if (n =? 34)%nat || (n =? 92)%nat then Some (backslash n) else
  if (32 <=? n)%nat && (n <? 127)%nat then Some (String.String c "") else
  match n with
  | 7%nat => Some (backslash 97)      (* a *)
  | 8%nat => Some (backslash 98)      (* b *)
  | 12%nat => Some (backslash 102)      (* f *)
  | 10%nat => Some (backslash 110)      (* n *)
  | 13%nat => Some (backslash 114)      (* r *)
  | 9%nat => Some (backslash 116)      (* t *)
  | 11%nat => Some (backslash 118)      (* v *)
  | _ => Some (backslash 120 +:+ String.String (hex_digit (n / 16)) (String.String (hex_digit (n mod 16)) ""))
  end.

Fixpoint quote_body (s : string) : option string :=
  match s with
  | EmptyString => Some ""
  | String.String c s' => q ← quote_char c; r ← quote_body s'; Some (q +:+ r)
  end.

Definition dquote : string := String.String (Ascii.ascii_of_nat 34) "".
Definition Quote (s : string) : option string :=
  r ← quote_body s; Some (dquote +:+ r +:+ dquote).

(** The callback of [expvar.Do]: what was written and the flag [first]. *)
Definition expvar_entry (st : string * bool) (kv : string * string) : option (string * bool) :=
  let '(out, first) := st in
  let out := if first then out else out +:+ ("," +:+ nl) in
  q ← Quote kv.1;
  Some (out +:+ (q +:+ ": " +:+ kv.2), false).

Fixpoint expvar_Do (st : string * bool) (kvs : list (string * string)) : option (string * bool) :=
  match kvs with
  | [] => Some st
  | kv :: rest => st' ← expvar_entry st kv; expvar_Do st' rest
  end.

Record response := mkResponse { rs_ContentType : string; rs_Body : string }.

(** [expVars], for the published variables in the order [expvar] visits them. *)
Definition expVars (kvs : list (string * string)) : option response :=
  st ← expvar_Do ("{" +:+ nl, true) kvs;
  Some (mkResponse "application/json" (st.1 +:+ (nl +:+ "}" +:+ nl))).

(** *** Routes *)
Inductive handler := PprofIndex | PprofCmdline | PprofProfile | PprofSymbol | PprofTrace | ExpVars
  | MetricsHandler | DebugMux | NotFound.

(** [http.ServeMux]: an exact pattern wins; else the longest pattern that ends
    in a slash and is a prefix of the path. *)
Definition longer (a b : option (string * handler)) : option (string * handler) :=
  match a, b with
  | Some (pa, ha), Some (pb, hb) => if (strlen pa <? strlen pb)%nat then Some (pb, hb) else Some (pa, ha)
  | None, _ => b
  | _, None => a
  end.

Definition pattern_matches (path pattern : string) : bool :=
  HasSuffix pattern "/" && HasPrefix path pattern.

Fixpoint mux_prefix (entries : list (string * handler)) (path : string) : option (string * handler) :=
  match entries with
  | [] => None
  | (pat, h) :: rest =>
      longer (if pattern_matches path pat then Some (pat, h) else None) (mux_prefix rest path)
  end.

Definition mux_handler (entries : list (string * handler)) (path : string) : handler :=
  match find (λ e : string * handler, bool_decide (e.1 = path)) entries with
  | Some (_, h) => h
  | None => match mux_prefix entries path with Some (_, h) => h | None => NotFound end
  end.

Definition debug : list (string * handler) :=
  [("/debug/pprof/", PprofIndex); ("/debug/pprof/cmdline", PprofCmdline);
   ("/debug/pprof/profile", PprofProfile); ("/debug/pprof/symbol", PprofSymbol);
   ("/debug/pprof/trace", PprofTrace); ("/debug/vars", ExpVars)].

(** *** Metrics *)
Record metric := mkMetric { m_Namespace : string; m_Subsystem : string; m_Name : string; m_labels : list string }.
Definition fqName (m : metric) : string := m_Namespace m +:+ "_" +:+ m_Subsystem m +:+ "_" +:+ m_Name m.

Definition GatewayRequests : metric := mkMetric "t" "server" "gateway_requests_total" ["status"; "type"].
Definition GatewayReqsType : metric := mkMetric "t" "server" "gateway_tunnel_type" ["type"].
Definition ConnectionStats : metric := mkMetric "t" "server" "multiplexer_stats" ["desc"; "type"].
Definition PeerLatencyHist : metric := mkMetric "t" "server" "peer_rtt_ms" [].

(** The registry of the metrics library: registering a metric whose full name
    is not taken succeeds and adds it. *)
Class Prometheus := {
  Registry : Type;
  NewRegistry : Registry;
  MustRegister : Registry → metric → go Registry;
  registered : Registry → list metric;
}.
Class PrometheusOk `{Prometheus} := {
  new_registry_empty : registered NewRegistry = [];
  register_fresh r m :
    fqName m ∉ fqName <$> registered r →
    ∃ r', MustRegister r m = Ok r' ∧ registered r' = m :: registered r;
}.

(** What the profiler serves on. *)
Record profiler {R : Type} := mkProfiler { pr_registry : R; pr_routes : list (string * handler) }.
Arguments profiler : clear implicits.

Definition StartProfiler `{Prometheus} : go (profiler Registry) :=
  r ← MustRegister NewRegistry GatewayRequests;
  r ← MustRegister r GatewayReqsType;
  r ← MustRegister r ConnectionStats;
  r ← MustRegister r PeerLatencyHist;
  Ok (mkProfiler _ r [("/", DebugMux); ("/metrics", MetricsHandler)]).

(** The handler a request reaches, through the inner mux. *)
Definition profiler_handler {R} (p : profiler R) (path : string) : handler :=
  match mux_handler (pr_routes p) path with
  | DebugMux => mux_handler debug path
  | h => h
  end.

(** *** Lemmas *)
Definition joined (entries : list string) : string := String.concat ("," +:+ nl) entries.

Definition entry_text (kv : string * string) : option string :=
  q ← Quote kv.1; Some (q +:+ ": " +:+ kv.2).

Lemma expvar_Do_rest out kvs texts :
  mapM entry_text kvs = Some texts →
  expvar_Do (out, false) kvs =
    Some (out +:+ String.concat "" ((λ t, ("," +:+ nl) +:+ t) <$> texts), false).
Proof.
  revert out texts. induction kvs as [|kv kvs IH]; intros out texts Hm.
  { injection Hm as <-. cbn. by rewrite str_app_nil_r. }
  cbn in Hm. apply bind_Some in Hm as (t & Ht & (ts & Hts & [= <-])%bind_Some).
  unfold entry_text in Ht. apply bind_Some in Ht as (q & Hq & [= <-]).
  cbn [expvar_Do expvar_entry]. rewrite Hq. cbn [mbind option_bind]. rewrite (IH _ _ Hts). f_equal. f_equal.
  destruct ts; cbn [fmap list_fmap String.concat]; by rewrite ?str_app_nil_r, !str_app_assoc.
Qed.

Lemma joined_cons t ts :
  joined (t :: ts) = t +:+ String.concat "" ((λ t, ("," +:+ nl) +:+ t) <$> ts).
Proof.
  revert t. induction ts as [|t' ts IH]; intros t; [cbn; by rewrite str_app_nil_r|].
  change (joined (t :: t' :: ts)) with (t +:+ ("," +:+ nl) +:+ joined (t' :: ts)).
  rewrite IH. f_equal. destruct ts; cbn [fmap list_fmap String.concat];
    by rewrite ?str_app_nil_r, !str_app_assoc.
Qed.

(** The variables page is one object: its entries, in order, separated by
    commas, whatever their number. *)
Theorem expvars_object kvs texts :
  mapM entry_text kvs = Some texts →
  expVars kvs = Some (mkResponse "application/json" (("{" +:+ nl) +:+ joined texts +:+ (nl +:+ "}" +:+ nl))).
Proof.
  unfold expVars. destruct kvs as [|kv kvs]; intros Hm.
  { by injection Hm as <-. }
  cbn in Hm. apply bind_Some in Hm as (t & Ht & (ts & Hts & [= <-])%bind_Some).
  unfold entry_text in Ht. apply bind_Some in Ht as (q & Hq & [= <-]).
  cbn [expvar_Do expvar_entry]. rewrite Hq. cbn [mbind option_bind].
  rewrite (expvar_Do_rest _ _ _ Hts), joined_cons. cbn [mbind option_bind fst]. by rewrite !str_app_assoc.
Qed.

Lemma expvars_object_witness :
  expVars [("cmdline", "[]"); ("memstats", "{}")] =
    Some (mkResponse "application/json"
      (("{" +:+ nl) +:+ joined [dquote +:+ "cmdline" +:+ dquote +:+ ": []";
                                dquote +:+ "memstats" +:+ dquote +:+ ": {}"] +:+ (nl +:+ "}" +:+ nl))).
Proof. apply expvars_object. reflexivity. Defined.

Lemma pattern_root path : HasPrefix path "/" = true → pattern_matches path "/" = true.
Proof. intros Hp. unfold pattern_matches. by rewrite Hp. Qed.

(** The inner mux: four exact routes and the variables page; everything else
    below [/debug/pprof/] is the index, and the rest is not found. *)
Lemma debug_routes path :
  mux_handler debug path =
    if bool_decide (path = "/debug/pprof/cmdline") then PprofCmdline
    else if bool_decide (path = "/debug/pprof/profile") then PprofProfile
    else if bool_decide (path = "/debug/pprof/symbol") then PprofSymbol
    else if bool_decide (path = "/debug/pprof/trace") then PprofTrace
    else if bool_decide (path = "/debug/vars") then ExpVars
    else if HasPrefix path "/debug/pprof/" then PprofIndex
    else NotFound.
Proof.
  unfold mux_handler, debug. cbn [find fst].
  case_bool_decide as H0; [subst path; reflexivity|].
  do 5 (match goal with
        | |- context [bool_decide (?p = path)] =>
            rewrite (bool_decide_ext (p = path) (path = p)) by done; destruct (bool_decide (path = p)); [reflexivity|]
        end).
  cbn [mux_prefix]. unfold pattern_matches.
  change (HasSuffix "/debug/pprof/" "/") with true.
  change (HasSuffix "/debug/pprof/cmdline" "/") with false.
  change (HasSuffix "/debug/pprof/profile" "/") with false.
  change (HasSuffix "/debug/pprof/symbol" "/") with false.
  change (HasSuffix "/debug/pprof/trace" "/") with false.
  change (HasSuffix "/debug/vars" "/") with false. cbn [andb longer].
  by destruct (HasPrefix path "/debug/pprof/").
Qed.

(** The profiler starts: the four metrics have different full names, so the
    registry accepts them all; and a request for a path reaches the metrics
    page at [/metrics] only, else what the inner mux has for it. *)
Theorem profiler_starts `{PrometheusOk} :
  ∃ p, StartProfiler = Ok p ∧
    registered (pr_registry p) = [PeerLatencyHist; ConnectionStats; GatewayReqsType; GatewayRequests] ∧
    ∀ path, HasPrefix path "/" = true →
      profiler_handler p path =
        if bool_decide (path = "/metrics") then MetricsHandler else mux_handler debug path.
Proof.
  assert (∀ r l m, registered r = l → bool_decide (fqName m ∉ fqName <$> l) = true →
    ∃ r', MustRegister r m = Ok r' ∧ registered r' = m :: l) as Hreg.
  { intros r l m <- Hm%bool_decide_eq_true. by apply register_fresh. }
  destruct (Hreg NewRegistry [] GatewayRequests new_registry_empty eq_refl) as (r1 & E1 & H1).
  destruct (Hreg r1 _ GatewayReqsType H1 eq_refl) as (r2 & E2 & H2).
  destruct (Hreg r2 _ ConnectionStats H2 eq_refl) as (r3 & E3 & H3).
  destruct (Hreg r3 _ PeerLatencyHist H3 eq_refl) as (r4 & E4 & H4).
  exists (mkProfiler _ r4 [("/", DebugMux); ("/metrics", MetricsHandler)]).
  unfold StartProfiler. rewrite E1. cbn. rewrite E2. cbn. rewrite E3. cbn. rewrite E4. cbn [mbind go_bind].
  split; [done|]. split; [done|]. intros path Hp. unfold profiler_handler, mux_handler. cbn [pr_routes find fst].
  rewrite (bool_decide_ext ("/metrics" = path) (path = "/metrics")) by done.
  case_bool_decide as Hroot; [subst path; reflexivity|].
  destruct (bool_decide (path = "/metrics")); [reflexivity|]. cbn [mux_prefix].
  rewrite pattern_root by done. unfold pattern_matches.
  change (HasSuffix "/metrics" "/") with false. reflexivity.
Qed.

(** A registry that refuses duplicates. *)
Definition list_registry : Prometheus :=
  {| Registry := list metric; NewRegistry := [];
     MustRegister r m :=
       if bool_decide (fqName m ∈ fqName <$> r) then Panic (PanicMsg "duplicate metrics collector registration attempted")
       else Ok (m :: r);
     registered r := r |}.

Lemma list_registry_ok : @PrometheusOk list_registry.
Proof.
  split; [done|]. intros r m Hm. cbn in *. rewrite bool_decide_eq_false_2 by done. by eexists.
Qed.

Lemma profiler_starts_witness :
  ∃ p, @StartProfiler list_registry = Ok p ∧ profiler_handler p "/metrics" = MetricsHandler.
Proof.
  destruct (@profiler_starts list_registry list_registry_ok) as (p & Hp & _ & Hr).
  exists p. split; [exact Hp|]. exact (Hr "/metrics" eq_refl).
Defined.
End Profiler.
