(* ===== verification/Link.v ===== *)
(** * Link: the wire header of every stream

    [multiplexer/link.go], the enumerations [multiplexer/protocol] and
    [multiplexer/alpn] with their generated [String] methods, the write side of
    the stream handshake ([mux/common.go]) and its read side (the
    [streamHandshake] methods of [mux/yamux.go], [mux/mplex.go] and
    [mux/quic.go], which read and decode identically). *)
From S2P Require Import Prelude GoStd.

Open Scope Z_scope.

(** ** [protocol.Protocol], a byte *)
Abbreviation Protocol := Z (only parsing).
Definition protocol_Unknown : Protocol := 0.
Definition Yamux : Protocol := 1.
Definition Mplex : Protocol := 2.
Definition QUIC : Protocol := 3.

Definition TLSProtos : list Protocol := [Yamux; Mplex].
Definition QUICProtos : list Protocol := [QUIC].

(** The table lookup of the code [stringer] generates: the names are stored
    end to end, [table] holds the boundaries. *)
Definition stringer (type_name names : string) (table : list nat) (i : Z) : string :=
  match table !! Z.to_nat i, table !! S (Z.to_nat i) with
  | Some lo, Some hi => str_take (hi - lo) (str_drop lo names)
  | _, _ => type_name +:+ "(" +:+ itoa i +:+ ")"
  end.

Definition Protocol_String (i : Protocol) : string :=
  stringer "Protocol" "unknownyamuxmplexquic" [0; 7; 12; 17; 21]%nat i.

(** ** [alpn.ALPN], a byte *)
Abbreviation ALPN := Z (only parsing).
Definition alpn_Unknown : ALPN := 0.
Definition alpn_Multiplexer : ALPN := 1.
Definition alpn_HTTP : ALPN := 2.
Definition alpn_Raw : ALPN := 3.

Definition ALPN_String (i : ALPN) : string :=
  stringer "ALPN" "multiplexerhttp/1.1raw" [0; 0; 11; 19; 22]%nat i.

(** [alpn.Map] *)
Definition alpn_Map : gmap Z string :=
  <[alpn_Unknown := ALPN_String alpn_Unknown]>
  (<[alpn_Multiplexer := ALPN_String alpn_Multiplexer]>
  (<[alpn_HTTP := ALPN_String alpn_HTTP]>
  (<[alpn_Raw := ALPN_String alpn_Raw]> ∅))).

(** [alpn.ReverseMap]: built by ranging over [Map], in the order [entries]. *)
Definition alpn_ReverseMap (entries : list (Z * string)) : gmap string Z :=
  foldl (λ m '(k, v), <[v := k]> m) ∅ entries.

(** [alpn.Protos]: the values of [Map] in the order [entries]. *)
Definition alpn_Protos (entries : list (Z * string)) : list string :=
  foldl (λ s '(_, v), s ++ [v]) [] entries.

(** [alpn.ReverseMap[proto]]: a missing key gives the zero value. *)
Definition alpn_of_string (entries : list (Z * string)) (proto : string) : ALPN :=
  default alpn_Unknown (alpn_ReverseMap entries !! proto).

(** ** [multiplexer.Link] *)
Definition LinkSize : Z := 18.

Record Link := mkLink {
  Source : Z;
  Destination : Z;
  link_Protocol : Protocol;
  link_ALPN : ALPN;
}.

#[export] Instance Link_eq_dec : EqDecision Link.
Proof. solve_decision. Defined.

(** The zero value: [var link multiplexer.Link]. *)
Definition zero_Link : Link := mkLink 0 0 0 0.
Definition MessagingLink : Link := zero_Link.

(** The Go type: two [uint64]s and two bytes. *)
Definition wf_Link (l : Link) : Prop :=
  u64 (Source l) ∧ u64 (Destination l) ∧ u8 (link_Protocol l) ∧ u8 (link_ALPN l).

Definition Link_MarshalBinary (s : Link) : go (list Z) :=
  b ← make_bytes LinkSize;
  b ← PutUint64 b 0 8 (Source s);
  b ← PutUint64 b 8 16 (Destination s);
  b ← set_index b 16 (wrap8 (link_Protocol s));
  b ← set_index b 17 (wrap8 (link_ALPN s));
  Ok b.

(** The receiver after the call; every field is assigned. *)
Definition Link_UnmarshalBinary (s : Link) (b : list Z) : go Link :=
  if negb (zlen b =? LinkSize) then Err (Errorf "invalid buffer length: %d" [zlen b]) else
  src ← (slice b 0 8 ≫= Uint64);
  let s := mkLink src (Destination s) (link_Protocol s) (link_ALPN s) in
  dst ← (slice b 8 16 ≫= Uint64);
  let s := mkLink (Source s) dst (link_Protocol s) (link_ALPN s) in
  p ← index b 16;
  let s := mkLink (Source s) (Destination s) p (link_ALPN s) in
  a ← index b 17;
  Ok (mkLink (Source s) (Destination s) (link_Protocol s) a).

Definition Link_Flip (s : Link) : Link :=
  let p := s in
  let p := mkLink (Source p) (Source s) (link_Protocol p) (link_ALPN p) in
  mkLink (Destination s) (Destination p) (link_Protocol p) (link_ALPN p).

(** ** Stream handshake *)

(** What [io.Writer.Write] reports for a buffer. *)
Definition writer := list Z → Z * option error.

(** [mux.directHandshake]; on success the bytes that reached the stream. *)
Definition directHandshake (link : Link) (w : writer) : go (list Z) :=
  buf ← wrap_err "marshal link as binary" (Link_MarshalBinary link);
  let '(written, err) := w buf in
  match err with
  | Some e => Err (Wrapf "writing stream handshake" e)
  | None =>
      if negb (written =? LinkSize)
      then Err (Errorf "invalid handshake length: %d" [written])
      else Ok (take (Z.to_nat written) buf)
  end.

(** [mux.messagingHandshake] *)
Definition messagingHandshake (w : writer) : go (list Z) :=
  directHandshake MessagingLink w.

(** The body of [streamHandshake] up to [p.channel.Put]: one [Read] into a
    buffer of [LinkSize] bytes, whose count is discarded, then decoding. *)
Definition streamHandshake (conn : reader) : go (Link * reader) :=
  let '(got, err, conn') := Read LinkSize conn in
  match err with
  | Some e => Err e
  | None =>
      s ← Link_UnmarshalBinary zero_Link (fill LinkSize got);
      Ok (s, conn')
  end.

(** ** Lemmas *)

Lemma Link_MarshalBinary_eq s :
  Link_MarshalBinary s =
    Ok (be_bytes 8 (Source s) ++ be_bytes 8 (Destination s) ++
        [wrap8 (link_Protocol s); wrap8 (link_ALPN s)]).
Proof.
  unfold Link_MarshalBinary.
  change (make_bytes LinkSize) with (Ok (replicate 8 0 ++ replicate 8 0 ++ [0; 0])).
  slice_eval. done.
Qed.

Lemma Link_UnmarshalBinary_eq s src dst p a :
  length src = 8%nat → length dst = 8%nat →
  Link_UnmarshalBinary s (src ++ dst ++ [p; a]) = Ok (mkLink (be_to_Z src) (be_to_Z dst) p a).
Proof.
  intros H1 H2. unfold Link_UnmarshalBinary.
  assert (zlen src = 8) as Hs by (unfold zlen; by rewrite H1).
  assert (zlen dst = 8) as Hd by (unfold zlen; by rewrite H2).
  unfold LinkSize. guard_false. slice_eval. done.
Qed.

Lemma Link_wire_length l w : Link_MarshalBinary l = Ok w → zlen w = LinkSize.
Proof. rewrite Link_MarshalBinary_eq. intros [= <-]. by autorewrite with zlen. Qed.

Lemma Link_unmarshal_marshal recv l :
  wf_Link l → Link_MarshalBinary l ≫= Link_UnmarshalBinary recv = Ok l.
Proof.
  intros (Hs & Hd & Hp & Ha). rewrite Link_MarshalBinary_eq. cbn [mbind go_bind].
  rewrite Link_UnmarshalBinary_eq by apply length_be_bytes.
  rewrite !be64_roundtrip, !wrap8_small by done. by destruct l.
Qed.

(** An 18-byte buffer splits into the four fields. *)
Lemma link_buffer_split (b : list Z) :
  zlen b = LinkSize →
  ∃ (src dst : list Z) p a, b = src ++ dst ++ [p; a] ∧ length src = 8%nat ∧ length dst = 8%nat.
Proof.
  unfold zlen, LinkSize. intros Hl.
  do 18 (destruct b as [|? b]; [cbn in Hl; lia|]). destruct b; [|cbn in Hl; lia].
  by eexists [_;_;_;_;_;_;_;_], [_;_;_;_;_;_;_;_], _, _.
Qed.

Lemma Link_marshal_unmarshal recv b :
  wf_bytes b → zlen b = LinkSize →
  ∃ l, Link_UnmarshalBinary recv b = Ok l ∧ wf_Link l ∧ Link_MarshalBinary l = Ok b.
Proof.
  intros Hwf (src & dst & p & a & -> & Hs & Hd)%link_buffer_split.
  unfold wf_bytes in Hwf. rewrite !Forall_app, !Forall_cons in Hwf.
  destruct Hwf as (Hws & Hwd & Hp & Ha & _).
  eexists. split; [by apply Link_UnmarshalBinary_eq|].
  rewrite Link_MarshalBinary_eq. unfold wf_Link. cbn.
  rewrite !be_bytes_be_to_Z, !wrap8_small by done.
  repeat split; try done; by (apply be_to_Z_u64 || apply Hp || apply Ha).
Qed.

Lemma Link_Unmarshal_badlen recv b :
  zlen b ≠ LinkSize →
  Link_UnmarshalBinary recv b = Err (Errorf "invalid buffer length: %d" [zlen b]).
Proof. intros. unfold Link_UnmarshalBinary. by guard_true. Qed.

Lemma Link_Flip_eq l :
  Link_Flip l = mkLink (Destination l) (Source l) (link_Protocol l) (link_ALPN l).
Proof. done. Qed.

(** *** The ALPN tables *)
Definition rev_insert (m : gmap string Z) (e : Z * string) : gmap string Z :=
  let '(k, v) := e in <[v := k]> m.

Lemma rev_insert_not_in e m s : s ∉ e.*2 → foldl rev_insert m e !! s = m !! s.
Proof.
  revert m. induction e as [|[k v] e IH]; intros m Hs; cbn; [done|].
  cbn in Hs. apply not_elem_of_cons in Hs as [? ?].
  rewrite IH by done. by rewrite lookup_insert_ne.
Qed.

Lemma rev_insert_in e m k s :
  NoDup e.*2 → (k, s) ∈ e → foldl rev_insert m e !! s = Some k.
Proof.
  revert m. induction e as [|[k' v] e IH]; intros m; cbn; [set_solver|].
  rewrite NoDup_cons. intros [Hv Hnd] [Heq|Hin]%elem_of_cons.
  - simplify_eq. rewrite rev_insert_not_in by done. by rewrite lookup_insert_eq.
  - by apply IH.
Qed.

Lemma alpn_entries_values e : enumerates alpn_Map e → NoDup e.*2.
Proof.
  intros He. unfold enumerates in He. rewrite He.
  apply (bool_decide_unpack _). by vm_compute.
Qed.

Lemma alpn_of_string_in e k s :
  enumerates alpn_Map e → alpn_Map !! k = Some s → alpn_of_string e s = k.
Proof.
  intros He Hk. unfold alpn_of_string.
  change (alpn_ReverseMap e) with (foldl rev_insert ∅ e).
  by rewrite (rev_insert_in e ∅ k s);
    [|by apply alpn_entries_values|by apply (enumerates_elem alpn_Map)].
Qed.

Lemma alpn_of_string_out e s :
  enumerates alpn_Map e → (∀ k, alpn_Map !! k ≠ Some s) → alpn_of_string e s = alpn_Unknown.
Proof.
  intros He Hs. unfold alpn_of_string.
  change (alpn_ReverseMap e) with (foldl rev_insert ∅ e).
  rewrite rev_insert_not_in; [done|].
  intros ([k v] & -> & Hin)%list_elem_of_fmap. by apply (Hs k), (enumerates_elem _ e).
Qed.

Lemma alpn_Map_range a : 0 ≤ a ≤ 3 → alpn_Map !! a = Some (ALPN_String a).
Proof.
  intros. assert (a = 0 ∨ a = 1 ∨ a = 2 ∨ a = 3) as [->|[->|[->| ->]]] by lia; done.
Qed.

Lemma streamHandshake_decodes got r :
  wf_bytes got → zlen got ≤ LinkSize →
  ∃ l, streamHandshake ((got, None) :: r) = Ok (l, r) ∧ wf_Link l ∧
       Link_MarshalBinary l = Ok (got ++ replicate (Z.to_nat (LinkSize - zlen got)) 0).
Proof.
  intros Hwf Hlen. unfold streamHandshake, Read. guard_true.
  assert (fill LinkSize got = got ++ replicate (Z.to_nat (LinkSize - zlen got)) 0) as Hfill.
  { unfold fill, copy. rewrite length_replicate, take_ge by (unfold zlen, LinkSize in *; lia).
    rewrite drop_replicate. do 2 f_equal. unfold zlen, LinkSize in *. lia. }
  destruct (Link_marshal_unmarshal zero_Link (fill LinkSize got)) as (l & Hl & Hw & Hm).
  - rewrite Hfill. apply Forall_app_2; [done|]. apply Forall_replicate. unfold u8. lia.
  - unfold zlen. by rewrite length_fill.
  - exists l. rewrite Hl. cbn. by rewrite <-Hfill.
Qed.

Lemma directHandshake_wire l :
  wf_Link l →
  ∃ wire, directHandshake l (λ b, (zlen b, None)) = Ok wire ∧
          Link_MarshalBinary l = Ok wire ∧ zlen wire = LinkSize ∧ wf_bytes wire.
Proof.
  intros (? & ? & ? & ?). unfold directHandshake. rewrite Link_MarshalBinary_eq.
  cbn [wrap_err mbind go_bind]. eexists. split; [|split; [reflexivity|split]].
  - unfold LinkSize. cbv beta iota. guard_false. rewrite take_ge by (unfold zlen; lia). reflexivity.
  - by autorewrite with zlen.
  - apply Forall_app_2; [apply wf_be_bytes|]. apply Forall_app_2; [apply wf_be_bytes|].
    rewrite !wrap8_small by done. repeat (apply Forall_cons; split); done.
Qed.

Lemma streamHandshake_of_wire l wire rest r :
  wf_Link l → Link_MarshalBinary l = Ok wire →
  streamHandshake ((wire ++ rest, None) :: r) =
    Ok (l, if bool_decide (rest = []) then r else (rest, None) :: r).
Proof.
  intros Hl Hw. pose proof (Link_wire_length _ _ Hw) as Hlen.
  pose proof (Link_unmarshal_marshal zero_Link l Hl) as Hrt. rewrite Hw in Hrt.
  unfold streamHandshake. case_bool_decide as Hr.
  - subst rest. rewrite app_nil_r, <-Hlen, Read_all, fill_exact by done. by cbn in Hrt |- *; rewrite Hrt.
  - rewrite <-Hlen, Read_exact, fill_exact by done. by cbn in Hrt |- *; rewrite Hrt.
Qed.

(** ** Properties *)

(** C22: the wire form of [Link] is a bijection.  Encoding a link gives 18 bytes
    that decode, into any receiver, to the same link; every 18-byte buffer
    decodes to a link that encodes to that buffer; any other length is refused
    with an error, never a panic. *)
Theorem link_codec_bijection :
  (∀ recv l, wf_Link l →
     ∃ w, Link_MarshalBinary l = Ok w ∧ zlen w = LinkSize ∧
          Link_UnmarshalBinary recv w = Ok l) ∧
  (∀ recv b, wf_bytes b → zlen b = LinkSize →
     ∃ l, Link_UnmarshalBinary recv b = Ok l ∧ wf_Link l ∧ Link_MarshalBinary l = Ok b) ∧
  (∀ recv b, zlen b ≠ LinkSize →
     Link_UnmarshalBinary recv b = Err (Errorf "invalid buffer length: %d" [zlen b])).
Proof.
  repeat split; intros recv b H.
  - pose proof (Link_unmarshal_marshal recv b H) as Hrt.
    destruct (Link_MarshalBinary b) as [w| |] eqn:E; [|done..].
    exists w. split; [done|]. split; [by eapply Link_wire_length|done].
  - intros. by apply Link_marshal_unmarshal.
  - by apply Link_Unmarshal_badlen.
Qed.

(** The stream handshake transports the link.  Whatever
    [directHandshake] puts on a stream that accepts the whole buffer, the
    [streamHandshake] of the other end, when the header arrives in one piece
    (possibly together with payload), decodes to the same link and leaves
    exactly the payload to be read. *)
Theorem handshake_transports_link l rest r :
  wf_Link l →
  ∃ wire, directHandshake l (λ b, (zlen b, None)) = Ok wire ∧
    streamHandshake ((wire ++ rest, None) :: r) =
      Ok (l, if bool_decide (rest = []) then r else (rest, None) :: r).
Proof.
  intros Hl. destruct (directHandshake_wire l Hl) as (wire & Hd & Hm & _).
  exists wire. split; [done|]. by apply streamHandshake_of_wire.
Qed.

Lemma handshake_transports_link_witness :
  ∃ wire, directHandshake (mkLink 7 9 Mplex alpn_Raw) (λ b, (zlen b, None)) = Ok wire ∧
    streamHandshake ((wire ++ [1; 2], None) :: []) =
      Ok (mkLink 7 9 Mplex alpn_Raw, [([1; 2], None)]).
Proof.
  apply (handshake_transports_link (mkLink 7 9 Mplex alpn_Raw) [1; 2] []).
  by repeat split.
Defined.

(** [streamHandshake] discards the byte count of its single [Read], so a
    short read is not detected: any prefix of at most 18 bytes, the empty one
    included, is accepted without error and decodes to the link whose encoding
    is that prefix padded with zero bytes. *)
Theorem handshake_short_read_accepted got r :
  wf_bytes got → zlen got ≤ LinkSize →
  ∃ l, streamHandshake ((got, None) :: r) = Ok (l, r) ∧ wf_Link l ∧
       Link_MarshalBinary l = Ok (got ++ replicate (Z.to_nat (LinkSize - zlen got)) 0).
Proof. apply streamHandshake_decodes. Qed.

Lemma handshake_short_read_accepted_witness :
  ∃ l, streamHandshake [([], None)] = Ok (l, []) ∧ wf_Link l ∧
       Link_MarshalBinary l = Ok (replicate 18 0).
Proof.
  apply (handshake_short_read_accepted [] []); [constructor|by vm_compute].
Defined.

(** For every iteration order of [alpn.Map], [alpn.ReverseMap] inverts
    [ALPN.String] on the four named values and maps every other string to
    [Unknown]. *)
Theorem alpn_reverse_map entries :
  enumerates alpn_Map entries →
  (∀ a, 0 ≤ a ≤ 3 → alpn_of_string entries (ALPN_String a) = a) ∧
  (∀ s, (∀ a, 0 ≤ a ≤ 3 → s ≠ ALPN_String a) → alpn_of_string entries s = alpn_Unknown).
Proof.
  intros He. split; intros a Ha.
  - apply alpn_of_string_in; [done|by apply alpn_Map_range].
  - apply alpn_of_string_out; [done|]. intros k Hk.
    assert (0 ≤ k ≤ 3) as Hr.
    { assert (k ∈ dom alpn_Map) as Hd by (apply elem_of_dom; eauto).
      unfold alpn_Map in Hd. rewrite !dom_insert_L, dom_empty_L in Hd.
      unfold alpn_Unknown, alpn_Multiplexer, alpn_HTTP, alpn_Raw in Hd. set_solver by lia. }
    apply (Ha k Hr). rewrite alpn_Map_range in Hk by done. congruence.
Qed.

Lemma alpn_reverse_map_witness :
  alpn_of_string (map_to_list alpn_Map) "raw" = alpn_Raw.
Proof.
  apply (proj1 (alpn_reverse_map (map_to_list alpn_Map) (enumerates_self _)) alpn_Raw).
  by vm_compute.
Defined.

(** ** In the log *)
Inductive log_value := LogString (s : string) | LogUint64 (n : Z) | LogBool (b : bool).

Definition Protocol_MarshalLogObject (p : Protocol) : list (string * log_value) :=
  [("Protocol", LogString (Protocol_String p))].
Definition ALPN_MarshalLogObject (a : ALPN) : list (string * log_value) :=
  [("ALPN", LogString (ALPN_String a))].

(** [zap.Inline] adds the fields of the inner object. *)
Definition Link_MarshalLogObject (l : Link) : list (string * log_value) :=
  [("Source", LogUint64 (Source l)); ("Destination", LogUint64 (Destination l))] ++
  Protocol_MarshalLogObject (link_Protocol l) ++ ALPN_MarshalLogObject (link_ALPN l).

(** The generated names are pairwise different, for all 256 values. *)
Lemma stringer_inj_check (f : Z → string) :
  bool_decide (NoDup (f <$> seqZ 0 256)) = true → ∀ a b, u8 a → u8 b → f a = f b → a = b.
Proof.
  intros Hn%bool_decide_eq_true a b Ha Hb Hab. unfold u8 in *.
  assert (∀ x, 0 ≤ x < 256 → (f <$> seqZ 0 256) !! Z.to_nat x = Some (f x)) as Hl.
  { intros x Hx. rewrite list_lookup_fmap, lookup_seqZ_lt by lia. cbn. f_equal. f_equal. lia. }
  assert (Z.to_nat a = Z.to_nat b); [|lia].
  eapply NoDup_lookup; [exact Hn|apply Hl; lia|rewrite Hab; apply Hl; lia].
Qed.

Lemma Protocol_String_inj a b : u8 a → u8 b → Protocol_String a = Protocol_String b → a = b.
Proof. apply stringer_inj_check. vm_compute. reflexivity. Qed.

Lemma ALPN_String_inj a b : u8 a → u8 b → ALPN_String a = ALPN_String b → a = b.
Proof. apply stringer_inj_check. vm_compute. reflexivity. Qed.

(** What is logged about a link identifies it, also when its protocol or
    application protocol has no name. *)
Theorem logged_link_identifies l1 l2 :
  wf_Link l1 → wf_Link l2 → Link_MarshalLogObject l1 = Link_MarshalLogObject l2 → l1 = l2.
Proof.
  intros (_ & _ & Hp1 & Ha1) (_ & _ & Hp2 & Ha2). destruct l1, l2.
  unfold Link_MarshalLogObject, Protocol_MarshalLogObject, ALPN_MarshalLogObject.
  intros Heq. injection Heq as -> -> Hp Ha. f_equal; [by apply Protocol_String_inj|by apply ALPN_String_inj].
Qed.

Lemma logged_link_identifies_witness :
  mkLink 1 2 Mplex alpn_Raw = mkLink 1 2 Mplex alpn_Raw.
Proof. apply logged_link_identifies; [by vm_compute|by vm_compute|reflexivity]. Defined.
