(* ===== verification/Message.v ===== *)
(** * Message: the framing of the messaging stream

    [messaging/const.go], [messaging/message.go], the [Pack]/[Unpack] pair of
    [messaging/rpc.go] and the decoding loop of [messaging/channel.go]'s
    [reader]. *)
From S2P Require Import Prelude GoStd.

Open Scope Z_scope.

(** [messaging.MessageType] is an [int]. *)
Definition MessageUnknown : Z := 0.
Definition MessageACMEAccountKey : Z := 1.
Definition MessageClientCerts : Z := 2.
Definition MessageTest : Z := 3.
Definition messageRequestReply : Z := 4.

Definition messageHeaderLength : Z := 24.
Definition rrHeaderLength : Z := 17.

Record Message := mkMessage {
  msg_Type : Z;
  msg_From : Z;
  msg_Data : list Z;
}.

#[export] Instance Message_eq_dec : EqDecision Message.
Proof. solve_decision. Defined.

Definition zero_Message : Message := mkMessage 0 0 [].

(** The Go types of the fields, and a length [make] accepts for the frame. *)
Definition wf_Message (m : Message) : Prop :=
  i64 (msg_Type m) ∧ u64 (msg_From m) ∧ wf_bytes (msg_Data m) ∧
  messageHeaderLength + zlen (msg_Data m) ≤ maxAlloc.

Definition Message_MarshalBinary (m : Message) : go (list Z) :=
  let dl := zlen (msg_Data m) in
  buf ← make_bytes (messageHeaderLength + dl);
  buf ← PutUint64 buf 0 8 (uint64_of_int dl);
  buf ← PutUint64 buf 8 16 (uint64_of_int (msg_Type m));
  buf ← PutUint64 buf 16 messageHeaderLength (msg_From m);
  copy_from buf messageHeaderLength (msg_Data m).

Definition Message_UnmarshalBinary (m : Message) (b : list Z) : go Message :=
  dl ← (slice b 0 8 ≫= Uint64);
  t ← (slice b 8 16 ≫= Uint64);
  let m := mkMessage (int_of_uint64 t) (msg_From m) (msg_Data m) in
  f ← (slice b 16 messageHeaderLength ≫= Uint64);
  let m := mkMessage (msg_Type m) f (msg_Data m) in
  data ← make_bytes dl;
  rest ← slice_from b messageHeaderLength;
  Ok (mkMessage (msg_Type m) (msg_From m) (copy data rest)).

(** [ReadFrom]: the byte count, the receiver or the error, and the rest of the
    stream. *)
Definition Message_ReadFrom (m : Message) (f : reader) : Z * go Message * reader :=
  let x := 0 in
  let '(got, err, f) := Read messageHeaderLength f in
  let l := zlen got in
  let x := x + l in
  match err with
  | Some e => (x, Err (Wrapf "reading message header" e), f)
  | None =>
  if negb (l =? messageHeaderLength) then (x, Err (Errorf "invalid buffer length: %d" [l]), f) else
  let head := fill messageHeaderLength got in
  match
    t ← (slice head 8 16 ≫= Uint64);
    fr ← (slice head 16 messageHeaderLength ≫= Uint64);
    dl ← (slice head 0 8 ≫= Uint64);
    data ← make_bytes (int_of_uint64 dl);
    Ok (int_of_uint64 t, fr, int_of_uint64 dl)
  with
  | Err e => (x, Err e, f)
  | Panic p => (x, Panic p, f)
  | Ok (t, fr, dl) =>
    let '(got, err, f) := Read dl f in
    let l := zlen got in
    let x := x + l in
    match err with
    | Some e => (x, Err (Wrapf "reading message data" e), f)
    | None =>
      if negb (l =? dl) then (x, Err (Errorf "incomplete data buffer read" []), f)
      else (x, Ok (mkMessage t fr (fill dl got)), f)
    end
  end
  end.

(** ** Request and reply envelopes *)
Record requestReply := mkRR {
  rr_request : bool;
  rr_key : Z;
  rr_data : list Z;
}.

Definition zero_RR : requestReply := mkRR false 0 [].

Definition wf_RR (r : requestReply) : Prop :=
  u64 (rr_key r) ∧ wf_bytes (rr_data r) ∧ rrHeaderLength + zlen (rr_data r) ≤ maxAlloc.

Definition requestReply_Pack (r : requestReply) : go (list Z) :=
  let dl := zlen (rr_data r) in
  buf ← make_bytes (rrHeaderLength + dl);
  buf ← PutUint64 buf 0 8 (uint64_of_int dl);
  buf ← PutUint64 buf 8 16 (rr_key r);
  buf ← (if rr_request r then set_index buf 16 1 else Ok buf);
  copy_from buf rrHeaderLength (rr_data r).

(** [request] is set when the flag byte is 1 and otherwise left alone. *)
Definition requestReply_Unpack (r : requestReply) (b : list Z) : go requestReply :=
  dl ← (slice b 0 8 ≫= Uint64);
  k ← (slice b 8 16 ≫= Uint64);
  let r := mkRR (rr_request r) k (rr_data r) in
  data ← make_bytes dl;
  flag ← index b 16;
  let r := if flag =? 1 then mkRR true (rr_key r) (rr_data r) else r in
  rest ← slice_from b rrHeaderLength;
  Ok (mkRR (rr_request r) (rr_key r) (copy data rest)).

(** ** The decoding loop of [Channel.reader]

    What the loop hands on: an envelope for [go c.handleRPC(m.From, r)] or a
    message for [comm.in]. *)
Inductive incoming :=
| ToRPC (from : Z) (r : requestReply)
| ToIn (m : Message).

(** One iteration: decode a message and classify it. *)
Definition reader_step (conn : reader) : go incoming * reader :=
  let '(_, res, conn') := Message_ReadFrom zero_Message conn in
  (m ← res;
   if msg_Type m =? messageRequestReply
   then r ← requestReply_Unpack zero_RR (msg_Data m); Ok (ToRPC (msg_From m) r)
   else Ok (ToIn m), conn').

(** How the loop ended: [errors.Is(err, io.EOF)] is not logged, any other error
    is; both forget the peer.  A panic takes the process down. *)
Inductive reader_end :=
| ReaderEOF
| ReaderError (e : error)
| ReaderPanic (p : panic)
| ReaderOutOfFuel.

Fixpoint reader_loop (fuel : nat) (conn : reader) : list incoming * reader_end :=
  match fuel with
  | O => ([], ReaderOutOfFuel)
  | S fuel' =>
      match reader_step conn with
      | (Ok x, conn') => let '(xs, e) := reader_loop fuel' conn' in (x :: xs, e)
      | (Err e, _) => ([], if errors_Is e io_EOF then ReaderEOF else ReaderError e)
      | (Panic p, _) => ([], ReaderPanic p)
      end
  end.

(** ** Lemmas *)
Lemma len_u64 {A} (l : list A) n : n + zlen l ≤ maxAlloc → 0 ≤ n → u64 (zlen l) ∧ i64 (zlen l).
Proof. unfold maxAlloc, u64, i64, zlen. lia. Qed.

Lemma uint64_of_len {A} (l : list A) : u64 (zlen l) → uint64_of_int (zlen l) = zlen l.
Proof. intros. by apply wrap64_small. Qed.

Lemma int_of_len {A} (l : list A) : i64 (zlen l) → int_of_uint64 (zlen l) = zlen l.
Proof. unfold i64, int_of_uint64. intros. case_match; lia. Qed.

Lemma Message_MarshalBinary_eq m :
  wf_Message m →
  Message_MarshalBinary m =
    Ok (be_bytes 8 (zlen (msg_Data m)) ++ be_bytes 8 (uint64_of_int (msg_Type m)) ++
        be_bytes 8 (msg_From m) ++ msg_Data m).
Proof.
  intros (_ & _ & _ & Hl). unfold Message_MarshalBinary.
  destruct (len_u64 _ _ Hl) as [Hu _]; [done|]. rewrite uint64_of_len by done.
  unfold messageHeaderLength in *. pose proof (zlen_nonneg (msg_Data m)).
  rewrite make_bytes_Ok by lia.
  replace (Z.to_nat _) with (8 + (8 + (8 + length (msg_Data m))))%nat by (unfold zlen; lia).
  rewrite !replicate_add. slice_eval. done.
Qed.

Lemma Message_unmarshal_marshal recv m :
  wf_Message m → Message_MarshalBinary m ≫= Message_UnmarshalBinary recv = Ok m.
Proof.
  intros Hm. rewrite Message_MarshalBinary_eq by done. cbn [mbind go_bind].
  destruct Hm as (Ht & Hf & Hd & Hl). destruct (len_u64 _ _ Hl) as [Hu _]; [done|].
  assert (u64 (uint64_of_int (msg_Type m))) by apply wrap64_u64.
  unfold Message_UnmarshalBinary, messageHeaderLength in *.
  pose proof (zlen_nonneg (msg_Data m)).
  slice_eval. rewrite make_bytes_Ok by lia. slice_eval.
  rewrite int_of_uint64_of_int by done.
  rewrite copy_full by (rewrite length_replicate; unfold zlen; lia). by destruct m.
Qed.

(** The frame splits into the 24-byte header and the data. *)
Definition message_header (m : Message) : list Z :=
  be_bytes 8 (zlen (msg_Data m)) ++ be_bytes 8 (uint64_of_int (msg_Type m)) ++
  be_bytes 8 (msg_From m).

Definition message_wire (m : Message) : list Z := message_header m ++ msg_Data m.

Lemma message_wire_Marshal m : wf_Message m → Message_MarshalBinary m = Ok (message_wire m).
Proof.
  intros. rewrite Message_MarshalBinary_eq by done. unfold message_wire, message_header.
  by rewrite <-!app_assoc.
Qed.

Lemma zlen_message_header m : zlen (message_header m) = 24.
Proof. unfold message_header. by autorewrite with zlen. Qed.

(** What [ReadFrom] does once the header of [m] has been read. *)
Lemma ReadFrom_header m recv f f' :
  wf_Message m →
  Read messageHeaderLength f = (message_header m, None, f') →
  Message_ReadFrom recv f =
    let '(got, err, f'') := Read (zlen (msg_Data m)) f' in
    (24 + zlen got,
     match err with
     | Some e => Err (Wrapf "reading message data" e)
     | None =>
         if negb (zlen got =? zlen (msg_Data m))
         then Err (Errorf "incomplete data buffer read" [])
         else Ok (mkMessage (msg_Type m) (msg_From m) (fill (zlen (msg_Data m)) got))
     end, f'').
Proof.
  intros (Ht & Hf & Hd & Hl) Hread. destruct (len_u64 _ _ Hl) as [Hu Hi]; [done|].
  assert (u64 (uint64_of_int (msg_Type m))) by apply wrap64_u64.
  unfold Message_ReadFrom. rewrite Hread, zlen_message_header.
  change (negb (24 =? messageHeaderLength)) with false. cbv beta iota zeta.
  rewrite fill_exact by apply zlen_message_header.
  unfold message_header, messageHeaderLength in *. pose proof (zlen_nonneg (msg_Data m)).
  slice_eval. rewrite int_of_len by done. rewrite make_bytes_Ok by lia. go_reduce.
  rewrite int_of_uint64_of_int by done.
  destruct (Read _ f') as [[got err] f'']. destruct err; [done|]. by case_match.
Qed.

Lemma ReadFrom_frame recv m rest f :
  wf_Message m → msg_Data m ≠ [] →
  Message_ReadFrom recv ((message_wire m ++ rest, None) :: f) =
    (24 + zlen (msg_Data m), Ok m,
     if bool_decide (rest = []) then f else (rest, None) :: f).
Proof.
  intros Hm Hd. unfold message_wire. rewrite <-app_assoc.
  rewrite (ReadFrom_header m recv _ ((msg_Data m ++ rest, None) :: f)); [|done|].
  2:{ change messageHeaderLength with 24. rewrite <-(zlen_message_header m).
      apply Read_exact. by destruct (msg_Data m). }
  case_bool_decide as Hr.
  - subst rest. rewrite app_nil_r, Read_all. cbv beta iota zeta.
    rewrite Z.eqb_refl, fill_exact by done. by destruct m.
  - rewrite Read_exact by done. cbv beta iota zeta.
    rewrite Z.eqb_refl, fill_exact by done. by destruct m.
Qed.

Lemma ReadFrom_EOF recv : Message_ReadFrom recv [] =
  (0, Err (Wrapf "reading message header" (Sentinel io_EOF)), []).
Proof. done. Qed.

(** What a delivered message becomes in the loop. *)
Definition classify (m : Message) : go incoming :=
  if msg_Type m =? messageRequestReply
  then r ← requestReply_Unpack zero_RR (msg_Data m); Ok (ToRPC (msg_From m) r)
  else Ok (ToIn m).

Lemma reader_step_frame m rest f :
  wf_Message m → msg_Data m ≠ [] →
  reader_step ((message_wire m ++ rest, None) :: f) =
    (classify m, if bool_decide (rest = []) then f else (rest, None) :: f).
Proof. intros. unfold reader_step. by rewrite ReadFrom_frame by done. Qed.

(** *** Envelopes *)
Lemma requestReply_Pack_eq r :
  wf_RR r →
  requestReply_Pack r =
    Ok (be_bytes 8 (zlen (rr_data r)) ++ be_bytes 8 (rr_key r) ++
        (if rr_request r then 1 else 0) :: rr_data r).
Proof.
  intros (_ & _ & Hl). unfold requestReply_Pack.
  destruct (len_u64 _ _ Hl) as [Hu _]; [done|]. rewrite uint64_of_len by done.
  unfold rrHeaderLength in *. pose proof (zlen_nonneg (rr_data r)).
  rewrite make_bytes_Ok by lia.
  replace (Z.to_nat _) with (8 + (8 + (1 + length (rr_data r))))%nat by (unfold zlen; lia).
  rewrite !replicate_add. change (replicate 1 0) with [0]. cbn [app].
  destruct (rr_request r); slice_eval; done.
Qed.

Lemma requestReply_Unpack_eq recv h k flag rest :
  wf_bytes h → length h = 8%nat → length k = 8%nat →
  requestReply_Unpack recv (h ++ k ++ flag :: rest) =
    if be_to_Z h <=? maxAlloc
    then Ok (mkRR (if flag =? 1 then true else rr_request recv) (be_to_Z k)
                  (copy (replicate (Z.to_nat (be_to_Z h)) 0) rest))
    else Panic MakeLenOutOfRange.
Proof.
  intros Hwf H1 H2. unfold requestReply_Unpack, rrHeaderLength.
  assert (zlen h = 8) as Hh by (unfold zlen; by rewrite H1).
  assert (zlen k = 8) as Hk by (unfold zlen; by rewrite H2).
  pose proof (be_to_Z_u64 h Hwf H1) as Hu. unfold u64 in Hu.
  slice_eval. unfold make_bytes. replace (0 <=? be_to_Z h) with true by lia.
  cbn [andb]. destruct (be_to_Z h <=? maxAlloc); [|done]. slice_eval. by case_match.
Qed.

Lemma requestReply_unpack_pack r :
  wf_RR r → requestReply_Pack r ≫= requestReply_Unpack zero_RR = Ok r.
Proof.
  intros Hr. rewrite requestReply_Pack_eq by done. destruct Hr as (Hk & Hd & Hl).
  destruct (len_u64 _ _ Hl) as [Hu _]; [done|]. cbn [mbind go_bind].
  unfold rrHeaderLength in Hl.
  rewrite requestReply_Unpack_eq by (apply wf_be_bytes || apply length_be_bytes).
  rewrite !be64_roundtrip by done. guard_true.
  rewrite copy_full by (rewrite length_replicate; unfold zlen; lia).
  by destruct r as [[] k d].
Qed.

Lemma requestReply_Unpack_short recv b :
  zlen b < rrHeaderLength → is_panic (requestReply_Unpack recv b) = true.
Proof.
  unfold rrHeaderLength. intros Hl. unfold requestReply_Unpack.
  destruct (slice b 0 8) as [h| |] eqn:E1; [|by apply slice_not_Err in E1|done].
  apply slice_inv in E1 as (_ & _ & Hh & _). go_reduce.
  rewrite Uint_full by (unfold zlen in *; lia).
  destruct (slice b 8 16) as [k| |] eqn:E2; [|by apply slice_not_Err in E2|done].
  apply slice_inv in E2 as (_ & _ & Hk & _).
  rewrite Uint_full by (unfold zlen in *; lia).
  unfold make_bytes. destruct (_ && _); [|done].
  unfold index. by rewrite lookup_ge_None_2 by (unfold zlen in *; lia).
Qed.

(** A buffer of at least 17 bytes has the shape of an envelope. *)
Lemma rr_buffer_split (b : list Z) :
  rrHeaderLength ≤ zlen b →
  ∃ (h k : list Z) flag rest,
    b = h ++ k ++ flag :: rest ∧ length h = 8%nat ∧ length k = 8%nat ∧ take 8 b = h.
Proof.
  unfold zlen, rrHeaderLength. intros Hl.
  do 17 (destruct b as [|? b]; [cbn in Hl; lia|]).
  by eexists [_;_;_;_;_;_;_;_], [_;_;_;_;_;_;_;_], _, _.
Qed.

(** *** The loop over whole frames *)
Lemma reader_loop_chunk ms xs fuel f xs' e :
  Forall (λ m, wf_Message m ∧ msg_Data m ≠ []) ms → ms ≠ [] →
  Forall2 (λ m x, classify m = Ok x) ms xs →
  reader_loop fuel f = (xs', e) →
  reader_loop (length ms + fuel) ((concat (message_wire <$> ms), None) :: f) = (xs ++ xs', e).
Proof.
  intros Hwf Hne Hcl Hf. revert Hwf Hne.
  induction Hcl as [|m x ms xs Hx Hcl IH]; intros Hwf Hne; [done|].
  apply Forall_cons in Hwf as [[Hm Hd] Hwf].
  cbn [fmap list_fmap concat length Nat.add reader_loop].
  rewrite reader_step_frame by done. rewrite Hx.
  destruct ms as [|m' ms].
  - inversion Hcl; subst. cbn [fmap list_fmap concat]. rewrite bool_decide_eq_true_2 by done.
    cbn. by rewrite Hf.
  - rewrite bool_decide_eq_false_2.
    2:{ cbn. unfold message_wire, message_header. intros Hnil.
        apply (f_equal length) in Hnil. rewrite !length_app, !length_be_bytes in Hnil.
        cbn in Hnil. lia. }
    by rewrite IH.
Qed.

(** What is put on the stream: [Announce] frames a plain message, [Call] and
    [handleRPC] frame an envelope. *)
Definition frame_of (x : incoming) : go Message :=
  match x with
  | ToIn m => Ok m
  | ToRPC from r =>
      d ← requestReply_Pack r;
      Ok (mkMessage messageRequestReply from d)
  end.

(** What a sender of this program frames: values of the Go types, in frames that
    [make] can allocate, a plain message with data and not of the type reserved for
    envelopes.  Data is required because [ReadFrom] makes a second [Read] for
    it, and what a connection answers to a [Read] of no bytes is its own affair;
    an envelope is never empty. *)
Definition wf_incoming (x : incoming) : Prop :=
  match x with
  | ToIn m => wf_Message m ∧ msg_Data m ≠ [] ∧ msg_Type m ≠ messageRequestReply
  | ToRPC from r =>
      u64 from ∧ wf_RR r ∧
      messageHeaderLength + rrHeaderLength + zlen (rr_data r) ≤ maxAlloc
  end.

Lemma frame_of_wf x :
  wf_incoming x →
  ∃ m, frame_of x = Ok m ∧ wf_Message m ∧ msg_Data m ≠ [] ∧ classify m = Ok x.
Proof.
  destruct x as [from r|m]; cbn; intros Hx.
  - destruct Hx as (Hf & Hr & Hl). pose proof (requestReply_unpack_pack r Hr) as Hrt.
    rewrite requestReply_Pack_eq in Hrt |- * by done. cbn [mbind go_bind] in *.
    eexists. split; [done|]. unfold wf_Message, classify; cbn [msg_Type msg_From msg_Data].
    split_and!; try done.
    + destruct Hr as (_ & Hd & _).
      repeat apply Forall_app_2; [apply wf_be_bytes..|]. apply Forall_cons.
      split; [destruct (rr_request r); unfold u8; lia|done].
    + autorewrite with zlen. unfold rrHeaderLength, messageHeaderLength in *. lia.
    + rewrite Z.eqb_refl. by rewrite Hrt.
  - destruct Hx as (Hm & Hd & Ht). exists m. split_and!; try done.
    unfold classify. by rewrite (proj2 (Z.eqb_neq _ _)) by done.
Qed.

Lemma frames_of_wf xs ws :
  Forall wf_incoming xs →
  Forall2 (λ x w, frame_of x ≫= Message_MarshalBinary = Ok w) xs ws →
  ∃ ms, Forall (λ m, wf_Message m ∧ msg_Data m ≠ []) ms ∧
        Forall2 (λ m x, classify m = Ok x) ms xs ∧ ws = message_wire <$> ms.
Proof.
  intros Hwf Hw. revert Hwf. induction Hw as [|x w xs ws Hx Hw IH]; intros Hwf.
  { exists []. repeat constructor. }
  apply Forall_cons in Hwf as [Hwx Hwf]. destruct (IH Hwf) as (ms & Hms & Hcl & ->).
  destruct (frame_of_wf x Hwx) as (m & Hm & Hmw & Hmd & Hmc).
  rewrite Hm in Hx. cbn in Hx. rewrite message_wire_Marshal in Hx by done.
  simplify_eq. exists (m :: ms). split_and!; by constructor.
Qed.

Lemma reader_loop_chunks xss wss k :
  Forall (λ xs, xs ≠ [] ∧ Forall wf_incoming xs) xss →
  Forall2 (Forall2 (λ x w, frame_of x ≫= Message_MarshalBinary = Ok w)) xss wss →
  reader_loop (length (concat xss) + S k) ((λ ws, (concat ws, None)) <$> wss) =
    (concat xss, ReaderEOF).
Proof.
  intros Hwf Hw. revert Hwf. induction Hw as [|xs ws xss wss Hx Hw IH]; intros Hwf; [done|].
  apply Forall_cons in Hwf as [[Hne Hm] Hwf].
  destruct (frames_of_wf xs ws Hm Hx) as (ms & Hms & Hcl & ->).
  cbn [fmap list_fmap concat]. rewrite length_app, <-Nat.add_assoc.
  rewrite <-(Forall2_length _ _ _ Hcl).
  apply reader_loop_chunk; [done| |done|by apply IH].
  intros ->. by inversion Hcl; subst.
Qed.

(** ** Properties *)

(** C27: the messaging stream delivers in order.  Take any sequence of plain
    messages that carry data and are not of the type reserved for envelopes,
    and of request/reply envelopes with any data, framed and written.  If the frames
    arrive in chunks that hold whole frames, the reader loop of the other end
    hands on exactly that sequence, in that order, and then ends quietly on
    end-of-file. *)
Theorem reader_delivers_in_order xss wss fuel :
  Forall (λ xs, xs ≠ [] ∧ Forall wf_incoming xs) xss →
  Forall2 (Forall2 (λ x w, frame_of x ≫= Message_MarshalBinary = Ok w)) xss wss →
  (length (concat xss) < fuel)%nat →
  reader_loop fuel ((λ ws, (concat ws, None)) <$> wss) = (concat xss, ReaderEOF).
Proof.
  intros Hwf Hw Hf.
  replace fuel with (length (concat xss) + S (fuel - length (concat xss) - 1))%nat by lia.
  by apply reader_loop_chunks.
Qed.

Definition sample_items : list incoming :=
  [ToIn (mkMessage MessageTest 5 [1; 2; 3; 4]); ToRPC 6 (mkRR true 77 [9])].

Lemma sample_items_wf : Forall wf_incoming sample_items.
Proof.
  unfold sample_items. repeat (apply Forall_cons; split); try by apply Forall_nil.
  - split_and!; try done. split_and!; try done. by repeat constructor.
  - split_and!; try done. split_and!; try done. by repeat constructor.
Qed.

Lemma reader_delivers_in_order_witness :
  ∃ wss, reader_loop 3 ((λ ws, (concat ws, None)) <$> wss) = (sample_items, ReaderEOF).
Proof.
  eexists. apply (reader_delivers_in_order [sample_items]).
  - apply Forall_cons. split; [|by apply Forall_nil]. split; [done|apply sample_items_wf].
  - apply Forall2_cons. split; [|by apply Forall2_nil].
    repeat (apply Forall2_cons; split); [vm_compute; reflexivity..|]. by apply Forall2_nil.
  - cbn. lia.
Defined.

(** The limit of this: a message without data is not delivered when it is the
    last thing on a stream whose [Read] reports end-of-file also when it is
    asked for no bytes.  The read of the zero bytes of data then ends the loop as if
    the message had not been there. *)
Theorem empty_message_lost m fuel :
  wf_Message m → msg_Data m = [] → reader_loop (S fuel) [(message_wire m, None)] = ([], ReaderEOF).
Proof.
  intros Hm Hd. cbn [reader_loop]. unfold reader_step, message_wire. rewrite Hd, app_nil_r.
  rewrite (ReadFrom_header m zero_Message _ []); [by rewrite Hd|done|].
  change messageHeaderLength with 24. rewrite <-(zlen_message_header m). apply Read_all.
Qed.

(** [Pack] and [Unpack] are inverse on envelopes. [Unpack] itself panics
    exactly on buffers shorter than its 17-byte header and on a declared length
    that [make] refuses; it has no error result. *)
Theorem envelope_codec :
  (∀ r, wf_RR r → requestReply_Pack r ≫= requestReply_Unpack zero_RR = Ok r) ∧
  (∀ recv b, wf_bytes b →
     is_panic (requestReply_Unpack recv b) = true ↔
     zlen b < rrHeaderLength ∨ maxAlloc < be_to_Z (take 8 b)).
Proof.
  split; [apply requestReply_unpack_pack|]. intros recv b Hwf.
  destruct (Z.lt_ge_cases (zlen b) rrHeaderLength) as [Hs|Hs].
  { split; [by left|]. intros _. by apply requestReply_Unpack_short. }
  destruct (rr_buffer_split b Hs) as (h & k & flag & rest & -> & Hh & Hk & ->).
  apply Forall_app in Hwf as [Hwh _]. rewrite requestReply_Unpack_eq by done.
  destruct (Z.leb_spec (be_to_Z h) maxAlloc); cbn; split; intros; try done; lia.
Qed.

(** A peer can take the server down with one frame: a well-formed message
    of type [messageRequestReply] with 1 to 16 bytes of data makes the reader
    loop panic (in a goroutine without [recover]). *)
Theorem short_envelope_panics m rest f fuel :
  wf_Message m → msg_Type m = messageRequestReply →
  0 < zlen (msg_Data m) < rrHeaderLength →
  ∃ p, reader_loop (S fuel) ((message_wire m ++ rest, None) :: f) = ([], ReaderPanic p).
Proof.
  intros Hm Ht [Hd Hs]. cbn [reader_loop].
  rewrite reader_step_frame by (done || by intros Hn; rewrite Hn in Hd).
  unfold classify. rewrite Ht. cbn [Z.eqb messageRequestReply].
  pose proof (requestReply_Unpack_short zero_RR _ Hs) as Hp.
  destruct (requestReply_Unpack _ _); [done..|]. cbn. by eexists.
Qed.

Lemma short_envelope_panics_witness :
  ∃ p, reader_loop 1 [(message_wire (mkMessage messageRequestReply 5 [0]) ++ [], None)] =
       ([], ReaderPanic p).
Proof.
  apply (short_envelope_panics (mkMessage messageRequestReply 5 [0]) [] [] 0); [|done|done].
  split_and!; try done. by repeat constructor.
Defined.

(** A frame whose data is split over two reads is refused although every
    byte arrives: [ReadFrom] performs a single [Read] for the data and reports
    an incomplete buffer. *)
Theorem split_data_refused recv m d1 d2 f :
  wf_Message m → msg_Data m = d1 ++ d2 → d1 ≠ [] → d2 ≠ [] →
  Message_ReadFrom recv ((message_header m ++ d1, None) :: (d2, None) :: f) =
    (24 + zlen d1, Err (Errorf "incomplete data buffer read" []), (d2, None) :: f).
Proof.
  intros Hm Hd H1 H2.
  rewrite (ReadFrom_header m recv _ ((d1, None) :: (d2, None) :: f)); [|done|].
  2:{ change messageHeaderLength with 24. rewrite <-(zlen_message_header m).
      by apply Read_exact. }
  assert (0 < zlen d2) by (destruct d2; [done|]; unfold zlen; cbn; lia).
  rewrite Hd, zlen_app. unfold Read. replace (zlen d1 <=? _) with true by lia.
  cbv beta iota. by replace (negb _) with true by lia.
Qed.

Lemma split_data_refused_witness :
  Message_ReadFrom zero_Message
    [(message_header (mkMessage MessageTest 5 [1; 2; 3; 4]) ++ [1; 2], None); ([3; 4], None)] =
    (26, Err (Errorf "incomplete data buffer read" []), [([3; 4], None)]).
Proof.
  apply (split_data_refused zero_Message (mkMessage MessageTest 5 [1; 2; 3; 4]) [1; 2] [3; 4] []);
    [|done..].
  split_and!; try done. by repeat constructor.
Defined.
