(* ===== verification/Messaging.v ===== *)
(** * Messaging: the registry of messaging streams

    [messaging/channel.go]: [Register], the reader and writer goroutines of a
    stream, the goroutine that waits for both, [forget], [write] and
    [Announce], as a transition system over the registry and the streams ever
    registered.  The framing is in [Message]. *)
From S2P Require Import Prelude GoStd Message.

Open Scope Z_scope.

(** Where a reader is: reading a frame, sending it to the handler, or returned. *)
Inductive reader_state := Reading | Sending (m : Message) | ReaderDone.

(** [messageChannel] and the goroutines of one registration. *)
Record comm := mkComm {
  c_peer : Z;
  c_in : chan Message;
  c_out : chan Message;
  c_connClosed : bool;
  c_reader : reader_state;
  c_writerDone : bool;
  c_waiterDone : bool;
}.

Record registry := mkReg {
  r_peers : gmap Z nat;        (* [peers]: the index of the registered stream *)
  r_comms : list comm;         (* every stream registered so far *)
  r_crash : option panic;      (* a panic outside of [write]'s recover *)
}.

Definition empty_registry : registry := mkReg ∅ [] None.

Definition reg_crash (s : registry) (p : panic) : registry := mkReg (r_peers s) (r_comms s) (Some p).
Definition set_comm (s : registry) (i : nat) (c : comm) : registry :=
  mkReg (r_peers s) (<[i := c]> (r_comms s)) (r_crash s).

(** [Register]: a second stream for a registered peer panics. *)
Definition Register (s : registry) (peer : Z) : registry :=
  match r_peers s !! peer with
  | Some _ => reg_crash s (PanicMsg "duplicated messaging stream when it should not be possible")
  | None =>
      mkReg (<[peer := length (r_comms s)]> (r_peers s))
        (r_comms s ++ [mkComm peer (make_chan 16) (make_chan 16) false Reading false false])
        (r_crash s)
  end.

(** [forget]: whatever stream is registered under the identifier. *)
Definition forget (s : registry) (peer : Z) : registry :=
  match r_peers s !! peer with
  | None => s
  | Some i =>
      let s := mkReg (delete peer (r_peers s)) (r_comms s) (r_crash s) in
      match r_comms s !! i with
      | None => s
      | Some c =>
          match chan_close (c_in c), chan_close (c_out c) with
          | Ok ci, Ok co =>
              set_comm s i (mkComm (c_peer c) ci co true (c_reader c) (c_writerDone c) (c_waiterDone c))
          | _, _ => reg_crash s CloseOfClosedChannel
          end
      end
  end.

Inductive write_result := Written (s : registry) | WriteBlocks | WriteErr (e : error).

(** [write]: a panic of the send is recovered and reported as [ErrPeerGone]. *)
Definition reg_write (s : registry) (peer : Z) (m : Message) : write_result :=
  match r_peers s !! peer ≫= (λ i, (i,.) <$> r_comms s !! i) with
  | None => WriteErr (Sentinel ErrPeerGone)
  | Some (i, c) =>
      match chan_send (c_out c) m with
      | Sent o => Written (set_comm s i (mkComm (c_peer c) (c_in c) o (c_connClosed c) (c_reader c)
                                           (c_writerDone c) (c_waiterDone c)))
      | SendBlocks => WriteBlocks
      | SendPanics => WriteErr (Sentinel ErrPeerGone)
      end
  end.

(** [Announce]: one [write] per registered peer, in visiting order. *)
Definition Announce (range : gmap Z nat → list (Z * nat)) (s : registry) (self t : Z) (b : list Z)
    : list (Z * Message) :=
  (λ '(peer, _), (peer, mkMessage t self b)) <$> range (r_peers s).

Inductive reg_label :=
| RRegister (peer : Z)
| RRead (i : nat) (m : option Message)   (* [None]: the read fails *)
| RReaderSend (i : nat)
| RConsume (i : nat)
| RWriterTake (i : nat) (fails : bool)
| RWait (i : nat)
| RWrite (peer : Z) (m : Message).

Definition with_reader (c : comm) (r : reader_state) : comm :=
  mkComm (c_peer c) (c_in c) (c_out c) (c_connClosed c) r (c_writerDone c) (c_waiterDone c).

Definition reg_step (l : reg_label) (s : registry) : option registry :=
  match r_crash s with
  | Some _ => None
  | None =>
  match l with
  | RRegister peer => Some (Register s peer)
  | RRead i m =>
      c ← r_comms s !! i;
      match c_reader c with
      | Reading =>
          match m with
          | None => Some (forget (set_comm s i (with_reader c ReaderDone)) (c_peer c))
          | Some m =>
              if c_connClosed c then None
              else if msg_Type m =? messageRequestReply then
                match requestReply_Unpack zero_RR (msg_Data m) with
                | Panic p => Some (reg_crash s p)
                | _ => Some s
                end
              else Some (set_comm s i (with_reader c (Sending m)))
          end
      | _ => None
      end
  | RReaderSend i =>
      c ← r_comms s !! i;
      match c_reader c with
      | Sending m =>
          match chan_send (c_in c) m with
          | Sent ci => Some (set_comm s i (mkComm (c_peer c) ci (c_out c) (c_connClosed c) Reading
                                             (c_writerDone c) (c_waiterDone c)))
          | SendBlocks => None
          | SendPanics => Some (reg_crash s SendOnClosedChannel)
          end
      | _ => None
      end
  | RConsume i =>
      c ← r_comms s !! i;
      match chan_recv (c_in c) with
      | Received _ ci => Some (set_comm s i (mkComm (c_peer c) ci (c_out c) (c_connClosed c)
                                               (c_reader c) (c_writerDone c) (c_waiterDone c)))
      | _ => None
      end
  | RWriterTake i fails =>
      c ← r_comms s !! i;
      if c_writerDone c then None else
      match chan_recv (c_out c) with
      | Received _ co => Some (set_comm s i (mkComm (c_peer c) (c_in c) co (c_connClosed c)
                                               (c_reader c) (fails || c_connClosed c) (c_waiterDone c)))
      | RecvClosed => Some (set_comm s i (mkComm (c_peer c) (c_in c) (c_out c) (c_connClosed c)
                                               (c_reader c) true (c_waiterDone c)))
      | RecvBlocks => None
      end
  | RWait i =>
      c ← r_comms s !! i;
      match c_reader c with
      | ReaderDone =>
          if c_writerDone c && negb (c_waiterDone c)
          then Some (forget (set_comm s i (mkComm (c_peer c) (c_in c) (c_out c) (c_connClosed c)
                                             (c_reader c) true true)) (c_peer c))
          else None
      | _ => None
      end
  | RWrite peer m =>
      match reg_write s peer m with
      | Written s' => Some s'
      | WriteBlocks => None
      | WriteErr _ => Some s
      end
  end
  end.

(** The same system when no peer ever comes back and none sends a malformed
    request/reply envelope. *)
Definition malformed_envelope (m : Message) : bool :=
  (msg_Type m =? messageRequestReply) && is_panic (requestReply_Unpack zero_RR (msg_Data m)).

Definition fresh_step (l : reg_label) (s : registry) : option registry :=
  match l with
  | RRegister peer => if bool_decide (peer ∈ c_peer <$> r_comms s) then None else reg_step l s
  | RRead _ (Some m) => if malformed_envelope m then None else reg_step l s
  | _ => reg_step l s
  end.

(** ** The invariant without re-registration *)
Record reg_inv (s : registry) : Prop := {
  ri_crash : r_crash s = None;
  ri_unique : NoDup (c_peer <$> r_comms s);
  ri_mapped peer i : r_peers s !! peer = Some i →
    ∃ c, r_comms s !! i = Some c ∧ c_peer c = peer ∧
         ch_closed (c_in c) = false ∧ ch_closed (c_out c) = false;
  ri_closed i c : r_comms s !! i = Some c → ch_closed (c_in c) = true → c_reader c = ReaderDone;
}.

(** Replacing a stream by one with the same peer and the same open channels. *)
Lemma reg_inv_set s i c c' :
  reg_inv s → r_comms s !! i = Some c → c_peer c' = c_peer c →
  ch_closed (c_in c') = ch_closed (c_in c) → ch_closed (c_out c') = ch_closed (c_out c) →
  (ch_closed (c_in c') = true → c_reader c' = ReaderDone) →
  reg_inv (set_comm s i c').
Proof.
  intros [Hcr Hu Hm Hcl] Hi Hp Hci Hco Hr.
  pose proof (lookup_lt_Some _ _ _ Hi) as Hlt. split; cbn.
  - done.
  - rewrite list_fmap_insert, list_insert_id; [done|].
    by rewrite list_lookup_fmap, Hi, Hp.
  - intros peer j Hj. destruct (Hm peer j Hj) as (d & Hd & H1 & H2 & H3).
    destruct (decide (i = j)) as [->|Hne].
    + exists c'. rewrite list_lookup_insert_eq by done. simplify_eq. by rewrite Hp, Hci, Hco.
    + exists d. by rewrite list_lookup_insert_ne.
  - intros j d Hd Hclosed. destruct (decide (i = j)) as [->|Hne].
    + rewrite list_lookup_insert_eq in Hd by done. simplify_eq. by apply Hr.
    + rewrite list_lookup_insert_ne in Hd by done. by eapply Hcl.
Qed.

(** Only the stream itself forgets its peer, and only when its reader is done. *)
Lemma reg_inv_forget s i c :
  reg_inv s → r_comms s !! i = Some c → c_reader c = ReaderDone → reg_inv (forget s (c_peer c)).
Proof.
  intros Hinv Hi Hr. pose proof Hinv as [Hcr Hu Hm Hcl]. unfold forget.
  destruct (r_peers s !! c_peer c) as [j|] eqn:Ej; [|done].
  destruct (Hm _ _ Ej) as (d & Hd & Hp & Hin & Hout). cbn [r_comms].
  assert (j = i) as ->.
  { eapply (NoDup_lookup _ _ _ (c_peer c) Hu).
    - by rewrite list_lookup_fmap, Hd, <-Hp.
    - by rewrite list_lookup_fmap, Hi. }
  simplify_eq. rewrite Hi. unfold chan_close. rewrite Hin, Hout.
  pose proof (lookup_lt_Some _ _ _ Hi) as Hlt. split; cbn.
  - done.
  - rewrite list_fmap_insert, list_insert_id; [done|]. by rewrite list_lookup_fmap, Hi.
  - intros peer k [Hne Hk]%lookup_delete_Some. destruct (Hm _ _ Hk) as (e & He & Hpe & ? & ?).
    exists e. rewrite list_lookup_insert_ne; [done|]. intros ->. simplify_eq.
  - intros k e He Hclosed. destruct (decide (i = k)) as [->|Hne].
    + rewrite list_lookup_insert_eq in He by done. by simplify_eq.
    + rewrite list_lookup_insert_ne in He by done. by eapply Hcl.
Qed.

Lemma reg_inv_Register s peer :
  reg_inv s → peer ∉ c_peer <$> r_comms s → reg_inv (Register s peer).
Proof.
  intros [Hcr Hu Hm Hcl] Hin. unfold Register.
  destruct (r_peers s !! peer) as [j|] eqn:Ej.
  { exfalso. destruct (Hm _ _ Ej) as (c & Hc & <- & _). apply Hin.
    apply list_elem_of_fmap. exists c. split; [done|by eapply list_elem_of_lookup_2]. }
  split; cbn; [done| | |].
  - rewrite fmap_app. apply NoDup_app. split_and!; [done| |apply NoDup_singleton]. set_solver.
  - intros p i Hi. destruct (decide (p = peer)) as [->|Hne].
    + rewrite lookup_insert_eq in Hi. simplify_eq. eexists.
      rewrite lookup_app_r, Nat.sub_diag by lia. by split_and!.
    + rewrite lookup_insert_ne in Hi by done. destruct (Hm _ _ Hi) as (c & Hc & ?).
      exists c. split; [by apply lookup_app_l_Some|done].
  - intros i c [Hi|[_ Hi]]%lookup_app_Some Hclosed; [by eapply Hcl|].
    destruct (i - length (r_comms s))%nat; simplify_eq/=.
Qed.

(** A reader that returns, and the waiter: record it, then forget the peer. *)
Lemma reg_inv_finish s i c c' :
  reg_inv s → r_comms s !! i = Some c → c_peer c' = c_peer c →
  ch_closed (c_in c') = ch_closed (c_in c) → ch_closed (c_out c') = ch_closed (c_out c) →
  c_reader c' = ReaderDone → reg_inv (forget (set_comm s i c') (c_peer c)).
Proof.
  intros Hinv Hi Hp Hin Hout Hr. rewrite <-Hp.
  apply (reg_inv_forget _ i); [by apply (reg_inv_set s i c)| |done].
  cbn. apply list_lookup_insert_eq. by eapply lookup_lt_Some.
Qed.

Lemma reg_inv_write s peer m s' : reg_inv s → reg_write s peer m = Written s' → reg_inv s'.
Proof.
  intros Hinv. unfold reg_write. destruct (r_peers s !! peer) as [i|]; cbn; [|done].
  destruct (r_comms s !! i) as [c|] eqn:Ei; cbn; [|done]. unfold chan_send.
  destruct (ch_closed (c_out c)) eqn:Eo; [done|]. destruct (_ <? _)%nat; [|done]. intros [= <-].
  apply (reg_inv_set s i c); try done. by apply (ri_closed s Hinv i c Ei).
Qed.

(** The stream a goroutine's step is about. *)
Local Ltac at_comm Hs i c Ei :=
  destruct (r_comms _ !! i) as [c|] eqn:Ei in Hs; [|done]; cbn in Hs.

Lemma fresh_step_inv l s s' : reg_inv s → fresh_step l s = Some s' → reg_inv s'.
Proof.
  intros Hinv Hs. pose proof (ri_crash s Hinv) as Hcr. pose proof (ri_closed s Hinv) as Hr.
  destruct l as [peer|i [m|]|i|i|i fails|i|peer m]; unfold fresh_step, reg_step in Hs.
  - case_bool_decide; [done|]. rewrite Hcr in Hs. injection Hs as <-. by apply reg_inv_Register.
  - destruct (malformed_envelope m) eqn:Em; [done|]. rewrite Hcr in Hs. at_comm Hs i c Ei.
    destruct (c_reader c) eqn:Er; [|done..].
    destruct (c_connClosed c); [done|]. unfold malformed_envelope in Em.
    destruct (msg_Type m =? _); cbn in Em; [by destruct (requestReply_Unpack _ _); simplify_eq|].
    injection Hs as <-. apply (reg_inv_set s i c); try done. cbn. intros Hx.
    specialize (Hr i c Ei Hx). congruence.
  - rewrite Hcr in Hs. at_comm Hs i c Ei. destruct (c_reader c) eqn:Er; [|done..].
    injection Hs as <-. by eapply reg_inv_finish.
  - rewrite Hcr in Hs. at_comm Hs i c Ei. destruct (c_reader c) as [|m|] eqn:Er; [done| |done].
    unfold chan_send in Hs.
    destruct (ch_closed (c_in c)) eqn:Ec; [specialize (Hr i c Ei Ec); congruence|].
    destruct (_ <? _)%nat; [|done]. injection Hs as <-.
    apply (reg_inv_set s i c); try done; cbn; congruence.
  - rewrite Hcr in Hs. at_comm Hs i c Ei.
    unfold chan_recv in Hs. destruct (ch_buf (c_in c)); [by destruct (ch_closed (c_in c))|].
    injection Hs as <-. apply (reg_inv_set s i c); try done. by apply (Hr i c Ei).
  - rewrite Hcr in Hs. at_comm Hs i c Ei. destruct (c_writerDone c); [done|]. unfold chan_recv in Hs.
    destruct (ch_buf (c_out c)); [destruct (ch_closed (c_out c)) eqn:Eo; [|done]|];
      injection Hs as <-; apply (reg_inv_set s i c); try done; by apply (Hr i c Ei).
  - rewrite Hcr in Hs. at_comm Hs i c Ei. destruct (c_reader c) eqn:Er; [done..|].
    destruct (c_writerDone c && _); [|done]. injection Hs as <-. by eapply reg_inv_finish.
  - rewrite Hcr in Hs. destruct (reg_write s peer m) eqn:Ew; simplify_eq; [|done].
    by eapply reg_inv_write.
Qed.

(** ** Properties *)

(** As long as no peer registers a second time or sends a malformed
    request/reply envelope, the messaging goroutines never panic: whatever the interleaving of readers, writers, waiters and
    callers of [write], no channel is closed twice, nothing is sent on a closed
    inbound channel, and every registered stream is open. *)
Theorem messaging_never_panics s :
  reachable fresh_step empty_registry s →
  r_crash s = None ∧
  ∀ peer i, r_peers s !! peer = Some i →
    ∃ c, r_comms s !! i = Some c ∧ c_peer c = peer ∧ ch_closed (c_in c) = false.
Proof.
  intros Hr. assert (reg_inv s) as [Hcr _ Hm _].
  { revert s Hr. apply reachable_invariant; [|intros l s s'; apply fresh_step_inv].
    split; cbn; [done|by constructor|done|done]. }
  split; [done|]. intros peer i Hi. destruct (Hm peer i Hi) as (c & ? & ? & ? & _). by exists c.
Qed.

Definition sample_note : Message := mkMessage MessageTest 3 [1].

Lemma messaging_never_panics_witness :
  ∃ s, run fresh_step [RRegister 8; RRead 0 (Some sample_note); RReaderSend 0; RConsume 0;
         RRead 0 None; RWriterTake 0 false; RWait 0] empty_registry = Some s ∧ r_crash s = None.
Proof.
  destruct (run fresh_step [RRegister 8; RRead 0 (Some sample_note); RReaderSend 0; RConsume 0;
         RRead 0 None; RWriterTake 0 false; RWait 0] empty_registry) as [s|] eqn:E; [|done].
  exists s. split; [done|]. by apply (messaging_never_panics s (run_reachable _ _ _ _ E)).
Defined.

(** A peer that reconnects can crash the process.  The stream of the old
    session fails and forgets the peer; the new session registers its own
    stream; then the goroutine that waited for the old stream forgets the peer
    again, which closes the new stream's channels under its running reader; the
    next message read from the new stream is sent on a closed channel. *)
Theorem messaging_reconnect_crash :
  ∃ s1 s2, reachable reg_step empty_registry s1 ∧ r_crash s1 = None ∧ r_peers s1 !! 8 = Some 1%nat ∧
    reachable reg_step s1 s2 ∧ r_crash s2 = Some SendOnClosedChannel.
Proof.
  destruct (run reg_step [RRegister 8; RRead 0 None; RRegister 8; RRead 1 (Some sample_note)]
    empty_registry) as [s1|] eqn:E1; [|done].
  destruct (run reg_step [RWriterTake 0 false; RWait 0; RReaderSend 1] s1) as [s2|] eqn:E2.
  - exists s1, s2. pose proof (run_reachable _ _ _ _ E1). pose proof (run_reachable _ _ _ _ E2).
    vm_compute in E1. injection E1 as <-. vm_compute in E2. injection E2 as <-. by split_and!.
  - vm_compute in E1. injection E1 as <-. by vm_compute in E2.
Qed.

(** A peer that opens two messaging streams panics the server. *)
Lemma duplicate_stream_panics s peer i :
  r_crash s = None → r_peers s !! peer = Some i →
  ∃ s', reg_step (RRegister peer) s = Some s' ∧
    r_crash s' = Some (PanicMsg "duplicated messaging stream when it should not be possible").
Proof. intros Hc Hp. unfold reg_step. rewrite Hc. unfold Register. rewrite Hp. by eexists. Qed.
