(* ===== verification/Rpc.v ===== *)
(** * Rpc: request/reply calls over the messaging streams

    [messaging/rpc.go]: [Call], [handleRPC] and [HandleRequest] on one
    [Channel], as a transition system.  Every [Call] and every [handleRPC]
    goroutine is an element of a list; the unbuffered reply channel of a call
    (of a handler) is its index, and a send on it is a joint step of the two
    goroutines.  What [write] answers is part of the label. *)
From S2P Require Import Prelude GoStd Message.

Open Scope Z_scope.

(** Where a [Call] is: before [write], at its select, after it with
    [c.rr.Delete(key)] pending, or returned. *)
Inductive call_pc :=
| CallWrite
| CallSelect
| CallDeferred (res : go (list Z))
| CallReturned (res : go (list Z)).

Record call := mkCall {
  call_peer : Z;
  call_key : Z;
  call_data : list Z;
  call_at : call_pc;
}.

(** Where a [handleRPC] is.  A request: sending on [c.req], at its select,
    writing the reply.  A reply: looking the key up, sending on the channel it
    found, delivered. *)
Inductive handler_pc :=
| HSendRequest
| HSelect
| HWrite (data : list Z)
| HLookup
| HSendReply (i : nat)
| HDelivered (i : nat)
| HReturned.

Record handler := mkHandler {
  h_sender : Z;
  h_env : requestReply;
  h_at : handler_pc;
}.

(** The fields of [Channel] used here, and the goroutines. *)
Record rpc := mkRpc {
  rpc_self : Z;
  rpc_rr : gmap Z nat;               (* [rr]: the call whose channel is stored *)
  rpc_req : chan (list Z * nat);     (* [req]: data, and the handler to reply to *)
  rpc_taken : list nat;              (* requests the application holds *)
  rpc_calls : list call;
  rpc_handlers : list handler;
  rpc_wire : list (Z * Message);     (* messages accepted by [write] *)
  rpc_crash : option panic;
}.

Definition rpc_New (self : Z) : rpc := mkRpc self ∅ (make_chan 16) [] [] [] [] None.

Inductive rpc_label :=
| LCall (peer : Z) (data : list Z) (key : Z)   (* one attempt with a random key *)
| LCallWrite (i : nat) (ok : bool)
| LCallTimeout (i : nat)
| LCallReturn (i : nat)
| LArrive (sender : Z) (r : requestReply)      (* [go c.handleRPC(m.From, r)] *)
| LSendRequest (j : nat)
| LTake                                        (* the application receives from [HandleRequest] *)
| LAppReply (j : nat) (data : list Z)          (* and sends on [Reply] *)
| LHandlerTimeout (j : nat)
| LHandlerWrite (j : nat) (ok : bool)
| LLookup (j : nat)
| LSendReply (j : nat).

(** ** State updates *)
Definition set_call (s : rpc) (i : nat) (c : call) : rpc :=
  mkRpc (rpc_self s) (rpc_rr s) (rpc_req s) (rpc_taken s) (<[i := c]> (rpc_calls s))
    (rpc_handlers s) (rpc_wire s) (rpc_crash s).
Definition set_handler (s : rpc) (j : nat) (h : handler) : rpc :=
  mkRpc (rpc_self s) (rpc_rr s) (rpc_req s) (rpc_taken s) (rpc_calls s)
    (<[j := h]> (rpc_handlers s)) (rpc_wire s) (rpc_crash s).
Definition set_rr (s : rpc) (rr : gmap Z nat) : rpc :=
  mkRpc (rpc_self s) rr (rpc_req s) (rpc_taken s) (rpc_calls s) (rpc_handlers s) (rpc_wire s)
    (rpc_crash s).
Definition set_req (s : rpc) (req : chan (list Z * nat)) (taken : list nat) : rpc :=
  mkRpc (rpc_self s) (rpc_rr s) req taken (rpc_calls s) (rpc_handlers s) (rpc_wire s) (rpc_crash s).
Definition on_wire (s : rpc) (peer : Z) (m : Message) : rpc :=
  mkRpc (rpc_self s) (rpc_rr s) (rpc_req s) (rpc_taken s) (rpc_calls s) (rpc_handlers s)
    (rpc_wire s ++ [(peer, m)]) (rpc_crash s).
Definition rpc_panics (s : rpc) (p : panic) : rpc :=
  mkRpc (rpc_self s) (rpc_rr s) (rpc_req s) (rpc_taken s) (rpc_calls s) (rpc_handlers s)
    (rpc_wire s) (Some p).

Definition call_to (c : call) (pc : call_pc) : call :=
  mkCall (call_peer c) (call_key c) (call_data c) pc.
Definition handler_to (h : handler) (pc : handler_pc) : handler :=
  mkHandler (h_sender h) (h_env h) pc.

(** ** Statements *)

(** The loop that looks for a free key, with the key of one iteration. *)
Definition Call_start (s : rpc) (peer : Z) (data : list Z) (key : Z) : rpc :=
  match rpc_rr s !! key with
  | Some _ => s
  | None =>
      let i := length (rpc_calls s) in
      mkRpc (rpc_self s) (<[key := i]> (rpc_rr s)) (rpc_req s) (rpc_taken s)
        (rpc_calls s ++ [mkCall peer key data CallWrite]) (rpc_handlers s) (rpc_wire s) (rpc_crash s)
  end.

(** [c.write(peer, Message{..., Data: r.Pack()})] *)
Definition write_envelope (s : rpc) (peer : Z) (r : requestReply) (ok : bool) : go (option error * rpc) :=
  m ← frame_of (ToRPC (rpc_self s) r);
  Ok (if ok then (None, on_wire s peer m) else (Some (Sentinel ErrPeerGone), s)).

Definition Call_write (s : rpc) (i : nat) (c : call) (ok : bool) : rpc :=
  match write_envelope s (call_peer c) (mkRR true (call_key c) (call_data c)) ok with
  | Ok (None, s') => set_call s' i (call_to c CallSelect)
  | Ok (Some e, s') => set_call s' i (call_to c (CallDeferred (Err (Wrapf "sending request to peer" e))))
  | Err e => set_call s i (call_to c (CallDeferred (Err e)))
  | Panic p => rpc_panics s p
  end.

(** [handleRPC] enters the branch of [r.request]. *)
Definition handleRPC_start (s : rpc) (sender : Z) (r : requestReply) : rpc :=
  mkRpc (rpc_self s) (rpc_rr s) (rpc_req s) (rpc_taken s) (rpc_calls s)
    (rpc_handlers s ++ [mkHandler sender r (if rr_request r then HSendRequest else HLookup)])
    (rpc_wire s) (rpc_crash s).

(** The reply to a request carries its key back. *)
Definition handler_write (s : rpc) (j : nat) (h : handler) (data : list Z) (ok : bool) : rpc :=
  match write_envelope s (h_sender h) (mkRR false (rr_key (h_env h)) data) ok with
  | Panic p => rpc_panics s p
  | Ok (_, s') => set_handler s' j (handler_to h HReturned)
  | Err _ => set_handler s j (handler_to h HReturned)
  end.

(** [c.rr.LoadAndDelete(r.key)] *)
Definition handler_lookup (s : rpc) (j : nat) (h : handler) : rpc :=
  match rpc_rr s !! rr_key (h_env h) with
  | None => set_handler s j (handler_to h HReturned)
  | Some i =>
      set_handler (set_rr s (delete (rr_key (h_env h)) (rpc_rr s))) j (handler_to h (HSendReply i))
  end.

Definition rpc_step (l : rpc_label) (s : rpc) : option rpc :=
  match rpc_crash s with
  | Some _ => None
  | None =>
  match l with
  | LCall peer data key => Some (Call_start s peer data key)
  | LCallWrite i ok =>
      c ← rpc_calls s !! i;
      match call_at c with CallWrite => Some (Call_write s i c ok) | _ => None end
  | LCallTimeout i =>
      c ← rpc_calls s !! i;
      match call_at c with
      | CallSelect => Some (set_call s i (call_to c (CallDeferred (Err (Sentinel ErrRPCTimeout)))))
      | _ => None
      end
  | LCallReturn i =>
      c ← rpc_calls s !! i;
      match call_at c with
      | CallDeferred res =>
          Some (set_call (set_rr s (delete (call_key c) (rpc_rr s))) i (call_to c (CallReturned res)))
      | _ => None
      end
  | LArrive sender r => Some (handleRPC_start s sender r)
  | LSendRequest j =>
      h ← rpc_handlers s !! j;
      match h_at h, chan_send (rpc_req s) (rr_data (h_env h), j) with
      | HSendRequest, Sent req =>
          Some (set_handler (set_req s req (rpc_taken s)) j (handler_to h HSelect))
      | _, _ => None
      end
  | LTake =>
      match chan_recv (rpc_req s) with
      | Received (_, j) req => Some (set_req s req (j :: rpc_taken s))
      | _ => None
      end
  | LAppReply j data =>
      h ← rpc_handlers s !! j;
      match h_at h with
      | HSelect =>
          if bool_decide (j ∈ rpc_taken s) then Some (set_handler s j (handler_to h (HWrite data)))
          else None
      | _ => None
      end
  | LHandlerTimeout j =>
      h ← rpc_handlers s !! j;
      match h_at h with HSelect => Some (set_handler s j (handler_to h HReturned)) | _ => None end
  | LHandlerWrite j ok =>
      h ← rpc_handlers s !! j;
      match h_at h with HWrite data => Some (handler_write s j h data ok) | _ => None end
  | LLookup j =>
      h ← rpc_handlers s !! j;
      match h_at h with HLookup => Some (handler_lookup s j h) | _ => None end
  | LSendReply j =>
      h ← rpc_handlers s !! j;
      match h_at h with
      | HSendReply i =>
          c ← rpc_calls s !! i;
          match call_at c with
          | CallSelect =>
              Some (set_handler (set_call s i (call_to c (CallDeferred (Ok (rr_data (h_env h))))))
                      j (handler_to h (HDelivered i)))
          | _ => None
          end
      | _ => None
      end
  end
  end.

(** ** The invariant *)

(** The call a reply was matched with. *)
Definition target (pc : handler_pc) : option nat :=
  match pc with HSendReply i | HDelivered i => Some i | _ => None end.

(** Which branch of [handleRPC] a program point belongs to; both can return. *)
Definition serves (pc : handler_pc) (request : bool) : Prop :=
  match pc with
  | HSendRequest | HSelect | HWrite _ => request = true
  | HLookup | HSendReply _ | HDelivered _ => request = false
  | HReturned => True
  end.

Definition request_sent (s : rpc) (c : call) : Prop :=
  ∃ m, frame_of (ToRPC (rpc_self s) (mkRR true (call_key c) (call_data c))) = Ok m ∧
       (call_peer c, m) ∈ rpc_wire s.

Definition reply_delivered (s : rpc) (i : nat) (d : list Z) : Prop :=
  ∃ j h, rpc_handlers s !! j = Some h ∧ h_at h = HDelivered i ∧ rr_data (h_env h) = d.

Definition call_ok (s : rpc) (i : nat) (c : call) : Prop :=
  match call_at c with
  | CallWrite => True
  | CallSelect => request_sent s c
  | CallDeferred res | CallReturned res =>
      match res with
      | Ok d => request_sent s c ∧ reply_delivered s i d
      | Err e => (e = Sentinel ErrRPCTimeout ∧ request_sent s c) ∨
                 e = Wrapf "sending request to peer" (Sentinel ErrPeerGone)
      | Panic _ => False
      end
  end.

(** A reply was matched by its key, and the key is then no longer in the table. *)
Definition handler_ok (s : rpc) (j : nat) (h : handler) : Prop :=
  serves (h_at h) (rr_request (h_env h)) ∧
  ∀ i, target (h_at h) = Some i →
    (∃ c, rpc_calls s !! i = Some c ∧ call_key c = rr_key (h_env h)) ∧
    (∀ k, rpc_rr s !! k ≠ Some i) ∧
    (∀ j' h', rpc_handlers s !! j' = Some h' → target (h_at h') = Some i → j' = j).

(** Everything written is the request of a call or answers a request of the
    peer it goes to, with its key. *)
Definition wire_ok (s : rpc) (peer : Z) (m : Message) : Prop :=
  (∃ i c, rpc_calls s !! i = Some c ∧ call_peer c = peer ∧
     frame_of (ToRPC (rpc_self s) (mkRR true (call_key c) (call_data c))) = Ok m) ∨
  (∃ j h d, rpc_handlers s !! j = Some h ∧ h_sender h = peer ∧ rr_request (h_env h) = true ∧
     frame_of (ToRPC (rpc_self s) (mkRR false (rr_key (h_env h)) d)) = Ok m).

Record rpc_inv (s : rpc) : Prop := {
  pi_rr k i : rpc_rr s !! k = Some i → ∃ c, rpc_calls s !! i = Some c ∧ call_key c = k;
  pi_calls i c : rpc_calls s !! i = Some c → call_ok s i c;
  pi_handlers j h : rpc_handlers s !! j = Some h → handler_ok s j h;
  pi_wire peer m : (peer, m) ∈ rpc_wire s → wire_ok s peer m;
}.

(** What a later state keeps of an earlier one: the goroutines with what they
    were started with, and the deliveries. *)
Record extends (s s' : rpc) : Prop := {
  ex_self : rpc_self s' = rpc_self s;
  ex_calls i c : rpc_calls s !! i = Some c → ∃ c', rpc_calls s' !! i = Some c' ∧
    call_key c' = call_key c ∧ call_peer c' = call_peer c ∧ call_data c' = call_data c;
  ex_handlers j h : rpc_handlers s !! j = Some h → ∃ h', rpc_handlers s' !! j = Some h' ∧
    h_sender h' = h_sender h ∧ h_env h' = h_env h ∧
    (∀ i, h_at h = HDelivered i → h_at h' = HDelivered i);
  ex_wire : rpc_wire s ⊆ rpc_wire s';
}.

Lemma extends_call_ok s s' i c : extends s s' → call_ok s i c → call_ok s' i c.
Proof.
  intros [Hself _ Hh Hw] Hc.
  assert (request_sent s c → request_sent s' c) as Hsent.
  { intros (m & Hm & Hin). exists m. rewrite Hself. set_solver. }
  assert (∀ d, reply_delivered s i d → reply_delivered s' i d) as Hdel.
  { intros d (j & h & Hj & Ha & Hd). destruct (Hh j h Hj) as (h' & Hj' & _ & He & Ha').
    exists j, h'. rewrite He. eauto. }
  unfold call_ok in *. destruct (call_at c) as [| |[| |]|[| |]]; naive_solver.
Qed.

Lemma extends_wire_ok s s' peer m : extends s s' → wire_ok s peer m → wire_ok s' peer m.
Proof.
  intros [Hself Hc Hh _] [(i & c & Hi & Hp & Hf)|(j & h & d & Hj & Hs & Hr & Hf)].
  - left. destruct (Hc i c Hi) as (c' & Hi' & Hk & Hp' & Hd). exists i, c'.
    rewrite Hk, Hp', Hd, Hself. done.
  - right. destruct (Hh j h Hj) as (h' & Hj' & Hs' & He & _). exists j, h', d.
    rewrite Hs', He, Hself. done.
Qed.

Lemma extends_refl s : extends s s.
Proof. split; eauto 10. Qed.

Lemma extends_set_call s i c pc :
  rpc_calls s !! i = Some c → extends s (set_call s i (call_to c pc)).
Proof.
  intros Hi. split; cbn; [done| |eauto 10|done]. intros k d Hk.
  destruct (decide (i = k)) as [->|Hne].
  - simplify_eq. eexists. rewrite list_lookup_insert_eq by by eapply lookup_lt_Some. by split_and!.
  - exists d. by rewrite list_lookup_insert_ne.
Qed.

Lemma extends_set_handler s j h pc :
  rpc_handlers s !! j = Some h → (∀ i, h_at h = HDelivered i → pc = HDelivered i) →
  extends s (set_handler s j (handler_to h pc)).
Proof.
  intros Hj Hpc. split; cbn; [done|eauto 10| |done]. intros k d Hk.
  destruct (decide (j = k)) as [->|Hne].
  - simplify_eq. eexists. rewrite list_lookup_insert_eq by by eapply lookup_lt_Some.
    split_and!; cbn; auto.
  - exists d. by rewrite list_lookup_insert_ne.
Qed.

(** ** The updates preserve the invariant *)
Lemma inv_set_call s i c pc :
  rpc_inv s → rpc_calls s !! i = Some c → call_ok s i (call_to c pc) →
  rpc_inv (set_call s i (call_to c pc)).
Proof.
  intros [Hrr Hc Hh Hw] Hi Hpc. pose proof (extends_set_call s i c pc Hi) as Hext. split.
  - intros k n Hk. destruct (Hrr k n Hk) as (d & Hd & Hkey).
    destruct (ex_calls _ _ Hext n d Hd) as (d' & ? & Hkey' & _). exists d'. by rewrite Hkey'.
  - intros n d Hd. cbn in Hd. destruct (decide (i = n)) as [->|Hne].
    + rewrite list_lookup_insert_eq in Hd by by eapply lookup_lt_Some. simplify_eq.
      by apply (extends_call_ok s).
    + rewrite list_lookup_insert_ne in Hd by done. apply (extends_call_ok s); eauto.
  - intros j h Hj. destruct (Hh j h Hj) as [Hs Ht]. split; [done|]. intros n Hn.
    destruct (Ht n Hn) as ((d & Hd & Hkey) & Hk & Hu). split; [|done].
    destruct (ex_calls _ _ Hext n d Hd) as (d' & ? & Hkey' & _). exists d'. by rewrite Hkey'.
  - intros peer m Hm. apply (extends_wire_ok s); [done|]. by apply Hw.
Qed.

Lemma inv_set_handler s j h pc :
  rpc_inv s → rpc_handlers s !! j = Some h →
  (∀ i, h_at h = HDelivered i → pc = HDelivered i) →
  serves pc (rr_request (h_env h)) → (∀ i, target pc = Some i → target (h_at h) = Some i) →
  rpc_inv (set_handler s j (handler_to h pc)).
Proof.
  intros [Hrr Hc Hh Hw] Hj Hdel Hs Ht. pose proof (extends_set_handler s j h pc Hj Hdel) as Hext.
  assert (∀ j' h' i, rpc_handlers (set_handler s j (handler_to h pc)) !! j' = Some h' →
    target (h_at h') = Some i →
    ∃ h0, rpc_handlers s !! j' = Some h0 ∧ target (h_at h0) = Some i) as Hold.
  { intros j' h' i Hj' Hi. cbn in Hj'. destruct (decide (j = j')) as [->|Hne].
    - rewrite list_lookup_insert_eq in Hj' by by eapply lookup_lt_Some. simplify_eq. eauto.
    - rewrite list_lookup_insert_ne in Hj' by done. eauto. }
  split; [done|intros; apply (extends_call_ok s); eauto| |intros; apply (extends_wire_ok s); eauto].
  intros j' h' Hj'. pose proof Hj' as Hlook. cbn in Hj'.
  assert (∃ h0, rpc_handlers s !! j' = Some h0 ∧ h_env h0 = h_env h' ∧
    serves (h_at h') (rr_request (h_env h')) ∧
    ∀ i, target (h_at h') = Some i → target (h_at h0) = Some i) as (h0 & H0 & He & Hs' & Ht').
  { destruct (decide (j = j')) as [->|Hne].
    - rewrite list_lookup_insert_eq in Hj' by by eapply lookup_lt_Some. simplify_eq. by exists h.
    - rewrite list_lookup_insert_ne in Hj' by done. exists h'. split_and!; try done. by apply Hh in Hj' as []. }
  split; [done|]. intros i Hi. destruct (proj2 (Hh j' h0 H0) i (Ht' i Hi)) as (Hcall & Hk & Hu).
  rewrite He in Hcall. split_and!; [done..|]. intros j2 h2 H2 Hi2.
  destruct (Hold j2 h2 i H2 Hi2) as (h3 & ? & ?). eauto.
Qed.

Lemma inv_set_rr_delete s k : rpc_inv s → rpc_inv (set_rr s (delete k (rpc_rr s))).
Proof.
  intros [Hrr Hc Hh Hw]. split; [|done| |done].
  - cbn. intros k' i [_ Hk]%lookup_delete_Some. by apply Hrr.
  - intros j h Hj. destruct (Hh j h Hj) as [Hs Ht]. split; [done|]. intros i Hi.
    destruct (Ht i Hi) as (? & Hk & ?). split_and!; [done| |done].
    cbn. intros k' [_ Hk']%lookup_delete_Some. by eapply Hk.
Qed.

Lemma inv_on_wire s peer m : rpc_inv s → wire_ok s peer m → rpc_inv (on_wire s peer m).
Proof.
  intros [Hrr Hc Hh Hw] Hm.
  assert (extends s (on_wire s peer m)) as Hext.
  { split; cbn; [done|eauto 10|eauto 10|set_solver]. }
  split; [done|intros; apply (extends_call_ok s); eauto|done|].
  cbn. intros p m' [Hin|Hin]%elem_of_app; apply (extends_wire_ok s); eauto.
  apply list_elem_of_singleton in Hin. by simplify_eq.
Qed.

(** [LoadAndDelete]: the entry is taken out and its call becomes the target. *)
Lemma inv_lookup s j h :
  rpc_inv s → rpc_handlers s !! j = Some h → h_at h = HLookup → rpc_inv (handler_lookup s j h).
Proof.
  intros Hinv Hj Ha. pose proof (proj1 (pi_handlers s Hinv j h Hj)) as Hreq. rewrite Ha in Hreq.
  unfold handler_lookup. destruct (rpc_rr s !! _) as [i|] eqn:Ei.
  2:{ apply inv_set_handler; try done. congruence. }
  destruct Hinv as [Hrr Hc Hh Hw]. destruct (Hrr _ _ Ei) as (c & Hci & Hkey).
  assert (∀ j' h', rpc_handlers s !! j' = Some h' → target (h_at h') ≠ Some i) as Hfresh.
  { intros j' h' Hj' Ht. destruct (proj2 (Hh j' h' Hj') i Ht) as (_ & Hk & _). by eapply Hk. }
  assert (extends s (set_handler (set_rr s (delete (rr_key (h_env h)) (rpc_rr s))) j
    (handler_to h (HSendReply i)))) as Hext.
  { destruct (extends_set_handler s j h (HSendReply i) Hj) as []; [congruence|]. by split. }
  split; [|intros; apply (extends_call_ok s); eauto| |intros; apply (extends_wire_ok s); eauto].
  - cbn. intros k n [_ Hk]%lookup_delete_Some. by apply Hrr.
  - cbn. intros j' h' Hj'. destruct (decide (j = j')) as [<-|Hne].
    + rewrite list_lookup_insert_eq in Hj' by by eapply lookup_lt_Some. simplify_eq/=.
      split; [done|]. cbn. intros n [= <-]. split_and!; [by exists c| |].
      * intros k [Hne Hk]%lookup_delete_Some. destruct (Hrr k i Hk) as (? & ? & ?). congruence.
      * intros j2 h2 H2 Ht2. destruct (decide (j2 = j)) as [|Hne]; [done|].
        rewrite list_lookup_insert_ne in H2 by done. by destruct (Hfresh j2 h2 H2).
    + rewrite list_lookup_insert_ne in Hj' by done. destruct (Hh j' h' Hj') as [Hs Ht].
      split; [done|]. cbn. intros n Hn. destruct (Ht n Hn) as (Hcall & Hk & Hu).
      split_and!; [done| |].
      * intros k [_ Hk']%lookup_delete_Some. by eapply Hk.
      * intros j2 h2 H2 Ht2. destruct (decide (j = j2)) as [<-|Hne2].
        -- rewrite list_lookup_insert_eq in H2 by by eapply lookup_lt_Some. simplify_eq/=.
           by destruct (Hfresh j' h' Hj').
        -- rewrite list_lookup_insert_ne in H2 by done. eauto.
Qed.

Lemma inv_Call_start s peer data key : rpc_inv s → rpc_inv (Call_start s peer data key).
Proof.
  intros [Hrr Hc Hh Hw]. unfold Call_start. destruct (rpc_rr s !! key) eqn:Ek; [done|].
  set (s' := mkRpc _ _ _ _ _ _ _ _).
  assert (extends s s') as Hext.
  { split; cbn; [done| |eauto 10|done]. intros i c Hi. exists c.
    split; [by apply lookup_app_l_Some|done]. }
  split; [| | |intros; apply (extends_wire_ok s); eauto]; cbn.
  - intros k i [[<- <-]|[_ Hk]]%lookup_insert_Some.
    + eexists. by rewrite lookup_app_r, Nat.sub_diag by lia.
    + destruct (Hrr k i Hk) as (c & Hi & ?). exists c. split; [by apply lookup_app_l_Some|done].
  - intros i c [Hi|[_ Hi]]%lookup_app_Some; [by apply (extends_call_ok s); eauto|].
    by apply list_lookup_singleton_Some in Hi as [_ <-].
  - intros j h Hj. destruct (Hh j h Hj) as [Hs Ht]. split; [done|]. intros i Hi.
    destruct (Ht i Hi) as ((c & Hci & Hkey) & Hk & Hu). split_and!; [| |done]; cbn.
    + exists c. split; [by apply lookup_app_l_Some|done].
    + intros k [[<- <-]|[_ Hk']]%lookup_insert_Some; [|by eapply Hk].
      apply lookup_lt_Some in Hci. lia.
Qed.

Lemma inv_arrive s sender r : rpc_inv s → rpc_inv (handleRPC_start s sender r).
Proof.
  intros [Hrr Hc Hh Hw]. set (s' := handleRPC_start s sender r).
  assert (extends s s') as Hext.
  { split; cbn; [done|eauto 10| |done]. intros j h Hj. exists h.
    split_and!; [by apply lookup_app_l_Some|done..]. }
  assert (∀ j h i, rpc_handlers s' !! j = Some h → target (h_at h) = Some i →
    rpc_handlers s !! j = Some h) as Hold.
  { cbn. intros j h i [Hj|[_ Hj]]%lookup_app_Some Ht; [done|].
    apply list_lookup_singleton_Some in Hj as [_ <-]. cbn in Ht. by destruct (rr_request r). }
  split; [done|intros; apply (extends_call_ok s); eauto| |intros; apply (extends_wire_ok s); eauto].
  intros j h Hj. split.
  - cbn in Hj. apply lookup_app_Some in Hj as [Hj|[_ Hj]]; [by apply Hh in Hj as []|].
    apply list_lookup_singleton_Some in Hj as [_ <-]. cbn. by destruct (rr_request r).
  - intros i Hi. destruct (proj2 (Hh j h (Hold j h i Hj Hi)) i Hi) as (? & ? & Hu).
    split_and!; [done..|]. eauto.
Qed.

Lemma frame_of_rpc_no_error from r e : frame_of (ToRPC from r) ≠ Err e.
Proof.
  unfold frame_of, requestReply_Pack, make_bytes, PutUint64, copy_from, slice_from, slice, set_index.
  go_reduce. repeat (case_match; simplify_eq; try done).
Qed.

Lemma inv_Call_write s i c ok :
  rpc_inv s → rpc_calls s !! i = Some c → rpc_inv (Call_write s i c ok).
Proof.
  intros Hinv Hi. unfold Call_write, write_envelope.
  destruct (frame_of _) as [m|e|p] eqn:Ef; cbn [mbind go_bind].
  - assert (wire_ok s (call_peer c) m) as Hw by (left; by exists i, c). destruct ok.
    + apply inv_set_call; [by apply inv_on_wire|done|]. exists m. split; [done|]. cbn. set_solver.
    + apply inv_set_call; [done..|]. cbn. by right.
  - by destruct (frame_of_rpc_no_error _ _ _ Ef).
  - by destruct Hinv.
Qed.

Lemma inv_handler_write s j h data ok :
  rpc_inv s → rpc_handlers s !! j = Some h → h_at h = HWrite data →
  rpc_inv (handler_write s j h data ok).
Proof.
  intros Hinv Hj Ha. unfold handler_write, write_envelope.
  pose proof (proj1 (pi_handlers s Hinv j h Hj)) as Hreq. rewrite Ha in Hreq. cbn in Hreq.
  destruct (frame_of _) as [m|e|p] eqn:Ef; cbn [mbind go_bind]; [| |by destruct Hinv].
  - destruct ok; (apply inv_set_handler; [|done|congruence|done|done]); [|done].
    apply inv_on_wire; [done|]. right. by exists j, h, data.
  - by destruct (frame_of_rpc_no_error _ _ _ Ef).
Qed.

(** A rendezvous on the reply channel of call [i]. *)
Lemma inv_deliver s j h i c :
  rpc_inv s → rpc_handlers s !! j = Some h → h_at h = HSendReply i →
  rpc_calls s !! i = Some c → call_at c = CallSelect →
  rpc_inv (set_call (set_handler s j (handler_to h (HDelivered i))) i
             (call_to c (CallDeferred (Ok (rr_data (h_env h)))))).
Proof.
  intros Hinv Hj Ha Hi Hc. pose proof (pi_calls s Hinv i c Hi) as Hsent.
  pose proof (proj1 (pi_handlers s Hinv j h Hj)) as Hreq. unfold call_ok in Hsent.
  rewrite Ha in Hreq. rewrite Hc in Hsent. apply inv_set_call; [|done|].
  - apply inv_set_handler; try done; [congruence|]. by rewrite Ha.
  - split; [done|]. exists j, (handler_to h (HDelivered i)). split_and!; [|done..].
    cbn. apply list_lookup_insert_eq. by eapply lookup_lt_Some.
Qed.

Lemma rpc_step_inv l s s' : rpc_inv s → rpc_step l s = Some s' → rpc_inv s'.
Proof.
  intros Hinv Hs. unfold rpc_step in Hs. destruct (rpc_crash s); [done|].
  destruct l as [peer data key|i ok|i|i|sender r|j| |j data|j|j ok|j|j].
  - injection Hs as <-. by apply inv_Call_start.
  - apply bind_Some in Hs as (c & Hi & Hs). case_match; simplify_eq. by apply inv_Call_write.
  - apply bind_Some in Hs as (c & Hi & Hs). destruct (call_at c) eqn:Ec; simplify_eq.
    apply inv_set_call; [done..|]. left. split; [done|].
    pose proof (pi_calls s Hinv i c Hi) as Hok. unfold call_ok in Hok. by rewrite Ec in Hok.
  - apply bind_Some in Hs as (c & Hi & Hs). destruct (call_at c) eqn:Ec; simplify_eq.
    pose proof (pi_calls s Hinv i c Hi) as Hok. unfold call_ok in Hok. rewrite Ec in Hok.
    apply inv_set_call; [by apply inv_set_rr_delete|done..].
  - injection Hs as <-. by apply inv_arrive.
  - apply bind_Some in Hs as (h & Hj & Hs). destruct (h_at h) eqn:Eh; try done.
    destruct (chan_send _ _) as [req| |]; [|done..]. injection Hs as <-.
    pose proof (proj1 (pi_handlers s Hinv j h Hj)) as Hreq. rewrite Eh in Hreq.
    apply inv_set_handler; try done; [by destruct Hinv|congruence].
  - destruct (chan_recv _) as [[d j] req| |]; simplify_eq. by destruct Hinv.
  - apply bind_Some in Hs as (h & Hj & Hs). destruct (h_at h) eqn:Eh; try done.
    case_bool_decide; simplify_eq. pose proof (proj1 (pi_handlers s Hinv j h Hj)) as Hreq.
    rewrite Eh in Hreq. apply inv_set_handler; try done. congruence.
  - apply bind_Some in Hs as (h & Hj & Hs). destruct (h_at h) eqn:Eh; simplify_eq.
    apply inv_set_handler; try done. congruence.
  - apply bind_Some in Hs as (h & Hj & Hs). destruct (h_at h) eqn:Eh; simplify_eq.
    by apply inv_handler_write.
  - apply bind_Some in Hs as (h & Hj & Hs). destruct (h_at h) eqn:Eh; simplify_eq.
    by apply inv_lookup.
  - apply bind_Some in Hs as (h & Hj & Hs). destruct (h_at h) eqn:Eh; try done.
    apply bind_Some in Hs as (c & Hi & Hs). destruct (call_at c) eqn:Ec; simplify_eq.
    by apply (inv_deliver s).
Qed.

Lemma rpc_reachable_inv self s : reachable rpc_step (rpc_New self) s → rpc_inv s.
Proof.
  revert s. apply reachable_invariant; [|intros l s s'; apply rpc_step_inv].
  split; cbn; [done|done|done|]. by intros peer m ?%not_elem_of_nil.
Qed.

(** ** What never changes *)
Definition rpc_static (s : rpc) : Z * nat * bool :=
  (rpc_self s, ch_cap (rpc_req s), ch_closed (rpc_req s)).

Lemma write_envelope_static s peer r ok res s' :
  write_envelope s peer r ok = Ok (res, s') → rpc_static s' = rpc_static s.
Proof. intros (m & _ & Hm)%go_bind_Ok. destruct ok; by simplify_eq. Qed.

Lemma rpc_step_static l s s' : rpc_step l s = Some s' → rpc_static s' = rpc_static s.
Proof.
  intros Hs. unfold rpc_step in Hs. destruct (rpc_crash s); [done|].
  destruct l; try (apply bind_Some in Hs as (? & _ & Hs)).
  all: unfold Call_start, Call_write, handler_write, handler_lookup, chan_send, chan_recv in Hs.
  all: repeat (case_match; simplify_eq; try done).
  all: try match goal with H : write_envelope _ _ _ _ = Ok _ |- _ =>
         exact (write_envelope_static _ _ _ _ _ _ H) end.
  - by injection Hs as <-.
  - unfold rpc_static. cbn. congruence.
  - apply bind_Some in Hs as (? & _ & Hs). by case_match; simplify_eq.
Qed.

Lemma rpc_constants self s :
  reachable rpc_step (rpc_New self) s → rpc_static s = (self, 16%nat, false).
Proof.
  revert s. apply reachable_invariant; [done|]. intros l s s' IH Hs.
  by rewrite (rpc_step_static _ _ _ Hs).
Qed.

(** ** One call, end to end *)
Lemma insert_last {A} (l : list A) x y : <[length l := y]> (l ++ [x]) = l ++ [y].
Proof. by rewrite insert_app_r_alt, Nat.sub_diag by done. Qed.

Lemma lookup_last {A} (l : list A) x : (l ++ [x]) !! length l = Some x.
Proof. by rewrite lookup_app_r, Nat.sub_diag by done. Qed.

Local Ltac rpc_eval :=
  repeat progress (cbn; unfold set_call, set_handler, set_req, set_rr, on_wire, handleRPC_start,
    call_to, handler_to; cbn; rewrite ?insert_last, ?lookup_last).

(** The caller: a free key is taken and the request written. *)
Lemma call_sends s peer data key m :
  rpc_crash s = None → rpc_rr s !! key = None →
  frame_of (ToRPC (rpc_self s) (mkRR true key data)) = Ok m →
  run rpc_step [LCall peer data key; LCallWrite (length (rpc_calls s)) true] s =
    Some (mkRpc (rpc_self s) (<[key := length (rpc_calls s)]> (rpc_rr s)) (rpc_req s) (rpc_taken s)
            (rpc_calls s ++ [mkCall peer key data CallSelect]) (rpc_handlers s)
            (rpc_wire s ++ [(peer, m)]) None).
Proof.
  intros Hc Hk Hm. destruct s as [self rr req taken calls hs wire crash]. cbn in Hc, Hk, Hm |- *.
  subst. cbn. unfold Call_start. cbn. rewrite Hk. cbn. rewrite lookup_last. cbn.
  unfold Call_write, write_envelope. cbn [rpc_self call_key call_data call_peer].
  unfold frame_of. rewrite Hm. cbn. unfold set_call, on_wire. cbn. by rewrite insert_last.
Qed.

(** The server called: an idle application takes the request and replies. *)
Lemma request_answered s sender key data reply m :
  rpc_crash s = None → rpc_req s = make_chan 16 →
  frame_of (ToRPC (rpc_self s) (mkRR false key reply)) = Ok m →
  let j := length (rpc_handlers s) in
  run rpc_step [LArrive sender (mkRR true key data); LSendRequest j; LTake; LAppReply j reply;
                LHandlerWrite j true] s =
    Some (mkRpc (rpc_self s) (rpc_rr s) (make_chan 16) (j :: rpc_taken s) (rpc_calls s)
            (rpc_handlers s ++ [mkHandler sender (mkRR true key data) HReturned])
            (rpc_wire s ++ [(sender, m)]) None).
Proof.
  intros Hc Hreq Hm j. destruct s as [self rr req taken calls hs wire crash]. cbn in *. subst.
  rpc_eval. rewrite bool_decide_true by set_solver. rpc_eval.
  unfold handler_write, write_envelope. cbn [rpc_self h_env rr_key h_sender].
  unfold frame_of. rewrite Hm. by rpc_eval.
Qed.

(** The caller again: the reply finds the call by its key. *)
Lemma reply_delivered_run s sender peer key data reply calls :
  rpc_crash s = None → rpc_calls s = calls ++ [mkCall peer key data CallSelect] →
  rpc_rr s !! key = Some (length calls) →
  let j := length (rpc_handlers s) in
  run rpc_step [LArrive sender (mkRR false key reply); LLookup j; LSendReply j;
                LCallReturn (length calls)] s =
    Some (mkRpc (rpc_self s) (delete key (rpc_rr s)) (rpc_req s) (rpc_taken s)
            (calls ++ [mkCall peer key data (CallReturned (Ok reply))])
            (rpc_handlers s ++ [mkHandler sender (mkRR false key reply) (HDelivered (length calls))])
            (rpc_wire s) None).
Proof.
  intros Hc Hcalls Hk j. destruct s as [self rr req taken cs hs wire crash]. cbn in *. subst.
  rpc_eval. unfold handler_lookup. cbn. rewrite Hk. rpc_eval. by rewrite delete_delete_eq.
Qed.

(** The frame of an envelope, as the other side's reader decodes it. *)
Lemma envelope_travels from r :
  wf_incoming (ToRPC from r) →
  ∃ m w, frame_of (ToRPC from r) = Ok m ∧ Message_MarshalBinary m = Ok w ∧
    reader_step [(w, None)] = (Ok (ToRPC from r), []).
Proof.
  intros Hwf. destruct (frame_of_wf _ Hwf) as (m & Hm & Hw & Hd & Hc).
  exists m, (message_wire m). split_and!; [done|by apply message_wire_Marshal|].
  pose proof (reader_step_frame m [] [] Hw Hd) as Hr. rewrite app_nil_r in Hr. by rewrite Hr, Hc.
Qed.

(** ** Goroutines that wait for ever *)
Lemma write_envelope_goroutines s peer r ok res s' :
  write_envelope s peer r ok = Ok (res, s') →
  rpc_calls s' = rpc_calls s ∧ rpc_handlers s' = rpc_handlers s.
Proof. intros (m & _ & Hm)%go_bind_Ok. destruct ok; by simplify_eq. Qed.

Definition finished (c : call) : Prop :=
  ∃ res, call_at c = CallDeferred res ∨ call_at c = CallReturned res.

Definition finished_at (i : nat) (s : rpc) : Prop := ∃ c, rpc_calls s !! i = Some c ∧ finished c.

Lemma finished_set_call i s k c :
  finished_at i s → (k = i → finished c) → finished_at i (set_call s k c).
Proof.
  intros (d & Hd & Hf) Hc. destruct (decide (k = i)) as [->|Hne].
  - exists c. cbn. rewrite list_lookup_insert_eq by by eapply lookup_lt_Some. auto.
  - exists d. cbn. by rewrite list_lookup_insert_ne.
Qed.

Lemma finished_step i l s s' : finished_at i s → rpc_step l s = Some s' → finished_at i s'.
Proof.
  intros Hf Hs. pose proof Hf as (c & Hi & Hc). unfold rpc_step in Hs.
  destruct (rpc_crash s); [done|].
  assert (∀ k d pc, rpc_calls s !! k = Some d → call_at d = pc →
    (∀ res, pc ≠ CallDeferred res ∧ pc ≠ CallReturned res) → k ≠ i) as Hne.
  { intros k d pc Hk Hd Hpc ->. simplify_eq. destruct Hc as (res & [Hx|Hx]); by destruct (Hpc res). }
  destruct l as [peer data key|k ok|k|k|sender r|j| |j data|j|j ok|j|j];
    try (apply bind_Some in Hs as (d & Hd & Hs)).
  - injection Hs as <-. unfold Call_start. case_match; [done|]. exists c.
    split; [by apply lookup_app_l_Some|done].
  - destruct (call_at d) eqn:Ed; simplify_eq. unfold Call_write.
    assert (k ≠ i) by by eapply (Hne k d). destruct (write_envelope _ _ _ _) as [[[e|] s1]| |] eqn:Ew;
      [| | |done]; try apply write_envelope_goroutines in Ew as [Ew _];
      (apply finished_set_call; [|done]); unfold finished_at; by rewrite ?Ew.
  - destruct (call_at d) eqn:Ed; simplify_eq. apply finished_set_call; [done|].
    intros _. eexists. by left.
  - destruct (call_at d) eqn:Ed; simplify_eq. apply finished_set_call; [done|].
    intros _. eexists. by right.
  - by injection Hs as <-.
  - repeat case_match; by simplify_eq.
  - destruct (chan_recv _) as [[? ?] ?| |]; by simplify_eq.
  - destruct (h_at d); try done. case_bool_decide; by simplify_eq.
  - destruct (h_at d); by simplify_eq.
  - destruct (h_at d); simplify_eq. unfold handler_write.
    destruct (write_envelope _ _ _ _) as [[e s1]| |] eqn:Ew; [|done..].
    apply write_envelope_goroutines in Ew as [Ew _]. unfold finished_at. cbn. by rewrite Ew.
  - destruct (h_at d); simplify_eq. unfold handler_lookup. by case_match.
  - destruct (h_at d); try done. apply bind_Some in Hs as (d' & Hd' & Hs).
    destruct (call_at d') eqn:Ed; simplify_eq. apply (finished_set_call i s); [done|].
    intros _. eexists. by left.
Qed.

Definition sending_at (j i : nat) (s : rpc) : Prop :=
  ∃ h, rpc_handlers s !! j = Some h ∧ h_at h = HSendReply i.

Lemma sending_step j i l s s' :
  finished_at i s → sending_at j i s → rpc_step l s = Some s' → sending_at j i s'.
Proof.
  intros (c & Hi & Hc) Hh Hs. pose proof Hh as (h & Hj & Ha). unfold rpc_step in Hs.
  destruct (rpc_crash s); [done|].
  assert (∀ s1 k h', rpc_handlers s1 = rpc_handlers s → k ≠ j → sending_at j i (set_handler s1 k h'))
    as Hset.
  { intros s1 k h' Heq Hne. exists h. cbn. rewrite Heq. by rewrite list_lookup_insert_ne. }
  assert (∀ k d, rpc_handlers s !! k = Some d → h_at d ≠ HSendReply i → k ≠ j) as Hne.
  { intros k d Hk Hd ->. by simplify_eq. }
  destruct l as [peer data key|k ok|k|k|sender r|k| |k data|k|k ok|k|k];
    try (apply bind_Some in Hs as (d & Hd & Hs)).
  - injection Hs as <-. unfold Call_start. by case_match.
  - destruct (call_at d) eqn:Ed; simplify_eq. unfold Call_write.
    destruct (write_envelope _ _ _ _) as [[[e|] s1]| |] eqn:Ew; [| |done..];
      apply write_envelope_goroutines in Ew as [_ Ew]; unfold sending_at; cbn; by rewrite Ew.
  - destruct (call_at d); by simplify_eq.
  - destruct (call_at d); by simplify_eq.
  - injection Hs as <-. exists h. split; [by apply lookup_app_l_Some|done].
  - destruct (h_at d) eqn:Eh; try done. case_match; simplify_eq. apply Hset; [done|].
    by apply (Hne k d Hd); rewrite Eh.
  - destruct (chan_recv _) as [[? ?] ?| |]; by simplify_eq.
  - destruct (h_at d) eqn:Eh; try done. case_bool_decide; simplify_eq. apply Hset; [done|].
    by apply (Hne k d Hd); rewrite Eh.
  - destruct (h_at d) eqn:Eh; simplify_eq. apply Hset; [done|]. by apply (Hne k d Hd); rewrite Eh.
  - destruct (h_at d) eqn:Eh; simplify_eq.
    assert (k ≠ j) by by apply (Hne k d Hd); rewrite Eh. unfold handler_write.
    destruct (write_envelope _ _ _ _) as [[e s1]| |] eqn:Ew; [|by apply Hset|done].
    apply Hset; [|done]. by apply write_envelope_goroutines in Ew as [_ Ew].
  - destruct (h_at d) eqn:Eh; simplify_eq.
    assert (k ≠ j) by by apply (Hne k d Hd); rewrite Eh. unfold handler_lookup.
    case_match; by apply Hset.
  - destruct (h_at d) as [| | | |i'| |] eqn:Eh; try done. apply bind_Some in Hs as (d' & Hd' & Hs).
    destruct (call_at d') eqn:Ed; simplify_eq. apply Hset; [done|].
    apply (Hne k d Hd). rewrite Eh. intros [= ->]. simplify_eq.
    destruct Hc as (res & [Hx|Hx]); by rewrite Hx in Ed.
Qed.

(** ** Properties *)

(** C29: what a returned [Call] says.  In every reachable state, a call that
    returned data did send its request and got the data of exactly one reply
    envelope, which carried its key and was handed to no other call; a call
    that returned an error either timed out or could not be written. *)
Theorem rpc_call_outcome self s i c res :
  reachable rpc_step (rpc_New self) s →
  rpc_calls s !! i = Some c → call_at c = CallReturned res →
  match res with
  | Ok d =>
      request_sent s c ∧
      ∃ j h, rpc_handlers s !! j = Some h ∧ h_at h = HDelivered i ∧
        h_env h = mkRR false (call_key c) d ∧
        ∀ j' h', rpc_handlers s !! j' = Some h' → h_at h' = HDelivered i → j' = j
  | Err e => errors_Is e ErrRPCTimeout = true ∨ errors_Is e ErrPeerGone = true
  | Panic _ => False
  end.
Proof.
  intros Hr Hi Hc. pose proof (rpc_reachable_inv _ _ Hr) as Hinv.
  pose proof (pi_calls s Hinv i c Hi) as Hok. unfold call_ok in Hok. rewrite Hc in Hok.
  destruct res as [d|e|]; [|destruct Hok as [(-> & _)| ->]; auto|done].
  destruct Hok as [Hsent (j & h & Hj & Ha & Hd)]. split; [done|].
  destruct (pi_handlers s Hinv j h Hj) as [Hreq Ht]. rewrite Ha in Hreq, Ht. cbn in Hreq.
  destruct (Ht i eq_refl) as ((c' & Hc' & Hk) & _ & Hu). simplify_eq.
  exists j, h. split_and!; [done..| |].
  - destruct (h_env h) as [rq k data]. cbn in *. by subst.
  - intros j' h' Hj' Ha'. apply (Hu j' h' Hj'). by rewrite Ha'.
Qed.

Definition sample_rpc_labels : list rpc_label :=
  [LCall 8 [1] 77; LCallWrite 0 true; LArrive 8 (mkRR false 77 [2]); LLookup 0; LSendReply 0;
   LCallReturn 0].

Lemma rpc_call_outcome_witness :
  ∃ s c, run rpc_step sample_rpc_labels (rpc_New 3) = Some s ∧ rpc_calls s !! 0%nat = Some c ∧
    request_sent s c.
Proof.
  destruct (run rpc_step sample_rpc_labels (rpc_New 3)) as [s|] eqn:E; [|by vm_compute in E].
  assert (rpc_calls s !! 0%nat = Some (mkCall 8 77 [1] (CallReturned (Ok [2])))) as Hc
    by (vm_compute in E; by injection E as <-).
  exists s, (mkCall 8 77 [1] (CallReturned (Ok [2]))). split_and!; [done..|].
  by apply (rpc_call_outcome 3 s 0 _ (Ok [2]) (run_reachable _ _ _ _ E) Hc eq_refl).
Defined.

(** A server only writes requests of its own calls and replies to requests
    it received: every envelope put on the wire for a peer is the request of a
    call to that peer, or carries the key of a request that this very peer sent. *)
Theorem rpc_wire_sound self s peer m :
  reachable rpc_step (rpc_New self) s → (peer, m) ∈ rpc_wire s →
  (∃ c, c ∈ rpc_calls s ∧ call_peer c = peer ∧
     frame_of (ToRPC self (mkRR true (call_key c) (call_data c))) = Ok m) ∨
  (∃ h d, h ∈ rpc_handlers s ∧ h_sender h = peer ∧ rr_request (h_env h) = true ∧
     frame_of (ToRPC self (mkRR false (rr_key (h_env h)) d)) = Ok m).
Proof.
  intros Hr Hm. pose proof (rpc_constants _ _ Hr) as Hst. injection Hst as <- _ _.
  destruct (pi_wire s (rpc_reachable_inv _ _ Hr) peer m Hm)
    as [(i & c & Hi & ? & ?)|(j & h & d & Hj & ? & ? & ?)].
  - left. exists c. split; [by eapply list_elem_of_lookup_2|done].
  - right. exists h, d. split; [by eapply list_elem_of_lookup_2|done].
Qed.

Lemma rpc_wire_sound_witness :
  ∃ s m, run rpc_step [LCall 8 [1] 77; LCallWrite 0 true] (rpc_New 3) = Some s ∧
    (8, m) ∈ rpc_wire s ∧
    ((∃ c, c ∈ rpc_calls s ∧ call_peer c = 8 ∧
        frame_of (ToRPC 3 (mkRR true (call_key c) (call_data c))) = Ok m) ∨
     (∃ h d, h ∈ rpc_handlers s ∧ h_sender h = 8 ∧ rr_request (h_env h) = true ∧
        frame_of (ToRPC 3 (mkRR false (rr_key (h_env h)) d)) = Ok m)).
Proof.
  destruct (run rpc_step [LCall 8 [1] 77; LCallWrite 0 true] (rpc_New 3)) as [s|] eqn:E;
    [|by vm_compute in E].
  assert (∃ m, (8, m) ∈ rpc_wire s) as [m Hm]
    by (vm_compute in E; injection E as <-; eexists; by left).
  exists s, m. split_and!; [done..|].
  exact (rpc_wire_sound 3 s 8 m (run_reachable _ _ _ _ E) Hm).
Defined.

(** C28: a call works end to end.  From any states of two servers in which the
    key is free on the caller's side and the other side's request queue is
    empty, the statements of one call, of the handler it starts on the other
    side and of the handler of the reply, with the two frames encoded, decoded
    and classified by the readers, bring [Call] to return exactly what the
    application answered, and leave no entry for the key. *)
Theorem rpc_round_trip ida idb a b key data reply :
  reachable rpc_step (rpc_New ida) a → reachable rpc_step (rpc_New idb) b →
  rpc_crash a = None → rpc_crash b = None →
  rpc_rr a !! key = None → ch_buf (rpc_req b) = [] →
  wf_incoming (ToRPC ida (mkRR true key data)) → wf_incoming (ToRPC idb (mkRR false key reply)) →
  let i := length (rpc_calls a) in
  let ja := length (rpc_handlers a) in
  let jb := length (rpc_handlers b) in
  ∃ m1 w1 a1 m2 w2 b1 a2,
    run rpc_step [LCall idb data key; LCallWrite i true] a = Some a1 ∧
    rpc_wire a1 = rpc_wire a ++ [(idb, m1)] ∧ Message_MarshalBinary m1 = Ok w1 ∧
    reader_step [(w1, None)] = (Ok (ToRPC ida (mkRR true key data)), []) ∧
    run rpc_step [LArrive ida (mkRR true key data); LSendRequest jb; LTake; LAppReply jb reply;
                  LHandlerWrite jb true] b = Some b1 ∧
    rpc_wire b1 = rpc_wire b ++ [(ida, m2)] ∧ Message_MarshalBinary m2 = Ok w2 ∧
    reader_step [(w2, None)] = (Ok (ToRPC idb (mkRR false key reply)), []) ∧
    run rpc_step [LArrive idb (mkRR false key reply); LLookup ja; LSendReply ja; LCallReturn i] a1 =
      Some a2 ∧
    rpc_calls a2 !! i = Some (mkCall idb key data (CallReturned (Ok reply))) ∧
    rpc_rr a2 !! key = None.
Proof.
  intros Ha Hb Hca Hcb Hk Hq Hw1 Hw2 i ja jb.
  pose proof (rpc_constants _ _ Ha) as Hsa. pose proof (rpc_constants _ _ Hb) as Hsb.
  injection Hsa as <- _ _. injection Hsb as <- Hcap Hcl.
  destruct (envelope_travels _ _ Hw1) as (m1 & w1 & Hm1 & Hw1' & Hr1).
  destruct (envelope_travels _ _ Hw2) as (m2 & w2 & Hm2 & Hw2' & Hr2).
  assert (rpc_req b = make_chan 16) as Hreq.
  { destruct (rpc_req b). cbn in *. by subst. }
  pose proof (call_sends a (rpc_self b) data key m1 Hca Hk Hm1) as Hsend.
  pose proof (request_answered b (rpc_self a) key data reply m2 Hcb Hreq Hm2) as Hanswer.
  set (a1 := mkRpc (rpc_self a) _ _ _ _ _ _ _) in Hsend.
  pose proof (reply_delivered_run a1 (rpc_self b) (rpc_self b) key data reply (rpc_calls a)
    eq_refl eq_refl (lookup_insert_eq _ _ _)) as Hback.
  exists m1, w1, a1, m2, w2. do 2 eexists. split; [exact Hsend|]. split; [done|].
  split; [done|]. split; [done|]. split; [exact Hanswer|]. split; [done|]. split; [done|].
  split; [done|]. split; [exact Hback|]. split; [apply lookup_last|apply lookup_delete_eq].
Qed.

Lemma rpc_round_trip_witness :
  ∃ a1 a2, run rpc_step [LCall 8 [1] 77; LCallWrite 0 true] (rpc_New 3) = Some a1 ∧
    run rpc_step [LArrive 8 (mkRR false 77 [2]); LLookup 0; LSendReply 0; LCallReturn 0] a1 = Some a2 ∧
    rpc_calls a2 !! 0%nat = Some (mkCall 8 77 [1] (CallReturned (Ok [2]))).
Proof.
  destruct (rpc_round_trip 3 8 (rpc_New 3) (rpc_New 8) 77 [1] [2])
    as (m1 & w1 & a1 & m2 & w2 & b1 & a2 & H1 & _ & _ & _ & _ & _ & _ & _ & H2 & H3 & _).
  all: try done; try apply reach_start.
  1, 2: split_and!; try done; split_and!; try done; by repeat constructor.
  by exists a1, a2.
Defined.

(** A reply that comes too late leaves a goroutine behind.  If the handler
    of a reply has taken the call's channel out of the table and the call gives
    up before the send, nothing ever receives from that channel: the handler
    stays at its send in every later state.  Such states are reachable. *)
Theorem rpc_late_reply_leaks :
  (∃ s, reachable rpc_step (rpc_New 3) s ∧ finished_at 0 s ∧ sending_at 0 0 s) ∧
  ∀ j i s s', finished_at i s → sending_at j i s → reachable rpc_step s s' → sending_at j i s'.
Proof.
  split.
  - destruct (run rpc_step [LCall 8 [1] 77; LCallWrite 0 true; LArrive 8 (mkRR false 77 [2]); LLookup 0;
      LCallTimeout 0; LCallReturn 0] (rpc_New 3)) as [s|] eqn:E; [|by vm_compute in E].
    exists s. split; [by eapply run_reachable|]. vm_compute in E. injection E as <-.
    split; [|by eexists]. eexists. split; [done|]. eexists. by right.
  - intros j i s s' Hf Hh Hr.
    assert (finished_at i s' ∧ sending_at j i s') as [_ ?]; [|done].
    revert s' Hr. apply reachable_invariant; [done|]. intros l s1 s2 [Hf1 Hh1] Hstep.
    split; [by eapply finished_step|by eapply sending_step].
Qed.
