(* ===== verification/PeerGraph.v ===== *)
(** * PeerGraph: who announced which client

    [state/connected_clients.go] and [state/peer_graph.go].  The binary fuse
    filter of [github.com/FastFilter/xorfilter] is a parameter: [XorFilter]
    holds the two functions the code calls, [XorFilterOk] what the code relies
    on (a filter contains every key it was populated with, and its fields have
    their Go types). *)
From S2P Require Import Prelude GoStd.

Open Scope Z_scope.

(** [xorfilter.BinaryFuse8]; the fields the code copies to and from the wire. *)
Record BinaryFuse8 := mkFuse {
  Seed : Z;
  SegmentLength : Z;
  SegmentLengthMask : Z;
  SegmentCount : Z;
  SegmentCountLength : Z;
  Fingerprints : list Z;
}.

Definition zero_Fuse : BinaryFuse8 := mkFuse 0 0 0 0 0 [].

Definition wf_Fuse (f : BinaryFuse8) : Prop :=
  u64 (Seed f) ∧ u32 (SegmentLength f) ∧ u32 (SegmentLengthMask f) ∧
  u32 (SegmentCount f) ∧ u32 (SegmentCountLength f) ∧
  wf_bytes (Fingerprints f) ∧ 48 + zlen (Fingerprints f) ≤ maxAlloc.

Class XorFilter := {
  PopulateBinaryFuse8 : list Z → go BinaryFuse8;
  Contains8 : BinaryFuse8 → Z → bool;
}.

Class XorFilterOk `{XorFilter} := {
  Populate_wf keys f : PopulateBinaryFuse8 keys = Ok f → wf_Fuse f;
  Populate_contains keys f k :
    PopulateBinaryFuse8 keys = Ok f → k ∈ keys → Contains8 f k = true;
}.

(** ** [ConnectedClients] *)
Record ConnectedClients := mkCC {
  cc_Peer : Z;
  cc_CRC64 : Z;
  cc_f : option BinaryFuse8;   (* nil until populated or decoded *)
}.

Definition zero_CC : ConnectedClients := mkCC 0 0 None.

Section ConnectedClients.
Context `{XorFilter}.

(** The digest of a list of client identifiers, eight bytes each. *)
Definition clients_crc (crc : Z) (clients : list Z) : Z :=
  foldl (λ crc c, crc64_Write crc (be_bytes 8 c)) crc clients.

Definition NewConnectedClients (peer : Z) (clients : list Z) : go ConnectedClients :=
  let crc := clients_crc 0 clients in
  filter ← PopulateBinaryFuse8 clients;
  Ok (mkCC peer crc (Some filter)).

Definition ConnectedClients_MarshalBinary (c : ConnectedClients) : go (list Z) :=
  match cc_f c with
  | None => Panic NilDereference
  | Some f =>
      let fLen := zlen (Fingerprints f) in
      b ← make_bytes (48 + fLen);
      b ← PutUint64 b 0 8 (cc_Peer c);
      b ← PutUint64 b 8 16 (cc_CRC64 c);
      b ← PutUint64 b 16 24 (Seed f);
      b ← PutUint32 b 24 28 (SegmentLength f);
      b ← PutUint32 b 28 32 (SegmentLengthMask f);
      b ← PutUint32 b 32 36 (SegmentCount f);
      b ← PutUint32 b 36 40 (SegmentCountLength f);
      b ← PutUint64 b 40 48 (uint64_of_int fLen);
      copy_from b 48 (Fingerprints f)
  end.

Definition ConnectedClients_UnmarshalBinary (c : ConnectedClients) (b : list Z)
    : go ConnectedClients :=
  if zlen b <? 48 then Err (Errorf "invalid buffer length: %d" [zlen b]) else
  peer ← (slice b 0 8 ≫= Uint64);
  crc ← (slice b 8 16 ≫= Uint64);
  seed ← (slice b 16 24 ≫= Uint64);
  sl ← (slice b 24 28 ≫= Uint32);
  slm ← (slice b 28 32 ≫= Uint32);
  sc ← (slice b 32 36 ≫= Uint32);
  scl ← (slice b 36 40 ≫= Uint32);
  fLen ← (slice b 40 48 ≫= Uint64);
  fp ← make_bytes fLen;
  rest ← slice_from b 48;
  Ok (mkCC peer crc (Some (mkFuse seed sl slm sc scl (copy fp rest)))).

(** [Has] dereferences the filter. *)
Definition ConnectedClients_Has (c : ConnectedClients) (client : Z) : go bool :=
  match cc_f c with
  | None => Panic NilDereference
  | Some f => Ok (Contains8 f client)
  end.

(** ** [PeerGraph]: a [sync.Map] from peer to its announced clients *)
Record PeerGraph := mkPG { peerFilter : gmap Z ConnectedClients }.

Definition NewPeerGraph (self : Z) : PeerGraph := mkPG ∅.

(** The callback of [Range], over the entries in visiting order; the named
    result is 0 when no entry matches. *)
Fixpoint Who_range (entries : list (Z * ConnectedClients)) (client : Z) : go Z :=
  match entries with
  | [] => Ok 0
  | (key, c) :: rest =>
      h ← ConnectedClients_Has c client;
      if h : bool then Ok key else Who_range rest client
  end.

(** [Who], for the order in which [Range] visits the map. *)
Definition PeerGraph_Who (p : PeerGraph) (range : gmap Z ConnectedClients → list (Z * ConnectedClients))
    (client : Z) : go Z :=
  Who_range (range (peerFilter p)) client.

Definition PeerGraph_Remove (p : PeerGraph) (peer : Z) : PeerGraph :=
  mkPG (delete peer (peerFilter p)).

(** [LoadOrStore], then [Store] when the digest differs. *)
Definition PeerGraph_Replace (p : PeerGraph) (c : ConnectedClients) : PeerGraph * bool :=
  match peerFilter p !! cc_Peer c with
  | None => (mkPG (<[cc_Peer c := c]> (peerFilter p)), true)
  | Some old =>
      if negb (cc_CRC64 old =? cc_CRC64 c)
      then (mkPG (<[cc_Peer c := c]> (peerFilter p)), true)
      else (p, false)
  end.

(** A visiting order: any enumeration of the entries. *)
Definition range_ok {V} (range : gmap Z V → list (Z * V)) : Prop :=
  ∀ m, enumerates m (range m).

(** The graph a server keeps: entries are filed under their own peer and were
    decoded or built, so the filter is present. *)
Definition wf_PeerGraph (p : PeerGraph) : Prop :=
  map_Forall (λ k c, cc_Peer c = k ∧ is_Some (cc_f c)) (peerFilter p).

(** ** Lemmas *)

Lemma ConnectedClients_MarshalBinary_eq peer crc f :
  wf_Fuse f →
  ConnectedClients_MarshalBinary (mkCC peer crc (Some f)) =
    Ok (be_bytes 8 peer ++ be_bytes 8 crc ++ be_bytes 8 (Seed f) ++
        be_bytes 4 (SegmentLength f) ++ be_bytes 4 (SegmentLengthMask f) ++
        be_bytes 4 (SegmentCount f) ++ be_bytes 4 (SegmentCountLength f) ++
        be_bytes 8 (zlen (Fingerprints f)) ++ Fingerprints f).
Proof.
  intros (_ & _ & _ & _ & _ & _ & Hl). unfold ConnectedClients_MarshalBinary. cbn.
  pose proof (zlen_nonneg (Fingerprints f)). unfold maxAlloc in Hl.
  replace (uint64_of_int _) with (zlen (Fingerprints f))
    by (symmetry; apply wrap64_small; unfold u64; lia).
  rewrite make_bytes_Ok by (unfold maxAlloc; lia).
  replace (Z.to_nat _)
    with (8 + (8 + (8 + (4 + (4 + (4 + (4 + (8 + length (Fingerprints f)))))))))%nat
    by (unfold zlen; lia).
  rewrite !replicate_add. slice_eval. done.
Qed.

(** The header of the wire form, field by field. *)
Lemma ConnectedClients_UnmarshalBinary_eq recv (peer crc seed sl slm sc scl n rest : list Z) :
  length peer = 8%nat → length crc = 8%nat → length seed = 8%nat →
  length sl = 4%nat → length slm = 4%nat → length sc = 4%nat → length scl = 4%nat →
  length n = 8%nat → wf_bytes n →
  ConnectedClients_UnmarshalBinary recv
    (peer ++ crc ++ seed ++ sl ++ slm ++ sc ++ scl ++ n ++ rest) =
  if be_to_Z n <=? maxAlloc
  then Ok (mkCC (be_to_Z peer) (be_to_Z crc)
        (Some (mkFuse (be_to_Z seed) (be_to_Z sl) (be_to_Z slm) (be_to_Z sc) (be_to_Z scl)
           (copy (replicate (Z.to_nat (be_to_Z n)) 0) rest))))
  else Panic MakeLenOutOfRange.
Proof.
  intros H1 H2 H3 H4 H5 H6 H7 H8 Hn. unfold ConnectedClients_UnmarshalBinary.
  pose proof (be_to_Z_u64 n Hn H8) as Hu. unfold u64 in Hu.
  assert (zlen peer = 8 ∧ zlen crc = 8 ∧ zlen seed = 8 ∧ zlen n = 8) as (?&?&?&?)
    by (unfold zlen; lia).
  assert (zlen sl = 4 ∧ zlen slm = 4 ∧ zlen sc = 4 ∧ zlen scl = 4) as (?&?&?&?)
    by (unfold zlen; lia).
  pose proof (zlen_nonneg rest). guard_false. slice_eval.
  unfold make_bytes. replace (0 <=? be_to_Z n) with true by lia. cbn [andb].
  destruct (be_to_Z n <=? maxAlloc); [|done]. slice_eval. done.
Qed.

Lemma ConnectedClients_unmarshal_marshal recv peer crc f :
  u64 peer → u64 crc → wf_Fuse f →
  ConnectedClients_MarshalBinary (mkCC peer crc (Some f)) ≫=
    ConnectedClients_UnmarshalBinary recv = Ok (mkCC peer crc (Some f)).
Proof.
  intros Hp Hc Hf. rewrite ConnectedClients_MarshalBinary_eq by done.
  destruct Hf as (? & ? & ? & ? & ? & ? & Hl). cbn [mbind go_bind].
  pose proof (zlen_nonneg (Fingerprints f)).
  assert (u64 (zlen (Fingerprints f))) by (unfold maxAlloc, u64 in *; lia).
  rewrite ConnectedClients_UnmarshalBinary_eq by (apply length_be_bytes || apply wf_be_bytes).
  rewrite !be64_roundtrip, !be32_roundtrip by done. guard_true.
  rewrite copy_full by (rewrite length_replicate; unfold zlen; lia). by destruct f.
Qed.

Lemma cc_buffer_split (b : list Z) :
  48 ≤ zlen b →
  ∃ (peer crc seed sl slm sc scl n rest : list Z),
    b = peer ++ crc ++ seed ++ sl ++ slm ++ sc ++ scl ++ n ++ rest ∧
    length peer = 8%nat ∧ length crc = 8%nat ∧ length seed = 8%nat ∧
    length sl = 4%nat ∧ length slm = 4%nat ∧ length sc = 4%nat ∧ length scl = 4%nat ∧
    length n = 8%nat ∧ n = take 8 (drop 40 b).
Proof.
  unfold zlen. intros Hl. do 48 (destruct b as [|? b]; [cbn in Hl; lia|]).
  by eexists [_;_;_;_;_;_;_;_], [_;_;_;_;_;_;_;_], [_;_;_;_;_;_;_;_], [_;_;_;_],
    [_;_;_;_], [_;_;_;_], [_;_;_;_], [_;_;_;_;_;_;_;_], _.
Qed.

Lemma clients_crc_u64 r clients : u64 r → u64 (clients_crc r clients).
Proof.
  unfold clients_crc. revert r. induction clients; intros r Hr; [done|].
  cbn. by apply IHclients, crc64_Write_u64.
Qed.

Lemma clients_crc_app r cs1 cs2 : clients_crc r (cs1 ++ cs2) = clients_crc (clients_crc r cs1) cs2.
Proof. apply foldl_app. Qed.

Lemma clients_crc_inj r r' cs : u64 r → u64 r' → clients_crc r cs = clients_crc r' cs → r = r'.
Proof.
  unfold clients_crc. revert r r'. induction cs as [|c cs IH]; intros r r' Hr Hr'; [done|].
  cbn. intros Heq%IH; [|by apply crc64_Write_u64..]. by apply crc64_Write_state_inj in Heq.
Qed.

Lemma clients_crc_change pre c c' post :
  u64 c → u64 c' → c ≠ c' →
  clients_crc 0 (pre ++ c :: post) ≠ clients_crc 0 (pre ++ c' :: post).
Proof.
  intros Hc Hc' Hne Heq. rewrite !clients_crc_app in Heq.
  assert (u64 (clients_crc 0 pre)) by by apply clients_crc_u64.
  cbn in Heq. apply clients_crc_inj in Heq; [|by apply crc64_Write_u64..].
  by apply crc64_Write_word_inj in Heq.
Qed.

(** *** [Who] *)
Lemma Who_range_spec entries client :
  Forall (λ e, is_Some (cc_f e.2)) entries →
  ∃ peer, Who_range entries client = Ok peer ∧
    ((∃ c, (peer, c) ∈ entries ∧ ConnectedClients_Has c client = Ok true) ∨
     (peer = 0 ∧ ∀ k c, (k, c) ∈ entries → ConnectedClients_Has c client = Ok false)).
Proof.
  induction 1 as [|[k c] entries Hf _ IH].
  { exists 0. split; [done|]. right. split; [done|]. set_solver. }
  cbn in Hf. destruct Hf as [f Hf]. cbn [Who_range].
  assert (ConnectedClients_Has c client = Ok (Contains8 f client)) as Hhas
    by (unfold ConnectedClients_Has; by rewrite Hf).
  rewrite Hhas. cbn [mbind go_bind]. destruct (Contains8 f client) eqn:E.
  - exists k. split; [done|]. left. exists c. split; [apply elem_of_cons; by left|done].
  - destruct IH as (p & Hp & IH). exists p. split; [done|].
    destruct IH as [(c' & Hin & Hc')|[-> Hall]].
    + left. exists c'. split; [apply elem_of_cons; by right|done].
    + right. split; [done|]. intros k' c' [Heq|Hin]%elem_of_cons; [by simplify_eq|by eapply Hall].
Qed.

Lemma Who_spec p range client :
  wf_PeerGraph p → range_ok range →
  ∃ peer, PeerGraph_Who p range client = Ok peer ∧
    ((∃ c, peerFilter p !! peer = Some c ∧ ConnectedClients_Has c client = Ok true) ∨
     (peer = 0 ∧ ∀ k c, peerFilter p !! k = Some c → ConnectedClients_Has c client = Ok false)).
Proof.
  intros Hwf Hr. destruct (Who_range_spec (range (peerFilter p)) client) as (q & Hq & Hcase).
  { apply Forall_forall. intros [k c] Hin. apply (enumerates_elem _ _ _ _ (Hr _)) in Hin.
    by apply (Hwf k c Hin). }
  exists q. split; [done|]. destruct Hcase as [(c & Hin & Hc)|[-> Hall]].
  - left. exists c. split; [|done]. by apply (enumerates_elem _ _ _ _ (Hr _)).
  - right. split; [done|]. intros k c Hk. apply (Hall k c).
    by apply (enumerates_elem _ _ _ _ (Hr _)).
Qed.

(** Only one entry matches: the answer does not depend on the order. *)
Lemma Who_unique p range client peer c :
  wf_PeerGraph p → range_ok range →
  peerFilter p !! peer = Some c → ConnectedClients_Has c client = Ok true →
  (∀ k c', peerFilter p !! k = Some c' → k ≠ peer → ConnectedClients_Has c' client = Ok false) →
  PeerGraph_Who p range client = Ok peer.
Proof.
  intros Hwf Hr Hp Hc Huniq.
  destruct (Who_spec p range client Hwf Hr) as (q & -> & [(c' & Hq & Hc')|[_ Hall]]).
  - destruct (decide (q = peer)) as [->|Hne]; [done|].
    by rewrite (Huniq q c' Hq Hne) in Hc'.
  - by rewrite (Hall _ _ Hp) in Hc.
Qed.

Lemma Who_none p range client :
  wf_PeerGraph p → range_ok range →
  (∀ k c, peerFilter p !! k = Some c → ConnectedClients_Has c client = Ok false) →
  PeerGraph_Who p range client = Ok 0.
Proof.
  intros Hwf Hr Hall.
  destruct (Who_spec p range client Hwf Hr) as (q & -> & [(c & Hq & Hc)|[-> _]]); [|done].
  by rewrite (Hall _ _ Hq) in Hc.
Qed.

(** *** [Replace] and [Remove] *)
Lemma Replace_entry p c :
  ∃ c', peerFilter (PeerGraph_Replace p c).1 !! cc_Peer c = Some c' ∧
        cc_CRC64 c' = cc_CRC64 c ∧
        (c' = c ∨ peerFilter p !! cc_Peer c = Some c').
Proof.
  unfold PeerGraph_Replace. destruct (peerFilter p !! cc_Peer c) as [old|] eqn:E.
  - destruct (Z.eqb_spec (cc_CRC64 old) (cc_CRC64 c)); cbn.
    + exists old. auto.
    + exists c. rewrite lookup_insert_eq. auto.
  - exists c. cbn. rewrite lookup_insert_eq. auto.
Qed.

Lemma Replace_other p c k :
  k ≠ cc_Peer c → peerFilter (PeerGraph_Replace p c).1 !! k = peerFilter p !! k.
Proof.
  intros. unfold PeerGraph_Replace. repeat case_match; cbn; rewrite ?lookup_insert_ne by done; done.
Qed.

Lemma Replace_changes p c :
  (∀ old, peerFilter p !! cc_Peer c = Some old → cc_CRC64 old ≠ cc_CRC64 c) →
  peerFilter (PeerGraph_Replace p c).1 !! cc_Peer c = Some c.
Proof.
  intros Hd. unfold PeerGraph_Replace. destruct (peerFilter p !! cc_Peer c) as [old|].
  - rewrite (proj2 (Z.eqb_neq _ _)) by auto. apply lookup_insert_eq.
  - apply lookup_insert_eq.
Qed.

Lemma Replace_wf p c :
  wf_PeerGraph p → is_Some (cc_f c) → wf_PeerGraph (PeerGraph_Replace p c).1.
Proof.
  intros Hp Hc. unfold PeerGraph_Replace. repeat case_match; try done; by apply map_Forall_insert_2.
Qed.

Lemma Remove_wf p k : wf_PeerGraph p → wf_PeerGraph (PeerGraph_Remove p k).
Proof. intros. by apply map_Forall_delete. Qed.

Lemma NewConnectedClients_inv `{!XorFilterOk} peer clients c :
  NewConnectedClients peer clients = Ok c →
  ∃ f, c = mkCC peer (clients_crc 0 clients) (Some f) ∧ wf_Fuse f ∧
       ∀ k, k ∈ clients → Contains8 f k = true.
Proof.
  unfold NewConnectedClients. intros (f & Hf & [= <-])%go_bind_Ok. exists f.
  split_and!; [done|by eapply Populate_wf|]. intros k Hk. by eapply Populate_contains.
Qed.
End ConnectedClients.

(** ** A concrete filter

    An exact set in the fingerprint bytes: the parameter's hypotheses can be
    met, and witnesses can be evaluated. *)
Definition exact_Populate (keys : list Z) : go BinaryFuse8 :=
  if 48 + 8 * zlen keys <=? maxAlloc
  then Ok (mkFuse 0 0 0 0 0 (concat (be_bytes 8 <$> keys)))
  else Err (Errorf "too many keys" []).

Definition exact_Contains (f : BinaryFuse8) (k : Z) : bool :=
  existsb (λ i, bool_decide (take 8 (drop (8 * i) (Fingerprints f)) = be_bytes 8 k))
    (seq 0 (length (Fingerprints f))).

#[export] Instance exact_filter : XorFilter :=
  {| PopulateBinaryFuse8 := exact_Populate; Contains8 := exact_Contains |}.

Lemma length_concat_words keys : length (concat (be_bytes 8 <$> keys)) = (8 * length keys)%nat.
Proof. induction keys; [done|]. cbn [fmap list_fmap concat]. rewrite length_app, length_be_bytes, IHkeys. cbn; lia. Qed.

Lemma drop_concat_words keys i :
  drop (8 * i) (concat (be_bytes 8 <$> keys)) = concat (be_bytes 8 <$> drop i keys).
Proof.
  revert keys. induction i as [|i IH]; intros [|k keys]; [done..|].
  cbn [fmap list_fmap concat drop].
  replace (8 * S i)%nat with (8 + 8 * i)%nat by lia.
  rewrite <-drop_drop. rewrite <-(IH keys). by f_equal.
Qed.

#[export] Instance exact_filter_ok : XorFilterOk.
Proof.
  split.
  - intros keys f. cbn. unfold exact_Populate. case_match; [|done]. intros [= <-].
    split_and!; try done; cbn.
    + induction keys; [apply Forall_nil; done|]. apply Forall_app_2; [apply wf_be_bytes|].
      apply IHkeys. rewrite zlen_cons in *. lia.
    + unfold zlen in *. rewrite length_concat_words. lia.
  - intros keys f k. cbn. unfold exact_Populate. case_match; [|done]. intros [= <-].
    intros (i & Hi)%list_elem_of_lookup. unfold exact_Contains. cbn [Fingerprints].
    apply existsb_exists. exists i. pose proof (lookup_lt_Some _ _ _ Hi). split.
    + apply in_seq. rewrite length_concat_words. lia.
    + apply bool_decide_eq_true. rewrite drop_concat_words, (drop_S _ _ _ Hi).
      cbn [fmap list_fmap concat]. rewrite <-(length_be_bytes 8 k) at 1. apply take_app_length.
Qed.

(** What is decoded is what was announced, and it has every client. *)
Lemma announcement_decodes `{XorFilterOk} peer clients c w :
  u64 peer → NewConnectedClients peer clients = Ok c → ConnectedClients_MarshalBinary c = Ok w →
  ConnectedClients_UnmarshalBinary zero_CC w = Ok c ∧ cc_Peer c = peer ∧ is_Some (cc_f c) ∧
  ∀ client, client ∈ clients → ConnectedClients_Has c client = Ok true.
Proof.
  intros Hp Hnew Hw. destruct (NewConnectedClients_inv _ _ _ Hnew) as (f & -> & Hf & Hc).
  pose proof (ConnectedClients_unmarshal_marshal zero_CC peer (clients_crc 0 clients) f Hp
    (clients_crc_u64 0 clients ltac:(done)) Hf) as Hrt. rewrite Hw in Hrt. cbn in Hrt.
  split_and!; [done|done|by eexists|]. intros client Hin. unfold ConnectedClients_Has. cbn.
  by rewrite Hc.
Qed.

Lemma Replace_Who `{XorFilter} g range client peer c :
  wf_PeerGraph g → range_ok range → cc_Peer c = peer → is_Some (cc_f c) →
  (∀ old, peerFilter g !! peer = Some old → cc_CRC64 old ≠ cc_CRC64 c) →
  ConnectedClients_Has c client = Ok true →
  (∀ k c', peerFilter g !! k = Some c' → k ≠ peer → ConnectedClients_Has c' client = Ok false) →
  PeerGraph_Who (PeerGraph_Replace g c).1 range client = Ok peer.
Proof.
  intros Hg Hr <- Hf Hold Hc Hother. eapply Who_unique; [by apply Replace_wf|done| |done|].
  - by apply Replace_changes.
  - intros k c' Hk Hne. rewrite Replace_other in Hk by done. by eapply Hother.
Qed.

(** ** Properties *)

(** The announcement codec.  Decoding what was encoded gives the same peer,
    digest and filter, whatever the receiver held; a buffer shorter than the
    48-byte header is an error; and a buffer whose declared fingerprint length
    exceeds what [make] accepts panics, which is the only way to fail
    otherwise. *)
Theorem announcement_codec :
  (∀ recv peer crc f, u64 peer → u64 crc → wf_Fuse f →
     ConnectedClients_MarshalBinary (mkCC peer crc (Some f)) ≫=
       ConnectedClients_UnmarshalBinary recv = Ok (mkCC peer crc (Some f))) ∧
  (∀ recv b, zlen b < 48 →
     ConnectedClients_UnmarshalBinary recv b = Err (Errorf "invalid buffer length: %d" [zlen b])) ∧
  (∀ recv b, wf_bytes b → 48 ≤ zlen b →
     is_ok (ConnectedClients_UnmarshalBinary recv b) =
       bool_decide (be_to_Z (take 8 (drop 40 b)) ≤ maxAlloc) ∧
     is_panic (ConnectedClients_UnmarshalBinary recv b) =
       bool_decide (maxAlloc < be_to_Z (take 8 (drop 40 b)))).
Proof.
  split_and!.
  - intros. by apply ConnectedClients_unmarshal_marshal.
  - intros recv b Hb. unfold ConnectedClients_UnmarshalBinary. by guard_true.
  - intros recv b Hwf Hb. destruct (cc_buffer_split b Hb)
      as (p & c & s & sl & slm & sc & scl & n & rest & Hsplit & ? & ? & ? & ? & ? & ? & ? & ? & <-).
    rewrite Hsplit in Hwf |- *. unfold wf_bytes in Hwf. rewrite !Forall_app in Hwf.
    rewrite ConnectedClients_UnmarshalBinary_eq by (done || by apply Hwf).
    destruct (Z.leb_spec (be_to_Z n) maxAlloc); cbn; split; symmetry;
      (apply bool_decide_eq_true || apply bool_decide_eq_false); lia.
Qed.

(** An announcement reaches the graph.  Take the clients connected to
    [peer], build their filter, encode it, decode it on another server and
    merge it there, over an entry that is absent or has a different digest.
    Then, for every order in which the map is visited, [Who] answers [peer] for
    each of those clients that no other entry's filter claims. *)
Theorem announcement_reaches_graph `{XorFilterOk} peer clients c w g range client :
  u64 peer →
  NewConnectedClients peer clients = Ok c →
  ConnectedClients_MarshalBinary c = Ok w →
  wf_PeerGraph g → range_ok range →
  (∀ old, peerFilter g !! peer = Some old → cc_CRC64 old ≠ cc_CRC64 c) →
  client ∈ clients →
  (∀ k c', peerFilter g !! k = Some c' → k ≠ peer → ConnectedClients_Has c' client = Ok false) →
  ∃ c', ConnectedClients_UnmarshalBinary zero_CC w = Ok c' ∧
    PeerGraph_Who (PeerGraph_Replace g c').1 range client = Ok peer.
Proof.
  intros Hp Hnew Hw Hg Hr Hold Hin Hother.
  destruct (announcement_decodes _ _ _ _ Hp Hnew Hw) as (Hdec & Hpeer & Hf & Hhas).
  exists c. split; [done|]. apply Replace_Who; auto.
Qed.

Lemma announcement_reaches_graph_witness :
  ∃ c w c', NewConnectedClients 4 [10; 11] = Ok c ∧
    ConnectedClients_MarshalBinary c = Ok w ∧
    ConnectedClients_UnmarshalBinary zero_CC w = Ok c' ∧
    PeerGraph_Who (PeerGraph_Replace (NewPeerGraph 3) c').1 map_to_list 11 = Ok 4.
Proof.
  assert (∃ c w, NewConnectedClients 4 [10; 11] = Ok c ∧
    ConnectedClients_MarshalBinary c = Ok w) as (c & w & Hc & Hw).
  { eexists _, _. split; [reflexivity|vm_compute; reflexivity]. }
  destruct (announcement_reaches_graph 4 [10; 11] c w (NewPeerGraph 3) map_to_list 11)
    as (c' & H1 & H2); [done|done|done| | | | | |].
  - apply map_Forall_empty.
  - intros m. apply enumerates_self.
  - intros old Ho. by destruct (lookup_empty_Some _ _ Ho).
  - set_solver.
  - intros k c' Hk. by destruct (lookup_empty_Some _ _ Hk).
  - by exists c, w, c'.
Defined.

(** The contract of [Replace].  Afterwards the sender's entry carries the
    digest of the announcement and every other entry is untouched; the result
    is [true] exactly when there was no entry or its digest differed, and then
    the announcement itself is stored; when it is [false] the graph is
    unchanged; well-formedness is kept. *)
Theorem replace_contract g c :
  wf_PeerGraph g → is_Some (cc_f c) →
  let '(g', modified) := PeerGraph_Replace g c in
  wf_PeerGraph g' ∧
  (∃ c', peerFilter g' !! cc_Peer c = Some c' ∧ cc_CRC64 c' = cc_CRC64 c) ∧
  (∀ k, k ≠ cc_Peer c → peerFilter g' !! k = peerFilter g !! k) ∧
  (modified = true ↔ ∀ old, peerFilter g !! cc_Peer c = Some old → cc_CRC64 old ≠ cc_CRC64 c) ∧
  (if modified then peerFilter g' !! cc_Peer c = Some c else g' = g).
Proof.
  intros Hg Hc. pose proof (Replace_wf g c Hg Hc). pose proof (Replace_entry g c) as (c' & ? & ? & _).
  pose proof (Replace_other g c). destruct (PeerGraph_Replace g c) as [g' modified] eqn:E.
  cbn in *. split_and!; [done|eauto|done| |]; unfold PeerGraph_Replace in E;
    destruct (peerFilter g !! cc_Peer c) as [old|] eqn:Eo;
    try (destruct (Z.eqb_spec (cc_CRC64 old) (cc_CRC64 c)));
    cbn in E; simplify_eq; cbn; rewrite ?lookup_insert_eq; naive_solver.
Qed.

Lemma replace_contract_witness :
  let c := mkCC 4 7 (Some zero_Fuse) in
  wf_PeerGraph (PeerGraph_Replace (NewPeerGraph 3) c).1.
Proof.
  pose proof (replace_contract (NewPeerGraph 3) (mkCC 4 7 (Some zero_Fuse))
    ltac:(apply map_Forall_empty) ltac:(by eexists)) as H. apply H.
Defined.

(** The digest notices every single change.  If one identifier in the list
    of connected clients is replaced by another, the digests differ, so
    merging the second announcement over the first stores it and reports a
    modification. *)
Theorem single_client_change_merged `{XorFilterOk} peer pre old_c new_c post a b g :
  u64 old_c → u64 new_c → old_c ≠ new_c →
  NewConnectedClients peer (pre ++ old_c :: post) = Ok a →
  NewConnectedClients peer (pre ++ new_c :: post) = Ok b →
  peerFilter g !! peer = Some a →
  PeerGraph_Replace g b = (mkPG (<[peer := b]> (peerFilter g)), true).
Proof.
  intros Ho Hn Hne Ha Hb Hg.
  destruct (NewConnectedClients_inv _ _ _ Ha) as (fa & -> & _ & _).
  destruct (NewConnectedClients_inv _ _ _ Hb) as (fb & -> & _ & _).
  unfold PeerGraph_Replace. cbn. rewrite Hg. cbn.
  rewrite (proj2 (Z.eqb_neq _ _)) by (by apply clients_crc_change). done.
Qed.

Lemma single_client_change_merged_witness :
  ∃ a b, NewConnectedClients 4 ([10] ++ 11 :: [12]) = Ok a ∧
    NewConnectedClients 4 ([10] ++ 13 :: [12]) = Ok b ∧
    PeerGraph_Replace (mkPG {[4 := a]}) b = (mkPG (<[4 := b]> {[4 := a]}), true).
Proof.
  eexists _, _. split; [vm_compute; reflexivity|]. split; [vm_compute; reflexivity|].
  by eapply (single_client_change_merged 4 [10] 11 13 [12]).
Defined.
