(* ===== verification/MuxChannel.v ===== *)
(** * MuxChannel: coordinating senders, one receiver and a close

    [multiplexer/channel.go].  The operations on the shared [Channel] are
    functions; the goroutines that use it (callers of [Put], the [Run] loop,
    callers of [Close], the consumer of [Incoming], cancellation of the
    context) are the labels of a transition system. *)
From S2P Require Import Prelude GoStd Link.

Open Scope Z_scope.

Record LinkConnection := mkLC {
  lc_Conn : Z;
  lc_Link : Link;
}.

(** [outgoing] is buffered, [closer] carries no data, [incoming] is unbuffered
    and has no state of its own: a sender waits until [Run] receives. *)
Record Channel := mkChannel {
  outgoing : chan LinkConnection;
  closer : chan unit;
  closed : Z;
  chClosed : Z;
  started : Z;
}.

Definition NewChannel : Channel := mkChannel (make_chan 32) (make_chan 0) 0 0 0.

(** [atomic.CompareAndSwapInt32] *)
Definition CompareAndSwapInt32 (v old new : Z) : bool * Z :=
  if v =? old then (true, new) else (false, v).

Definition Channel_Close (c : Channel) : go (Channel * bool) :=
  let '(swapped, closed') := CompareAndSwapInt32 (closed c) 0 1 in
  if swapped : bool then
    cl ← chan_close (closer c);
    Ok (mkChannel (outgoing c) cl closed' (chClosed c) (started c), true)
  else Ok (c, false).

Definition Channel_closeChannel (c : Channel) : go Channel :=
  let '(swapped, chClosed') := CompareAndSwapInt32 (chClosed c) 0 1 in
  if swapped : bool then
    og ← chan_close (outgoing c);
    Ok (mkChannel og (closer c) (closed c) chClosed' (started c))
  else Ok c.

(** ** The goroutines *)

(** Where the goroutine that won the [started] flag is. *)
Inductive run_pc :=
| RunNotStarted
| RunSelect
| RunSending (x : LinkConnection)
| RunReturned.

Record system := mkSys {
  ch : Channel;
  ctx_done : bool;
  waiting : list LinkConnection;     (* callers blocked in [Put], oldest first *)
  pc : run_pc;
  delivered : list LinkConnection;   (* what the consumer of [Incoming] received *)
  puts : list LinkConnection;        (* history of [Put] calls *)
  crashed : option panic;
}.

Definition init_system : system :=
  mkSys NewChannel false [] RunNotStarted [] [] None.

Inductive label :=
| LPut (l : LinkConnection)  (* [c.incoming <- l] reached *)
| LRun                       (* a goroutine calls [Run] *)
| LRunCtxDone                (* the loop takes [<-ctx.Done()] *)
| LRunCloser                 (* the loop takes [<-c.closer] *)
| LRunRecv                   (* the loop takes [x := <-c.incoming] *)
| LRunSend                   (* [c.outgoing <- x] *)
| LClose                     (* [Close()] *)
| LCancel                    (* the context is cancelled *)
| LConsume.                  (* the consumer receives from [outgoing] *)

(** The state after a panic: the process is gone. *)
Definition crash (s : system) (p : panic) : system :=
  mkSys (ch s) (ctx_done s) (waiting s) (pc s) (delivered s) (puts s) (Some p).

Definition with_ch (s : system) (c : Channel) (q : run_pc) : system :=
  mkSys c (ctx_done s) (waiting s) q (delivered s) (puts s) (crashed s).

(** [c.closeChannel(); return] *)
Definition run_return (s : system) : system :=
  match Channel_closeChannel (ch s) with
  | Ok c => with_ch s c RunReturned
  | Err _ => s
  | Panic p => crash s p
  end.

Definition channel_step (l : label) (s : system) : option system :=
  if crashed s then None else
  match l with
  | LPut x =>
      Some (mkSys (ch s) (ctx_done s) (waiting s ++ [x]) (pc s) (delivered s) (puts s ++ [x]) None)
  | LRun =>
      let '(swapped, v) := CompareAndSwapInt32 (started (ch s)) 0 1 in
      if swapped : bool then
        let c := mkChannel (outgoing (ch s)) (closer (ch s)) (closed (ch s)) (chClosed (ch s)) v in
        Some (with_ch s c RunSelect)
      else Some s
  | LRunCtxDone =>
      match pc s with
      | RunSelect => if ctx_done s then Some (run_return s) else None
      | _ => None
      end
  | LRunCloser =>
      match pc s with
      | RunSelect => if ch_closed (closer (ch s)) then Some (run_return s) else None
      | _ => None
      end
  | LRunRecv =>
      match pc s, waiting s with
      | RunSelect, x :: w =>
          Some (mkSys (ch s) (ctx_done s) w (RunSending x) (delivered s) (puts s) None)
      | _, _ => None
      end
  | LRunSend =>
      match pc s with
      | RunSending x =>
          match chan_send (outgoing (ch s)) x with
          | Sent og =>
              let c := mkChannel og (closer (ch s)) (closed (ch s)) (chClosed (ch s)) (started (ch s)) in
              Some (with_ch s c RunSelect)
          | SendBlocks => None
          | SendPanics => Some (crash s SendOnClosedChannel)
          end
      | _ => None
      end
  | LClose =>
      match Channel_Close (ch s) with
      | Ok (c, _) => Some (with_ch s c (pc s))
      | Err _ => None
      | Panic p => Some (crash s p)
      end
  | LCancel =>
      Some (mkSys (ch s) true (waiting s) (pc s) (delivered s) (puts s) None)
  | LConsume =>
      match chan_recv (outgoing (ch s)) with
      | Received x og =>
          let c := mkChannel og (closer (ch s)) (closed (ch s)) (chClosed (ch s)) (started (ch s)) in
          Some (mkSys c (ctx_done s) (waiting s) (pc s) (delivered s ++ [x]) (puts s) None)
      | _ => None
      end
  end.

(** ** The invariant *)
Definition sending (s : system) : list LinkConnection :=
  match pc s with RunSending x => [x] | _ => [] end.

Record channel_inv (s : system) : Prop := {
  inv_alive : crashed s = None;
  inv_closed : closed (ch s) = if ch_closed (closer (ch s)) then 1 else 0;
  inv_chClosed : chClosed (ch s) = if ch_closed (outgoing (ch s)) then 1 else 0;
  inv_outgoing : ch_closed (outgoing (ch s)) = true → pc s = RunReturned;
  inv_returned : pc s = RunReturned → ch_closed (outgoing (ch s)) = true;
  inv_started : started (ch s) = match pc s with RunNotStarted => 0 | _ => 1 end;
  inv_cap : ch_cap (outgoing (ch s)) = 32%nat ∧ (length (ch_buf (outgoing (ch s))) ≤ 32)%nat;
  inv_fifo : puts s = delivered s ++ ch_buf (outgoing (ch s)) ++ sending s ++ waiting s;
}.

Lemma channel_inv_init : channel_inv init_system.
Proof. split; cbn; try done. split; [done|lia]. Qed.

Lemma run_return_inv s :
  channel_inv s → pc s = RunSelect →
  channel_inv (run_return s) ∧ ch_closed (outgoing (ch (run_return s))) = true ∧
  pc (run_return s) = RunReturned ∧ waiting (run_return s) = waiting s.
Proof.
  intros [Ha Hc Hcc Ho Hr Hs Hcap Hf] Hpc.
  destruct (ch_closed (outgoing (ch s))) eqn:E; [by specialize (Ho eq_refl); rewrite Hpc in Ho|].
  unfold run_return, Channel_closeChannel, CompareAndSwapInt32, chan_close.
  rewrite Hcc. cbn. rewrite E. cbn. split; [|done].
  split; cbn; try done.
  - by rewrite Hpc in Hs.
  - rewrite Hf. unfold sending. by rewrite Hpc.
Qed.

Lemma channel_inv_step l s s' : channel_inv s → channel_step l s = Some s' → channel_inv s'.
Proof.
  intros Hinv. pose proof Hinv as [Ha Hc Hcc Ho Hr Hs Hcap Hf].
  unfold channel_step. rewrite Ha. destruct l.
  - intros [= <-]. split; cbn; try done. rewrite Hf. unfold sending. cbn. by rewrite !app_assoc.
  - unfold CompareAndSwapInt32. rewrite Hs. destruct (pc s) eqn:Hpc; cbn; intros [= <-]; [|done..].
    split; cbn; try done; [naive_solver|]. rewrite Hf. unfold sending. by rewrite Hpc.
  - destruct (pc s) eqn:Hpc; try done. destruct (ctx_done s); [|done].
    intros [= <-]. by apply run_return_inv.
  - destruct (pc s) eqn:Hpc; try done. destruct (ch_closed (closer (ch s))); [|done].
    intros [= <-]. by apply run_return_inv.
  - destruct (pc s) eqn:Hpc; try done. destruct (waiting s) as [|x w] eqn:Hw; [done|].
    intros [= <-]. split; cbn; try done; [naive_solver|]. rewrite Hf. unfold sending. cbn. by rewrite Hpc.
  - destruct (pc s) as [| |x|] eqn:Hpc; try done. unfold chan_send.
    destruct (ch_closed (outgoing (ch s))) eqn:E; [by specialize (Ho eq_refl)|].
    destruct Hcap as [Hcap Hlen]. rewrite Hcap.
    destruct (Nat.ltb_spec (length (ch_buf (outgoing (ch s)))) 32); [|done].
    intros [= <-]. split; cbn; try done.
    + split; [done|]. rewrite length_app. cbn. lia.
    + rewrite Hf. unfold sending. cbn. rewrite Hpc. by rewrite <-!app_assoc.
  - unfold Channel_Close, CompareAndSwapInt32, chan_close. rewrite Hc.
    destruct (ch_closed (closer (ch s))) eqn:E; cbn; rewrite ?E; cbn; intros [= <-].
    + split; cbn; try done. by rewrite E.
    + by split.
  - intros [= <-]. by split.
  - unfold chan_recv. destruct (ch_buf (outgoing (ch s))) as [|x b] eqn:Eb.
    { by destruct (ch_closed (outgoing (ch s))). }
    intros [= <-]. split; cbn; try done.
    + cbn in Hcap. lia.
    + rewrite Hf. unfold sending. cbn. by rewrite <-app_assoc.
Qed.

Lemma channel_reachable_inv s : reachable channel_step init_system s → channel_inv s.
Proof.
  apply reachable_invariant; [apply channel_inv_init|]. intros l s1 s2. apply channel_inv_step.
Qed.

(** Once the loop has returned nobody receives from [incoming] any more. *)
Lemma returned_step l s s' :
  channel_inv s → pc s = RunReturned → channel_step l s = Some s' →
  pc s' = RunReturned ∧ ∃ more, waiting s' = waiting s ++ more.
Proof.
  intros [Ha Hc Hcc Ho Hr Hs Hcap Hf] Hpc. unfold channel_step. rewrite Ha, Hpc.
  destruct l; cbn; try done.
  - intros [= <-]. cbn. split; [done|]. by eexists.
  - rewrite Hs, Hpc. cbn. intros [= <-]. split; [done|]. exists []. by rewrite app_nil_r.
  - unfold Channel_Close, CompareAndSwapInt32, chan_close. rewrite Hc.
    destruct (ch_closed (closer (ch s))) eqn:E; cbn; rewrite ?E; intros [= <-]; cbn;
      (split; [done|]); exists []; by rewrite app_nil_r.
  - intros [= <-]. cbn. split; [done|]. exists []. by rewrite app_nil_r.
  - destruct (chan_recv _); try done. intros [= <-]. cbn. split; [done|].
    exists []. by rewrite app_nil_r.
Qed.

(** How a running loop gets to its return once it has been told to stop. *)
Lemma shutdown_select s :
  channel_inv s → pc s = RunSelect → ch_closed (closer (ch s)) = true ∨ ctx_done s = true →
  ∃ l s', (l = LRunCloser ∨ l = LRunCtxDone) ∧ channel_step l s = Some s' ∧
    pc s' = RunReturned ∧ ch_closed (outgoing (ch s')) = true.
Proof.
  intros Hinv Hpc Hd. destruct (run_return_inv s Hinv Hpc) as (_ & Ho & Hp & _).
  pose proof (inv_alive s Hinv) as Ha.
  destruct Hd as [Hd|Hd]; [exists LRunCloser|exists LRunCtxDone]; exists (run_return s);
    (split; [auto|]); unfold channel_step; rewrite Ha, Hpc, Hd; auto.
Qed.

Lemma shutdown_send s x :
  channel_inv s → pc s = RunSending x → (length (ch_buf (outgoing (ch s))) < 32)%nat →
  ∃ s', channel_step LRunSend s = Some s' ∧ pc s' = RunSelect ∧
    closer (ch s') = closer (ch s) ∧ ctx_done s' = ctx_done s.
Proof.
  intros [Ha Hc Hcc Ho Hr Hs [Hcap _] Hf] Hpc Hlen. unfold channel_step. rewrite Ha, Hpc.
  unfold chan_send. destruct (ch_closed (outgoing (ch s))) eqn:E.
  { rewrite Hpc in Ho. by specialize (Ho eq_refl). }
  rewrite Hcap, (proj2 (Nat.ltb_lt _ _)) by done. by eexists.
Qed.

Lemma shutdown_consume s x :
  channel_inv s → pc s = RunSending x → (32 ≤ length (ch_buf (outgoing (ch s))))%nat →
  ∃ s', channel_step LConsume s = Some s' ∧ pc s' = RunSending x ∧
    (length (ch_buf (outgoing (ch s'))) < 32)%nat ∧
    closer (ch s') = closer (ch s) ∧ ctx_done s' = ctx_done s.
Proof.
  intros [Ha _ _ _ _ _ [_ Hle] _] Hpc Hlen. unfold channel_step. rewrite Ha.
  unfold chan_recv. destruct (ch_buf (outgoing (ch s))) as [|y b]; [cbn in Hlen; lia|].
  eexists. split; [done|]. cbn in *. split_and!; [done|lia|done|done].
Qed.

Definition shutdown_label (l : label) : Prop :=
  l = LConsume ∨ l = LRunSend ∨ l = LRunCloser ∨ l = LRunCtxDone.

Lemma shutdown_inv s :
  channel_inv s → pc s ≠ RunNotStarted →
  ch_closed (closer (ch s)) = true ∨ ctx_done s = true →
  ∃ ls s', Forall shutdown_label ls ∧ (length ls ≤ 3)%nat ∧
    run channel_step ls s = Some s' ∧ pc s' = RunReturned ∧ ch_closed (outgoing (ch s')) = true.
Proof.
  intros Hinv Hne Hd. unfold shutdown_label.
  assert (∀ s, channel_inv s → ∀ x, pc s = RunSending x →
    (length (ch_buf (outgoing (ch s))) < 32)%nat →
    ch_closed (closer (ch s)) = true ∨ ctx_done s = true →
    ∃ l s', (l = LRunCloser ∨ l = LRunCtxDone) ∧ run channel_step [LRunSend; l] s = Some s' ∧
      pc s' = RunReturned ∧ ch_closed (outgoing (ch s')) = true) as Hsend.
  { intros s0 Hi x Hpc Hlen Hd0. destruct (shutdown_send s0 x Hi Hpc Hlen) as (s1 & H1 & Hp1 & Hc1 & Hx1).
    destruct (shutdown_select s1) as (l & s2 & Hl & H2 & Hp2); [by eapply channel_inv_step|done|by rewrite Hc1, Hx1|].
    exists l, s2. cbn. rewrite H1. cbn. by rewrite H2. }
  destruct (pc s) as [| |x|] eqn:Hpc; [done| | |].
  - destruct (shutdown_select s Hinv Hpc Hd) as (l & s' & Hl & H1 & Hp).
    exists [l], s'. cbn. rewrite H1. split_and!; [|lia|done|by apply Hp..].
    apply Forall_singleton. naive_solver.
  - destruct (Nat.lt_ge_cases (length (ch_buf (outgoing (ch s)))) 32) as [Hlt|Hge].
    + destruct (Hsend s Hinv x Hpc Hlt Hd) as (l & s' & Hl & H1 & Hp).
      exists [LRunSend; l], s'. split_and!; [|cbn; lia|done|by apply Hp..].
      repeat apply Forall_cons_2; [naive_solver..|by apply Forall_nil].
    + destruct (shutdown_consume s x Hinv Hpc Hge) as (s1 & H1 & Hp1 & Hl1 & Hc1 & Hx1).
      destruct (Hsend s1) with x as (l & s' & Hl & H2 & Hp);
        [by eapply channel_inv_step|done|done|by rewrite Hc1, Hx1|].
      exists [LConsume; LRunSend; l], s'. split_and!; [|cbn; lia| |by apply Hp..].
      * repeat apply Forall_cons_2; [naive_solver..|by apply Forall_nil].
      * cbn [run]. by rewrite H1.
  - exists [], s. split_and!; [by apply Forall_nil|cbn; lia|done|done|].
    by apply (inv_returned s Hinv).
Qed.

(** ** Properties *)

(** C30: no interleaving of [Put], [Run], [Close], cancellation and consumption
    panics: the closer and the outgoing channel are each closed at most once
    and nothing is ever sent on the closed outgoing channel; the outgoing
    channel is closed exactly when the loop has returned. *)
Theorem channel_never_panics s :
  reachable channel_step init_system s →
  crashed s = None ∧ (ch_closed (outgoing (ch s)) = true ↔ pc s = RunReturned).
Proof.
  intros [Ha _ _ Ho Hr _ _ _]%channel_reachable_inv. split; [done|]. by split.
Qed.

(** A run: a connection is put, the loop starts, receives and forwards it, then
    the channel is closed and the loop returns. *)
Definition sample_lc : LinkConnection := mkLC 1 (mkLink 5 6 0 alpn_HTTP).
Definition sample_run : list label := [LPut sample_lc; LRun; LRunRecv; LRunSend; LClose; LRunCloser].

Lemma channel_never_panics_witness :
  ∃ s, reachable channel_step init_system s ∧ pc s = RunReturned ∧ crashed s = None.
Proof.
  destruct (run channel_step sample_run init_system) as [s|] eqn:E; [|done].
  pose proof (run_reachable _ _ _ _ E) as Hr. exists s. split; [done|].
  destruct (channel_never_panics s Hr) as [Hc _].
  split; [|done]. vm_compute in E. by injection E as <-.
Defined.

(** C31: connections are handed on in order, none lost and none duplicated: in
    every reachable state the sequence of [Put] calls is what the consumer has
    received, followed by the buffer, the element the loop is forwarding and
    the callers still waiting. *)
Theorem channel_fifo s :
  reachable channel_step init_system s →
  puts s = delivered s ++ ch_buf (outgoing (ch s)) ++ sending s ++ waiting s.
Proof. intros Hr. by apply inv_fifo, channel_reachable_inv. Qed.

Lemma channel_fifo_witness :
  ∃ s, run channel_step (sample_run ++ [LConsume]) init_system = Some s ∧
       puts s = delivered s ++ ch_buf (outgoing (ch s)) ++ sending s ++ waiting s.
Proof.
  destruct (run channel_step (sample_run ++ [LConsume]) init_system) as [s|] eqn:E; [|done].
  exists s. split; [done|]. apply (channel_fifo s). by eapply run_reachable.
Defined.

(** C32: a requested shutdown completes.  From every reachable state in which
    the loop runs and the closer is closed (or the context cancelled), at most
    one receive by the consumer, one pending send and one selection bring the
    loop to return with the outgoing channel closed. *)
Theorem channel_shutdown s :
  reachable channel_step init_system s →
  pc s ≠ RunNotStarted →
  ch_closed (closer (ch s)) = true ∨ ctx_done s = true →
  ∃ ls s', Forall (λ l, l = LConsume ∨ l = LRunSend ∨ l = LRunCloser ∨ l = LRunCtxDone) ls ∧
    (length ls ≤ 3)%nat ∧ run channel_step ls s = Some s' ∧
    pc s' = RunReturned ∧ ch_closed (outgoing (ch s')) = true.
Proof.
  intros Hinv%channel_reachable_inv Hne Hdone. by apply shutdown_inv.
Qed.

Lemma channel_shutdown_witness :
  ∃ s ls s', run channel_step [LRun; LPut sample_lc; LRunRecv; LClose] init_system = Some s ∧
    (length ls ≤ 3)%nat ∧ run channel_step ls s = Some s' ∧ pc s' = RunReturned.
Proof.
  destruct (run channel_step [LRun; LPut sample_lc; LRunRecv; LClose] init_system)
    as [s|] eqn:E; [|done].
  assert (pc s ≠ RunNotStarted ∧ ch_closed (closer (ch s)) = true) as [H1 H2].
  { vm_compute in E. by injection E as <-. }
  destruct (channel_shutdown s (run_reachable _ _ _ _ E) H1 (or_introl H2))
    as (ls & s' & _ & Hl & Hr & Hp & _).
  by exists s, ls, s'.
Defined.

(** A caller of [Put] that is still waiting when the loop returns waits for
    ever: after the return no step removes it from the queue of blocked
    senders. *)
Theorem channel_put_leak s s' :
  reachable channel_step init_system s → pc s = RunReturned →
  reachable channel_step s s' →
  ∃ more, waiting s' = waiting s ++ more.
Proof.
  intros Hinv%channel_reachable_inv Hpc Hr.
  enough (channel_inv s' ∧ pc s' = RunReturned ∧ ∃ more, waiting s' = waiting s ++ more)
    by naive_solver.
  induction Hr as [|s1 l s2 Hr (Hi & Hp & more & Hw) Hs].
  { split_and!; [done|done|]. exists []. by rewrite app_nil_r. }
  destruct (returned_step l s1 s2 Hi Hp Hs) as (Hp2 & more' & Hw2).
  split_and!; [by eapply channel_inv_step|done|].
  exists (more ++ more'). by rewrite Hw2, Hw, app_assoc.
Qed.

Lemma channel_put_leak_witness :
  ∃ s, run channel_step [LRun; LPut sample_lc; LClose; LRunCloser] init_system = Some s ∧
    ∀ s', reachable channel_step s s' → ∃ more, waiting s' = [sample_lc] ++ more.
Proof.
  eexists. split; [vm_compute; reflexivity|]. intros s' Hr.
  eapply channel_put_leak in Hr; [exact Hr| |done].
  apply (run_reachable _ [LRun; LPut sample_lc; LClose; LRunCloser]). by vm_compute.
Defined.
