(* ===== verification/Pipe.v ===== *)
(** * Pipe: copying between two connections

    [multiplexer/pipe.go] ([Connect] and [pipe]) and [util/reader.go], with the
    loop of [io.CopyBuffer] they run.  The two [pipe] goroutines, the goroutine
    that waits for them, the receiver of the error channel and the context are
    a transition system; what the connections answer to [Read] and [Write] is
    part of the labels, as far as the contract of the connections allows it. *)
From S2P Require Import Prelude GoStd.

Open Scope Z_scope.

Definition bufferSize : Z := 8 * 1024.

(** [dir]: ["<"] copies from [src] to [dst], [">"] the other way. *)
Inductive dir := ToDst | ToSrc.

#[export] Instance dir_eq_dec : EqDecision dir.
Proof. solve_decision. Defined.

Definition flip_dir (d : dir) : dir := match d with ToDst => ToSrc | ToSrc => ToDst end.

(** What [Close] does to a [Read] on the connection.  [net.Conn] documents that
    blocked reads are unblocked and return errors.  A QUIC stream, which
    [quicConn] embeds, documents that [Close] closes its write direction only. *)
Inductive close_effect := EndsReads | EndsWrites.

(** Where a [pipe] is: in the copy loop (about to call [readerCtx.Read], inside
    the [Read] of the connection, or about to write a chunk), closing its two
    connections with the result of the copy, sending the error, or returned. *)
Inductive pipe_pc :=
| PRead
| PReading
| PWrite (chunk : list Z) (rerr : option error)
| PCloseSrc (err : option error)
| PCloseDst (err : option error)
| PSend (err : error)
| PDone.

Record pipe_st := mkPipe {
  p_at : pipe_pc;
  p_read : list Z;      (* everything read from its source *)
  p_written : list Z;   (* everything its destination accepted *)
}.

Record connect_st := mkConn {
  cn_effect : dir → close_effect;   (* of the connection a direction copies to *)
  cn_toDst : pipe_st;
  cn_toSrc : pipe_st;
  cn_dstClosed : bool;
  cn_srcClosed : bool;
  cn_ctxDone : bool;
  cn_err : chan error;
  cn_waited : bool;
  cn_crash : option panic;
}.

Definition pipe_start : pipe_st := mkPipe PRead [] [].

(** [Connect]: an error channel of two and the goroutines; [dst] and [src] are
    the kinds of the two connections. *)
Definition Connect (dst src : close_effect) : connect_st :=
  mkConn (λ d, match d with ToDst => dst | ToSrc => src end) pipe_start pipe_start false false false (make_chan 2) false None.

Definition the_pipe (d : dir) (s : connect_st) : pipe_st :=
  match d with ToDst => cn_toDst s | ToSrc => cn_toSrc s end.
Definition set_pipe (d : dir) (p : pipe_st) (s : connect_st) : connect_st :=
  match d with
  | ToDst => mkConn (cn_effect s) p (cn_toSrc s) (cn_dstClosed s) (cn_srcClosed s) (cn_ctxDone s) (cn_err s)
               (cn_waited s) (cn_crash s)
  | ToSrc => mkConn (cn_effect s) (cn_toDst s) p (cn_dstClosed s) (cn_srcClosed s) (cn_ctxDone s) (cn_err s)
               (cn_waited s) (cn_crash s)
  end.

(** Whether the connection a pipe copies to (from) is closed. *)
Definition sink_closed (d : dir) (s : connect_st) : bool :=
  match d with ToDst => cn_dstClosed s | ToSrc => cn_srcClosed s end.
Definition source_closed (d : dir) (s : connect_st) : bool := sink_closed (flip_dir d) s.

Definition close_sink (d : dir) (s : connect_st) : connect_st :=
  match d with
  | ToDst => mkConn (cn_effect s) (cn_toDst s) (cn_toSrc s) true (cn_srcClosed s) (cn_ctxDone s) (cn_err s)
               (cn_waited s) (cn_crash s)
  | ToSrc => mkConn (cn_effect s) (cn_toDst s) (cn_toSrc s) (cn_dstClosed s) true (cn_ctxDone s) (cn_err s)
               (cn_waited s) (cn_crash s)
  end.
Definition close_source (d : dir) (s : connect_st) : connect_st := close_sink (flip_dir d) s.

Definition set_err (c : chan error) (waited : bool) (s : connect_st) : connect_st :=
  mkConn (cn_effect s) (cn_toDst s) (cn_toSrc s) (cn_dstClosed s) (cn_srcClosed s) (cn_ctxDone s) c waited
    (cn_crash s).
Definition connect_panics (p : panic) (s : connect_st) : connect_st :=
  mkConn (cn_effect s) (cn_toDst s) (cn_toSrc s) (cn_dstClosed s) (cn_srcClosed s) (cn_ctxDone s) (cn_err s)
    (cn_waited s) (Some p).
Definition cancel (s : connect_st) : connect_st :=
  mkConn (cn_effect s) (cn_toDst s) (cn_toSrc s) (cn_dstClosed s) (cn_srcClosed s) true (cn_err s) (cn_waited s)
    (cn_crash s).

(** The contract of the connections: a read on a connection that was closed,
    and whose [Close] ends reads, returns an error and no data; a write on a closed
    connection returns an error. *)
Definition read_allowed (d : dir) (s : connect_st) (answer : list Z * option error) : bool :=
  match source_closed d s, cn_effect s (flip_dir d) with
  | true, EndsReads => match answer with ([], Some _) => true | _ => false end
  | _, _ => zlen answer.1 <=? bufferSize
  end.
Definition write_allowed (d : dir) (s : connect_st) (werr : option error) : bool :=
  if sink_closed d s then match werr with Some _ => true | None => false end else true.

(** What [io.CopyBuffer] does with the error of a read: end-of-file is nil. *)
Definition after_read (rerr : option error) : pipe_pc :=
  match rerr with
  | None => PRead
  | Some e => PCloseSrc (if bool_decide (e = Sentinel io_EOF) then None else Some e)
  end.

Definition ErrShortWrite : error := Errorf "short write" [].

(** [readerCtx.Read]: the context is looked at, then the connection is read; a
    read in progress does not notice that the context ends. *)
Definition readerCtx_Err (s : connect_st) : option error :=
  if cn_ctxDone s then Some (Sentinel context_Canceled) else None.

Definition copy_enter (d : dir) (s : connect_st) : connect_st :=
  let p := the_pipe d s in
  match readerCtx_Err s with
  | Some e => set_pipe d (mkPipe (after_read (Some e)) (p_read p) (p_written p)) s
  | None => set_pipe d (mkPipe PReading (p_read p) (p_written p)) s
  end.

(** The connection answers a read of the copy loop. *)
Definition copy_read (d : dir) (answer : list Z * option error) (s : connect_st) : connect_st :=
  let p := the_pipe d s in
  let '(chunk, rerr) := answer in
  match chunk with
  | [] => set_pipe d (mkPipe (after_read rerr) (p_read p) (p_written p)) s
  | _ => set_pipe d (mkPipe (PWrite chunk rerr) (p_read p ++ chunk) (p_written p)) s
  end.

(** One write of the copy loop: [n] bytes are accepted. *)
Definition copy_write (d : dir) (chunk : list Z) (rerr : option error) (n : nat) (werr : option error)
    (s : connect_st) : connect_st :=
  let p := the_pipe d s in
  let pc := match werr with
            | Some e => PCloseSrc (Some e)
            | None => if (n <? length chunk)%nat then PCloseSrc (Some ErrShortWrite)
                      else after_read rerr
            end in
  set_pipe d (mkPipe pc (p_read p) (p_written p ++ take n chunk)) s.

Definition pipe_to (d : dir) (pc : pipe_pc) (s : connect_st) : connect_st :=
  set_pipe d (mkPipe pc (p_read (the_pipe d s)) (p_written (the_pipe d s))) s.

Inductive connect_label :=
| PLEnter (d : dir)
| PLRead (d : dir) (answer : list Z * option error)
| PLWrite (d : dir) (n : nat) (werr : option error)
| PLCloseSrc (d : dir)
| PLCloseDst (d : dir)
| PLSend (d : dir)
| PLWait
| PLConsume      (* somebody receives an error *)
| PLCancel.

Definition connect_step (l : connect_label) (s : connect_st) : option connect_st :=
  match cn_crash s with
  | Some _ => None
  | None =>
  match l with
  | PLEnter d =>
      match p_at (the_pipe d s) with
      | PRead => Some (copy_enter d s)
      | _ => None
      end
  | PLRead d answer =>
      match p_at (the_pipe d s) with
      | PReading => if read_allowed d s answer then Some (copy_read d answer s) else None
      | _ => None
      end
  | PLWrite d n werr =>
      match p_at (the_pipe d s) with
      | PWrite chunk rerr =>
          if write_allowed d s werr then Some (copy_write d chunk rerr n werr s) else None
      | _ => None
      end
  | PLCloseSrc d =>
      match p_at (the_pipe d s) with
      | PCloseSrc err => Some (pipe_to d (PCloseDst err) (close_source d s))
      | _ => None
      end
  | PLCloseDst d =>
      match p_at (the_pipe d s) with
      | PCloseDst err =>
          Some (pipe_to d (match err with Some e => PSend e | None => PDone end) (close_sink d s))
      | _ => None
      end
  | PLSend d =>
      match p_at (the_pipe d s) with
      | PSend e =>
          match chan_send (cn_err s) e with
          | Sent c => Some (pipe_to d PDone (set_err c (cn_waited s) s))
          | SendBlocks => None
          | SendPanics => Some (connect_panics SendOnClosedChannel s)
          end
      | _ => None
      end
  | PLWait =>
      match p_at (cn_toDst s), p_at (cn_toSrc s) with
      | PDone, PDone =>
          if cn_waited s then None else
          match chan_close (cn_err s) with
          | Ok c => Some (set_err c true s)
          | Err _ => None
          | Panic p => Some (connect_panics p s)
          end
      | _, _ => None
      end
  | PLConsume =>
      match chan_recv (cn_err s) with
      | Received _ c => Some (set_err c (cn_waited s) s)
      | _ => None
      end
  | PLCancel => Some (cancel s)
  end
  end.

(** ** The invariant *)

(** What is known of a pipe at each point: the bytes written are those read, in
    order, less the chunk in hand; all of them when the copy ended at
    end-of-file; and which connections it has closed. *)
Definition copied (p : pipe_st) : Prop :=
  match p_at p with
  | PRead | PReading => p_read p = p_written p
  | PWrite chunk _ => p_read p = p_written p ++ chunk
  | PCloseSrc None | PCloseDst None => p_read p = p_written p
  | _ => p_written p `prefix_of` p_read p
  end.

Definition closes (d : dir) (s : connect_st) : Prop :=
  match p_at (the_pipe d s) with
  | PRead | PReading | PWrite _ _ | PCloseSrc _ => True
  | PCloseDst _ => source_closed d s = true
  | PSend _ | PDone => source_closed d s = true ∧ sink_closed d s = true
  end.

Definition done_count (p : pipe_st) : nat := match p_at p with PDone => 1 | _ => 0 end.

Record connect_inv (s : connect_st) : Prop := {
  ni_crash : cn_crash s = None;
  ni_copied d : copied (the_pipe d s);
  ni_closes d : closes d s;
  ni_cap : ch_cap (cn_err s) = 2%nat;
  ni_closed : ch_closed (cn_err s) = cn_waited s;
  ni_waited : cn_waited s = true → p_at (cn_toDst s) = PDone ∧ p_at (cn_toSrc s) = PDone;
  ni_len : (length (ch_buf (cn_err s)) ≤ done_count (cn_toDst s) + done_count (cn_toSrc s))%nat;
}.

Lemma not_waited d s : connect_inv s → p_at (the_pipe d s) ≠ PDone → cn_waited s = false.
Proof.
  intros Hs Hd. destruct (cn_waited s) eqn:E; [|done]. destruct (ni_waited s Hs E). by destruct d.
Qed.

Lemma done_count_running p : p_at p ≠ PDone → done_count p = 0%nat.
Proof. unfold done_count. by destruct (p_at p). Qed.

(** Moving one pipe to another point of its body. *)
Lemma inv_set_pipe d p s :
  connect_inv s → p_at (the_pipe d s) ≠ PDone →
  copied p → closes d (set_pipe d p s) → connect_inv (set_pipe d p s).
Proof.
  intros Hs Hd Hp Hcd. pose proof (not_waited d s Hs Hd) as Hnw.
  pose proof (done_count_running _ Hd) as Hn. destruct Hs as [Hcr Hco Hcl Hcap Hc Hw Hl].
  split; try (by destruct d).
  - intros e. destruct d, e; try done; [apply (Hco ToSrc)|apply (Hco ToDst)].
  - intros e. destruct (decide (e = d)) as [->|Hne]; [done|].
    specialize (Hcl e). by destruct d, e.
  - destruct d; cbn; congruence.
  - destruct d; cbn in *; lia.
Qed.

Lemma close_sink_pipe d e s : the_pipe e (close_sink d s) = the_pipe e s.
Proof. by destruct d, e. Qed.

Lemma close_sink_mono d e s : sink_closed e s = true → sink_closed e (close_sink d s) = true.
Proof. by destruct d, e. Qed.

Lemma inv_close_sink d s : connect_inv s → connect_inv (close_sink d s).
Proof.
  intros [Hcr Hco Hcl Hcap Hc Hw Hl]. split; try (by destruct d).
  intros e. specialize (Hcl e). unfold closes, source_closed in *. rewrite close_sink_pipe.
  destruct (p_at (the_pipe e s)); naive_solver eauto using close_sink_mono.
Qed.

Lemma inv_set_err c s :
  connect_inv s → ch_cap c = ch_cap (cn_err s) → ch_closed c = ch_closed (cn_err s) →
  (length (ch_buf c) ≤ done_count (cn_toDst s) + done_count (cn_toSrc s))%nat →
  connect_inv (set_err c (cn_waited s) s).
Proof.
  intros [Hcr Hco Hcl Hcap Hc Hw Hl] Hcc Hccl Hlen. split; cbn; try done; try congruence.
Qed.

Lemma pipe_at_set d p s : the_pipe d (set_pipe d p s) = p.
Proof. by destruct d. Qed.

Lemma closes_set d p s :
  closes d (set_pipe d p s) ↔
  match p_at p with
  | PRead | PReading | PWrite _ _ | PCloseSrc _ => True
  | PCloseDst _ => source_closed d s = true
  | PSend _ | PDone => source_closed d s = true ∧ sink_closed d s = true
  end.
Proof. unfold closes. rewrite pipe_at_set. by destruct d. Qed.

(** Where the copy loop goes on after a read without data. *)
Lemma inv_after_read d rerr s :
  connect_inv s → p_at (the_pipe d s) ≠ PDone → p_read (the_pipe d s) = p_written (the_pipe d s) →
  connect_inv (pipe_to d (after_read rerr) s).
Proof.
  intros Hs Hd Hc. apply inv_set_pipe; [done|done| |].
  - unfold copied, after_read. destruct rerr; cbn; [|done]. case_bool_decide; by rewrite Hc.
  - rewrite closes_set. by destruct rerr.
Qed.

Lemma inv_copy_enter d s : connect_inv s → p_at (the_pipe d s) = PRead → connect_inv (copy_enter d s).
Proof.
  intros Hs Hd. unfold copy_enter. pose proof (ni_copied s Hs d) as Hc. unfold copied in Hc.
  rewrite Hd in Hc. destruct (readerCtx_Err s).
  - apply inv_after_read; [done|by rewrite Hd|done].
  - apply inv_set_pipe; [done|by rewrite Hd|done|by rewrite closes_set].
Qed.

Lemma inv_copy_read d answer s :
  connect_inv s → p_at (the_pipe d s) = PReading → connect_inv (copy_read d answer s).
Proof.
  intros Hs Hd. unfold copy_read. pose proof (ni_copied s Hs d) as Hc. unfold copied in Hc.
  rewrite Hd in Hc. destruct answer as [[|x chunk] rerr].
  - apply inv_after_read; [done|by rewrite Hd|done].
  - apply inv_set_pipe; [done|by rewrite Hd| |by rewrite closes_set]. cbn. by rewrite Hc.
Qed.

Lemma inv_copy_write d chunk rerr n werr s :
  connect_inv s → p_at (the_pipe d s) = PWrite chunk rerr →
  connect_inv (copy_write d chunk rerr n werr s).
Proof.
  intros Hs Hd. unfold copy_write. pose proof (ni_copied s Hs d) as Hc. unfold copied in Hc.
  rewrite Hd in Hc.
  assert (p_written (the_pipe d s) ++ take n chunk `prefix_of` p_read (the_pipe d s)) as Hpre.
  { rewrite Hc. apply prefix_app, prefix_take. }
  apply inv_set_pipe; [done|by rewrite Hd| |].
  - unfold copied. cbn [p_at p_read p_written]. destruct werr; [done|].
    destruct (n <? length chunk)%nat eqn:En; [done|].
    apply Nat.ltb_ge in En. rewrite take_ge by done.
    destruct rerr; cbn; [|done]. case_bool_decide; [done|]. by rewrite Hc.
  - rewrite closes_set. cbn [p_at]. destruct werr; [done|].
    destruct (n <? length chunk)%nat; [done|]. by destruct rerr.
Qed.

(** Leaving the copy loop further behind. *)
Definition after_copy (pc pc' : pipe_pc) : Prop :=
  match pc, pc' with
  | PCloseSrc e, PCloseDst e' => e = e'
  | PCloseDst (Some e), PSend e' => e = e'
  | PCloseDst None, PDone | PSend _, PDone => True
  | _, _ => False
  end.

Lemma inv_pipe_to d pc s :
  connect_inv s → after_copy (p_at (the_pipe d s)) pc →
  closes d (pipe_to d pc s) → connect_inv (pipe_to d pc s).
Proof.
  intros Hs Hd Hc. apply inv_set_pipe; [done|by intros Hx; rewrite Hx in Hd| |done].
  pose proof (ni_copied s Hs d) as Hco. unfold copied in *. cbn.
  destruct (p_at (the_pipe d s)) as [| | |[e|]|[e|]| |], pc as [| | |[]|[]| |];
    cbn in Hd; simplify_eq; try done; by rewrite Hco.
Qed.

Lemma connect_step_inv l s s' : connect_inv s → connect_step l s = Some s' → connect_inv s'.
Proof.
  intros Hs Hstep. unfold connect_step in Hstep. rewrite (ni_crash s Hs) in Hstep.
  destruct l as [d|d answer|d n werr|d|d|d| | |].
  - destruct (p_at _) eqn:Ed; simplify_eq. by apply inv_copy_enter.
  - destruct (p_at _) eqn:Ed; try done. case_match; simplify_eq. by apply inv_copy_read.
  - destruct (p_at _) eqn:Ed; try done. case_match; simplify_eq. by apply inv_copy_write.
  - destruct (p_at _) eqn:Ed; simplify_eq. unfold close_source.
    apply inv_pipe_to; [by apply inv_close_sink|by rewrite close_sink_pipe, Ed|].
    unfold pipe_to. rewrite closes_set. cbn. by destruct d.
  - destruct (p_at _) eqn:Ed; simplify_eq. pose proof (ni_closes s Hs d) as Hc. unfold closes in Hc.
    rewrite Ed in Hc. apply inv_pipe_to; [by apply inv_close_sink|rewrite close_sink_pipe, Ed; by destruct err|].
    unfold pipe_to. rewrite closes_set. cbn [p_at].
    assert (source_closed d (close_sink d s) = true) by by apply close_sink_mono.
    assert (sink_closed d (close_sink d s) = true) by by destruct d. by destruct err.
  - destruct (p_at _) eqn:Ed; try done. pose proof (ni_closes s Hs d) as Hc. unfold closes in Hc.
    rewrite Ed in Hc. unfold chan_send in Hstep.
    assert (cn_waited s = false) as Hnw by (apply (not_waited d s Hs); by rewrite Ed).
    rewrite (ni_closed s Hs), Hnw in Hstep. destruct (_ <? _)%nat; [|done]. injection Hstep as <-.
    assert (connect_inv (pipe_to d PDone s)) as Hdone.
    { apply inv_pipe_to; [done|by rewrite Ed|]. unfold pipe_to. by rewrite closes_set. }
    match goal with |- connect_inv (pipe_to _ _ (set_err ?c _ _)) =>
      replace (pipe_to d PDone (set_err c false s))
        with (set_err c (cn_waited (pipe_to d PDone s)) (pipe_to d PDone s))
        by (destruct d; unfold pipe_to, set_err, set_pipe; cbn; by rewrite Hnw) end.
    apply inv_set_err; [done|by destruct d| |].
    + rewrite (ni_closed _ Hdone). destruct d; cbn; by rewrite Hnw.
    + cbn [ch_buf]. rewrite length_app. cbn. pose proof (ni_len s Hs) as Hl.
      pose proof (done_count_running (the_pipe d s)) as Hz. rewrite Ed in Hz. specialize (Hz ltac:(done)).
      destruct d; cbn in *; unfold done_count in *; cbn; lia.
  - destruct (p_at (cn_toDst s)) eqn:E1; try done. destruct (p_at (cn_toSrc s)) eqn:E2; try done.
    destruct (cn_waited s) eqn:Ew; [done|]. unfold chan_close in Hstep.
    rewrite (ni_closed s Hs), Ew in Hstep. injection Hstep as <-.
    destruct Hs as [Hcr Hco Hcl Hcap Hc Hw Hl]. by split.
  - unfold chan_recv in Hstep. destruct (ch_buf (cn_err s)) as [|x b] eqn:Eb; [by destruct (ch_closed (cn_err s))|].
    injection Hstep as <-. apply inv_set_err; try done. pose proof (ni_len s Hs) as Hl.
    rewrite Eb in Hl. cbn in *. lia.
  - injection Hstep as <-. by destruct Hs.
Qed.

Lemma connect_reachable_inv dst src s : reachable connect_step (Connect dst src) s → connect_inv s.
Proof.
  revert s. apply reachable_invariant; [|intros l s s'; apply connect_step_inv].
  split; try done; by intros [].
Qed.

(** Both connections are of a kind whose [Close] ends reads. *)
Definition close_ends_reads (s : connect_st) : Prop := ∀ d, cn_effect s d = EndsReads.

(** ** Teardown *)

(** Statements of the goroutines themselves. *)
Definition internal (l : connect_label) : Prop := l ≠ PLConsume ∧ l ≠ PLCancel.

(** Statements a pipe has left once both connections are closed. *)
Definition left_to_do (p : pipe_st) : nat :=
  match p_at p with
  | PRead => 5
  | PReading | PWrite _ _ => 4
  | PCloseSrc _ => 3
  | PCloseDst _ => 2
  | PSend _ => 1
  | PDone => 0
  end.

Definition teardown (s : connect_st) : nat :=
  (left_to_do (cn_toDst s) + left_to_do (cn_toSrc s) + (if cn_waited s then 0 else 1))%nat.

Definition both_closed (s : connect_st) : Prop := cn_dstClosed s = true ∧ cn_srcClosed s = true.

Definition finished_connect (s : connect_st) : Prop :=
  p_at (cn_toDst s) = PDone ∧ p_at (cn_toSrc s) = PDone ∧ cn_waited s = true ∧
  ch_closed (cn_err s) = true.

Lemma set_pipe_effect d p s : cn_effect (set_pipe d p s) = cn_effect s.
Proof. by destruct d. Qed.

Lemma connect_step_effect l s s' : connect_step l s = Some s' → cn_effect s' = cn_effect s.
Proof.
  unfold connect_step, copy_enter, copy_read, copy_write, pipe_to. intros Hs.
  repeat (case_match; simplify_eq/=; try done); rewrite ?set_pipe_effect; try done;
    unfold close_source; match goal with d : dir |- _ => by destruct d end.
Qed.

Lemma connect_reachable_ends s :
  reachable connect_step (Connect EndsReads EndsReads) s → close_ends_reads s.
Proof.
  revert s. apply reachable_invariant; [by intros []|].
  intros l s s' Hs Hst d. by rewrite (connect_step_effect _ _ _ Hst).
Qed.

Lemma teardown_step l s s' :
  internal l → close_ends_reads s → both_closed s → connect_inv s → connect_step l s = Some s' →
  both_closed s' ∧ (teardown s' < teardown s)%nat.
Proof.
  intros [Hl1 Hl2] Hends [Hd Hsrc] Hs Hstep. unfold connect_step in Hstep.
  rewrite (ni_crash s Hs) in Hstep. unfold both_closed, teardown.
  assert (∀ d, sink_closed d s = true) as Hsink by by intros [].
  destruct l as [d|d answer|d n werr|d|d|d| | |]; try done.
  - destruct (p_at _) eqn:Ed; simplify_eq. unfold copy_enter, readerCtx_Err.
    destruct (cn_ctxDone s), d; cbn in *; unfold left_to_do; cbn; rewrite Ed; (split; [done|lia]).
  - destruct (p_at _) eqn:Ed; try done. unfold read_allowed, source_closed in Hstep.
    rewrite Hsink, Hends in Hstep. destruct answer as [[|x chunk] [e|]]; simplify_eq.
    destruct d; cbn in *; unfold left_to_do; cbn; rewrite Ed; (split; [done|lia]).
  - destruct (p_at _) eqn:Ed; try done. unfold write_allowed in Hstep. rewrite Hsink in Hstep.
    destruct werr as [e|]; simplify_eq.
    destruct d; cbn in *; unfold left_to_do; cbn; rewrite Ed; (split; [done|lia]).
  - destruct (p_at _) eqn:Ed; simplify_eq.
    destruct d; cbn in *; unfold left_to_do; cbn; rewrite Ed; (split; [done|lia]).
  - destruct (p_at _) eqn:Ed; simplify_eq.
    destruct d; cbn in *; unfold left_to_do; cbn; rewrite Ed; destruct err; (split; [done|lia]).
  - destruct (p_at _) eqn:Ed; try done. destruct (chan_send _ _) eqn:Ec; simplify_eq.
    + destruct d; cbn in *; unfold left_to_do; cbn; rewrite Ed; (split; [done|lia]).
    + exfalso. unfold chan_send in Ec. rewrite (ni_closed s Hs), (not_waited d s Hs) in Ec by by rewrite Ed.
      by case_match.
  - destruct (p_at (cn_toDst s)) eqn:E1; try done. destruct (p_at (cn_toSrc s)) eqn:E2; try done.
    destruct (cn_waited s) eqn:Ew; [done|]. unfold chan_close in Hstep.
    rewrite (ni_closed s Hs), Ew in Hstep. injection Hstep as <-. cbn.
    unfold left_to_do. rewrite E1, E2. split; [done|lia].
Qed.

(** Some statement can always run until everything is done. *)
Lemma teardown_progress s :
  both_closed s → connect_inv s → finished_connect s ∨ ∃ l s', internal l ∧ connect_step l s = Some s'.
Proof.
  intros Hb Hs.
  assert (∀ d, p_at (the_pipe d s) = PDone ∨ ∃ l s', internal l ∧ connect_step l s = Some s') as Hp.
  { intros d. destruct (p_at (the_pipe d s)) as [| |chunk rerr|err|err|err|] eqn:Ed; [right..|by left].
    - exists (PLEnter d). eexists. split; [done|]. unfold connect_step. by rewrite (ni_crash s Hs), Ed.
    - exists (PLRead d ([], Some (Sentinel net_ErrClosed))). eexists. split; [done|]. unfold connect_step.
      rewrite (ni_crash s Hs), Ed. unfold read_allowed. by destruct (source_closed d s), (cn_effect s (flip_dir d)).
    - exists (PLWrite d 0 (Some (Sentinel net_ErrClosed))). eexists. split; [done|]. unfold connect_step.
      rewrite (ni_crash s Hs), Ed. unfold write_allowed. by destruct (sink_closed d s).
    - exists (PLCloseSrc d). eexists. split; [done|]. unfold connect_step.
      by rewrite (ni_crash s Hs), Ed.
    - exists (PLCloseDst d). eexists. split; [done|]. unfold connect_step.
      by rewrite (ni_crash s Hs), Ed.
    - exists (PLSend d). unfold connect_step. rewrite (ni_crash s Hs), Ed. unfold chan_send.
      rewrite (ni_closed s Hs), (not_waited d s Hs) by by rewrite Ed.
      pose proof (ni_len s Hs) as Hl. rewrite (ni_cap s Hs).
      assert (length (ch_buf (cn_err s)) < 2)%nat as Hlt.
      { pose proof (done_count_running (the_pipe d s)) as Hz. rewrite Ed in Hz.
        specialize (Hz ltac:(done)). destruct d; cbn in Hz; rewrite Hz in Hl;
          unfold done_count in Hl; case_match; lia. }
      rewrite (proj2 (Nat.ltb_lt _ _) Hlt). by eexists. }
  destruct (Hp ToDst) as [H1|]; [|auto]. destruct (Hp ToSrc) as [H2|]; [|auto]. cbn in H1, H2.
  destruct (cn_waited s) eqn:Ew.
  - left. unfold finished_connect. by rewrite (ni_closed s Hs).
  - right. exists PLWait. unfold connect_step. rewrite (ni_crash s Hs), H1, H2, Ew.
    unfold chan_close. rewrite (ni_closed s Hs), Ew. by eexists.
Qed.

Lemma teardown_run ls s s' :
  Forall internal ls → close_ends_reads s → both_closed s → connect_inv s →
  run connect_step ls s = Some s' → both_closed s' ∧ connect_inv s' ∧ (length ls + teardown s' ≤ teardown s)%nat.
Proof.
  revert s. induction ls as [|l ls IH]; intros s Hls He Hb Hs Hrun.
  { cbn in Hrun. simplify_eq. split_and!; [done..|cbn; lia]. }
  apply Forall_cons in Hls as [Hl Hls]. cbn in Hrun. apply bind_Some in Hrun as (s1 & H1 & Hrun).
  destruct (teardown_step l s s1 Hl He Hb Hs H1) as [Hb1 Hlt].
  assert (close_ends_reads s1) as He1 by (intros d; by rewrite (connect_step_effect _ _ _ H1)).
  destruct (IH s1 Hls He1 Hb1 (connect_step_inv _ _ _ Hs H1) Hrun) as (? & ? & ?).
  split_and!; [done..|cbn; lia].
Qed.

(** ** Properties *)

(** C13: what a pipe delivers.  Whatever the connections answer and however the
    two directions interleave, nothing panics; the bytes accepted by the
    destination of a direction are a prefix of the bytes read from its source,
    and while the direction is at a read, or has left the loop at end-of-file,
    they are all of them; a direction that has returned has closed both
    connections; and the error channel is closed only after both returned. *)
Theorem connect_copies dst src s d :
  reachable connect_step (Connect dst src) s →
  cn_crash s = None ∧
  p_written (the_pipe d s) `prefix_of` p_read (the_pipe d s) ∧
  (p_at (the_pipe d s) = PRead ∨ p_at (the_pipe d s) = PReading ∨ p_at (the_pipe d s) = PCloseSrc None →
     p_written (the_pipe d s) = p_read (the_pipe d s)) ∧
  (p_at (the_pipe d s) = PDone → both_closed s) ∧
  (ch_closed (cn_err s) = true → p_at (the_pipe d s) = PDone).
Proof.
  intros Hr. pose proof (connect_reachable_inv dst src s Hr) as Hs.
  pose proof (ni_copied s Hs d) as Hc. pose proof (ni_closes s Hs d) as Hcl.
  unfold copied, closes in *. split; [apply Hs|]. split_and!.
  - repeat case_match; rewrite ?Hc; try done. by eexists.
  - intros [Hx|[Hx|Hx]]; by rewrite Hx in Hc.
  - intros Hx. rewrite Hx in Hcl. destruct Hcl. by destruct d.
  - rewrite (ni_closed s Hs). intros [? ?]%(ni_waited s Hs). by destruct d.
Qed.

Definition sample_copy : list connect_label :=
  [PLEnter ToDst; PLRead ToDst ([1; 2], None); PLWrite ToDst 2 None;
   PLEnter ToDst; PLRead ToDst ([3], Some (Sentinel io_EOF)); PLWrite ToDst 1 None].

Lemma connect_copies_witness :
  ∃ s, run connect_step sample_copy (Connect EndsReads EndsWrites) = Some s ∧
    p_written (the_pipe ToDst s) = [1; 2; 3] ∧
    p_written (the_pipe ToDst s) = p_read (the_pipe ToDst s).
Proof.
  eexists. split; [vm_compute; reflexivity|]. split; [done|].
  refine (proj1 (proj2 (proj2 (connect_copies EndsReads EndsWrites _ ToDst _))) _); [|by right; right].
  eapply (run_reachable _ sample_copy). vm_compute. reflexivity.
Defined.

(** C14: the teardown terminates, on connections whose [Close] ends reads as
    [net.Conn] documents it (TLS and TCP connections, Yamux and Mplex streams).
    Once both connections are closed (as either direction does when it ends), the
    goroutines of [Connect] execute at most eleven more statements under every
    schedule, none of them blocks for ever even if nobody receives the errors,
    and when no statement is left both directions and the waiter have returned
    and the error channel is closed. *)
Theorem connect_terminates s ls s' :
  reachable connect_step (Connect EndsReads EndsReads) s → both_closed s →
  Forall internal ls → run connect_step ls s = Some s' →
  (length ls ≤ 11)%nat ∧
  ((∀ l, internal l → connect_step l s' = None) → finished_connect s').
Proof.
  intros Hr Hb Hls Hrun. pose proof (connect_reachable_inv _ _ s Hr) as Hs.
  pose proof (connect_reachable_ends s Hr) as He.
  destruct (teardown_run ls s s' Hls He Hb Hs Hrun) as (Hb' & Hs' & Hle). split.
  - assert (teardown s ≤ 11)%nat; [|lia]. unfold teardown, left_to_do. repeat case_match; lia.
  - intros Hstuck. destruct (teardown_progress s' Hb' Hs') as [|(l & s2 & Hl & Hstep)]; [done|].
    by rewrite Hstuck in Hstep.
Qed.

Definition sample_close : list connect_label :=
  [PLEnter ToSrc; PLEnter ToDst; PLRead ToDst ([], Some (Sentinel io_EOF)); PLCloseSrc ToDst; PLCloseDst ToDst].
Definition sample_drain : list connect_label :=
  [PLRead ToSrc ([], Some (Sentinel net_ErrClosed)); PLCloseSrc ToSrc; PLCloseDst ToSrc; PLSend ToSrc; PLWait].

Lemma connect_terminates_witness :
  ∃ s s', run connect_step sample_close (Connect EndsReads EndsReads) = Some s ∧
    run connect_step sample_drain s = Some s' ∧ (length sample_drain ≤ 11)%nat.
Proof.
  destruct (run connect_step sample_close (Connect EndsReads EndsReads)) as [s|] eqn:E; [|by vm_compute in E].
  destruct (run connect_step sample_drain s) as [s'|] eqn:E'.
  - exists s, s'. split_and!; [done..|].
    refine (proj1 (connect_terminates s sample_drain s' (run_reachable _ _ _ _ E) _ _ E')).
    + vm_compute in E. injection E as <-. by vm_compute.
    + by repeat constructor.
  - vm_compute in E. injection E as <-. by vm_compute in E'.
Defined.

(** A pipe to a QUIC stream is not always torn down.  When the copy to the
    stream ends, both connections are closed, but the read on the stream is not
    ended by that: from then on the only statement the goroutines of [Connect]
    can execute is that read, so until the other side sends something or ends
    its direction, one goroutine stays in it and the error channel stays open,
    whatever the context does. *)
Theorem connect_quic_lingers src :
  ∃ s, reachable connect_step (Connect EndsWrites src) s ∧ both_closed s ∧ cn_ctxDone s = true ∧
    p_at (cn_toSrc s) = PReading ∧ ch_closed (cn_err s) = false ∧
    (∀ l s', internal l → connect_step l s = Some s' → ∃ answer, l = PLRead ToSrc answer).
Proof.
  eexists. split; [eapply (run_reachable _ (sample_close ++ [PLCancel])); vm_compute; reflexivity|].
  split_and!; try done. intros l s' [Hl1 Hl2] Hs.
  destruct l as [[]|[] answer|[]|[]|[]|[]| | |]; vm_compute in Hs; try done; by eexists.
Qed.
