(* ===== verification/Multiplexer.v ===== *)
(** * Multiplexer: configuration, registries and the [Peer] interface

    [multiplexer/const.go], [multiplexer/constructor.go],
    [multiplexer/dialer.go], [multiplexer/peer.go] and the error
    classification of [multiplexer/pipe.go]. *)
From S2P Require Import Prelude GoStd Link.

Open Scope Z_scope.

(** The dynamic types stored in [Config.Conn]: a [net.Conn] (TLS) or a
    [quic.Session]; the number identifies the object. *)
Inductive connector :=
| NetConn (id : Z)
| QuicSession (id : Z).

Record Config := mkConfig {
  cfg_Logger : bool;               (* non-nil *)
  cfg_Conn : option connector;     (* [None] is nil *)
  cfg_Peer : Z;
  cfg_Initiator : bool;
  cfg_Wait : Z;
}.

Definition Config_Validate (p : Config) : go unit :=
  if negb (cfg_Logger p) then Err (Errorf "nil logger is invalid" []) else
  match cfg_Conn p with
  | None => Err (Errorf "nil conn is invalid" [])
  | Some _ =>
      if cfg_Peer p =? 0 then Err (Errorf "peer cannot be 0" []) else Ok tt
  end.

(** ** Registries *)
Section Registry.
Context {T : Type}.

Definition RegisterConstructor (p : Protocol) (c : T) (reg : gmap Z T) : gmap Z T := <[p := c]> reg.

Definition multiplexer_New (reg : gmap Z T) (p : Protocol) : go T :=
  match reg !! p with
  | None => Err (Sentinel ErrUnknownProtocol)
  | Some c => if p =? protocol_Unknown then Err (Sentinel ErrUnknownProtocol) else Ok c
  end.

Definition RegisterDialer (p : Protocol) (d : T) (reg : gmap Z T) : gmap Z T := <[p := d]> reg.

Definition multiplexer_Dialer (reg : gmap Z T) (p : Protocol) : go T :=
  match reg !! p with
  | None => Err (Sentinel ErrUnknownProtocol)
  | Some c => if p =? protocol_Unknown then Err (Sentinel ErrUnknownProtocol) else Ok c
  end.

Lemma multiplexer_New_Ok reg p c :
  multiplexer_New reg p = Ok c ↔ reg !! p = Some c ∧ p ≠ protocol_Unknown.
Proof.
  unfold multiplexer_New. destruct (reg !! p); [|naive_solver].
  destruct (Z.eqb_spec p protocol_Unknown); naive_solver.
Qed.
End Registry.

(** ** The [Peer] interface

    The methods whose results the rest of the program depends on.  [Bye] gives
    the object after the call; [Direct] and [Bidirectional] take what opening a
    stream on the session gives. *)
Class MuxPeer (P : Type) := {
  Peer_Peer : P → Z;
  Peer_Initiator : P → bool;
  Peer_Protocol : P → Protocol;
  Peer_Bye : P → go P;
  Peer_Direct : P → go (Z * writer) → Link → go (Z * list Z);
  Peer_Bidirectional : P → go (Z * writer) → Z → Link → go (Z * Z * list Z);
}.

Abbreviation Constructor P := (Config → go P) (only parsing).

(** What the registered constructors promise: a peer is only built from a valid
    configuration and it reports the identifier, role and protocol it was built
    with. *)
Class ConstructorsOk {P} `{MuxPeer P} (reg : gmap Z (Constructor P)) := {
  constructor_conf p c conf q :
    reg !! p = Some c → c conf = Ok q →
    Config_Validate conf = Ok tt ∧ Peer_Peer q = cfg_Peer conf ∧
    Peer_Initiator q = cfg_Initiator conf ∧ Peer_Protocol q = p;
}.

Lemma Validate_Ok conf :
  Config_Validate conf = Ok tt ↔
  cfg_Logger conf = true ∧ is_Some (cfg_Conn conf) ∧ cfg_Peer conf ≠ 0.
Proof.
  unfold Config_Validate. destruct (cfg_Logger conf); cbn; [|naive_solver].
  destruct (cfg_Conn conf); [|split; [done|intros (_ & [? ?] & _); done]].
  destruct (Z.eqb_spec (cfg_Peer conf) 0); split; try done; naive_solver.
Qed.

(** ** [IsTimeout] *)
Definition IsTimeout (err : error) : bool :=
  let t := errors_Is err context_DeadlineExceeded || errors_Is err yamux_ErrTimeout in
  if t then t else
  match err with
  | NetError timeout => timeout
  | _ => false
  end.
