(* ===== verification/Mux.v ===== *)
(** * Mux: the three [Peer] implementations

    [mux/yamux.go], [mux/mplex.go] and [mux/quic.go].  The multiplexing
    libraries are parameters: [Sessions] holds their constructors.  A session's
    own behaviour enters as the results of its [Accept] and [Open] calls. *)
From S2P Require Import Prelude GoStd Link MuxChannel Multiplexer.

Open Scope Z_scope.

(** The library constructors: they turn the identifier of a connection into
    the identifier of a session. *)
Class Sessions := {
  yamux_Client : Z → go Z;
  yamux_Server : Z → go Z;
  NewMultiplex : Z → bool → Z;
}.

Inductive mux_kind := KYamux | KMplex | KQUIC.

(** The structs [Yamux], [Mplex] and [QUIC]: their common fields, the two extra
    fields of [QUIC], and what has been closed. *)
Record muxPeer := mkPeer {
  mp_kind : mux_kind;
  mp_session : Z;
  mp_config : Config;
  mp_channel : Channel;
  mp_timeoutCh : chan unit;
  mp_timeoutChClosed : Z;
  mp_sessionClosed : bool;
  mp_connClosed : bool;
}.

Section Mux.
Context `{Sessions}.

Definition type_assertion {A} : go A := Panic (PanicMsg "interface conversion").

Definition NewYamuxPeer (config : Config) : go muxPeer :=
  _ ← Config_Validate config;
  match cfg_Conn config with
  | Some (NetConn conn) =>
      session ← wrap_err "starting a peer connection"
        (if cfg_Initiator config then yamux_Client conn else yamux_Server conn);
      Ok (mkPeer KYamux session config NewChannel (make_chan 0) 0 false false)
  | _ => type_assertion
  end.

Definition NewMplexPeer (config : Config) : go muxPeer :=
  _ ← Config_Validate config;
  match cfg_Conn config with
  | Some (NetConn conn) =>
      let session := NewMultiplex conn (cfg_Initiator config) in
      Ok (mkPeer KMplex session config NewChannel (make_chan 0) 0 false false)
  | _ => type_assertion
  end.

Definition NewQuicPeer (config : Config) : go muxPeer :=
  _ ← Config_Validate config;
  match cfg_Conn config with
  | Some (QuicSession sess) =>
      Ok (mkPeer KQUIC sess config NewChannel (make_chan 0) 0 false false)
  | _ => type_assertion
  end.

(** ** Dialing

    A dialer gives the connector, the handshake connection and a closer; on
    error it may still give a closer.  The closer is the identifier of what it
    closes; [None] is a nil function.  The library calls are arguments. *)
Record dialed := mkDialed {
  dl_connector : option connector;
  dl_hs : option Z;
  dl_closer : option Z;
  dl_err : option error;
}.

Definition dialYamux (dial : Z + error) : dialed :=
  match dial with
  | inl conn => mkDialed (Some (NetConn conn)) (Some conn) (Some conn) None
  | inr sErr => mkDialed None None None (Some (Wrapf "opening tls connection" sErr))
  end.

Definition dialMplex (dial : Z + error) : dialed := dialYamux dial.

Definition dialQuic (dial : Z + error) (open : Z + error) : dialed :=
  match dial with
  | inl sess =>
      match open with
      | inl conn => mkDialed (Some (QuicSession sess)) (Some conn) (Some sess) None
      | inr sErr =>
          mkDialed None None (Some sess) (Some (Wrapf "opening quic handshake stream" sErr))
      end
  | inr err => mkDialed None None None (Some (Wrapf "opening quic session" err))
  end.

(** The dialers registered by the [init] functions, applied to what the network
    answers. *)
Definition dReg (dial open : Z + error) : gmap Z dialed :=
  RegisterDialer QUIC (dialQuic dial open)
  (RegisterDialer Yamux (dialYamux dial)
  (RegisterDialer Mplex (dialMplex dial) ∅)).

(** The [init] functions of the package. *)
Definition protocolRegistry : gmap Z (Constructor muxPeer) :=
  RegisterConstructor QUIC NewQuicPeer
  (RegisterConstructor Yamux NewYamuxPeer
  (RegisterConstructor Mplex NewMplexPeer ∅)).

Definition Yamux_Protocol : Protocol := Yamux.
Definition Mplex_Protocol : Protocol := Mplex.
Definition QUIC_Protocol : Protocol := QUIC.
Definition Yamux_Peer (p : muxPeer) : Z := cfg_Peer (mp_config p).
Definition Mplex_Peer (p : muxPeer) : Z := cfg_Peer (mp_config p).
Definition QUIC_Peer (p : muxPeer) : Z := cfg_Peer (mp_config p).
Definition Yamux_Initiator (p : muxPeer) : bool := cfg_Initiator (mp_config p).
Definition Mplex_Initiator (p : muxPeer) : bool := cfg_Initiator (mp_config p).
Definition QUIC_Initiator (p : muxPeer) : bool := cfg_Initiator (mp_config p).

(** The methods of the interface, by the dynamic type of the peer. *)
Definition muxPeer_Protocol (p : muxPeer) : Protocol :=
  match mp_kind p with KYamux => Yamux_Protocol | KMplex => Mplex_Protocol | KQUIC => QUIC_Protocol end.
Definition muxPeer_Peer (p : muxPeer) : Z :=
  match mp_kind p with KYamux => Yamux_Peer p | KMplex => Mplex_Peer p | KQUIC => QUIC_Peer p end.
Definition muxPeer_Initiator (p : muxPeer) : bool :=
  match mp_kind p with
  | KYamux => Yamux_Initiator p | KMplex => Mplex_Initiator p | KQUIC => QUIC_Initiator p
  end.

(** The addresses: what the network reports for a connection ([inl]) or a
    session ([inr]) is the argument; the connector's type is asserted again. *)
Definition Yamux_Addr (remote : Z + Z → string) (p : muxPeer) : go string :=
  match cfg_Conn (mp_config p) with Some (NetConn c) => Ok (remote (inl c)) | _ => type_assertion end.
Definition Mplex_Addr (remote : Z + Z → string) (p : muxPeer) : go string :=
  match cfg_Conn (mp_config p) with Some (NetConn c) => Ok (remote (inl c)) | _ => type_assertion end.
Definition QUIC_Addr (remote : Z + Z → string) (p : muxPeer) : go string :=
  match cfg_Conn (mp_config p) with Some (QuicSession c) => Ok (remote (inr c)) | _ => type_assertion end.
Definition muxPeer_Addr (remote : Z + Z → string) (p : muxPeer) : go string :=
  match mp_kind p with
  | KYamux => Yamux_Addr remote p | KMplex => Mplex_Addr remote p | KQUIC => QUIC_Addr remote p
  end.

(** A stream presented as a connection: it has the addresses of its session. *)
Record mplexConn := mkMplexConn { mc_Stream : Z; mc_parentConn : Z }.
Definition mplexConn_LocalAddr (local : Z + Z → string) (m : mplexConn) : string := local (inl (mc_parentConn m)).
Definition mplexConn_RemoteAddr (remote : Z + Z → string) (m : mplexConn) : string := remote (inl (mc_parentConn m)).

Record quicConn := mkQuicConn { qc_Stream : Z; qc_Session : Z }.
Definition WrapQUIC (session stream : Z) : quicConn := mkQuicConn stream session.
Definition quicConn_LocalAddr (local : Z + Z → string) (m : quicConn) : string := local (inr (qc_Session m)).
Definition quicConn_RemoteAddr (remote : Z + Z → string) (m : quicConn) : string := remote (inr (qc_Session m)).

(** ** Closing *)
Definition closeTimeoutCh (p : muxPeer) : go muxPeer :=
  let '(swapped, v) := CompareAndSwapInt32 (mp_timeoutChClosed p) 0 1 in
  if swapped : bool then
    t ← chan_close (mp_timeoutCh p);
    Ok (mkPeer (mp_kind p) (mp_session p) (mp_config p) (mp_channel p) t v
          (mp_sessionClosed p) (mp_connClosed p))
  else Ok p.

(** [Bye]: closing twice does nothing the second time. *)
Definition Yamux_Bye (p : muxPeer) : go muxPeer :=
  r ← Channel_Close (mp_channel p);
  let '(c, first) := r in
  if first : bool then
    Ok (mkPeer (mp_kind p) (mp_session p) (mp_config p) c (mp_timeoutCh p)
          (mp_timeoutChClosed p) true true)
  else Ok p.

Definition Mplex_Bye (p : muxPeer) : go muxPeer :=
  r ← Channel_Close (mp_channel p);
  let '(c, first) := r in
  if first : bool then
    Ok (mkPeer (mp_kind p) (mp_session p) (mp_config p) c (mp_timeoutCh p)
          (mp_timeoutChClosed p) true true)
  else Ok p.

(** The QUIC session owns its connection; closing it also fires [timeoutCh]. *)
Definition QUIC_Bye (p : muxPeer) : go muxPeer :=
  r ← Channel_Close (mp_channel p);
  let '(c, first) := r in
  if first : bool then
    closeTimeoutCh (mkPeer (mp_kind p) (mp_session p) (mp_config p) c (mp_timeoutCh p)
          (mp_timeoutChClosed p) true (mp_connClosed p))
  else Ok p.

Definition Bye (p : muxPeer) : go muxPeer :=
  match mp_kind p with
  | KYamux => Yamux_Bye p
  | KMplex => Mplex_Bye p
  | KQUIC => QUIC_Bye p
  end.

(** Whether the channel returned by [NotifyClose] is closed: the session's own
    close channel for Yamux and Mplex, [timeoutCh] for QUIC. *)
Definition Yamux_NotifyClose (p : muxPeer) : bool := mp_sessionClosed p.
Definition Mplex_NotifyClose (p : muxPeer) : bool := mp_sessionClosed p.
Definition QUIC_NotifyClose (p : muxPeer) : bool := ch_closed (mp_timeoutCh p).

Definition NotifyClose (p : muxPeer) : bool :=
  match mp_kind p with
  | KYamux => Yamux_NotifyClose p
  | KMplex => Mplex_NotifyClose p
  | KQUIC => QUIC_NotifyClose p
  end.

(** ** Accepting streams *)

(** What one [Accept] of the session gives: a stream (its identifier and its
    bytes) or an error. *)
Definition accept_result := go (Z * reader).

(** The end of [streamHandshake]: the link to [Put] on the channel, if any. *)
Definition put_link (stream : Z) (r : go (Link * reader)) : go (option LinkConnection) :=
  match r with
  | Ok (link, _) => Ok (Some (mkLC stream link))
  | Err _ => Ok None
  | Panic e => Panic e
  end.

Definition Yamux_streamHandshake (stream : Z) (conn : reader) : go (option LinkConnection) :=
  put_link stream (streamHandshake conn).
(** The connection put is the stream wrapped with the addresses of its parent. *)
Definition Mplex_streamHandshake (stream : Z) (conn : reader) : go (option LinkConnection) :=
  put_link stream (streamHandshake conn).
Definition QUIC_streamHandshake (stream : Z) (conn : reader) : go (option LinkConnection) :=
  put_link stream (streamHandshake conn).

(** One iteration of a [Start] loop with the [Bye] it calls: the peer, the
    stream for which a handshake goroutine is started, and whether the loop
    goes on. *)
Definition accept_iter (bye : muxPeer → go muxPeer) (p : muxPeer) (ctx_done : bool) (acc : accept_result)
    : go (muxPeer * option (Z * reader) * bool) :=
  if ctx_done then Ok (p, None, false) else
  match acc with
  | Ok stream => Ok (p, Some stream, true)
  | Err _ =>
      p' ← bye p;
      Ok (p', None, false)
  | Panic e => Panic e
  end.

(** A handshake goroutine: before its [Read], before its [Put], returned. *)
Inductive handshake_pc :=
| HRead (stream : Z) (conn : reader)
| HPut (l : LinkConnection)
| HDone.

(** The loop and the goroutines it has started; [st_puts] are the links that
    [Put] has sent, in the order in which the sends happened. *)
Record start_sys := mkStart {
  st_peer : muxPeer;
  st_running : bool;
  st_routines : list handshake_pc;
  st_puts : list LinkConnection;
}.

Definition start_init (p : muxPeer) : start_sys := mkStart p true [] [].

(** [SAccept]: an iteration of the loop; [SRead i]: goroutine [i] gets the
    header of its stream, which may take any time; [SPut i]: its [Put] is
    received. *)
Inductive start_label :=
| SAccept (ctx_done : bool) (acc : accept_result)
| SRead (i : nat)
| SPut (i : nat).

Definition start_step (bye : muxPeer → go muxPeer)
    (handshake : Z → reader → go (option LinkConnection)) (l : start_label) (s : start_sys)
    : option start_sys :=
  match l with
  | SAccept ctx_done acc =>
      if st_running s then
        match accept_iter bye (st_peer s) ctx_done acc with
        | Ok (p', spawned, continue) =>
            Some (mkStart p' continue
              (st_routines s ++ option_list ((λ x, HRead x.1 x.2) <$> spawned)) (st_puts s))
        | _ => None
        end
      else None
  | SRead i =>
      match st_routines s !! i with
      | Some (HRead stream conn) =>
          match handshake stream conn with
          | Ok (Some lc) =>
              Some (mkStart (st_peer s) (st_running s) (<[i := HPut lc]> (st_routines s)) (st_puts s))
          | Ok None =>
              Some (mkStart (st_peer s) (st_running s) (<[i := HDone]> (st_routines s)) (st_puts s))
          | _ => None
          end
      | _ => None
      end
  | SPut i =>
      match st_routines s !! i with
      | Some (HPut lc) =>
          Some (mkStart (st_peer s) (st_running s) (<[i := HDone]> (st_routines s)) (st_puts s ++ [lc]))
      | _ => None
      end
  end.

Definition Yamux_Start := start_step Yamux_Bye Yamux_streamHandshake.
Definition Mplex_Start := start_step Mplex_Bye Mplex_streamHandshake.
Definition QUIC_Start := start_step QUIC_Bye QUIC_streamHandshake.

Definition Start (kind : mux_kind) : start_label → start_sys → option start_sys :=
  match kind with KYamux => Yamux_Start | KMplex => Mplex_Start | KQUIC => QUIC_Start end.

(** The loop's iteration of a peer. *)
Definition Start_iter (p : muxPeer) : bool → accept_result → go (muxPeer * option (Z * reader) * bool) :=
  match mp_kind p with
  | KYamux => accept_iter Yamux_Bye p
  | KMplex => accept_iter Mplex_Bye p
  | KQUIC => accept_iter QUIC_Bye p
  end.

(** [Null]: a single accept; any stream request ends the session. *)
Definition Yamux_Null (p : muxPeer) (ctx_done : bool) (acc : accept_result) : go muxPeer :=
  if ctx_done then Ok p else
  match acc with
  | Ok _ => Bye p
  | Err _ => Ok p
  | Panic e => Panic e
  end.

Definition Mplex_Null (p : muxPeer) (ctx_done : bool) (acc : accept_result) : go muxPeer :=
  if ctx_done then Ok p else
  match acc with
  | Ok _ => Bye p
  | Err _ => Ok p
  | Panic e => Panic e
  end.

Definition QUIC_Null (p : muxPeer) (ctx_done : bool) (acc : accept_result) : go muxPeer :=
  if ctx_done then Ok p else
  match acc with
  | Ok _ => Bye p
  | Err _ => closeTimeoutCh p
  | Panic e => Panic e
  end.

Definition Null (p : muxPeer) (ctx_done : bool) (acc : accept_result) : go muxPeer :=
  match mp_kind p with
  | KYamux => Yamux_Null p ctx_done acc
  | KMplex => Mplex_Null p ctx_done acc
  | KQUIC => QUIC_Null p ctx_done acc
  end.

(** ** Opening streams *)

(** [Direct]: open a stream and write the handshake; on success the stream and
    the bytes sent. *)
Definition Yamux_Direct (p : muxPeer) (open : go (Z * writer)) (link : Link) : go (Z * list Z) :=
  n ← wrap_err "opening new stream" open;
  wire ← directHandshake link n.2;
  Ok (n.1, wire).
Definition Mplex_Direct (p : muxPeer) (newStream : go (Z * writer)) (link : Link) : go (Z * list Z) :=
  n ← wrap_err "opening new stream" newStream;
  wire ← directHandshake link n.2;
  Ok (n.1, wire).
Definition QUIC_Direct (p : muxPeer) (openStream : go (Z * writer)) (link : Link) : go (Z * list Z) :=
  n ← wrap_err "opening new stream" openStream;
  wire ← directHandshake link n.2;
  Ok (n.1, wire).

Definition Direct (p : muxPeer) : go (Z * writer) → Link → go (Z * list Z) :=
  match mp_kind p with
  | KYamux => Yamux_Direct p
  | KMplex => Mplex_Direct p
  | KQUIC => QUIC_Direct p
  end.

Definition Yamux_Messaging (p : muxPeer) (open : go (Z * writer)) : go (Z * list Z) :=
  n ← wrap_err "opening new messaging stream" open;
  wire ← messagingHandshake n.2;
  Ok (n.1, wire).
Definition Mplex_Messaging (p : muxPeer) (newStream : go (Z * writer)) : go (Z * list Z) :=
  n ← wrap_err "opening new messaging stream" newStream;
  wire ← messagingHandshake n.2;
  Ok (n.1, wire).
Definition QUIC_Messaging (p : muxPeer) (openStream : go (Z * writer)) : go (Z * list Z) :=
  n ← wrap_err "opening new messaging stream" openStream;
  wire ← messagingHandshake n.2;
  Ok (n.1, wire).

Definition Messaging (p : muxPeer) : go (Z * writer) → go (Z * list Z) :=
  match mp_kind p with
  | KYamux => Yamux_Messaging p
  | KMplex => Mplex_Messaging p
  | KQUIC => QUIC_Messaging p
  end.

(** [Bidirectional]: the two ends handed to [multiplexer.Connect]. *)
Definition Yamux_Bidirectional (p : muxPeer) (open : go (Z * writer)) (conn : Z) (link : Link)
    : go (Z * Z * list Z) :=
  n ← Yamux_Direct p open link;
  Ok (n.1, conn, n.2).
Definition Mplex_Bidirectional (p : muxPeer) (open : go (Z * writer)) (conn : Z) (link : Link)
    : go (Z * Z * list Z) :=
  n ← Mplex_Direct p open link;
  Ok (n.1, conn, n.2).
Definition QUIC_Bidirectional (p : muxPeer) (open : go (Z * writer)) (conn : Z) (link : Link)
    : go (Z * Z * list Z) :=
  n ← QUIC_Direct p open link;
  Ok (n.1, conn, n.2).

Definition Bidirectional (p : muxPeer) : go (Z * writer) → Z → Link → go (Z * Z * list Z) :=
  match mp_kind p with
  | KYamux => Yamux_Bidirectional p
  | KMplex => Mplex_Bidirectional p
  | KQUIC => QUIC_Bidirectional p
  end.

(** [Handle]: the channel of accepted streams. *)
Definition Yamux_Handle (p : muxPeer) : chan LinkConnection := outgoing (mp_channel p).
Definition Mplex_Handle (p : muxPeer) : chan LinkConnection := outgoing (mp_channel p).
Definition QUIC_Handle (p : muxPeer) : chan LinkConnection := outgoing (mp_channel p).

(** The writer given to Yamux for its log: which level a line is logged at, if
    any, and the count reported. *)
Inductive log_level := LogWarn | LogError.

Definition zapWriter_Write (b : list Z) (msg : string) : option log_level * Z :=
  (if Contains msg "frame for missing stream" then None
   else if Contains msg "iscard" then None
   else if Contains msg "[WARN]" then Some LogWarn
   else Some LogError, zlen b).
End Mux.

#[export] Instance muxPeer_MuxPeer : MuxPeer muxPeer :=
  {| Peer_Peer := muxPeer_Peer; Peer_Initiator := muxPeer_Initiator;
     Peer_Protocol := muxPeer_Protocol; Peer_Bye := Bye;
     Peer_Direct := Direct; Peer_Bidirectional := Bidirectional |}.

(** ** Lemmas *)

Lemma bind_Validate_Ok {A} conf (k : unit → go A) a :
  Config_Validate conf ≫= k = Ok a ↔ Config_Validate conf = Ok tt ∧ k tt = Ok a.
Proof. rewrite go_bind_Ok. split; [intros ([] & ? & ?)|intros [? ?]]; eauto. Qed.

Lemma protocolRegistry_inv `{Sessions} p c :
  protocolRegistry !! p = Some c →
  (p = Yamux ∧ c = NewYamuxPeer) ∨ (p = Mplex ∧ c = NewMplexPeer) ∨ (p = QUIC ∧ c = NewQuicPeer).
Proof.
  unfold protocolRegistry, RegisterConstructor.
  intros [[<- <-]|[_ [[<- <-]|[_ [[<- <-]|[_ Hp]]%lookup_insert_Some]]%lookup_insert_Some]]
    %lookup_insert_Some; auto. by apply lookup_empty_Some in Hp.
Qed.

(** The implementations open streams alike. *)
Lemma Direct_eq p open link :
  Direct p open link =
    (n ← wrap_err "opening new stream" open; wire ← directHandshake link n.2; Ok (n.1, wire)).
Proof. unfold Direct. by destruct (mp_kind p). Qed.

Lemma Bidirectional_eq p open conn link :
  Bidirectional p open conn link = (n ← Direct p open link; Ok (n.1, conn, n.2)).
Proof. unfold Bidirectional, Direct. by destruct (mp_kind p). Qed.

(** The implementations discharge the interface. *)
#[export] Instance protocolRegistry_ok `{Sessions} : ConstructorsOk protocolRegistry.
Proof.
  split. intros p c conf q Hp Hc.
  destruct (protocolRegistry_inv _ _ Hp) as [[-> ->]|[[-> ->]|[-> ->]]];
    apply bind_Validate_Ok in Hc as [Hv Hc];
    destruct (cfg_Conn conf) as [[id|id]|]; try done; cbn in Hc; go_inv; by split_and!.
Qed.

(** A connector fits a list of acceptable protocols when the constructors of
    these protocols accept its dynamic type. *)
Definition connector_fits (conn : connector) (p : Protocol) : bool :=
  match conn with
  | NetConn _ => bool_decide (p ∈ TLSProtos)
  | QuicSession _ => bool_decide (p ∈ QUICProtos)
  end.

(** The state of a peer as the operations leave it: the flags and the channels
    they guard agree, and a closed [Channel] means a closed session. *)
Record peer_inv (p : muxPeer) : Prop := {
  pi_closed : closed (mp_channel p) = if ch_closed (closer (mp_channel p)) then 1 else 0;
  pi_timeout : mp_timeoutChClosed p = if ch_closed (mp_timeoutCh p) then 1 else 0;
  pi_bye : ch_closed (closer (mp_channel p)) = true →
           mp_sessionClosed p = true ∧ NotifyClose p = true ∧
           (mp_kind p ≠ KQUIC → mp_connClosed p = true);
}.

Lemma closeTimeoutCh_Ok p :
  mp_timeoutChClosed p = (if ch_closed (mp_timeoutCh p) then 1 else 0) →
  ∃ t, closeTimeoutCh p = Ok (mkPeer (mp_kind p) (mp_session p) (mp_config p) (mp_channel p) t 1
         (mp_sessionClosed p) (mp_connClosed p)) ∧ ch_closed t = true.
Proof.
  intros Ht. unfold closeTimeoutCh, CompareAndSwapInt32, chan_close. rewrite Ht.
  destruct (ch_closed (mp_timeoutCh p)) eqn:E; cbn.
  - exists (mp_timeoutCh p). split; [|done]. destruct p; cbn in *. by rewrite <-Ht.
  - eexists. by split.
Qed.

Lemma Bye_Ok p :
  peer_inv p →
  ∃ p', Bye p = Ok p' ∧ peer_inv p' ∧ ch_closed (closer (mp_channel p')) = true ∧
        mp_kind p' = mp_kind p ∧ mp_config p' = mp_config p.
Proof.
  intros [Hc Ht Hb].
  unfold Bye, Yamux_Bye, Mplex_Bye, QUIC_Bye, Channel_Close, CompareAndSwapInt32, chan_close.
  rewrite Hc. destruct (ch_closed (closer (mp_channel p))) eqn:E; cbn.
  - exists p. split; [by destruct (mp_kind p)|]. split_and!; try done.
    split; [by rewrite E|done|]. by rewrite E.
  - destruct (mp_kind p) eqn:Ek.
    + eexists. by split_and!.
    + eexists. by split_and!.
    + match goal with |- context [closeTimeoutCh ?q] =>
        destruct (closeTimeoutCh_Ok q) as (t & -> & Htc); [done|] end.
      eexists. split_and!; try done; cbn. split; cbn; [done|by rewrite Htc|]. intros _. by split_and!.
Qed.

(** The three implementations of the loop do the same with their own [Bye]. *)
Lemma Start_iter_eq p ctx acc : Start_iter p ctx acc = accept_iter Bye p ctx acc.
Proof. unfold Start_iter, accept_iter, Bye. by destruct (mp_kind p), ctx, acc as [[? ?]| |]. Qed.

Lemma streamHandshake_no_panic conn : is_panic (streamHandshake conn) = false.
Proof.
  unfold streamHandshake. destruct (Read LinkSize conn) as [[got [e|]] r]; [done|].
  destruct (link_buffer_split (fill LinkSize got)) as (src & dst & a & b & Hs & H1 & H2).
  { unfold zlen. rewrite length_fill. done. }
  by rewrite Hs, Link_UnmarshalBinary_eq.
Qed.

Lemma Start_iter_Ok p ctx acc :
  peer_inv p → is_panic acc = false →
  ∃ p' spawned cont, Start_iter p ctx acc = Ok (p', spawned, cont) ∧ peer_inv p' ∧
    (ch_closed (closer (mp_channel p)) = true → ch_closed (closer (mp_channel p')) = true) ∧
    mp_kind p' = mp_kind p.
Proof.
  intros Hp Hacc. rewrite Start_iter_eq. unfold accept_iter. destruct ctx; [by eexists _, _, _|].
  destruct acc as [[stream conn]|e|]; [by eexists _, _, _| |done].
  - destruct (Bye_Ok p Hp) as (p' & -> & Hp' & Hc & Hk & _). eexists _, _, _. by split_and!.
Qed.

Lemma Null_Ok p ctx acc :
  peer_inv p → is_panic acc = false →
  ∃ p', Null p ctx acc = Ok p' ∧ peer_inv p' ∧ mp_kind p' = mp_kind p ∧
    (ch_closed (closer (mp_channel p)) = true → ch_closed (closer (mp_channel p')) = true) ∧
    (ctx = false → is_ok acc = true → ch_closed (closer (mp_channel p')) = true) ∧
    (ctx = false → mp_kind p = KQUIC → NotifyClose p' = true).
Proof.
  intros Hp Hacc. unfold Null, Yamux_Null, Mplex_Null, QUIC_Null.
  destruct ctx; [exists p; by destruct (mp_kind p)|].
  destruct acc as [a|e|]; [| |done].
  - destruct (Bye_Ok p Hp) as (p' & -> & Hp' & Hc & Hk & _).
    exists p'. split; [by destruct (mp_kind p)|]. split_and!; try done.
    intros _ _. by apply (pi_bye p' Hp').
  - destruct (mp_kind p) eqn:Ek; [exists p; by rewrite Ek|exists p; by rewrite Ek|].
    destruct (closeTimeoutCh_Ok p) as (t & -> & Ht); [by apply Hp|].
    eexists. split; [done|]. split_and!; try done; cbn.
    + destruct Hp as [Hc _ Hb]. split; cbn; [done|by rewrite Ht|].
      intros Hcl. destruct (Hb Hcl) as (? & ? & ?). split_and!; try done.
      unfold NotifyClose. cbn. by rewrite Ek.
    + intros _ _. unfold NotifyClose. cbn. by rewrite Ek.
Qed.

(** The calls made on a peer object during its life. *)
Inductive mux_event :=
| EvBye
| EvNull (ctx_done : bool) (acc : accept_result)
| EvStart (ctx_done : bool) (acc : accept_result).

Definition event_ok (e : mux_event) : Prop :=
  match e with
  | EvBye => True
  | EvNull _ acc | EvStart _ acc => is_panic acc = false
  end.

Definition mux_event_step (p : muxPeer) (e : mux_event) : go muxPeer :=
  match e with
  | EvBye => Bye p
  | EvNull ctx acc => Null p ctx acc
  | EvStart ctx acc => r ← Start_iter p ctx acc; Ok r.1.1
  end.

Fixpoint mux_events (p : muxPeer) (es : list mux_event) : go muxPeer :=
  match es with
  | [] => Ok p
  | e :: es' => p' ← mux_event_step p e; mux_events p' es'
  end.

(** The events that end the session from this side. *)
Definition ends_session (e : mux_event) : bool :=
  match e with
  | EvBye => true
  | EvNull ctx acc => negb ctx && is_ok acc
  | EvStart ctx acc => negb ctx && negb (is_ok acc)
  end.

Lemma mux_event_step_Ok p e :
  peer_inv p → event_ok e →
  ∃ p', mux_event_step p e = Ok p' ∧ peer_inv p' ∧
    (ch_closed (closer (mp_channel p)) = true ∨ ends_session e = true →
     ch_closed (closer (mp_channel p')) = true).
Proof.
  intros Hp He. destruct e as [|ctx acc|ctx acc]; cbn in *.
  - destruct (Bye_Ok p Hp) as (p' & -> & Hp' & Hc & _). by exists p'.
  - destruct (Null_Ok p ctx acc Hp He) as (p' & -> & Hp' & _ & Hk & Ho & _).
    exists p'. split_and!; try done. intros [?|Hx]; [auto|].
    apply andb_true_iff in Hx as [Hx ?]. apply Ho; [by destruct ctx|done].
  - destruct (Start_iter_Ok p ctx acc Hp He) as (p' & puts & cont & Heq & Hp' & Hk & _).
    rewrite Heq. exists p'. split_and!; try done. intros [?|Hx]; [auto|].
    apply andb_true_iff in Hx as [Hx Hacc]. rewrite Start_iter_eq in Heq. unfold accept_iter in Heq.
    destruct ctx; [done|]. destruct acc; [done| |done].
    destruct (Bye_Ok p Hp) as (p2 & Hb & _ & Hc & _). rewrite Hb in Heq. cbn in Heq. by simplify_eq.
Qed.

Lemma mux_events_Ok p es :
  peer_inv p → Forall event_ok es →
  ∃ p', mux_events p es = Ok p' ∧ peer_inv p' ∧
    (ch_closed (closer (mp_channel p)) = true ∨ existsb ends_session es = true →
     ch_closed (closer (mp_channel p')) = true).
Proof.
  intros Hp Hes. revert p Hp. induction Hes as [|e es He Hes IH]; intros p Hp.
  { exists p. split_and!; try done. cbn. naive_solver. }
  destruct (mux_event_step_Ok p e Hp He) as (p1 & H1 & Hp1 & Hc1).
  destruct (IH p1 Hp1) as (p2 & H2 & Hp2 & Hc2). exists p2. cbn. rewrite H1. cbn.
  split_and!; [done|done|]. rewrite orb_true_iff. naive_solver.
Qed.

Lemma constructor_inv `{Sessions} proto c conf p :
  protocolRegistry !! proto = Some c → c conf = Ok p → peer_inv p.
Proof.
  intros Hp Hc. destruct (protocolRegistry_inv _ _ Hp) as [[-> ->]|[[-> ->]|[-> ->]]];
    apply bind_Validate_Ok in Hc as [_ Hc]; destruct (cfg_Conn conf) as [[id|id]|]; try done;
    cbn in Hc; go_inv; by split.
Qed.

(** ** What an accept loop hands on

    The reference: the streams accepted before the context ends or an accept
    fails, those whose header could not be decoded left out. *)
Definition handed_on (stream : Z) (conn : reader) : list LinkConnection :=
  match streamHandshake conn with Ok (link, _) => [mkLC stream link] | _ => [] end.

Fixpoint accepted (accepts : list (bool * accept_result)) : list LinkConnection :=
  match accepts with
  | (false, Ok (stream, conn)) :: rest => handed_on stream conn ++ accepted rest
  | _ => []
  end.

(** Whether the loop ends by a failed accept, and whether it goes on. *)
Fixpoint accept_fails (accepts : list (bool * accept_result)) : bool :=
  match accepts with
  | (false, Ok _) :: rest => accept_fails rest
  | (false, Err _) :: _ => true
  | _ => false
  end.

Definition goes_on (accepts : list (bool * accept_result)) : bool :=
  forallb (λ a, negb a.1 && is_ok a.2) accepts.

(** The accept results among the labels of a run. *)
Definition accepts_of (ls : list start_label) : list (bool * accept_result) :=
  omap (λ l, match l with SAccept ctx acc => Some (ctx, acc) | _ => None end) ls.

Lemma goes_on_snoc accs a : goes_on (accs ++ [a]) = goes_on accs && (negb a.1 && is_ok a.2).
Proof. unfold goes_on. rewrite forallb_app. cbn. by rewrite andb_true_r. Qed.

Lemma accepted_snoc accs a : goes_on accs = true → accepted (accs ++ [a]) = accepted accs ++ accepted [a].
Proof.
  induction accs as [|[[] [[stream conn]| |]] accs IH]; intros Hg; try done.
  cbn [app accepted]. rewrite IH by done. by rewrite <-app_assoc.
Qed.

Lemma accept_fails_snoc accs a : goes_on accs = true → accept_fails (accs ++ [a]) = accept_fails [a].
Proof. induction accs as [|[[] [[stream conn]| |]] accs IH]; intros Hg; try done. by apply IH. Qed.

(** The links a goroutine will still put. *)
Definition owed_links (h : handshake_pc) : list LinkConnection :=
  match h with HRead stream conn => handed_on stream conn | HPut l => [l] | HDone => [] end.
Definition all_owed (hs : list handshake_pc) : list LinkConnection := concat (owed_links <$> hs).
#[local] Arguments all_owed : simpl never.

Lemma all_owed_app h1 h2 : all_owed (h1 ++ h2) = all_owed h1 ++ all_owed h2.
Proof. unfold all_owed. by rewrite fmap_app, concat_app. Qed.

Lemma all_owed_insert hs i h h' extra :
  hs !! i = Some h → owed_links h ≡ₚ extra ++ owed_links h' →
  all_owed hs ≡ₚ extra ++ all_owed (<[i := h']> hs).
Proof.
  intros Hi Hh. rewrite insert_take_drop by (by eapply lookup_lt_Some).
  rewrite <-(take_drop_middle hs i h Hi) at 1. rewrite !all_owed_app.
  change (h :: drop (S i) hs) with ([h] ++ drop (S i) hs).
  change (h' :: drop (S i) hs) with ([h'] ++ drop (S i) hs). rewrite !all_owed_app.
  unfold all_owed at 2 5. cbn. rewrite !app_nil_r, Hh. solve_Permutation.
Qed.

(** The state of a loop after the accepts [accs]. *)
Record start_inv (accs : list (bool * accept_result)) (s : start_sys) : Prop := {
  sti_peer : peer_inv (st_peer s);
  sti_running : st_running s = goes_on accs;
  sti_links : st_puts s ++ all_owed (st_routines s) ≡ₚ accepted accs;
  sti_fails : accept_fails accs = true → ch_closed (closer (mp_channel (st_peer s))) = true;
}.

Section Start.
(** Any of the three loops. *)
Variable kind : mux_kind.

Lemma Start_eq : Start kind = start_step
  match kind with KYamux => Yamux_Bye | KMplex => Mplex_Bye | KQUIC => QUIC_Bye end
  (λ stream conn, put_link stream (streamHandshake conn)).
Proof. by destruct kind. Qed.

Lemma Start_accept s ctx acc :
  mp_kind (st_peer s) = kind →
  Start kind (SAccept ctx acc) s =
    if st_running s then
      match accept_iter Bye (st_peer s) ctx acc with
      | Ok (p', spawned, continue) =>
          Some (mkStart p' continue
            (st_routines s ++ option_list ((λ x, HRead x.1 x.2) <$> spawned)) (st_puts s))
      | _ => None
      end
    else None.
Proof. intros <-. rewrite <-Start_iter_eq. unfold Start, Start_iter. by destruct (mp_kind (st_peer s)). Qed.

Lemma start_inv_accept accs s ctx acc s' :
  mp_kind (st_peer s) = kind → start_inv accs s → Start kind (SAccept ctx acc) s = Some s' →
  start_inv (accs ++ [(ctx, acc)]) s' ∧ mp_kind (st_peer s') = kind.
Proof.
  intros Hk [Hp Hr Hl Hf] Hs. rewrite Start_accept in Hs by done.
  destruct (st_running s); [|done]. symmetry in Hr. unfold accept_iter in Hs.
  destruct ctx; [|destruct acc as [[stream conn]|e|]; [| |done]].
  - injection Hs as <-. split; [|done]. cbn. rewrite app_nil_r. split; cbn; try done.
    + by rewrite goes_on_snoc, andb_false_r.
    + rewrite accepted_snoc, app_nil_r by done. done.
    + by rewrite accept_fails_snoc.
  - injection Hs as <-. split; [|done]. split; cbn; try done.
    + by rewrite goes_on_snoc, Hr.
    + rewrite accepted_snoc, all_owed_app, (assoc_L (++)), Hl by done. unfold all_owed. cbn.
      by rewrite !app_nil_r.
    + by rewrite accept_fails_snoc.
  - destruct (Bye_Ok _ Hp) as (p' & Hb & Hp' & Hc & Hk' & _). rewrite Hb in Hs. injection Hs as <-.
    split; [|by cbn; rewrite Hk']. cbn. rewrite app_nil_r. split; cbn; try done.
    + by rewrite goes_on_snoc, andb_false_r.
    + rewrite accepted_snoc, app_nil_r by done. done.
Qed.

Lemma start_inv_routine accs s l s' :
  (∀ ctx acc, l ≠ SAccept ctx acc) → start_inv accs s → Start kind l s = Some s' →
  start_inv accs s' ∧ st_peer s' = st_peer s ∧ st_running s' = st_running s.
Proof.
  intros Hna [Hp Hr Hl Hf] Hs. rewrite Start_eq in Hs. destruct l as [ctx acc|i|i]; [by destruct (Hna ctx acc)|..];
    cbn in Hs; destruct (st_routines s !! i) as [[stream conn|lc|]|] eqn:Hi; try done.
  - pose proof (streamHandshake_no_panic conn) as Hn.
    destruct (streamHandshake conn) as [[l r]|e|] eqn:Hh; [| |done]; injection Hs as <-;
      (split; [|done]); (split; cbn; try done); rewrite <-Hl; f_equiv; symmetry;
      (apply (all_owed_insert _ _ _ _ [] Hi)); cbn; unfold handed_on; by rewrite Hh.
  - injection Hs as <-. split; [|done]. split; cbn; try done. rewrite <-Hl, <-(assoc_L (++)). f_equiv.
    symmetry. by apply (all_owed_insert _ _ _ _ [lc] Hi).
Qed.

Lemma start_run_inv p ls s :
  peer_inv p → mp_kind p = kind → run (Start kind) ls (start_init p) = Some s →
  start_inv (accepts_of ls) s ∧ mp_kind (st_peer s) = kind.
Proof.
  intros Hp Hk. revert s. induction ls as [|l ls IH] using rev_ind; intros s.
  { cbn. intros [= <-]. split; [|done]. by split. }
  rewrite run_app. intros (s1 & H1 & H2)%bind_Some. destruct (IH s1 H1) as [Hi Hk1].
  unfold accepts_of in *. rewrite omap_app. cbn in H2.
  destruct (Start kind l s1) as [s2|] eqn:Hs; [|done]. injection H2 as ->.
  destruct l as [ctx acc|i|i]; cbn.
  - by apply (start_inv_accept _ _ _ _ _ Hk1 Hi).
  - rewrite app_nil_r. destruct (start_inv_routine _ _ (SRead i) _ ltac:(done) Hi Hs) as (? & -> & _). done.
  - rewrite app_nil_r. destruct (start_inv_routine _ _ (SPut i) _ ltac:(done) Hi Hs) as (? & -> & _). done.
Qed.

(** Every goroutine can finish, whatever the loop does. *)
Definition finished (h : handshake_pc) : bool := match h with HDone => true | _ => false end.
Definition is_accept (l : start_label) : bool := match l with SAccept _ _ => true | _ => false end.

Lemma routine_finishes s i h :
  st_routines s !! i = Some h →
  ∃ ls s', Forall (λ l, is_accept l = false) ls ∧ run (Start kind) ls s = Some s' ∧
    st_routines s' = <[i := HDone]> (st_routines s).
Proof.
  assert (∀ s lc, st_routines s !! i = Some (HPut lc) → ∃ s', Start kind (SPut i) s = Some s' ∧
    st_routines s' = <[i := HDone]> (st_routines s)) as Hput.
  { intros s0 lc Hi. rewrite Start_eq. cbn. rewrite Hi. by eexists. }
  intros Hi. destruct h as [stream conn|lc|].
  - pose proof (streamHandshake_no_panic conn) as Hn.
    assert (∃ h' s1, Start kind (SRead i) s = Some s1 ∧ st_routines s1 = <[i := h']> (st_routines s) ∧
      (h' = HDone ∨ ∃ lc, h' = HPut lc)) as (h' & s1 & H1 & H2 & H3).
    { rewrite Start_eq. cbn. rewrite Hi. destruct (streamHandshake conn) as [[l r]|e|]; [| |done].
      - by eexists _, _; split_and!; [done..|right; eexists].
      - by eexists _, _; split_and!; [done..|left]. }
    destruct H3 as [->|[lc ->]].
    + exists [SRead i], s1. split_and!; [by repeat constructor|by cbn; rewrite H1|done].
    + destruct (Hput s1 lc) as (s2 & H4 & H5).
      { rewrite H2, list_lookup_insert_eq; [done|by eapply lookup_lt_Some]. }
      exists [SRead i; SPut i], s2. split_and!; [by repeat constructor|by cbn; rewrite H1; cbn; rewrite H4|].
      by rewrite H5, H2, list_insert_insert_eq.
  - destruct (Hput s lc Hi) as (s' & H1 & H2). exists [SPut i], s'.
    split_and!; [by repeat constructor|by cbn; rewrite H1|done].
  - exists [], s. split_and!; [done|done|]. by rewrite list_insert_id.
Qed.

Lemma routines_finish s :
  ∃ ls s', Forall (λ l, is_accept l = false) ls ∧ run (Start kind) ls s = Some s' ∧
    Forall (λ h, finished h = true) (st_routines s').
Proof.
  assert (∀ n, (n ≤ length (st_routines s))%nat → ∃ ls s', Forall (λ l, is_accept l = false) ls ∧
    run (Start kind) ls s = Some s' ∧ length (st_routines s') = length (st_routines s) ∧
    Forall (λ h, finished h = true) (take n (st_routines s'))) as Hall.
  { induction n as [|n IH]; intros Hn; [by exists [], s|].
    destruct IH as (ls & s1 & Hls & Hrun & Hlen & Hfin); [lia|].
    destruct (lookup_lt_is_Some_2 (st_routines s1) n) as [h Hh]; [lia|].
    destruct (routine_finishes s1 n h Hh) as (ls2 & s2 & Hls2 & Hrun2 & Hr).
    exists (ls ++ ls2), s2. split_and!; [by apply Forall_app_2|by rewrite run_app, Hrun| |].
    - by rewrite Hr, length_insert.
    - rewrite Hr. rewrite (take_S_r _ n HDone) by (apply list_lookup_insert_eq; by eapply lookup_lt_Some).
      rewrite take_insert_ge by lia. apply Forall_app_2; [done|by repeat constructor]. }
  destruct (Hall _ (le_n _)) as (ls & s' & Hls & Hrun & Hlen & Hfin). exists ls, s'.
  rewrite <-Hlen, firstn_all in Hfin. done.
Qed.

Lemma all_owed_finished hs : Forall (λ h, finished h = true) hs → all_owed hs = [].
Proof. induction 1 as [|[] hs Hh _ IH]; try done. Qed.
End Start.

(** The accept loop of [q], with nothing else to do, accepts the stream and its
    goroutine puts [l] on the channel. *)
Definition hands_on (q : muxPeer) (stream : Z) (conn : reader) (l : LinkConnection) : Prop :=
  run (Start (mp_kind q)) [SAccept false (Ok (stream, conn)); SRead 0; SPut 0] (start_init q) =
    Some (mkStart q true [HDone] [l]).

(** A stream opened on a session that takes the whole header carries the link
    to the accept loop at the other end. *)
Lemma Direct_arrives p q far link stream data r :
  wf_Link link →
  ∃ wire, Direct p (Ok (far, λ b, (zlen b, None))) link = Ok (far, wire) ∧
    streamHandshake ((wire ++ data, None) :: r) =
      Ok (link, if bool_decide (data = []) then r else (data, None) :: r) ∧
    hands_on q stream ((wire ++ data, None) :: r) (mkLC stream link).
Proof.
  intros Hl. destruct (directHandshake_wire link Hl) as (wire & Hd & Hm & _).
  exists wire. rewrite Direct_eq. cbn [wrap_err mbind go_bind fst snd]. rewrite Hd.
  pose proof (streamHandshake_of_wire link wire data r Hl Hm) as Hs. split_and!; [done|done|].
  unfold hands_on. rewrite Start_eq. cbn. by rewrite Hs.
Qed.

(** ** Properties *)

(** C33: the life cycle of every [Peer] implementation.  Whatever sequence of
    [Bye], [Null] and accept-loop iterations follows construction, no call
    panics (no channel is closed twice), and once one of them ended the session
    (a [Bye], a stream request on a nulled peer, an accept error in [Start])
    the session is closed, [NotifyClose] has fired and, for the TCP protocols,
    the connection is closed; this stays so. *)
Theorem mux_life_cycle `{Sessions} proto c conf p es :
  multiplexer_New protocolRegistry proto = Ok c → c conf = Ok p → Forall event_ok es →
  ∃ p', mux_events p es = Ok p' ∧
    (existsb ends_session es = true →
     mp_sessionClosed p' = true ∧ NotifyClose p' = true ∧
     (mp_kind p' ≠ KQUIC → mp_connClosed p' = true)).
Proof.
  intros [Hreg _]%multiplexer_New_Ok Hc Hes.
  destruct (mux_events_Ok p es (constructor_inv _ _ _ _ Hreg Hc) Hes) as (p' & -> & Hp' & Hcl).
  exists p'. split; [done|]. intros He. by apply (pi_bye p' Hp'), Hcl; right.
Qed.

(** Libraries that always succeed. *)
Definition sample_sessions : Sessions :=
  {| yamux_Client := Ok; yamux_Server := Ok; NewMultiplex := λ c _, c |}.

Lemma mux_life_cycle_witness :
  ∃ p p', NewQuicPeer (mkConfig true (Some (QuicSession 3)) 8 false 1) = Ok p ∧
    mux_events p [EvNull false (Err (Foreign 1)); EvBye; EvBye] = Ok p' ∧ NotifyClose p' = true.
Proof.
  destruct (NewQuicPeer (mkConfig true (Some (QuicSession 3)) 8 false 1)) as [p| |] eqn:E;
    [|done..].
  destruct (@mux_life_cycle sample_sessions QUIC NewQuicPeer _ p
    [EvNull false (Err (Foreign 1)); EvBye; EvBye] eq_refl E) as (p' & H1 & H2).
  { by repeat constructor. }
  exists p, p'. split; [done|]. split; [exact H1|]. by apply H2.
Defined.


(** Two streams whose headers arrive in the other order, then a failed accept. *)
Definition sample_accepts : list start_label :=
  [SAccept false (Ok (5, [(replicate 16 0 ++ [0; 2], None)]));
   SAccept false (Ok (6, [(replicate 16 0 ++ [0; 1], None)]));
   SRead 1; SPut 1; SRead 0; SPut 0; SAccept false (Err (Foreign 1))].


(** The type assertions of the constructors cannot fail after negotiation.
    When the dynamic type of the connector fits the protocol (a TLS connection
    for Yamux and Mplex, a QUIC session for QUIC), and the session libraries do
    not panic, construction never panics; when it does not fit, it always does,
    for an otherwise valid configuration. *)
Theorem constructor_panics_iff_misfit `{Sessions} proto c conf conn :
  multiplexer_New protocolRegistry proto = Ok c →
  Config_Validate conf = Ok tt → cfg_Conn conf = Some conn →
  (∀ id, is_panic (yamux_Client id) = false ∧ is_panic (yamux_Server id) = false) →
  is_panic (c conf) = negb (connector_fits conn proto).
Proof.
  intros [Hreg _]%multiplexer_New_Ok Hv Hconn Hlib.
  destruct (protocolRegistry_inv _ _ Hreg) as [[-> ->]|[[-> ->]|[-> ->]]];
    unfold NewYamuxPeer, NewMplexPeer, NewQuicPeer; rewrite Hv, Hconn;
    destruct conn as [id|id]; try reflexivity.
  cbn. destruct (Hlib id) as [H1 H2].
  destruct (cfg_Initiator conf); [destruct (yamux_Client id)|destruct (yamux_Server id)]; done.
Qed.

Lemma constructor_panics_iff_misfit_witness :
  is_panic (@NewYamuxPeer sample_sessions (mkConfig true (Some (QuicSession 3)) 8 false 1)) = true.
Proof.
  rewrite (@constructor_panics_iff_misfit sample_sessions Yamux (@NewYamuxPeer sample_sessions)
    (mkConfig true (Some (QuicSession 3)) 8 false 1) (QuicSession 3)); done.
Defined.

(** *** Addresses *)

(** A peer that was constructed answers [Addr] with the address of what it was
    constructed on: the assertion of the constructor makes the later one hold. *)
Theorem constructed_addr `{Sessions} proto c conf p remote :
  protocolRegistry !! proto = Some c → c conf = Ok p →
  ∃ conn, cfg_Conn conf = Some conn ∧
    muxPeer_Addr remote p =
      Ok (remote match conn with NetConn id => inl id | QuicSession id => inr id end).
Proof.
  intros Hp Hc. destruct (protocolRegistry_inv _ _ Hp) as [[-> ->]|[[-> ->]|[-> ->]]];
    unfold NewYamuxPeer, NewMplexPeer, NewQuicPeer in Hc; apply go_bind_Ok in Hc as ([] & _ & Hc);
    destruct (cfg_Conn conf) as [[id|id]|] eqn:Ec; try done;
    try (apply go_bind_Ok in Hc as (sess & _ & Hc)); injection Hc as <-;
    eexists; (split; [done|]); unfold muxPeer_Addr; cbn;
    unfold Yamux_Addr, Mplex_Addr, QUIC_Addr; cbn; by rewrite Ec.
Qed.
