(* ===== verification/PeerMap.v ===== *)
(** * PeerMap: the live sessions of a server

    [state/peer_map.go].  [NewPeer] and [Remove] are called from many goroutines
    and hold no lock: a call is a sequence of statements ([thread],
    [call_step]), and calls interleave between them.  The methods as functions
    ([NewPeer], [PeerMap_Remove]) are what a call does that nothing interrupts;
    [NewPeer_steps] and [Remove_steps] prove them equal to running the
    statements. *)
From S2P Require Import Prelude GoStd Link MuxChannel Multiplexer Mux PeerGraph.

Open Scope Z_scope.

Record PeerMap (P : Type) := mkPM {
  pm_self : Z;
  pm_peers : gmap Z P;
  pm_num : Z;              (* [*uint64], updated with [atomic.AddUint64] *)
  pm_notify : list P;      (* what has been sent on [notify], oldest first *)
}.
Arguments mkPM {_} _ _ _ _.
Arguments pm_self {_} _.
Arguments pm_peers {_} _.
Arguments pm_num {_} _.
Arguments pm_notify {_} _.

Section PeerMap.
Context {P : Type} `{MuxPeer P} (reg : gmap Z (Constructor P)).

Definition NewPeerMap (self : Z) : PeerMap P := mkPM self ∅ 0 [].

(** [NewPeer], uninterrupted; [closed_first] says which case of the [select]
    fires: the new peer's [NotifyClose] or the timer. *)
Definition NewPeer (s : PeerMap P) (proto : Protocol) (conf : Config) (closed_first : bool)
    : go (PeerMap P) :=
  match pm_peers s !! cfg_Peer conf with
  | Some _ => Err (Sentinel ErrSessionAlreadyEstablished)
  | None =>
      c ← multiplexer_New reg proto;
      p ← c conf;
      if closed_first : bool then Err (Errorf "peer closed after negotiation" []) else
      Ok (mkPM (pm_self s) (<[cfg_Peer conf := p]> (pm_peers s)) (wrap64 (pm_num s + 1))
               (pm_notify s ++ [p]))
  end.

(** [Snapshot], while nothing is stored or deleted: the keys in visiting order.
    [sync.Map.Range] promises less when it overlaps with other calls, namely
    that no key is visited twice and that each key is reported as it was at some
    point of the enumeration; [range_window] says what that leaves. *)
Definition PeerMap_Snapshot (range : gmap Z P → list (Z * P)) (s : PeerMap P) : list Z :=
  (range (pm_peers s)).*1.

Definition PeerMap_CRC64 (range : gmap Z P → list (Z * P)) (s : PeerMap P) : Z :=
  let peers := sort_uint64 (PeerMap_Snapshot range s) in
  clients_crc 0 peers.

Definition PeerMap_Len (s : PeerMap P) : Z := int_of_uint64 (pm_num s).

Definition PeerMap_Has (s : PeerMap P) (peer : Z) : bool :=
  match pm_peers s !! peer with Some _ => true | None => false end.

(** [Get]: [None] is the nil interface. *)
Definition PeerMap_Get (s : PeerMap P) (peer : Z) : option P := pm_peers s !! peer.

(** [Remove], uninterrupted: the map without the peer, and the peer after its
    [Bye]. *)
Definition PeerMap_Remove (s : PeerMap P) (peer : Z) : go (PeerMap P * option P) :=
  match pm_peers s !! peer with
  | None => Ok (s, None)
  | Some p =>
      let s' := mkPM (pm_self s) (delete peer (pm_peers s))
                     (wrap64 (pm_num s + (2 ^ 64 - 1))) (pm_notify s) in
      p' ← Peer_Bye p;
      Ok (s', Some p')
  end.

(** ** The invariant of uninterrupted calls *)
Record wf_PeerMap (s : PeerMap P) : Prop := {
  pm_count : pm_num s = wrap64 (Z.of_nat (size (pm_peers s)));
  pm_filed : map_Forall (λ id p, id ≠ 0 ∧ Peer_Peer p = id) (pm_peers s);
}.

Lemma NewPeerMap_wf self : wf_PeerMap (NewPeerMap self).
Proof. split; [done|apply map_Forall_empty]. Qed.

Lemma NewPeer_Ok `{!ConstructorsOk reg} s proto conf cf s' :
  NewPeer s proto conf cf = Ok s' →
  ∃ p, pm_peers s !! cfg_Peer conf = None ∧ cfg_Peer conf ≠ 0 ∧ Peer_Peer p = cfg_Peer conf ∧
    Peer_Initiator p = cfg_Initiator conf ∧ Peer_Protocol p = proto ∧
    s' = mkPM (pm_self s) (<[cfg_Peer conf := p]> (pm_peers s)) (wrap64 (pm_num s + 1))
              (pm_notify s ++ [p]).
Proof.
  unfold NewPeer. destruct (pm_peers s !! cfg_Peer conf) eqn:E; [done|].
  intros (c & [Hc _]%multiplexer_New_Ok & (p & Hp & Hs)%go_bind_Ok)%go_bind_Ok.
  destruct cf; [done|]. simplify_eq.
  destruct (constructor_conf _ _ _ _ Hc Hp) as (Hv & H1 & H2 & H3).
  apply Validate_Ok in Hv as (_ & _ & Hz). exists p. by split_and!.
Qed.

Lemma NewPeer_wf `{!ConstructorsOk reg} s proto conf cf s' :
  wf_PeerMap s → NewPeer s proto conf cf = Ok s' → wf_PeerMap s'.
Proof.
  intros [Hc Hf] (p & Hn & Hz & Hp & _ & _ & ->)%NewPeer_Ok. split; cbn.
  - rewrite map_size_insert_None by done. rewrite Hc. unfold wrap64.
    rewrite Zplus_mod_idemp_l. f_equal. lia.
  - by apply map_Forall_insert_2.
Qed.

Lemma Remove_inv s peer s' o :
  PeerMap_Remove s peer = Ok (s', o) →
  pm_peers s' = delete peer (pm_peers s) ∧
  (is_Some (pm_peers s !! peer) → pm_num s' = wrap64 (pm_num s + (2 ^ 64 - 1))) ∧
  (pm_peers s !! peer = None → s' = s).
Proof.
  unfold PeerMap_Remove. destruct (pm_peers s !! peer) as [p|] eqn:E; cbn.
  - destruct (Peer_Bye p); cbn; [|done..]. intros [= <- <-]. by split_and!.
  - intros [= <- <-]. split_and!; [by rewrite delete_id|by intros []|done].
Qed.

Lemma PeerMap_Remove_wf s peer s' o :
  wf_PeerMap s → PeerMap_Remove s peer = Ok (s', o) → wf_PeerMap s'.
Proof.
  intros [Hc Hf] Hr. pose proof (Remove_inv _ _ _ _ Hr) as (Hd & Hn & Hs).
  destruct (pm_peers s !! peer) as [p|] eqn:E; [|by rewrite Hs].
  split.
  - rewrite Hn, Hd, map_size_delete_Some by done. rewrite Hc. unfold wrap64.
    rewrite Zplus_mod_idemp_l.
    assert (0 < size (pm_peers s))%nat.
    { apply Nat.neq_0_lt_0. intros Hz%map_size_empty_inv. by rewrite Hz, lookup_empty in E. }
    rewrite <-(Z_mod_plus_full (Z.of_nat (Nat.pred _)) 1). f_equal. lia.
  - rewrite Hd. by apply map_Forall_delete.
Qed.

(** Calls that do not overlap. *)
Inductive pm_call :=
| CallNewPeer (proto : Protocol) (conf : Config) (closed_first : bool)
| CallRemove (peer : Z).

(** The map after a call, whatever the call returned. *)
Definition pm_call_step (s : PeerMap P) (c : pm_call) : PeerMap P :=
  match c with
  | CallNewPeer proto conf cf =>
      match NewPeer s proto conf cf with Ok s' => s' | _ => s end
  | CallRemove peer =>
      match PeerMap_Remove s peer with Ok (s', _) => s' | _ => s end
  end.

Lemma pm_call_wf `{!ConstructorsOk reg} s c : wf_PeerMap s → wf_PeerMap (pm_call_step s c).
Proof.
  intros Hs. destruct c as [proto conf cf|peer]; cbn.
  - destruct (NewPeer s proto conf cf) eqn:E; [|done..]. by eapply NewPeer_wf.
  - destruct (PeerMap_Remove s peer) as [[s' o]| |] eqn:E; [|done..]. by eapply PeerMap_Remove_wf.
Qed.

Lemma pm_calls_wf `{!ConstructorsOk reg} self cs :
  wf_PeerMap (foldl pm_call_step (NewPeerMap self) cs).
Proof.
  rewrite <-(reverse_involutive cs). induction (reverse cs) as [|c l IH]; [apply NewPeerMap_wf|].
  rewrite reverse_cons, foldl_snoc. by apply pm_call_wf.
Qed.
End PeerMap.

(** ** The statements of the calls

    A thread executes one call of [NewPeer] or [Remove]; each shared-memory
    operation ([sync.Map] access, atomic addition, channel send) is one step. *)
Section Statements.
Context {P : Type} `{MuxPeer P} (reg : gmap Z (Constructor P)).

Inductive thread :=
| NPLoad (proto : Protocol) (conf : Config)      (* before [s.peers.Load] *)
| NPBuild (proto : Protocol) (conf : Config)     (* before [multiplexer.New] *)
| NPWait (id : Z) (p : P)                        (* at the [select] *)
| NPStore (id : Z) (p : P)                       (* before [s.peers.Store] *)
| NPCount (p : P)                                (* before [AddUint64(s.num, 1)] *)
| NPNotify (p : P)                               (* before [s.notify <- p] *)
| RMLoad (id : Z)                                (* before [LoadAndDelete] *)
| RMCount (p : P)                                (* before [AddUint64(s.num, ^0)] *)
| RMBye (p : P)                                  (* before [p.Bye()] *)
| Returned (r : go unit).

(** One statement: the map and where the call is then.  [closed_first] matters
    at the [select] only. *)
Definition call_step (closed_first : bool) (m : PeerMap P) (t : thread) : PeerMap P * thread :=
  match t with
  | NPLoad proto conf =>
      (m, match pm_peers m !! cfg_Peer conf with
          | Some _ => Returned (Err (Sentinel ErrSessionAlreadyEstablished))
          | None => NPBuild proto conf
          end)
  | NPBuild proto conf =>
      (m, match c ← multiplexer_New reg proto; c conf with
          | Ok p => NPWait (cfg_Peer conf) p
          | Err e => Returned (Err e)
          | Panic e => Returned (Panic e)
          end)
  | NPWait id p =>
      (m, if closed_first : bool then Returned (Err (Errorf "peer closed after negotiation" []))
          else NPStore id p)
  | NPStore id p =>
      (mkPM (pm_self m) (<[id := p]> (pm_peers m)) (pm_num m) (pm_notify m), NPCount p)
  | NPCount p =>
      (mkPM (pm_self m) (pm_peers m) (wrap64 (pm_num m + 1)) (pm_notify m), NPNotify p)
  | NPNotify p =>
      (mkPM (pm_self m) (pm_peers m) (pm_num m) (pm_notify m ++ [p]), Returned (Ok tt))
  | RMLoad id =>
      match pm_peers m !! id with
      | None => (m, Returned (Ok tt))
      | Some p =>
          (mkPM (pm_self m) (delete id (pm_peers m)) (pm_num m) (pm_notify m), RMCount p)
      end
  | RMCount p =>
      (mkPM (pm_self m) (pm_peers m) (wrap64 (pm_num m + (2 ^ 64 - 1))) (pm_notify m), RMBye p)
  | RMBye p => (m, Returned (_ ← Peer_Bye p; Ok tt))
  | Returned r => (m, t)
  end.

(** History: the session that the next statement of a call replaces in the map,
    if it is a [Store] over one. *)
Definition replaces (m : PeerMap P) (t : thread) : list P :=
  match t with NPStore id _ => option_list (pm_peers m !! id) | _ => [] end.

(** The functions are the statements run without interruption. *)
Definition uninterrupted (closed_first : bool) (n : nat) (m : PeerMap P) (t : thread)
    : PeerMap P * thread :=
  Nat.iter n (λ mt, call_step closed_first mt.1 mt.2) (m, t).

Lemma NewPeer_steps m proto conf cf :
  uninterrupted cf 6 m (NPLoad proto conf) =
    match NewPeer reg m proto conf cf with
    | Ok m' => (m', Returned (Ok tt))
    | Err e => (m, Returned (Err e))
    | Panic e => (m, Returned (Panic e))
    end.
Proof.
  unfold uninterrupted, NewPeer. rewrite !Nat.iter_succ_r. cbn.
  destruct (pm_peers m !! cfg_Peer conf); [done|]. cbn.
  destruct (multiplexer_New reg proto) as [c| |]; [|done..]. cbn. destruct (c conf); [|done..]. by destruct cf.
Qed.

Lemma Remove_steps m peer m' o cf :
  PeerMap_Remove m peer = Ok (m', o) → uninterrupted cf 3 m (RMLoad peer) = (m', Returned (Ok tt)).
Proof.
  unfold uninterrupted, PeerMap_Remove. rewrite !Nat.iter_succ_r. cbn.
  destruct (pm_peers m !! peer) as [p|]; cbn; [|by intros [= <- _]].
  destruct (Peer_Bye p); [|done..]. cbn. by intros [= <- _].
Qed.

(** What a thread still owes the counter. *)
Definition owed (t : thread) : Z :=
  match t with NPCount _ => 1 | RMCount _ => -1 | _ => 0 end.

(** One statement keeps the counter's account: sessions in the map and
    sessions replaced there are counted, up to what is owed. *)
Lemma call_step_count cf m t m' t' lost rest :
  pm_num m = wrap64 (Z.of_nat (size (pm_peers m)) + lost - (owed t + rest)) →
  call_step cf m t = (m', t') →
  pm_num m' = wrap64 (Z.of_nat (size (pm_peers m')) + (lost + zlen (replaces m t)) - (owed t' + rest)).
Proof.
  intros Hc Hs.
  destruct t as [proto conf|proto conf|id p|id p|p|p|id|p|p|r]; cbn in Hs; simplify_eq; cbn in Hc |- *;
    change (zlen []) with 0; rewrite ?Z.add_0_r.
  - rewrite Hc. f_equal. by destruct (pm_peers m' !! cfg_Peer conf); cbn; lia.
  - rewrite Hc. f_equal. destruct (multiplexer_New reg proto ≫= λ c, c conf); cbn; lia.
  - rewrite Hc. f_equal. destruct cf; cbn; lia.
  - rewrite Hc. f_equal. destruct (pm_peers m !! id) as [old|] eqn:E; cbn.
    + rewrite map_size_insert_Some by eauto. change (zlen [old]) with 1. lia.
    + rewrite map_size_insert_None by done. change (zlen []) with 0. lia.
  - rewrite Hc. unfold wrap64. rewrite Zplus_mod_idemp_l. f_equal. lia.
  - rewrite Hc; f_equal; lia.
  - destruct (pm_peers m !! id) as [p|] eqn:E; simplify_eq; cbn in *; [|done].
    rewrite Hc. f_equal. rewrite map_size_delete_Some by eauto.
    assert (size (pm_peers m) ≠ 0)%nat.
    { intros Hz%map_size_empty_inv. by rewrite Hz, lookup_empty in E. }
    lia.
  - rewrite Hc. unfold wrap64. rewrite Zplus_mod_idemp_l, <-(Z_mod_plus_full _ (-1) (2 ^ 64)). f_equal. lia.
  - rewrite Hc; f_equal; lia.
  - rewrite Hc; f_equal; lia.
Qed.

(** A thread that is past the [Load] carries a session for its own key. *)
Definition thread_ok (ok : Z → Prop) (t : thread) : Prop :=
  match t with
  | NPLoad _ conf | NPBuild _ conf => cfg_Peer conf ≠ 0 → ok (cfg_Peer conf)
  | NPWait id p | NPStore id p => id ≠ 0 ∧ ok id ∧ Peer_Peer p = id
  | _ => True
  end.

(** Sessions are filed under their own non-zero identifier, which is [ok]. *)
Definition filed (ok : Z → Prop) (m : PeerMap P) : Prop :=
  map_Forall (λ id p, id ≠ 0 ∧ ok id ∧ Peer_Peer p = id) (pm_peers m).

Lemma call_step_filed `{!ConstructorsOk reg} ok cf m t m' t' :
  filed ok m → thread_ok ok t → call_step cf m t = (m', t') → filed ok m' ∧ thread_ok ok t'.
Proof.
  unfold filed. intros Hm Ht Hs.
  destruct t as [proto conf|proto conf|id p|id p|p|p|id|p|p|r]; cbn in Hs; simplify_eq; cbn in Ht |- *;
    try done.
  - split; [done|]. by case_match.
  - split; [done|]. destruct (multiplexer_New reg proto) as [c| |] eqn:Ec; [|done..]. cbn.
    destruct (c conf) as [p| |] eqn:Ep; [|done..]. apply multiplexer_New_Ok in Ec as [Hc _].
    destruct (constructor_conf _ _ _ _ Hc Ep) as (Hv & Hp & _).
    apply Validate_Ok in Hv as (_ & _ & Hz). split_and!; [done|by apply Ht|done].
  - split; [done|]. by destruct cf.
  - split; [|done]. by apply map_Forall_insert_2.
  - destruct (pm_peers m !! id); simplify_eq; (split; [|done]); [|done]. by apply map_Forall_delete.
Qed.

(** What one statement does to the keys: nothing, one more or one less. *)
Lemma call_step_dom cf m t m' t' :
  call_step cf m t = (m', t') →
  pm_peers m' = pm_peers m ∨
  (∃ id p, t = NPStore id p ∧ pm_peers m' = <[id := p]> (pm_peers m)) ∨
  (∃ id, t = RMLoad id ∧ is_Some (pm_peers m !! id) ∧ pm_peers m' = delete id (pm_peers m)).
Proof.
  intros Hs. destruct t as [| |id p|id p| | |id| | |]; cbn in Hs; simplify_eq; auto.
  - right. left. by exists id, p.
  - destruct (pm_peers m !! id) eqn:E; simplify_eq; [|by left]. right. right. by exists id.
Qed.
End Statements.
Arguments thread : clear implicits.

(** ** Enumerating while calls go on

    The keys that were in the map all the time since an enumeration began, and
    those that were there at some moment. *)
Record range_window := mkWindow {
  rw_all : gset Z;
  rw_some : gset Z;
}.

Definition window_open {P} (m : PeerMap P) : range_window :=
  mkWindow (dom (pm_peers m)) (dom (pm_peers m)).
Definition window_move {P} (m : PeerMap P) (w : range_window) : range_window :=
  mkWindow (rw_all w ∩ dom (pm_peers m)) (rw_some w ∪ dom (pm_peers m)).

(** The results [Snapshot] may return: no key twice, every key that was there
    all the time, no key that never was. *)
Definition snapshot_ok (w : range_window) (keys : list Z) : bool :=
  bool_decide (NoDup keys) && bool_decide (rw_all w ⊆ list_to_set keys) &&
  bool_decide (list_to_set keys ⊆ rw_some w).

Lemma snapshot_ok_spec w keys :
  snapshot_ok w keys = true ↔
  NoDup keys ∧ (∀ k, k ∈ rw_all w → k ∈ keys) ∧ (∀ k, k ∈ keys → k ∈ rw_some w).
Proof.
  unfold snapshot_ok. rewrite !andb_true_iff, !bool_decide_eq_true. set_solver.
Qed.

(** An enumeration that nothing interrupts returns the keys of the map, in any
    order: [PeerMap_Snapshot] with a suitable order. *)
Lemma snapshot_uninterrupted {P} (m : PeerMap P) keys :
  snapshot_ok (window_open m) keys = true ↔ keys ≡ₚ (map_to_list (pm_peers m)).*1.
Proof.
  rewrite snapshot_ok_spec. cbn. split.
  - intros (Hnd & H1 & H2). apply NoDup_Permutation; [done|apply NoDup_fst_map_to_list|].
    intros k. rewrite list_elem_of_fmap. split.
    + intros [p Hp]%H2%elem_of_dom. exists (k, p). split; [done|]. by apply elem_of_map_to_list.
    + intros ([k' p] & -> & Hin%elem_of_map_to_list). apply H1, elem_of_dom. by eexists.
  - intros Hp. split; [rewrite Hp; apply NoDup_fst_map_to_list|].
    assert (∀ k, k ∈ keys ↔ k ∈ dom (pm_peers m)) as Hk; [|by split; intros k; rewrite Hk].
    intros k. rewrite Hp, list_elem_of_fmap, elem_of_dom. split.
    + intros ([k' p] & -> & Hin%elem_of_map_to_list). by eexists.
    + intros [p Hp']. exists (k, p). split; [done|]. by apply elem_of_map_to_list.
Qed.

(** ** Interleaved calls *)
Section Interleaving.
Context {P : Type} `{MuxPeer P} (reg : gmap Z (Constructor P)).

Record pm_system := mkPMS {
  ps_map : PeerMap P;
  ps_notify : chan P;
  ps_threads : list (thread P);
  ps_overwritten : list P;   (* history: sessions [Store] replaced in the map *)
  ps_byes : list P;          (* history: sessions [Remove] said goodbye to *)
}.
Definition ps_peers (s : pm_system) : gmap Z P := pm_peers (ps_map s).
Definition ps_num (s : pm_system) : Z := pm_num (ps_map s).

(** [PSelect i closed]: thread [i] passes the [select] by the given case;
    [PStep i]: any other step of thread [i]; [PRecv]: the consumer of [Notify]
    receives. *)
Inductive pm_label :=
| PStep (i : nat)
| PSelect (i : nat) (closed_first : bool)
| PRecv.

Definition advance (closed_first : bool) (s : pm_system) (i : nat) (t : thread P) (n : chan P) : pm_system :=
  let '(m, t') := call_step reg closed_first (ps_map s) t in
  mkPMS m n (<[i := t']> (ps_threads s)) (ps_overwritten s ++ replaces (ps_map s) t)
    (ps_byes s ++ match t with RMBye p => [p] | _ => [] end).

(** A send on the full [notify] waits. *)
Definition thread_step (s : pm_system) (i : nat) (t : thread P) : option pm_system :=
  match t with
  | NPWait _ _ | Returned _ => None
  | NPNotify p =>
      match chan_send (ps_notify s) p with
      | Sent n => Some (advance false s i t n)
      | _ => None
      end
  | _ => Some (advance false s i t (ps_notify s))
  end.

Definition pm_step (l : pm_label) (s : pm_system) : option pm_system :=
  match l with
  | PStep i => ps_threads s !! i ≫= thread_step s i
  | PSelect i closed_first =>
      match ps_threads s !! i with
      | Some (NPWait id p) => Some (advance closed_first s i (NPWait id p) (ps_notify s))
      | _ => None
      end
  | PRecv =>
      match chan_recv (ps_notify s) with
      | Received _ n => Some (mkPMS (ps_map s) n (ps_threads s) (ps_overwritten s) (ps_byes s))
      | _ => None
      end
  end.

(** The calls about to be made, each in its own goroutine. *)
Definition start_call (c : pm_call) : thread P :=
  match c with
  | CallNewPeer proto conf _ => NPLoad proto conf
  | CallRemove peer => RMLoad peer
  end.

Definition init_pm (calls : list pm_call) : pm_system :=
  mkPMS (NewPeerMap 0) (make_chan 16) (start_call <$> calls) [] [].

(** What all threads still owe. *)
Definition total_owed (ts : list (thread P)) : Z := foldr (λ t n, owed t + n) 0 ts.

Lemma total_owed_insert ts i t t' :
  ts !! i = Some t → total_owed (<[i := t']> ts) = total_owed ts - owed t + owed t'.
Proof.
  revert i. induction ts as [|t0 ts IH]; intros [|i] Hi; [done..| |].
  - injection Hi as ->. change (<[0%nat := t']> (t :: ts)) with (t' :: ts). cbn. lia.
  - change (<[S i := t']> (t0 :: ts)) with (t0 :: <[i := t']> ts).
    cbn [total_owed foldr]. specialize (IH i Hi). unfold total_owed in IH. rewrite IH. lia.
Qed.

(** The counter is the number of sessions ever stored and not removed: the
    entries of the map and the sessions lost by overwriting, up to what is
    still owed. *)
Definition count_inv (s : pm_system) : Prop :=
  ps_num s =
  wrap64 (Z.of_nat (size (ps_peers s)) + zlen (ps_overwritten s) - total_owed (ps_threads s)).

Lemma total_owed_start calls : total_owed (start_call <$> calls) = 0.
Proof. unfold total_owed. induction calls as [|[] ? IH]; [done|..]; cbn; by rewrite IH. Qed.

Lemma count_inv_init calls : count_inv (init_pm calls).
Proof. unfold count_inv. cbn. by rewrite total_owed_start. Qed.

Lemma count_inv_advance cf s i t n :
  count_inv s → ps_threads s !! i = Some t → count_inv (advance cf s i t n).
Proof.
  unfold count_inv, advance, ps_num, ps_peers. intros Hc Hi.
  destruct (call_step reg cf (ps_map s) t) as [m t'] eqn:Hs. cbn [ps_map ps_threads ps_overwritten].
  rewrite (total_owed_insert _ _ _ _ Hi), zlen_app.
  erewrite (call_step_count reg cf _ _ m t' (zlen (ps_overwritten s)) (total_owed (ps_threads s) - owed t));
    [| |exact Hs]; [|rewrite Hc; f_equal; lia].
  apply (f_equal wrap64). ring.
Qed.

Lemma count_inv_step l s s' : count_inv s → pm_step l s = Some s' → count_inv s'.
Proof.
  intros Hc. destruct l as [i|i cf|]; cbn.
  - destruct (ps_threads s !! i) as [t|] eqn:Hi; cbn; [|done]. intros Hs.
    assert (∃ n, s' = advance false s i t n) as [n ->]; [|by apply count_inv_advance].
    unfold thread_step in Hs. destruct t; try done; try (injection Hs as <-; by eexists).
    destruct (chan_send (ps_notify s) p); simplify_eq. by eexists.
  - destruct (ps_threads s !! i) as [[]|] eqn:Hi; try done. intros [= <-].
    exact (count_inv_advance cf s i _ (ps_notify s) Hc Hi).
  - destruct (chan_recv _); try done. by intros [= <-].
Qed.

Lemma pm_reachable_count calls s : reachable pm_step (init_pm calls) s → count_inv s.
Proof.
  apply reachable_invariant; [apply count_inv_init|]. intros l s1 s2. apply count_inv_step.
Qed.

Definition returned (t : thread P) : bool := match t with Returned _ => true | _ => false end.

Lemma total_owed_returned ts : Forall (λ t, returned t = true) ts → total_owed ts = 0.
Proof. unfold total_owed. induction 1 as [|t ts Ht _ IH]; [done|]. cbn. rewrite IH. by destruct t. Qed.
End Interleaving.

(** ** Properties *)

(** Calls that do not overlap keep the books.  After any sequence of
    [NewPeer] and [Remove] calls, run one after the other against constructors
    that honour the [Peer] interface, [Len] is the number of sessions in the
    map, no session is filed under the identifier 0, and every session is filed
    under the identifier it reports. *)
Theorem peermap_sequential {P} `{MuxPeer P} (reg : gmap Z (Constructor P)) self cs :
  ConstructorsOk reg →
  let s := foldl (pm_call_step reg) (NewPeerMap self) cs in
  (Z.of_nat (size (pm_peers s)) < 2 ^ 63 → PeerMap_Len s = Z.of_nat (size (pm_peers s))) ∧
  PeerMap_Get s 0 = None ∧
  (∀ id p, PeerMap_Get s id = Some p → Peer_Peer p = id).
Proof.
  intros Hok s. destruct (pm_calls_wf reg self cs) as [Hc Hf]. fold s in Hc, Hf. split_and!.
  - intros Hsz. unfold PeerMap_Len. rewrite Hc. apply int_of_uint64_of_int. unfold i64. lia.
  - unfold PeerMap_Get. destruct (pm_peers s !! 0) as [p|] eqn:E; [|done].
    by destruct (Hf 0 p E).
  - intros id p Hp. by apply (Hf id p Hp).
Qed.

Definition tls_conf (conn id : Z) : Config := mkConfig true (Some (NetConn conn)) id false 1.

Lemma peermap_sequential_witness :
  let s := foldl (pm_call_step (@protocolRegistry sample_sessions)) (NewPeerMap 1)
             [CallNewPeer Mplex (tls_conf 20 8) false; CallNewPeer Mplex (tls_conf 21 8) false] in
  PeerMap_Len s = 1 ∧ PeerMap_Get s 0 = None.
Proof.
  pose proof (peermap_sequential (@protocolRegistry sample_sessions) 1
    [CallNewPeer Mplex (tls_conf 20 8) false; CallNewPeer Mplex (tls_conf 21 8) false]
    (@protocolRegistry_ok sample_sessions)) as (H1 & H2 & _).
  split; [|exact H2]. by rewrite H1.
Defined.

(** C35: what the counter means under concurrency.  For every interleaving of
    any set of [NewPeer] and [Remove] calls, once all calls have returned the
    counter is the number of sessions in the map plus the number of sessions
    that a [Store] replaced there. *)
Theorem peermap_count_interleaved {P} `{MuxPeer P} (reg : gmap Z (Constructor P)) calls s :
  reachable (pm_step reg) (init_pm calls) s →
  Forall (λ t, returned t = true) (ps_threads s) →
  ps_num s = wrap64 (Z.of_nat (size (ps_peers s)) + zlen (ps_overwritten s)).
Proof.
  intros Hr Ht. rewrite (pm_reachable_count _ _ _ Hr), total_owed_returned by done.
  f_equal. lia.
Qed.

Lemma peermap_count_interleaved_witness :
  ∃ s, run (pm_step (@protocolRegistry sample_sessions))
         [PStep 0; PStep 0; PSelect 0 false; PStep 0; PStep 0; PStep 0]
         (init_pm [CallNewPeer Mplex (tls_conf 20 8) false]) = Some s ∧
       ps_num s = wrap64 (Z.of_nat (size (ps_peers s)) + zlen (ps_overwritten s)).
Proof.
  destruct (run (pm_step (@protocolRegistry sample_sessions))
         [PStep 0; PStep 0; PSelect 0 false; PStep 0; PStep 0; PStep 0]
         (init_pm [CallNewPeer Mplex (tls_conf 20 8) false])) as [s|] eqn:E; [|done].
  exists s. split; [done|].
  apply (peermap_count_interleaved _ _ s (run_reachable _ _ _ _ E)).
  vm_compute in E. injection E as <-. by repeat constructor.
Defined.

(** [NewPeer] is not atomic.  Two concurrent calls for the same peer can
    both pass the [Load] check and both succeed: the second [Store] replaces
    the first session, which nobody ever says goodbye to, and the counter says
    2 with one session in the map.  Removing the peer then leaves an empty map
    and a counter of 1. *)
Theorem peermap_duplicate_race :
  ∃ s1 s2 p1 p2,
    let calls := [CallNewPeer Mplex (tls_conf 20 8) false; CallNewPeer Mplex (tls_conf 21 8) false;
                  CallRemove 8] in
    reachable (pm_step (@protocolRegistry sample_sessions)) (init_pm calls) s1 ∧
    ps_threads s1 !! 0%nat = Some (Returned (Ok tt)) ∧
    ps_threads s1 !! 1%nat = Some (Returned (Ok tt)) ∧
    size (ps_peers s1) = 1%nat ∧ ps_num s1 = 2 ∧
    reachable (pm_step (@protocolRegistry sample_sessions)) s1 s2 ∧
    Forall (λ t, returned t = true) (ps_threads s2) ∧
    size (ps_peers s2) = 0%nat ∧ ps_num s2 = 1 ∧
    ps_overwritten s2 = [p1] ∧ ps_byes s2 = [p2] ∧ mp_session p1 ≠ mp_session p2.
Proof.
  set (calls := [CallNewPeer Mplex (tls_conf 20 8) false; CallNewPeer Mplex (tls_conf 21 8) false;
                 CallRemove 8]).
  set (step := pm_step (@protocolRegistry sample_sessions)).
  destruct (run step [PStep 0; PStep 1; PStep 0; PStep 1; PSelect 0 false; PSelect 1 false;
    PStep 0; PStep 1; PStep 0; PStep 1; PStep 0; PStep 1] (init_pm calls)) as [s1|] eqn:E1; [|done].
  destruct (run step [PStep 2; PStep 2; PStep 2] s1) as [s2|] eqn:E2.
  - pose proof (run_reachable _ _ _ _ E1) as R1. pose proof (run_reachable _ _ _ _ E2) as R2.
    vm_compute in E1. injection E1 as <-. vm_compute in E2. injection E2 as <-.
    eexists _, _, _, _. split_and!; try done. by repeat constructor.
  - vm_compute in E1. injection E1 as <-. by vm_compute in E2.
Qed.

(** The digest of the peer set does not depend on the order in which the
    map is visited. *)
Theorem peermap_crc_order {P} (s : PeerMap P) range1 range2 :
  range_ok range1 → range_ok range2 → PeerMap_CRC64 range1 s = PeerMap_CRC64 range2 s.
Proof.
  intros H1 H2. unfold PeerMap_CRC64. f_equal. apply sort_uint64_ext.
  unfold PeerMap_Snapshot. pose proof (H1 (pm_peers s)) as E1. pose proof (H2 (pm_peers s)) as E2.
  unfold enumerates in E1, E2. by rewrite E1, E2.
Qed.

Lemma peermap_crc_order_witness :
  PeerMap_CRC64 map_to_list (mkPM 1 {[2 := tt; 3 := tt]} 2 []) =
  PeerMap_CRC64 (λ m, reverse (map_to_list m)) (mkPM 1 {[2 := tt; 3 := tt]} 2 []).
Proof.
  apply (peermap_crc_order (mkPM 1 {[2 := tt; 3 := tt]} 2 [])).
  - intros m. apply enumerates_self.
  - intros m. unfold enumerates. by rewrite reverse_Permutation.
Defined.
