(* ===== verification/Meta.v ===== *)
(** * Meta: the description of a server carried by gossip

    [server/meta.go], with the parts of package [net] it calls: [ParseIP],
    [IP.To4] and [IP.String]. *)
From S2P Require Import Prelude GoStd Link.
From Stdlib Require Import Ascii.

Open Scope Z_scope.

(** ** [net.ParseIP]

    A parsed address is 16 bytes; [None] is the nil [IP]. *)
Definition IPv4len : nat := 4.
Definition IPv6len : nat := 16.

(** The bound above which [dtoi] and [xtoi] give up. *)
Definition ip_big : Z := 0xFFFFFF.

Definition dec_digit (c : Ascii.ascii) : option Z :=
  let v := Z.of_N (Ascii.N_of_ascii c) in
  if (48 <=? v) && (v <=? 57) then Some (v - 48) else None.

Definition hex_digit (c : Ascii.ascii) : option Z :=
  let v := Z.of_N (Ascii.N_of_ascii c) in
  if (48 <=? v) && (v <=? 57) then Some (v - 48)
  else if (97 <=? v) && (v <=? 102) then Some (v - 97 + 10)
  else if (65 <=? v) && (v <=? 70) then Some (v - 65 + 10)
  else None.

(** The common loop of [dtoi] and [xtoi]: the number read and how many
    characters it took. *)
Fixpoint digits (base : Z) (digit : Ascii.ascii → option Z) (n : Z) (i : nat) (s : string)
    : option (Z * nat) :=
  match s with
  | EmptyString => Some (n, i)
  | String.String c s' =>
      match digit c with
      | None => Some (n, i)
      | Some d =>
          let n' := n * base + d in
          if ip_big <=? n' then None else digits base digit n' (S i) s'
      end
  end.

Definition dtoi (s : string) : option (Z * nat) :=
  match digits 10 dec_digit 0 0 s with
  | Some (_, O) => None
  | r => r
  end.

Definition xtoi (s : string) : option (Z * nat) :=
  match digits 16 hex_digit 0 0 s with
  | Some (_, O) => None
  | r => r
  end.

(** The loop of [parseIPv4]: the octets still to read, and the rest of the
    string once they are read. *)
Fixpoint parseIPv4_loop (left : nat) (s : string) : option (list Z * string) :=
  match left with
  | O => Some ([], s)
  | S left' =>
      let next :=
        if (left =? IPv4len)%nat then Some s
        else match s with
             | String.String "."%char s' => Some s'
             | _ => None
             end in
      s1 ← next;
      '(n, c) ← dtoi s1;
      if 0xFF <? n then None else
      if (1 <? c)%nat && HasPrefix s1 "0" then None else   (* leading zeros *)
      '(p, rest) ← parseIPv4_loop left' (str_drop c s1);
      Some (n :: p, rest)
  end.

Definition v4InV6Prefix : list Z := [0; 0; 0; 0; 0; 0; 0; 0; 0; 0; 0xff; 0xff].

Definition parseIPv4 (s : string) : option (list Z) :=
  match parseIPv4_loop IPv4len s with
  | Some (p, EmptyString) => Some (v4InV6Prefix ++ p)
  | _ => None
  end.

(** The loop of [parseIPv6]: every turn adds two bytes, so eight turns fill the
    address.  The result is the bytes read, the position of the ellipsis and
    the rest of the string. *)
Fixpoint parseIPv6_loop (groups : nat) (ip : list Z) (ellipsis : option nat) (s : string)
    : option (list Z * option nat * string) :=
  match groups with
  | O => Some (ip, ellipsis, s)
  | S groups' =>
      '(n, c) ← xtoi s;
      if 0xFFFF <? n then None else
      let rest := str_drop c s in
      match rest with
      | String.String "."%char _ =>
          if bool_decide (ellipsis = None) && negb (length ip =? IPv6len - IPv4len)%nat
          then None
          else if (IPv6len <? length ip + IPv4len)%nat then None
          else ip4 ← parseIPv4 s;
               Some (ip ++ drop 12 ip4, ellipsis, EmptyString)
      | EmptyString => Some (ip ++ [Z.shiftr n 8; wrap8 n], ellipsis, EmptyString)
      | String.String ":"%char (String.String ":"%char s') =>
          let ip' := ip ++ [Z.shiftr n 8; wrap8 n] in
          match ellipsis with
          | Some _ => None
          | None =>
              match s' with
              | EmptyString => Some (ip', Some (length ip'), EmptyString)
              | _ => parseIPv6_loop groups' ip' (Some (length ip')) s'
              end
          end
      | String.String ":"%char (String.String _ _ as s') =>
          parseIPv6_loop groups' (ip ++ [Z.shiftr n 8; wrap8 n]) ellipsis s'
      | _ => None
      end
  end.

(** The ellipsis stands for the missing zero bytes. *)
Definition expand_ellipsis (ip : list Z) (ellipsis : option nat) : option (list Z) :=
  if (length ip <? IPv6len)%nat then
    e ← ellipsis;
    Some (take e ip ++ replicate (IPv6len - length ip) 0 ++ drop e ip)
  else match ellipsis with Some _ => None | None => Some ip end.

(** A leading ellipsis is taken off first. *)
Definition leading_ellipsis (s : string) : option nat * string :=
  match s with
  | String.String ":"%char (String.String ":"%char s') => (Some 0%nat, s')
  | _ => (None, s)
  end.

Definition parseIPv6 (s : string) : option (list Z) :=
  match leading_ellipsis s with
  | (Some _, EmptyString) => Some (replicate IPv6len 0)
  | (ellipsis, s1) =>
      '(ip, e, rest) ← parseIPv6_loop 8 [] ellipsis s1;
      match rest with
      | EmptyString => expand_ellipsis ip e
      | _ => None
      end
  end.

(** The first dot or colon decides. *)
Fixpoint ParseIP_scan (s0 s : string) : option (list Z) :=
  match s with
  | EmptyString => None
  | String.String c s' =>
      if Ascii.eqb c "."%char then parseIPv4 s0
      else if Ascii.eqb c ":"%char then parseIPv6 s0
      else ParseIP_scan s0 s'
  end.
Definition ParseIP (s : string) : option (list Z) := ParseIP_scan s s.

(** [IP.String] of a four-byte address, which [To4] leaves as it is. *)
Definition IPv4_String (p : list Z) : string :=
  match p with
  | [a; b; c; d] => itoa a +:+ "." +:+ itoa b +:+ "." +:+ itoa c +:+ "." +:+ itoa d
  | _ => "<nil>"
  end.

(** ** [Meta] *)
Definition MetaSize : Z := 26.

Record Meta := mkMeta {
  ConnectIP : string;
  ConnectPort : Z;
  PeerID : Z;
  meta_Protocol : Protocol;
  RespondOnly : bool;
}.

Definition zero_Meta : Meta := mkMeta "" 0 0 0 false.

(** [copy(b[lo:hi], src)] *)
Definition copy_slice (b : list Z) (lo hi : Z) (src : list Z) : go (list Z) :=
  d ← slice b lo hi;
  Ok (take (Z.to_nat lo) b ++ copy d src ++ drop (Z.to_nat hi) b).

Definition Meta_MarshalBinary (m : Meta) : go (list Z) :=
  b ← make_bytes MetaSize;
  let ip := default [] (ParseIP (ConnectIP m)) in
  v4 ← slice ip 12 16;
  b ← copy_slice b 0 (Z.of_nat IPv4len) v4;
  b ← PutUint64 b 8 16 (ConnectPort m);
  b ← PutUint64 b 16 24 (PeerID m);
  b ← set_index b 24 (wrap8 (meta_Protocol m));
  if RespondOnly m then set_index b 25 1 else Ok b.

(** Decoding into [m]: the flag is only ever set. *)
Definition Meta_UnmarshalBinary (m : Meta) (b : list Z) : go Meta :=
  if negb (zlen b =? MetaSize) then Err (Errorf "invalid buffer length: %d" [zlen b]) else
  ip ← slice b 0 (Z.of_nat IPv4len);
  port ← (slice b 8 16 ≫= Uint64);
  id ← (slice b 16 24 ≫= Uint64);
  proto ← index b 24;
  flag ← index b 25;
  Ok (mkMeta (IPv4_String ip) port id proto (if flag =? 1 then true else RespondOnly m)).

(** ** Lemmas on addresses *)

(** What follows an octet in dotted notation. *)
Definition octet_end (rest : string) : Prop := rest = EmptyString ∨ ∃ r, rest = "." +:+ r.

(** A property of the decimal forms of the 256 octets is checked one by one. *)
Lemma octet_cases (P : Z → Prop) :
  Forall P (seqZ 0 256) → ∀ a, u8 a → P a.
Proof. intros HP a Ha. eapply Forall_forall; [exact HP|]. apply elem_of_seqZ. unfold u8 in Ha. lia. Qed.

Ltac each_octet tac :=
  let l := eval vm_compute in (seqZ 0 256) in
  change (seqZ 0 256) with l;
  repeat (apply Forall_cons_2; [tac|]); by apply Forall_nil.

Lemma dtoi_octet a rest :
  u8 a → octet_end rest →
  dtoi (itoa a +:+ rest) = Some (a, strlen (itoa a)) ∧
  (1 <? strlen (itoa a))%nat && HasPrefix (itoa a +:+ rest) "0" = false.
Proof.
  intros Ha Hr. revert a Ha. apply octet_cases.
  destruct Hr as [->|[r ->]]; each_octet ltac:(split; reflexivity).
Qed.

Lemma ParseIP_scan_octet s0 a rest :
  u8 a → ParseIP_scan s0 (itoa a +:+ "." +:+ rest) = parseIPv4 s0.
Proof.
  revert a. apply octet_cases. each_octet ltac:(reflexivity).
Qed.

Lemma parseIPv4_step left a rest p tail :
  u8 a → octet_end rest → parseIPv4_loop left rest = Some (p, tail) →
  parseIPv4_loop (S left)
    (if (S left =? IPv4len)%nat then itoa a +:+ rest else "." +:+ (itoa a +:+ rest)) =
  Some (a :: p, tail).
Proof.
  intros Ha Hr Hp. destruct (dtoi_octet a rest Ha Hr) as [Hd Hz].
  assert (∀ s1, s1 = itoa a +:+ rest →
    ('(n, c) ← dtoi s1; if 0xFF <? n then None else
      if (1 <? c)%nat && HasPrefix s1 "0" then None else
      '(q, r) ← parseIPv4_loop left (str_drop c s1); Some (n :: q, r)) = Some (a :: p, tail)) as Hk.
  { intros s1 ->. rewrite Hd. unfold mbind, option_bind. cbv beta iota.
    unfold u8 in Ha. replace (255 <? a) with false by lia.
    by rewrite Hz, str_drop_app, Hp. }
  cbn [parseIPv4_loop]. destruct (S left =? IPv4len)%nat; by apply Hk.
Qed.

Lemma parseIPv4_String a b c d :
  u8 a → u8 b → u8 c → u8 d →
  parseIPv4 (IPv4_String [a; b; c; d]) = Some (v4InV6Prefix ++ [a; b; c; d]).
Proof.
  intros Ha Hb Hc Hd. unfold parseIPv4, IPv4_String.
  pose proof (parseIPv4_step 0 d "" [] "" Hd (or_introl eq_refl) eq_refl) as H0.
  cbv beta iota delta [Nat.eqb IPv4len] in H0. rewrite str_app_nil_r in H0.
  pose proof (parseIPv4_step 1 c _ _ _ Hc (or_intror (ex_intro _ _ eq_refl)) H0) as H1.
  pose proof (parseIPv4_step 2 b _ _ _ Hb (or_intror (ex_intro _ _ eq_refl)) H1) as H2.
  pose proof (parseIPv4_step 3 a _ _ _ Ha (or_intror (ex_intro _ _ eq_refl)) H2) as H3.
  cbv beta iota delta [Nat.eqb IPv4len] in H3. unfold IPv4len. by rewrite H3.
Qed.

Lemma ParseIP_String a b c d :
  u8 a → u8 b → u8 c → u8 d →
  ParseIP (IPv4_String [a; b; c; d]) = Some (v4InV6Prefix ++ [a; b; c; d]).
Proof.
  intros Ha Hb Hc Hd. unfold ParseIP. rewrite <-parseIPv4_String by done.
  by apply ParseIP_scan_octet.
Qed.

Lemma parseIPv4_loop_length left s p rest :
  parseIPv4_loop left s = Some (p, rest) → length p = left.
Proof.
  revert s p rest. induction left as [|left IH]; intros s p rest Hp; [by simplify_eq/=|].
  cbn [parseIPv4_loop] in Hp. repeat (case_match || simplify_option_eq); try done; cbn; eauto.
Qed.

Lemma parseIPv4_length s ip : parseIPv4 s = Some ip → length ip = IPv6len.
Proof.
  unfold parseIPv4. intros Hp. repeat case_match; simplify_eq.
  match goal with H : _ = Some (_, _) |- _ => apply parseIPv4_loop_length in H end.
  rewrite length_app. cbn. unfold IPv4len, IPv6len in *. lia.
Qed.

(** [parseIPv6] never writes past the address and keeps the ellipsis inside. *)
Definition ellipsis_ok (ip : list Z) (e : option nat) : Prop :=
  match e with Some k => (k ≤ length ip)%nat | None => True end.

Lemma ellipsis_ok_app ip x e : ellipsis_ok ip e → ellipsis_ok (ip ++ x) e.
Proof. destruct e; cbn; [rewrite length_app; lia|done]. Qed.

Lemma parseIPv6_loop_length groups ip e s ip' e' rest :
  (length ip + 2 * groups = IPv6len)%nat → ellipsis_ok ip e →
  parseIPv6_loop groups ip e s = Some (ip', e', rest) →
  (length ip' ≤ IPv6len)%nat ∧ ellipsis_ok ip' e'.
Proof.
  revert ip e s. induction groups as [|g IH]; intros ip e s Hlen He Hp.
  { cbn in Hp. simplify_eq. split; [lia|done]. }
  cbn [parseIPv6_loop] in Hp. unfold mbind, option_bind in Hp.
  assert (∀ x y, (length (ip ++ [x; y]) + 2 * g = IPv6len)%nat) as Hn
    by (intros; rewrite length_app; cbn; lia).
  assert (∀ x y, ellipsis_ok (ip ++ [x; y]) (Some (length (ip ++ [x; y])))) as Hl
    by (intros; cbn; lia).
  pose proof (λ x y, ellipsis_ok_app ip [x; y] e He) as Hx.
  repeat (case_match; try discriminate Hp); simplify_eq;
    try (by eapply IH; [apply Hn| |exact Hp]; auto);
    try (split; [rewrite length_app; cbn; lia|auto]; fail).
  match goal with H : parseIPv4 _ = Some _ |- _ => apply parseIPv4_length in H as H4 end.
  match goal with H : (_ <? _)%nat = false |- _ => apply Nat.ltb_ge in H end.
  split; [|by apply ellipsis_ok_app].
  rewrite length_app, length_drop. unfold IPv6len, IPv4len in *. lia.
Qed.

Lemma expand_ellipsis_length ip e ip' :
  (length ip ≤ IPv6len)%nat → ellipsis_ok ip e → expand_ellipsis ip e = Some ip' →
  length ip' = IPv6len.
Proof.
  unfold expand_ellipsis. intros Hl He Hp. destruct (Nat.ltb_spec (length ip) IPv6len).
  - destruct e as [e|]; [|done]. cbn in *. simplify_eq.
    rewrite !length_app, length_take, length_drop, length_replicate. unfold IPv6len in *. lia.
  - destruct e; simplify_eq. lia.
Qed.

Lemma parseIPv6_length s ip : parseIPv6 s = Some ip → length ip = IPv6len.
Proof.
  unfold parseIPv6. destruct (leading_ellipsis s) as [e s1] eqn:El.
  assert (ellipsis_ok [] e) as He.
  { unfold leading_ellipsis in El. repeat (case_match; simplify_eq); cbn; lia || done. }
  assert ((length (@nil Z) + 2 * 8 = IPv6len)%nat) as H0 by done.
  destruct (parseIPv6_loop 8 [] e s1) as [[[i1 e1] r1]|] eqn:E; cbn;
    [destruct (parseIPv6_loop_length _ _ _ _ _ _ _ H0 He E)|];
    intros Hp; repeat case_match; simplify_eq;
    try by eapply expand_ellipsis_length.
  all: done.
Qed.

Lemma ParseIP_length s ip : ParseIP s = Some ip → length ip = IPv6len.
Proof.
  unfold ParseIP. generalize s at 1. intros s0. induction s as [|c s IH]; cbn; [done|].
  repeat case_match; eauto using parseIPv4_length, parseIPv6_length.
Qed.

(** ** Lemmas on the codec *)

Lemma copy_slice_hit a b hi src :
  zlen a = hi → length src = length a → copy_slice (a ++ b) 0 hi src = Ok (src ++ b).
Proof.
  intros <- Hs. unfold copy_slice. rewrite slice_hit by done. cbn [mbind go_bind].
  rewrite copy_full by done. unfold zlen. by rewrite Nat2Z.id, drop_app_length.
Qed.

Lemma Meta_MarshalBinary_eq m ip :
  ParseIP (ConnectIP m) = Some ip →
  Meta_MarshalBinary m =
    Ok (drop 12 ip ++ [0; 0; 0; 0] ++ be_bytes 8 (ConnectPort m) ++ be_bytes 8 (PeerID m) ++
        [wrap8 (meta_Protocol m); if RespondOnly m then 1 else 0]).
Proof.
  intros Hip. pose proof (ParseIP_length _ _ Hip) as Hl. unfold Meta_MarshalBinary. rewrite Hip.
  unfold default, id. assert (slice ip 12 16 = Ok (drop 12 ip)) as ->.
  { assert (zlen (take 12 ip) = 12) as H1 by (unfold zlen, IPv6len in *; rewrite length_take; lia).
    rewrite <-(take_drop 12 ip) at 1. rewrite slice_skip, H1 by lia. apply slice_all.
    unfold zlen, IPv6len in *. rewrite length_drop. lia. }
  set (v4 := drop 12 ip).
  assert (zlen v4 = 4) as Hv4 by (unfold zlen, v4, IPv6len in *; rewrite length_drop; lia).
  rewrite make_bytes_Ok by (unfold MetaSize, maxAlloc; lia).
  change (replicate (Z.to_nat MetaSize) 0) with
    (replicate 4 0 ++ replicate 4 0 ++ replicate 8 0 ++ replicate 8 0 ++ [0; 0] : list Z).
  cbn [mbind go_bind]. rewrite copy_slice_hit by (done || (unfold zlen in *; cbn; lia)).
  slice_eval. destruct (RespondOnly m); by slice_eval.
Qed.

Lemma Meta_MarshalBinary_nil m :
  ParseIP (ConnectIP m) = None → Meta_MarshalBinary m = Panic SliceOutOfRange.
Proof. intros Hip. unfold Meta_MarshalBinary. by rewrite Hip. Qed.

Lemma Meta_UnmarshalBinary_eq m0 v4 port id proto flag :
  length v4 = 4%nat → u64 port → u64 id →
  Meta_UnmarshalBinary m0 (v4 ++ [0; 0; 0; 0] ++ be_bytes 8 port ++ be_bytes 8 id ++ [proto; flag]) =
    Ok (mkMeta (IPv4_String v4) port id proto (if flag =? 1 then true else RespondOnly m0)).
Proof.
  intros Hl Hp Hi. assert (zlen v4 = 4) as Hv4 by (unfold zlen; lia).
  unfold Meta_UnmarshalBinary. rewrite (proj2 (Z.eqb_eq _ MetaSize))
    by (autorewrite with zlen; unfold MetaSize; lia).
  cbn [negb]. unfold IPv4len. by slice_eval.
Qed.

Lemma Meta_UnmarshalBinary_length m0 b :
  zlen b ≠ MetaSize → Meta_UnmarshalBinary m0 b = Err (Errorf "invalid buffer length: %d" [zlen b]).
Proof. intros Hb. unfold Meta_UnmarshalBinary. by rewrite (proj2 (Z.eqb_neq _ _) Hb). Qed.

(** A server that advertises an IPv4 address, with fields of their Go types. *)
Record wf_Meta (m : Meta) : Prop := {
  wm_ip : ∃ a b c d, u8 a ∧ u8 b ∧ u8 c ∧ u8 d ∧ ConnectIP m = IPv4_String [a; b; c; d];
  wm_port : u64 (ConnectPort m);
  wm_id : u64 (PeerID m);
  wm_proto : u8 (meta_Protocol m);
}.

Lemma Meta_roundtrip m0 m :
  wf_Meta m →
  ∃ w, Meta_MarshalBinary m = Ok w ∧ zlen w = MetaSize ∧
       Meta_UnmarshalBinary m0 w =
         Ok (mkMeta (ConnectIP m) (ConnectPort m) (PeerID m) (meta_Protocol m)
               (RespondOnly m || RespondOnly m0)).
Proof.
  intros [(a & b & c & d & Ha & Hb & Hc & Hd & Hip) Hport Hid Hproto].
  pose proof (ParseIP_String a b c d Ha Hb Hc Hd) as Hparse. rewrite <-Hip in Hparse.
  eexists. rewrite (Meta_MarshalBinary_eq m _ Hparse). split; [done|]. split.
  { change (drop 12 _) with [a; b; c; d]. by autorewrite with zlen. }
  change (drop 12 _) with [a; b; c; d].
  rewrite Meta_UnmarshalBinary_eq, wrap8_small, Hip by done. by destruct (RespondOnly m).
Qed.

(** ** Properties *)

(** C23: what one server publishes about itself is what the others read.  For a
    server that advertises an IPv4 address, encoding gives [MetaSize] bytes and
    decoding them into a fresh [Meta] gives back every field; decoding into a
    [Meta] that was used before keeps an earlier [RespondOnly]. *)
Theorem meta_codec m0 m :
  wf_Meta m →
  ∃ w, Meta_MarshalBinary m = Ok w ∧ zlen w = MetaSize ∧
       Meta_UnmarshalBinary zero_Meta w = Ok m ∧
       Meta_UnmarshalBinary m0 w =
         Ok (mkMeta (ConnectIP m) (ConnectPort m) (PeerID m) (meta_Protocol m)
               (RespondOnly m || RespondOnly m0)).
Proof.
  intros Hm. destruct (Meta_roundtrip m0 m Hm) as (w & Hw & Hl & Hu).
  destruct (Meta_roundtrip zero_Meta m Hm) as (w' & Hw' & _ & Hu').
  exists w. assert (w' = w) as -> by congruence. split_and!; try done.
  rewrite Hu'. cbn. rewrite orb_false_r. by destruct m.
Qed.

Definition sample_meta : Meta := mkMeta "10.0.200.7" 1111 42 QUIC true.

Lemma sample_meta_wf : wf_Meta sample_meta.
Proof. split; [by exists 10, 0, 200, 7|done..]. Qed.

Lemma meta_codec_witness :
  ∃ w, Meta_MarshalBinary sample_meta = Ok w ∧ Meta_UnmarshalBinary zero_Meta w = Ok sample_meta.
Proof.
  destruct (meta_codec zero_Meta sample_meta sample_meta_wf) as (w & H1 & _ & H2 & _). by exists w.
Defined.

(** Encoding panics exactly when the advertised address is not an IP
    address (a host name, an empty string, a malformed address), and never
    reports an error; otherwise the result has [MetaSize] bytes. *)
Theorem meta_marshal_panics_iff m :
  (Meta_MarshalBinary m = Panic SliceOutOfRange ↔ ParseIP (ConnectIP m) = None) ∧
  (∀ ip, ParseIP (ConnectIP m) = Some ip →
     ∃ w, Meta_MarshalBinary m = Ok w ∧ zlen w = MetaSize).
Proof.
  split.
  - split; [|apply Meta_MarshalBinary_nil].
    destruct (ParseIP (ConnectIP m)) as [ip|] eqn:Hip; [|done].
    by rewrite (Meta_MarshalBinary_eq m ip Hip).
  - intros ip Hip. rewrite (Meta_MarshalBinary_eq m ip Hip). eexists. split; [done|].
    autorewrite with zlen. unfold zlen. rewrite length_drop, (ParseIP_length _ _ Hip). done.
Qed.

Lemma meta_marshal_panics_iff_witness :
  Meta_MarshalBinary (mkMeta "tunnel.example.com" 1111 42 QUIC false) = Panic SliceOutOfRange.
Proof. by apply (proj1 (meta_marshal_panics_iff _)). Defined.

(** ** In the log *)
Definition Meta_MarshalLogObject (m : Meta) : list (string * log_value) :=
  [("IP", LogString (ConnectIP m)); ("Port", LogUint64 (ConnectPort m)); ("Peer", LogUint64 (PeerID m))] ++
  Protocol_MarshalLogObject (meta_Protocol m) ++ [("RespondeOnly", LogBool (RespondOnly m))].

(** What is logged about a server identifies its description. *)
Theorem logged_meta_identifies m1 m2 :
  u8 (meta_Protocol m1) → u8 (meta_Protocol m2) →
  Meta_MarshalLogObject m1 = Meta_MarshalLogObject m2 → m1 = m2.
Proof.
  intros H1 H2. destruct m1, m2. unfold Meta_MarshalLogObject, Protocol_MarshalLogObject.
  intros Heq. injection Heq as -> -> -> Hp ->. f_equal. by apply Protocol_String_inj.
Qed.

Lemma logged_meta_identifies_witness :
  mkMeta "10.0.0.1" 1 2 Mplex true = mkMeta "10.0.0.1" 1 2 Mplex true.
Proof. by apply logged_meta_identifies. Defined.
