(* ===== verification/Acme.v ===== *)
(** * Acme: the certificate manager

    [acme/acme.go] and [acme/errors.go].  The state is the [CertManager] struct
    together with the two files it keeps in its data directory.  Each method
    holds the mutexes of the fields it touches for its whole body (except the
    waits on the CA in [RequestCertificate]), so a method is one state
    transformer.  The elliptic-curve, X.509 and PEM functions are the class
    [Crypto]; the answers of the CA, of the DNS provider, of the random source
    and of the file system during a call are a record [CA]. *)
From S2P Require Import Prelude GoStd.

Open Scope Z_scope.

(** ** Libraries *)

(** A key and a certificate are the identifiers of their values. *)
Class Crypto := {
  MarshalECPrivateKey : Z → go (list Z);
  ParseECPrivateKey : list Z → go Z;
  pem_EncodeToMemory : string → list Z → string;
  pem_Decode : string → option (list Z);          (* [None]: no block found *)
  X509KeyPair : string → string → go Z;
}.

(** What the code relies on: PEM and the SEC 1 encoding can be read back. *)
Class CryptoOk `{Crypto} := {
  pem_Decode_Encode ty b : pem_Decode (pem_EncodeToMemory ty b) = Some b;
  Parse_Marshal k b : MarshalECPrivateKey k = Ok b → ParseECPrivateKey b = Ok k;
  Parse_not_Panic b : is_panic (ParseECPrivateKey b) = false;
  Marshal_not_Panic k : is_panic (MarshalECPrivateKey k) = false;
  X509KeyPair_not_Panic c k : is_panic (X509KeyPair c k) = false;
}.

(** [acme.Account] *)
Record account := mkAccount { acc_PrivateKey : option Z; acc_URL : string }.
Definition zero_account : account := mkAccount None "".

(** The outside world during one call. *)
Record CA := mkCA {
  ca_GenerateKey : Z + error;
  ca_NewAccountOptions : Z → string → account * option error;
  ca_UpdateAccount : account → string → account * option error;
  ca_CertificateRequest : Z → string → list string → Z + error;  (* create *)
  ca_ParseRequest : Z → Z + error;
  ca_NewOrderDomains : account → list string → list string + error;  (* authorization URLs *)
  ca_FetchAuthorization : account → string → option string + error;  (* the dns-01 challenge *)
  ca_UpdateChallenge : account → string → option error;
  ca_FinalizeOrder : account → Z → string + error;
  ca_FetchCertificates : account → string → list (list Z) + error;
  dns_Update : string → string → string → bool + error;
  fs_Create : option error;
  fs_Encode : option error;
  fs_Open : option error;
}.

(** ** Data *)
Record AccountFile := mkAF { af_PrivateKey : string; af_URL : string }.

Record Bundle := mkBundle { b_PrivateKey : string; b_Chain : list string }.
Definition zero_Bundle : Bundle := mkBundle "" [].

Record AcmeConfig := mkAcmeConfig {
  Contact : string;
  RootZone : string;
  Domain : string;
}.

(** A JSON file: absent, holding a value, or truncated by a failed write. *)
Inductive json_file (A : Type) :=
| NoFile
| Content (a : A)
| Malformed.
Arguments NoFile {_}.
Arguments Content {_} _.
Arguments Malformed {_}.

Record CertManager := mkCM {
  config : AcmeConfig;
  accKey : option Z;
  cm_account : account;
  hasAcc : bool;
  certPKey : option Z;
  hasCertPKey : bool;
  hasCert : bool;
  storedCert : Z;
  storedPem : Bundle;
  accounts_json : json_file AccountFile;
  bundle_json : json_file Bundle;
}.

(** Assignments to groups of fields. *)
Definition set_acc (key : option Z) (acct : account) (has : bool) (c : CertManager) : CertManager :=
  mkCM (config c) key acct has (certPKey c) (hasCertPKey c) (hasCert c) (storedCert c)
    (storedPem c) (accounts_json c) (bundle_json c).
Definition set_certPKey (key : option Z) (has : bool) (c : CertManager) : CertManager :=
  mkCM (config c) (accKey c) (cm_account c) (hasAcc c) key has (hasCert c) (storedCert c)
    (storedPem c) (accounts_json c) (bundle_json c).
Definition set_cert (cert : Z) (b : Bundle) (c : CertManager) : CertManager :=
  mkCM (config c) (accKey c) (cm_account c) (hasAcc c) (certPKey c) (hasCertPKey c) true cert
    b (accounts_json c) (bundle_json c).
Definition set_accounts_json (f : json_file AccountFile) (c : CertManager) : CertManager :=
  mkCM (config c) (accKey c) (cm_account c) (hasAcc c) (certPKey c) (hasCertPKey c) (hasCert c)
    (storedCert c) (storedPem c) f (bundle_json c).
Definition set_bundle_json (f : json_file Bundle) (c : CertManager) : CertManager :=
  mkCM (config c) (accKey c) (cm_account c) (hasAcc c) (certPKey c) (hasCertPKey c) (hasCert c)
    (storedCert c) (storedPem c) (accounts_json c) f.

(** ** Methods: the manager is updated also when the call fails *)
Definition M (A : Type) : Type := CertManager → CertManager * go A.

#[export] Instance M_ret : MRet M := λ A a c, (c, Ok a).
#[export] Instance M_bind : MBind M := λ A B f m c,
  let '(c', r) := m c in
  match r with
  | Ok a => f a c'
  | Err e => (c', Err e)
  | Panic p => (c', Panic p)
  end.

Definition get : M CertManager := λ c, (c, Ok c).
Definition modify (f : CertManager → CertManager) : M unit := λ c, (f c, Ok tt).
Definition lift {A} (r : go A) : M A := λ c, (c, r).
Definition throw {A} (e : error) : M A := lift (Err e).
Definition wrapping {A} (msg : string) (m : M A) : M A := λ c,
  let '(c', r) := m c in (c', wrap_err msg r).
(** A library call that gives a value or an error. *)
Definition call {A} (msg : string) (r : A + error) : M A :=
  match r with
  | inl a => mret a
  | inr e => throw (Wrapf msg e)
  end.
(** A library call that only gives an error. *)
Definition call_err (msg : string) (e : option error) : M unit :=
  match e with
  | None => mret tt
  | Some e => throw (Wrapf msg e)
  end.

Section Acme.
Context `{Crypto}.

Definition keyToPEM (pKey : option Z) : go string :=
  match pKey with
  | None => Panic NilDereference
  | Some k =>
      enc ← wrap_err "marshalling private key to pem" (MarshalECPrivateKey k);
      Ok (pem_EncodeToMemory "EC PRIVATE KEY" enc)
  end.

(** [blk.Bytes] dereferences the result of [pem.Decode]. *)
Definition pemToKey (b : string) : go Z :=
  match pem_Decode b with
  | None => Panic NilDereference
  | Some blk => wrap_err "parsing private key from pem" (ParseECPrivateKey blk)
  end.

(** [New]; the argument is the result of [acme.NewClient]. *)
Definition acme_New (conf : AcmeConfig) (accounts : json_file AccountFile) (bundle : json_file Bundle)
    (client : option error) : go CertManager :=
  if negb (HasSuffix (Domain conf) (RootZone conf))
  then Err (Errorf "domain must be under root zone" [])
  else match client with
  | Some e => Err (Wrapf "initializing acme client" e)
  | None => Ok (mkCM conf None zero_account false None false false 0 zero_Bundle accounts bundle)
  end.

(** [os.Create] truncates; a failed [Encode] leaves a truncated file. *)
Definition persistAccount (ca : CA) (af : AccountFile) : M unit :=
  _ ← call_err "opening accounts.json for writing" (fs_Create ca);
  _ ← modify (set_accounts_json Malformed);
  _ ← call_err "writing to accounts.json" (fs_Encode ca);
  modify (set_accounts_json (Content af)).

Definition persisCerts (ca : CA) (bundle : Bundle) : M unit :=
  _ ← call_err "opening bundle.json for writing" (fs_Create ca);
  _ ← modify (set_bundle_json Malformed);
  _ ← call_err "writing to bundle.json" (fs_Encode ca);
  modify (set_bundle_json (Content bundle)).

Definition CreateAccount (ca : CA) : M unit :=
  c ← get;
  if hasAcc c then throw (Sentinel ErrAccountExists) else
  match ca_GenerateKey ca with
  | inr e =>
      _ ← modify (set_acc None (cm_account c) false);
      throw (Wrapf "generating new account private key" e)
  | inl k =>
      let '(acct, err) := ca_NewAccountOptions ca k (Contact (config c)) in
      _ ← modify (set_acc (Some k) acct false);
      _ ← call_err "creating account with CA" err;
      _ ← modify (set_acc (Some k) acct true);
      pem ← wrapping "converting pkey to pem" (lift (keyToPEM (Some k)));
      persistAccount ca (mkAF pem (acc_URL acct))
  end.

Definition ExportAccount : M AccountFile :=
  c ← get;
  if negb (hasAcc c) then throw (Sentinel ErrNoAccount) else
  pem ← wrapping "converting pkey to pem" (lift (keyToPEM (accKey c)));
  mret (mkAF pem (acc_URL (cm_account c))).

Definition ImportAccount (ca : CA) (af : AccountFile) (persist : bool) : M unit :=
  c ← get;
  if hasAcc c then throw (Sentinel ErrAccountExists) else
  pKey ← wrapping "converting pem to pkey" (lift (pemToKey (af_PrivateKey af)));
  let '(acct, err) := ca_UpdateAccount ca (mkAccount (Some pKey) (af_URL af)) (Contact (config c)) in
  _ ← modify (set_acc (accKey c) acct false);
  _ ← call_err "reloading accounts" err;
  _ ← modify (set_acc (Some pKey) acct true);
  if persist then persistAccount ca af else mret tt.

(** [os.Open] of an absent file, and the treatment of its error. *)
Definition os_Open {A} (ca : CA) (f : json_file A) : option error :=
  match fs_Open ca with
  | Some e => Some e
  | None => match f with NoFile => Some (Sentinel os_ErrNotExist) | _ => None end
  end.
Definition open_err (msg : string) (absent : sentinel) (e : option error) : M unit :=
  match e with
  | None => mret tt
  | Some e => throw (if errors_Is e os_ErrNotExist then Sentinel absent else Wrapf msg e)
  end.

Definition LoadAccountFromFile (ca : CA) : M unit :=
  c ← get;
  _ ← open_err "loading accounts.json" ErrNoAccount (os_Open ca (accounts_json c));
  match accounts_json c with
  | NoFile | Malformed => throw (Wrapf "decoding accounts.json" (Foreign 0))
  | Content af => ImportAccount ca af false
  end.

(** On failure the assignment still happens, with a nil key; [hasCertPKey] is
    not touched. *)
Definition ImportPrivateKey (keyPem : string) : M unit :=
  c ← get;
  if hasCertPKey c then throw (Sentinel ErrPKeyExists) else
  match pemToKey keyPem with
  | Ok k => modify (set_certPKey (Some k) (hasCertPKey c))
  | Err e =>
      _ ← modify (set_certPKey None (hasCertPKey c));
      throw (Wrapf "decoding private key from pem" e)
  | Panic p => lift (Panic p)
  end.

Definition ExportPrivateKey : M string :=
  c ← get;
  if negb (hasCertPKey c) then throw (Sentinel ErrNoPKey) else
  wrapping "encoding private key to pem" (lift (keyToPEM (certPKey c))).

Definition newline : string := String.String (Ascii.ascii_of_nat 10) EmptyString.

Definition ImportBundle (ca : CA) (bundle : Bundle) (persist : bool) : M unit :=
  pKey ← wrapping "decoding private key" (lift (pemToKey (b_PrivateKey bundle)));
  cert ← wrapping "generating x509 key pair"
    (lift (X509KeyPair (String.concat newline (b_Chain bundle)) (b_PrivateKey bundle)));
  _ ← modify (λ c, set_certPKey (Some pKey) true (set_cert cert bundle c));
  if persist then persisCerts ca bundle else mret tt.

Definition LoadBundleFromFile (ca : CA) : M unit :=
  c ← get;
  _ ← open_err "loading bundle.json" ErrNoCert (os_Open ca (bundle_json c));
  match bundle_json c with
  | NoFile | Malformed => throw (Wrapf "decoding bundle.json" (Foreign 0))
  | Content b => ImportBundle ca b false
  end.

(** The copy of the chain is onto itself. *)
Definition ExportBundle : M Bundle :=
  c ← get;
  if negb (hasCert c) then throw (Sentinel ErrNoCert) else mret (storedPem c).

Definition GetCertificatesFunc : M Z :=
  c ← get;
  if negb (hasCert c) then throw (Errorf "certificate not yet available" [])
  else mret (storedCert c).

(** *** [RequestCertificate] *)

(** The host of the challenge record, the common name and the names to
    certify. *)
Definition certificate_names (conf : AcmeConfig) : go (string * string * list string) :=
  let host := "_acme-challenge" in
  let common := RootZone conf in
  let apex := TrimSuffix (Domain conf) (RootZone conf) in
  let apex := TrimSuffix apex "." in
  if bool_decide (apex = "") then Ok (host, common, [common]) else
  c ← str_index apex 0;
  if Ascii.eqb c (Ascii.ascii_of_nat 42) then
    tail1 ← str_from apex 1;
    tail2 ← str_from apex 2;
    let common := tail2 +:+ "." +:+ common in
    Ok (host +:+ tail1, common, [common; Domain conf])
  else
    let common := apex +:+ "." +:+ common in
    Ok (host +:+ "." +:+ apex, common, [common]).

(** The key for the request: an existing one or a new one. *)
Definition request_key (ca : CA) : M Z :=
  c ← get;
  match certPKey c with
  | Some k => mret k
  | None =>
      k ← call "generating certificate private key" (ca_GenerateKey ca);
      _ ← modify (set_certPKey (Some k) true);
      mret k
  end.

(** The loop over the authorizations of the order. *)
Fixpoint authorize (ca : CA) (acct : account) (host : string) (authURLs : list string) : M unit :=
  match authURLs with
  | [] => mret tt
  | authURL :: rest =>
      auth ← call "fetching authoriztion" (ca_FetchAuthorization ca acct authURL);
      match auth with
      | None => throw (Errorf "missing dns challenge" [])
      | Some txt =>
          ok ← call "updating dns record" (dns_Update ca host "TXT" txt);
          if negb ok then throw (Errorf "dns update failed" []) else
          _ ← call_err "updating challenge" (ca_UpdateChallenge ca acct txt);
          authorize ca acct host rest
      end
  end.

Definition is_space (c : Ascii.ascii) : bool :=
  let v := Ascii.nat_of_ascii c in
  ((9 <=? v) && (v <=? 13) || (v =? 32))%nat.
Fixpoint TrimLeft (s : string) : string :=
  match s with
  | EmptyString => EmptyString
  | String.String c s' => if is_space c then TrimLeft s' else s
  end.
Fixpoint TrimRight (s : string) : string :=
  match s with
  | EmptyString => EmptyString
  | String.String c s' =>
      let r := TrimRight s' in
      if bool_decide (r = EmptyString) && is_space c then EmptyString else String.String c r
  end.
Definition TrimSpace (s : string) : string := TrimLeft (TrimRight s).

Definition RequestCertificate (ca : CA) : M unit :=
  c ← get;
  if negb (hasAcc c) then throw (Sentinel ErrNoAccount) else
  '(host, common, names) ← lift (certificate_names (config c));
  key ← request_key ca;
  csrDer ← call "generating csr" (ca_CertificateRequest ca key common names);
  csr ← call "parsing csr" (ca_ParseRequest ca csrDer);
  pKey ← wrapping "encoding private key to pem" ExportPrivateKey;
  auths ← call "creating order" (ca_NewOrderDomains ca (cm_account c) names);
  _ ← authorize ca (cm_account c) host auths;
  o ← call "finalizing order" (ca_FinalizeOrder ca (cm_account c) csr);
  certs ← call "fetching certificates" (ca_FetchCertificates ca (cm_account c) o);
  let pemData := (λ raw, TrimSpace (pem_EncodeToMemory "CERTIFICATE" raw)) <$> certs in
  wrapping "re-importing exported certificate" (ImportBundle ca (mkBundle pKey pemData) true).

(** ** Reasoning about methods *)

Lemma M_bind_eq {A B} (m : M A) (f : A → M B) c :
  (m ≫= f) c =
    match (m c).2 with
    | Ok a => f a (m c).1
    | Err e => ((m c).1, Err e)
    | Panic p => ((m c).1, Panic p)
    end.
Proof. unfold mbind, M_bind. by destruct (m c) as [c' []]. Qed.

(** An invariant is carried through a sequence of statements. *)
Lemma keeps_bind (I : CertManager → Prop) {A B} (m : M A) (f : A → M B) c :
  I (m c).1 → (∀ a, (m c).2 = Ok a → I (m c).1 → I (f a (m c).1).1) → I ((m ≫= f) c).1.
Proof. intros H1 H2. rewrite M_bind_eq. destruct ((m c).2) eqn:E; cbn; eauto. Qed.

Lemma wrapping_fst {A} msg (m : M A) c : (wrapping msg m c).1 = (m c).1.
Proof. unfold wrapping. by destruct (m c). Qed.

Lemma wrapping_snd {A} msg (m : M A) c : (wrapping msg m c).2 = wrap_err msg (m c).2.
Proof. unfold wrapping. by destruct (m c). Qed.

Lemma call_fst {A} msg (r : A + error) c : (call msg r c).1 = c.
Proof. by destruct r. Qed.

Lemma call_err_fst msg e c : (call_err msg e c).1 = c.
Proof. by destruct e. Qed.

Lemma open_err_fst msg s e c : (open_err msg s e c).1 = c.
Proof. by destruct e. Qed.

Lemma authorize_fst ca acct host urls c : (authorize ca acct host urls c).1 = c.
Proof.
  revert c. induction urls as [|u urls IH]; intros c; [done|]. cbn [authorize].
  rewrite M_bind_eq, call_fst. destruct ((call _ _ c).2) as [[txt|]| |]; try done.
  rewrite M_bind_eq, call_fst. destruct ((call _ _ c).2) as [[]| |]; try done.
  cbn [negb]. rewrite M_bind_eq, call_err_fst. destruct ((call_err _ _ c).2); try done.
Qed.

Lemma persistAccount_fst ca af c :
  ∃ f, (persistAccount ca af c).1 = set_accounts_json f c.
Proof.
  unfold persistAccount. rewrite M_bind_eq, call_err_fst.
  destruct (fs_Create ca); cbn; [exists (accounts_json c); by destruct c|].
  destruct (fs_Encode ca); cbn; by eexists.
Qed.

Lemma persisCerts_fst ca b c : ∃ f, (persisCerts ca b c).1 = set_bundle_json f c.
Proof.
  unfold persisCerts. rewrite M_bind_eq, call_err_fst.
  destruct (fs_Create ca); cbn; [exists (bundle_json c); by destruct c|].
  destruct (fs_Encode ca); cbn; by eexists.
Qed.

(** ** The assignments the methods make

    Every method, whatever it returns, takes the manager through a sequence of
    guarded assignments; what no assignment can break, no method breaks. *)
Inductive assign (c : CertManager) : CertManager → Prop :=
| assign_noacc k acct :
    hasAcc c = false → assign c (set_acc k acct false c)
| assign_acc k acct :
    hasAcc c = false → assign c (set_acc (Some k) acct true c)
| assign_import_pkey k :
    hasCertPKey c = false → assign c (set_certPKey k false c)
| assign_new_pkey k :
    certPKey c = None → assign c (set_certPKey (Some k) true c)
| assign_bundle k cert b :
    pemToKey (b_PrivateKey b) = Ok k →
    X509KeyPair (String.concat newline (b_Chain b)) (b_PrivateKey b) = Ok cert →
    assign c (set_certPKey (Some k) true (set_cert cert b c))
| assign_accounts_json f : assign c (set_accounts_json f c)
| assign_bundle_json f : assign c (set_bundle_json f c).
Hint Constructors assign : core.

Abbreviation assigns := (rtc assign).

Lemma assigns_bind {A B} c0 (m : M A) (f : A → M B) c :
  assigns c0 (m c).1 →
  (∀ a, (m c).2 = Ok a → assigns c0 (m c).1 → assigns c0 (f a (m c).1).1) →
  assigns c0 ((m ≫= f) c).1.
Proof. apply (keeps_bind (assigns c0)). Qed.

Lemma assigns_get {B} c0 (f : CertManager → M B) c :
  assigns c0 (f c c).1 → assigns c0 ((get ≫= f) c).1.
Proof. by rewrite M_bind_eq. Qed.

Lemma persistAccount_assigns ca af c0 c : assigns c0 c → assigns c0 (persistAccount ca af c).1.
Proof. intros. destruct (persistAccount_fst ca af c) as [f ->]. eapply rtc_r; eauto. Qed.

Lemma persisCerts_assigns ca b c0 c : assigns c0 c → assigns c0 (persisCerts ca b c).1.
Proof. intros. destruct (persisCerts_fst ca b c) as [f ->]. eapply rtc_r; eauto. Qed.

Lemma CreateAccount_assigns ca c : assigns c (CreateAccount ca c).1.
Proof.
  unfold CreateAccount. apply assigns_get. destruct (hasAcc c) eqn:E; [done|].
  destruct (ca_GenerateKey ca) as [k|e].
  - destruct (ca_NewAccountOptions ca k _) as [acct err].
    apply assigns_bind; cbn; [by apply rtc_once, assign_noacc|]. intros _ _ Hi.
    apply assigns_bind; rewrite call_err_fst; [done|]. intros _ _ _.
    apply assigns_bind; cbn; [by eapply rtc_r; [done|apply assign_acc]|]. intros _ _ Hi2.
    apply assigns_bind; rewrite wrapping_fst; [done|]. intros pem _ _.
    by apply persistAccount_assigns.
  - apply assigns_bind; cbn; [by apply rtc_once, assign_noacc|done].
Qed.

Lemma ImportAccount_assigns ca af persist c : assigns c (ImportAccount ca af persist c).1.
Proof.
  unfold ImportAccount. apply assigns_get. destruct (hasAcc c) eqn:E; [done|].
  apply assigns_bind; rewrite wrapping_fst; [done|]. intros k _ _. cbn.
  destruct (ca_UpdateAccount ca _ _) as [acct err].
  apply assigns_bind; cbn; [by apply rtc_once, assign_noacc|]. intros _ _ Hi.
  apply assigns_bind; rewrite call_err_fst; [done|]. intros _ _ _.
  apply assigns_bind; cbn; [by eapply rtc_r; [done|apply assign_acc]|]. intros _ _ Hi2.
  destruct persist; [by apply persistAccount_assigns|done].
Qed.

Lemma ImportPrivateKey_assigns pem c : assigns c (ImportPrivateKey pem c).1.
Proof.
  unfold ImportPrivateKey. apply assigns_get. destruct (hasCertPKey c) eqn:E; [done|].
  destruct (pemToKey pem); [by apply rtc_once, assign_import_pkey| |done].
  apply assigns_bind; cbn; [by apply rtc_once, assign_import_pkey|done].
Qed.

Lemma ImportBundle_assigns ca b persist c0 c :
  assigns c0 c → assigns c0 (ImportBundle ca b persist c).1.
Proof.
  intros Hc. unfold ImportBundle. apply assigns_bind; rewrite wrapping_fst; [done|]. cbn.
  intros k Hk%wrap_err_Ok _. apply assigns_bind; rewrite wrapping_fst; [done|]. cbn.
  intros cert Hcert%wrap_err_Ok _.
  apply assigns_bind; cbn; [by eapply rtc_r; [done|apply assign_bundle]|].
  intros _ _ Hi. destruct persist; [by apply persisCerts_assigns|done].
Qed.

Lemma request_key_assigns ca c : assigns c (request_key ca c).1.
Proof.
  unfold request_key. apply assigns_get. destruct (certPKey c) eqn:E; [done|].
  apply assigns_bind; rewrite call_fst; [done|]. intros k _ _.
  apply assigns_bind; cbn; [by apply rtc_once, assign_new_pkey|done].
Qed.

Lemma ExportPrivateKey_fst c : (ExportPrivateKey c).1 = c.
Proof.
  unfold ExportPrivateKey. rewrite M_bind_eq. cbn. case_match; [done|]. by rewrite wrapping_fst.
Qed.

Lemma RequestCertificate_assigns ca c : assigns c (RequestCertificate ca c).1.
Proof.
  unfold RequestCertificate. apply assigns_get.
  case_match; [done|]. apply assigns_bind; cbn; [done|]. intros [[host common] names] _ _.
  apply assigns_bind; [by apply request_key_assigns|]. intros key _ Hi.
  apply assigns_bind; rewrite call_fst; [done|]. intros csrDer _ _.
  apply assigns_bind; rewrite call_fst; [done|]. intros csr _ _.
  apply assigns_bind; rewrite wrapping_fst, ExportPrivateKey_fst; [done|]. intros pKey _ _.
  apply assigns_bind; rewrite call_fst; [done|]. intros auths _ _.
  apply assigns_bind; rewrite authorize_fst; [done|]. intros _ _ _.
  apply assigns_bind; rewrite call_fst; [done|]. intros o _ _.
  apply assigns_bind; rewrite call_fst; [done|]. intros certs _ _.
  rewrite wrapping_fst. by apply ImportBundle_assigns.
Qed.

Lemma LoadAccountFromFile_assigns ca c : assigns c (LoadAccountFromFile ca c).1.
Proof.
  unfold LoadAccountFromFile. apply assigns_get.
  apply assigns_bind; rewrite open_err_fst; [done|]. intros _ _ _.
  case_match; [done| |done]. by apply ImportAccount_assigns.
Qed.

Lemma LoadBundleFromFile_assigns ca c : assigns c (LoadBundleFromFile ca c).1.
Proof.
  unfold LoadBundleFromFile. apply assigns_get.
  apply assigns_bind; rewrite open_err_fst; [done|]. intros _ _ _.
  case_match; [done| |done]. by apply ImportBundle_assigns.
Qed.

(** *** The calls on a manager *)
Inductive acme_op :=
| OpCreateAccount (ca : CA)
| OpImportAccount (ca : CA) (af : AccountFile) (persist : bool)
| OpLoadAccount (ca : CA)
| OpImportPrivateKey (pem : string)
| OpImportBundle (ca : CA) (b : Bundle) (persist : bool)
| OpLoadBundle (ca : CA)
| OpRequestCertificate (ca : CA).

Definition acme_call (op : acme_op) : M unit :=
  match op with
  | OpCreateAccount ca => CreateAccount ca
  | OpImportAccount ca af persist => ImportAccount ca af persist
  | OpLoadAccount ca => LoadAccountFromFile ca
  | OpImportPrivateKey pem => ImportPrivateKey pem
  | OpImportBundle ca b persist => ImportBundle ca b persist
  | OpLoadBundle ca => LoadBundleFromFile ca
  | OpRequestCertificate ca => RequestCertificate ca
  end.

(** The manager after a sequence of calls, whatever they returned. *)
Definition acme_calls (ops : list acme_op) (c : CertManager) : CertManager :=
  foldl (λ c op, (acme_call op c).1) c ops.

Lemma acme_calls_assigns ops c : assigns c (acme_calls ops c).
Proof.
  revert c. induction ops as [|op ops IH]; intros c; [done|]. cbn.
  etrans; [|apply IH]. destruct op; cbn;
    auto using CreateAccount_assigns, ImportAccount_assigns, LoadAccountFromFile_assigns,
      ImportPrivateKey_assigns, LoadBundleFromFile_assigns, RequestCertificate_assigns.
  by apply ImportBundle_assigns.
Qed.

(** ** The invariant *)
Record cm_inv (c : CertManager) : Prop := {
  ci_acc : hasAcc c = true → is_Some (accKey c);
  ci_pkey : hasCertPKey c = true → is_Some (certPKey c);
  ci_cert : hasCert c = true →
    hasCertPKey c = true ∧
    (∃ k, pemToKey (b_PrivateKey (storedPem c)) = Ok k ∧ certPKey c = Some k) ∧
    X509KeyPair (String.concat newline (b_Chain (storedPem c))) (b_PrivateKey (storedPem c)) =
      Ok (storedCert c);
}.

Lemma assign_inv c c' : cm_inv c → assign c c' → cm_inv c'.
Proof.
  intros [Ha Hp Hc] Hs. destruct Hs as [k acct Hn|k acct Hn|k Hn|k Hn|k cert b Hk Hx|f|f];
    split; cbn; eauto; try done.
  - intros [Hx _]%Hc. congruence.
  - intros (_ & (k' & _ & Hx) & _)%Hc. congruence.
Qed.

Lemma assigns_inv c c' : cm_inv c → assigns c c' → cm_inv c'.
Proof. intros Hc Hs. induction Hs; eauto using assign_inv. Qed.

(** Once registered, the account stays. *)
Lemma assigns_account c c' :
  assigns c c' → hasAcc c = true →
  hasAcc c' = true ∧ accKey c' = accKey c ∧ cm_account c' = cm_account c.
Proof.
  induction 1 as [|c c1 c2 Hs _ IH]; intros Hacc; [done|].
  assert (hasAcc c1 = true ∧ accKey c1 = accKey c ∧ cm_account c1 = cm_account c) as (H1 & H2 & H3).
  { destruct Hs; cbn; try done; congruence. }
  destruct (IH H1) as (? & -> & ->). done.
Qed.

(** The configuration never changes. *)
Lemma assigns_config c c' : assigns c c' → config c' = config c.
Proof. induction 1 as [|c c1 c2 Hs _ IH]; [done|]. rewrite IH. by destruct Hs. Qed.

Lemma acme_New_inv conf fa fb client c : acme_New conf fa fb client = Ok c → cm_inv c.
Proof. unfold acme_New. repeat case_match; try done. intros [= <-]. by split. Qed.

(** A freshly started process: only the files are left of the old one. *)
Definition restarted (c : CertManager) : CertManager :=
  mkCM (config c) None zero_account false None false false 0 zero_Bundle
    (accounts_json c) (bundle_json c).

Context `{!CryptoOk}.

Lemma pemToKey_keyToPEM k pem : keyToPEM (Some k) = Ok pem → pemToKey pem = Ok k.
Proof.
  cbn. intros (enc & Henc%wrap_err_Ok & [= <-])%go_bind_Ok. unfold pemToKey.
  rewrite pem_Decode_Encode. by rewrite (Parse_Marshal k enc Henc).
Qed.

Lemma keyToPEM_not_Panic k : is_panic (keyToPEM (Some k)) = false.
Proof.
  cbn. pose proof (Marshal_not_Panic k). by destruct (MarshalECPrivateKey k).
Qed.

Lemma ExportAccount_Ok c af :
  (ExportAccount c).2 = Ok af ↔
  hasAcc c = true ∧ keyToPEM (accKey c) = Ok (af_PrivateKey af) ∧ acc_URL (cm_account c) = af_URL af.
Proof.
  unfold ExportAccount. rewrite M_bind_eq. cbn. destruct (hasAcc c); cbn; [|naive_solver].
  rewrite M_bind_eq. cbn. destruct (keyToPEM (accKey c)) as [pem| |]; cbn; [|naive_solver..].
  destruct af; cbn. naive_solver.
Qed.

Lemma ExportBundle_Ok c b : (ExportBundle c).2 = Ok b ↔ hasCert c = true ∧ storedPem c = b.
Proof. unfold ExportBundle. rewrite M_bind_eq. cbn. destruct (hasCert c); cbn; naive_solver. Qed.

Lemma GetCertificatesFunc_Ok c x :
  (GetCertificatesFunc c).2 = Ok x ↔ hasCert c = true ∧ storedCert c = x.
Proof. unfold GetCertificatesFunc. rewrite M_bind_eq. cbn. destruct (hasCert c); cbn; naive_solver. Qed.

(** Importing an account the CA still knows. *)
Lemma ImportAccount_Ok ca d af k acct :
  hasAcc d = false → pemToKey (af_PrivateKey af) = Ok k →
  ca_UpdateAccount ca (mkAccount (Some k) (af_URL af)) (Contact (config d)) = (acct, None) →
  ImportAccount ca af false d = (set_acc (Some k) acct true (set_acc (accKey d) acct false d), Ok tt).
Proof.
  intros Ha Hk Hu. unfold ImportAccount. rewrite M_bind_eq. cbn. rewrite Ha.
  rewrite M_bind_eq. cbn. rewrite Hk. cbn. by rewrite Hu.
Qed.

Lemma ImportBundle_Ok ca d b k x :
  pemToKey (b_PrivateKey b) = Ok k →
  X509KeyPair (String.concat newline (b_Chain b)) (b_PrivateKey b) = Ok x →
  ImportBundle ca b false d = (set_certPKey (Some k) true (set_cert x b d), Ok tt).
Proof.
  intros Hk Hx. unfold ImportBundle. rewrite M_bind_eq. cbn. rewrite Hk. cbn.
  rewrite M_bind_eq. cbn. by rewrite Hx.
Qed.

(** The same with a disk that accepts writes. *)
Lemma ImportAccount_disk_Ok ca d af k acct persist :
  hasAcc d = false → pemToKey (af_PrivateKey af) = Ok k →
  ca_UpdateAccount ca (mkAccount (Some k) (af_URL af)) (Contact (config d)) = (acct, None) →
  fs_Create ca = None → fs_Encode ca = None →
  ∃ f, ImportAccount ca af persist d =
    (set_accounts_json f (set_acc (Some k) acct true (set_acc (accKey d) acct false d)), Ok tt).
Proof.
  intros Ha Hk Hu H1 H2. unfold ImportAccount. rewrite M_bind_eq. cbn. rewrite Ha.
  rewrite M_bind_eq. cbn. rewrite Hk. cbn. rewrite Hu. unfold persistAccount. rewrite H1, H2.
  destruct persist; cbn; [by eexists|]. by exists (accounts_json d).
Qed.

Lemma ImportBundle_disk_Ok ca d b k x persist :
  pemToKey (b_PrivateKey b) = Ok k →
  X509KeyPair (String.concat newline (b_Chain b)) (b_PrivateKey b) = Ok x →
  fs_Create ca = None → fs_Encode ca = None →
  ∃ f, ImportBundle ca b persist d =
    (set_bundle_json f (set_certPKey (Some k) true (set_cert x b d)), Ok tt).
Proof.
  intros Hk Hx H1 H2. unfold ImportBundle. rewrite M_bind_eq. cbn. rewrite Hk. cbn.
  rewrite M_bind_eq. cbn. rewrite Hx. cbn. unfold persisCerts. rewrite H1, H2.
  destruct persist; cbn; [by eexists|]. by exists (bundle_json d).
Qed.

(** A successful request ends with the bundle on disk and in use. *)
Lemma ImportBundle_persisted ca b c :
  (ImportBundle ca b true c).2 = Ok tt →
  bundle_json (ImportBundle ca b true c).1 = Content b ∧
  storedPem (ImportBundle ca b true c).1 = b ∧ hasCert (ImportBundle ca b true c).1 = true.
Proof.
  unfold ImportBundle, persisCerts, call_err. destruct (fs_Create ca), (fs_Encode ca);
    unfold mbind, M_bind, wrapping, lift, modify, throw; cbn;
    repeat (case_match; simplify_eq/=; try done).
Qed.

Lemma RequestCertificate_persisted ca c :
  (RequestCertificate ca c).2 = Ok tt →
  let c' := (RequestCertificate ca c).1 in
  hasCert c' = true ∧ bundle_json c' = Content (storedPem c').
Proof.
  unfold RequestCertificate. rewrite M_bind_eq. cbn. destruct (hasAcc c); cbn; [|done].
  rewrite M_bind_eq. cbn. destruct (certificate_names (config c)) as [[[h n] ns]| |]; [|done..].
  do 7 (rewrite M_bind_eq; match goal with
    |- context [match ?x with Ok _ => _ | _ => _ end] => destruct x; [|done..] end).
  rewrite M_bind_eq. match goal with
    |- context [match ?x with Ok _ => _ | _ => _ end] => destruct x; [|done..] end.
  rewrite !wrapping_fst, wrapping_snd. intros Hr%wrap_err_Ok.
  destruct (ImportBundle_persisted _ _ _ Hr) as (H1 & H2 & H3). cbn. by rewrite H1, H2.
Qed.
End Acme.

(** ** Concrete libraries for the examples

    A key is encoded as itself, a PEM block as the binary digits of its
    contents; a text with any other character holds no block. *)
Fixpoint digits_of (p : positive) : string :=
  match p with
  | xH => EmptyString
  | xO p => String.String (Ascii.ascii_of_nat 48) (digits_of p)
  | xI p => String.String (Ascii.ascii_of_nat 49) (digits_of p)
  end.
Fixpoint of_digits (s : string) : option positive :=
  match s with
  | EmptyString => Some xH
  | String.String c s =>
      p ← of_digits s;
      if Ascii.eqb c (Ascii.ascii_of_nat 48) then Some (xO p)
      else if Ascii.eqb c (Ascii.ascii_of_nat 49) then Some (xI p) else None
  end.
Lemma of_digits_of p : of_digits (digits_of p) = Some p.
Proof. induction p as [p IH|p IH|]; cbn [digits_of of_digits]; rewrite ?IH; done. Qed.

Definition sample_crypto : Crypto := {|
  MarshalECPrivateKey k := Ok [k];
  ParseECPrivateKey b := match b with [k] => Ok k | _ => Err (Foreign 1) end;
  pem_EncodeToMemory _ b := digits_of (encode b);
  pem_Decode s := of_digits s ≫= decode;
  X509KeyPair c k := if bool_decide (c = "") then Err (Foreign 2) else Ok (Z.of_nat (strlen c));
|}.

Lemma sample_crypto_ok : @CryptoOk sample_crypto.
Proof.
  split; cbn.
  - intros _ b. rewrite of_digits_of. apply decode_encode.
  - by intros k b [= <-].
  - intros b. by repeat case_match.
  - done.
  - intros c k. by case_match.
Qed.

(** A world in which everything works; keys are numbered by the caller. *)
Definition sample_ca (key : Z) : CA := {|
  ca_GenerateKey := inl key;
  ca_NewAccountOptions k _ := (mkAccount (Some k) "https://ca/acct/1", None);
  ca_UpdateAccount a _ := (a, None);
  ca_CertificateRequest k _ _ := inl k;
  ca_ParseRequest k := inl k;
  ca_NewOrderDomains _ names := inl names;
  ca_FetchAuthorization _ url := inl (Some url);
  ca_UpdateChallenge _ _ := None;
  ca_FinalizeOrder _ _ := inl "cert";
  ca_FetchCertificates _ _ := inl [[1; 2]; [3]];
  dns_Update _ _ _ := inl true;
  fs_Create := None;
  fs_Encode := None;
  fs_Open := None;
|}.

Definition sample_conf : AcmeConfig := mkAcmeConfig "ops@example.com" "example.com" "*.tunnel.example.com".
Definition sample_cm : CertManager :=
  mkCM sample_conf None zero_account false None false false 0 zero_Bundle NoFile NoFile.

(** A manager that registered an account and obtained a certificate. *)
Definition sample_leader : CertManager :=
  @acme_calls sample_crypto [OpCreateAccount (sample_ca 7); OpRequestCertificate (sample_ca 8)] sample_cm.

(** ** Properties *)

(** C16: the certificate manager is always consistent.  After any sequence of
    calls, with any answers from the CA, the DNS provider and the disk, and
    whatever the calls returned, exporting the account and the key does not
    panic, and when a bundle is exported the certificate served to TLS clients
    is the one made from that bundle and the key kept is the bundle's key. *)
Theorem acme_consistent `{CryptoOk} conf fa fb client c0 ops :
  acme_New conf fa fb client = Ok c0 →
  let c := acme_calls ops c0 in
  is_panic (ExportAccount c).2 = false ∧ is_panic (ExportPrivateKey c).2 = false ∧
  ∀ b, (ExportBundle c).2 = Ok b →
    ∃ x k, (GetCertificatesFunc c).2 = Ok x ∧
      X509KeyPair (String.concat newline (b_Chain b)) (b_PrivateKey b) = Ok x ∧
      certPKey c = Some k ∧ pemToKey (b_PrivateKey b) = Ok k.
Proof.
  intros Hn c. assert (cm_inv c) as [Ha Hp Hc].
  { eapply assigns_inv; [by eapply acme_New_inv|apply acme_calls_assigns]. }
  split_and!.
  - unfold ExportAccount. rewrite M_bind_eq. cbn. destruct (hasAcc c); [|done].
    destruct (Ha eq_refl) as [k ->]. cbn [negb]. rewrite M_bind_eq, wrapping_snd. cbn [lift snd].
    pose proof (keyToPEM_not_Panic k). by destruct (keyToPEM (Some k)).
  - unfold ExportPrivateKey. rewrite M_bind_eq. cbn. destruct (hasCertPKey c); [|done].
    destruct (Hp eq_refl) as [k ->]. cbn [negb]. rewrite wrapping_snd. cbn [lift snd].
    pose proof (keyToPEM_not_Panic k). by destruct (keyToPEM (Some k)).
  - intros b [Hcert <-]%ExportBundle_Ok. destruct (Hc Hcert) as (_ & (k & Hk & Hck) & Hx).
    exists (storedCert c), k. by rewrite GetCertificatesFunc_Ok.
Qed.

Lemma acme_consistent_witness :
  ∃ b x, (@ExportBundle sample_leader).2 = Ok b ∧ (GetCertificatesFunc sample_leader).2 = Ok x ∧
    @X509KeyPair sample_crypto (String.concat newline (b_Chain b)) (b_PrivateKey b) = Ok x.
Proof.
  destruct (@acme_consistent sample_crypto sample_crypto_ok sample_conf NoFile NoFile None sample_cm
    [OpCreateAccount (sample_ca 7); OpRequestCertificate (sample_ca 8)] eq_refl) as (_ & _ & Hb).
  fold sample_leader in Hb.
  destruct ((ExportBundle sample_leader).2) as [b| |] eqn:E; [|by vm_compute in E..].
  destruct (Hb b eq_refl) as (x & k & Hx & Hp & _). by exists b, x.
Defined.

(** C20: a server has one ACME account for ever.  Once an account is registered
    or imported, every later sequence of calls leaves it (its key and its URL)
    in place, and creating or importing another one is refused with
    [ErrAccountExists] without touching the manager. *)
Theorem acme_account_once `{CryptoOk} c af ops :
  (ExportAccount c).2 = Ok af →
  let c' := acme_calls ops c in
  (ExportAccount c').2 = Ok af ∧
  (∀ ca, CreateAccount ca c' = (c', Err (Sentinel ErrAccountExists))) ∧
  (∀ ca af' persist, ImportAccount ca af' persist c' = (c', Err (Sentinel ErrAccountExists))).
Proof.
  intros (Ha & Hk & Hu)%ExportAccount_Ok c'.
  destruct (assigns_account c c' (acme_calls_assigns ops c) Ha) as (Ha' & Hk' & Hacct).
  split_and!.
  - apply ExportAccount_Ok. by rewrite Hk', Hacct.
  - intros ca. unfold CreateAccount. rewrite M_bind_eq. cbn. by rewrite Ha'.
  - intros ca af' persist. unfold ImportAccount. rewrite M_bind_eq. cbn. by rewrite Ha'.
Qed.

Lemma acme_account_once_witness :
  ∃ af, (@ExportAccount sample_crypto
           (@acme_calls sample_crypto [OpCreateAccount (sample_ca 9)] sample_leader)).2 = Ok af.
Proof.
  destruct ((@ExportAccount sample_crypto sample_leader).2) as [af| |] eqn:E; [|by vm_compute in E..].
  exists af. by apply (@acme_account_once sample_crypto sample_crypto_ok sample_leader af _ E).
Defined.

(** What the leader exports, another server can import.  If a consistent
    manager exports an account and a bundle, and the CA still knows the account,
    importing both into a manager without an account succeeds; that manager
    then exports the same account and the same bundle and serves the same
    certificate. *)
Theorem acme_transfer `{CryptoOk} c d ca af b :
  cm_inv c → hasAcc d = false →
  (ExportAccount c).2 = Ok af → (ExportBundle c).2 = Ok b →
  (∀ acct contact, ∃ a', ca_UpdateAccount ca acct contact = (a', None) ∧ acc_URL a' = acc_URL acct) →
  let d1 := (ImportAccount ca af false d).1 in
  let d2 := (ImportBundle ca b false d1).1 in
  (ImportAccount ca af false d).2 = Ok tt ∧ (ImportBundle ca b false d1).2 = Ok tt ∧
  (ExportAccount d2).2 = Ok af ∧ (ExportBundle d2).2 = Ok b ∧
  (GetCertificatesFunc d2).2 = (GetCertificatesFunc c).2.
Proof.
  intros [Ha Hp Hc] Hd (Hacc & Hk & Hu)%ExportAccount_Ok [Hcert <-]%ExportBundle_Ok Hca.
  destruct (Ha Hacc) as [k Hkey]. rewrite Hkey in Hk.
  destruct (Hca (mkAccount (Some k) (af_URL af)) (Contact (config d))) as (acct & Hup & Hurl).
  rewrite (ImportAccount_Ok ca d af k acct Hd (pemToKey_keyToPEM _ _ Hk) Hup). cbn [fst snd].
  destruct (Hc Hcert) as (_ & (k2 & Hk2 & _) & Hx).
  rewrite (ImportBundle_Ok ca _ _ k2 _ Hk2 Hx). cbn [fst snd]. split_and!; try done.
  - by apply ExportAccount_Ok.
  - rewrite (proj2 (GetCertificatesFunc_Ok c _) (conj Hcert eq_refl)).
    by apply GetCertificatesFunc_Ok.
Qed.

Lemma sample_leader_inv : @cm_inv sample_crypto sample_leader.
Proof.
  eapply assigns_inv; [|apply acme_calls_assigns].
  by apply (@acme_New_inv sample_crypto sample_conf NoFile NoFile None).
Qed.

Lemma acme_transfer_witness :
  ∃ af b x, (@ExportAccount sample_crypto sample_leader).2 = Ok af ∧
    (ExportBundle sample_leader).2 = Ok b ∧
    (GetCertificatesFunc (@ImportBundle sample_crypto (sample_ca 0) b false
       (@ImportAccount sample_crypto (sample_ca 0) af false sample_cm).1).1).2 = Ok x.
Proof.
  destruct ((@ExportAccount sample_crypto sample_leader).2) as [af| |] eqn:E1; [|by vm_compute in E1..].
  destruct ((ExportBundle sample_leader).2) as [b| |] eqn:E2; [|by vm_compute in E2..].
  destruct ((GetCertificatesFunc sample_leader).2) as [x| |] eqn:E3; [|by vm_compute in E3..].
  exists af, b, x. split; [done|]. split; [done|]. rewrite <-E3.
  apply (@acme_transfer sample_crypto sample_crypto_ok sample_leader sample_cm (sample_ca 0) af b
    sample_leader_inv eq_refl E1 E2).
  intros acct contact. by exists acct.
Defined.

(** C19: certificates survive a restart.  After a successful
    [RequestCertificate] on a consistent manager, a process restarted on the
    same data directory loads the bundle without error (if the file can be
    opened) and then exports the same bundle and serves the same certificate. *)
Theorem acme_restart `{CryptoOk} ca ca' c :
  cm_inv c → (RequestCertificate ca c).2 = Ok tt → fs_Open ca' = None →
  let c1 := (RequestCertificate ca c).1 in
  let c2 := (LoadBundleFromFile ca' (restarted c1)).1 in
  (LoadBundleFromFile ca' (restarted c1)).2 = Ok tt ∧
  ∃ b x, (ExportBundle c1).2 = Ok b ∧ (ExportBundle c2).2 = Ok b ∧
         (GetCertificatesFunc c1).2 = Ok x ∧ (GetCertificatesFunc c2).2 = Ok x.
Proof.
  intros Hinv Hr Hopen c1 c2.
  assert (cm_inv c1) as Hinv1 by (eapply assigns_inv; [exact Hinv|apply RequestCertificate_assigns]).
  destruct (RequestCertificate_persisted ca c Hr) as [Hcert Hfile]. fold c1 in Hcert, Hfile.
  destruct (ci_cert c1 Hinv1 Hcert) as (_ & (k & Hk & _) & Hx).
  assert (LoadBundleFromFile ca' (restarted c1) =
    (set_certPKey (Some k) true (set_cert (storedCert c1) (storedPem c1) (restarted c1)), Ok tt)) as Hl.
  { unfold LoadBundleFromFile. rewrite M_bind_eq. cbn [get fst snd].
    rewrite M_bind_eq. cbn [restarted bundle_json]. rewrite Hfile. unfold os_Open. rewrite Hopen. cbn.
    by apply ImportBundle_Ok. }
  subst c2. rewrite Hl. split; [done|]. exists (storedPem c1), (storedCert c1).
  by rewrite !ExportBundle_Ok, !GetCertificatesFunc_Ok.
Qed.

Lemma acme_restart_witness :
  let c := (@CreateAccount sample_crypto (sample_ca 7) sample_cm).1 in
  let c1 := (@RequestCertificate sample_crypto (sample_ca 8) c).1 in
  (@LoadBundleFromFile sample_crypto (sample_ca 0) (restarted c1)).2 = Ok tt.
Proof.
  apply (@acme_restart sample_crypto sample_crypto_ok (sample_ca 8) (sample_ca 0)
    (@CreateAccount sample_crypto (sample_ca 7) sample_cm).1).
  - eapply assigns_inv; [|apply CreateAccount_assigns].
    by apply (@acme_New_inv sample_crypto sample_conf NoFile NoFile None).
  - by vm_compute.
  - done.
Defined.

(** *** The names of the certificate *)
Lemma names_sub zone apex :
  certificate_names (mkAcmeConfig "" zone (apex +:+ "." +:+ zone)) =
  if bool_decide (apex = "") then Ok ("_acme-challenge", zone, [zone]) else
  c ← str_index apex 0;
  if Ascii.eqb c (Ascii.ascii_of_nat 42) then
    tail1 ← str_from apex 1;
    tail2 ← str_from apex 2;
    Ok ("_acme-challenge" +:+ tail1, tail2 +:+ "." +:+ zone,
        [tail2 +:+ "." +:+ zone; apex +:+ "." +:+ zone])
  else Ok ("_acme-challenge" +:+ "." +:+ apex, apex +:+ "." +:+ zone, [apex +:+ "." +:+ zone]).
Proof.
  unfold certificate_names. cbn [RootZone Domain].
  rewrite <-(str_app_assoc apex "." zone), TrimSuffix_app, TrimSuffix_app.
  by rewrite (str_app_assoc apex "." zone).
Qed.

Lemma str_first_star s : str_index ("*" +:+ s) 0 = Ok (Ascii.ascii_of_nat 42).
Proof. done. Qed.

(** The names requested for every shape of configured domain.  A name
    [sub.zone] is certified as itself with its challenge under [sub]; a
    wildcard [*.sub.zone] is certified together with [sub.zone]; a wildcard
    directly below the zone, [*.zone], panics (the two leading characters are
    cut from a string of one). *)
Theorem acme_names contact zone sub :
  sub ≠ "" → HasPrefix sub "*" = false →
  certificate_names (mkAcmeConfig contact zone (sub +:+ "." +:+ zone)) =
    Ok ("_acme-challenge." +:+ sub, sub +:+ "." +:+ zone, [sub +:+ "." +:+ zone]) ∧
  certificate_names (mkAcmeConfig contact zone ("*." +:+ sub +:+ "." +:+ zone)) =
    Ok ("_acme-challenge." +:+ sub, sub +:+ "." +:+ zone,
        [sub +:+ "." +:+ zone; "*." +:+ sub +:+ "." +:+ zone]) ∧
  certificate_names (mkAcmeConfig contact zone ("*." +:+ zone)) = Panic SliceOutOfRange.
Proof.
  intros Hne Hstar.
  assert (∀ d, certificate_names (mkAcmeConfig contact zone d) =
               certificate_names (mkAcmeConfig "" zone d)) as Hc by done.
  rewrite !Hc. split_and!.
  - rewrite names_sub, bool_decide_eq_false_2 by done.
    destruct sub as [|c sub]; [done|]. cbn [str_index String.get mbind go_bind].
    destruct (Ascii.eqb_spec c (Ascii.ascii_of_nat 42)) as [->|]; [|done].
    by destruct sub.
  - change ("*." +:+ sub +:+ "." +:+ zone) with (("*." +:+ sub) +:+ "." +:+ zone).
    by rewrite names_sub.
  - change ("*." +:+ zone) with ("*" +:+ "." +:+ zone). by rewrite names_sub.
Qed.

Lemma acme_names_witness :
  certificate_names (mkAcmeConfig "" "example.com" "*.tunnel.example.com") =
    Ok ("_acme-challenge.tunnel", "tunnel.example.com",
        ["tunnel.example.com"; "*.tunnel.example.com"]) ∧
  certificate_names (mkAcmeConfig "" "example.com" "*.example.com") = Panic SliceOutOfRange.
Proof. destruct (acme_names "" "example.com" "tunnel") as (_ & H1 & H2); done. Defined.

(** [New] only tests for a suffix: a domain that merely ends like the zone is
    accepted, and a certificate for another name is requested. *)
Lemma acme_New_accepts_lookalike :
  let conf := mkAcmeConfig "" "example.com" "notexample.com" in
  is_ok (acme_New conf NoFile NoFile None) = true ∧
  certificate_names conf = Ok ("_acme-challenge.not", "not.example.com", ["not.example.com"]).
Proof. done. Qed.

(** An imported private key is never marked as present, so a certificate can
    never be obtained with it. *)
Lemma imported_key_unusable `{Crypto} pem c ca :
  hasCertPKey c = false → (ImportPrivateKey pem c).2 = Ok tt →
  (RequestCertificate ca (ImportPrivateKey pem c).1).2 ≠ Ok tt.
Proof.
  intros Hh. unfold ImportPrivateKey. rewrite M_bind_eq. cbn. rewrite Hh.
  destruct (pemToKey pem) as [k|e|]; cbn; [intros _|done..].
  unfold RequestCertificate. rewrite M_bind_eq. cbn. case_match; [done|].
  rewrite M_bind_eq. cbn. destruct (certificate_names (config c)) as [[[h n] ns]| |]; [|done..].
  assert (∀ s, certPKey s = Some k → request_key ca s = (s, Ok k)) as Hrk.
  { intros s Hs. unfold request_key. rewrite M_bind_eq. cbn. by rewrite Hs. }
  rewrite M_bind_eq, Hrk by done. cbn [fst snd].
  rewrite M_bind_eq, call_fst. destruct ((call _ _ _).2); [|done..].
  rewrite M_bind_eq, call_fst. by destruct ((call _ _ _).2).
Qed.

(** Input that is not PEM panics. *)
Lemma ImportBundle_not_pem `{Crypto} ca b persist c :
  pem_Decode (b_PrivateKey b) = None → (ImportBundle ca b persist c).2 = Panic NilDereference.
Proof. intros Hp. unfold ImportBundle, pemToKey. rewrite M_bind_eq. cbn. by rewrite Hp. Qed.
