(* ===== verification/Server.v ===== *)
(** * Server: routing, handshakes and session bookkeeping

    [server/server.go], [server/config.go], [server/peers.go],
    [server/clients.go], [server/backgroud.go] and [shared/hash.go].  The parts
    of a handler that touch only its own connection are functions; where it
    works on the session maps it is a goroutine ([routine]) that executes one
    statement at a time, since handlers run concurrently and hold no lock. *)
From S2P Require Import Prelude GoStd Link MuxChannel Multiplexer Mux PeerGraph PeerMap Meta Acme.

Open Scope Z_scope.

(** ** [shared] *)
Definition PeerHash (name : string) : Z := fnv64a (bytes_of_string name).

(** [RandomHostname]: the words are joined with dashes; on error the name is
    empty.  The argument is the result of [diceware.Generate]. *)
Definition RandomHostname (g : list string + error) : string :=
  match g with
  | inl words => String.concat "-" words
  | inr _ => ""
  end.

(** ** Configuration *)
Record ServerConfig := mkServerConfig {
  sc_Context : bool;               (* non-nil *)
  sc_Logger : bool;
  sc_PeerTLSListener : bool;
  sc_PeerQUICListener : bool;
  sc_PeerTLSConfig : bool;
  sc_ClientTLSListener : bool;
  sc_ClientQUICListener : bool;
  sc_CertManager : option CertManager;
  sc_Domain : string;
  sc_AdvertiseAddr : string;
  sc_PeerPort : Z;
  sc_Protocol : Protocol;
  sc_RespondOnly : bool;
  sc_Keyring : list string;
  sc_Debug : bool;
}.

Definition Config_validate (c : ServerConfig) : go CertManager :=
  if negb (sc_Context c) then Err (Errorf "nil context is invalid" []) else
  if negb (sc_Logger c) then Err (Errorf "nil logger is invalid" []) else
  if negb (sc_PeerTLSListener c) then Err (Errorf "nil peer tls listener is invalid" []) else
  if negb (sc_PeerQUICListener c) then Err (Errorf "nil peer quic listener is invalid" []) else
  if negb (sc_PeerTLSConfig c) then Err (Errorf "nil peer tls config is invalid" []) else
  if negb (sc_ClientTLSListener c) then Err (Errorf "nil client tls listener is invalid" []) else
  if negb (sc_ClientQUICListener c) then Err (Errorf "nil client quic listener is invalid" []) else
  match sc_CertManager c with
  | None => Err (Errorf "nil cert manager is invalid" [])
  | Some cm =>
      if bool_decide (sc_Domain c = "") then Err (Errorf "empty domain is invalid" [])
      else Ok cm
  end.

(** ** State *)
Record Server (P : Type) := mkServer {
  s_id : Z;
  s_meta : Meta;
  s_metaBytes : list Z;
  s_gossipName : string;
  s_Debug : bool;
  s_Domain : string;
  s_peers : PeerMap P;
  s_clients : PeerMap P;
  s_peerGraph : PeerGraph;
  s_updatesCh : chan ConnectedClients;
  s_cached : option (list Z);        (* [cached.connectedClients] *)
  s_clientEvtCh : nat;               (* tokens buffered or held by a blocked sender *)
  s_membershipCh : nat;
  s_certManager : CertManager;
}.
Arguments mkServer {_} _ _ _ _ _ _ _ _ _ _ _ _ _ _.
Arguments s_id {_} _.
Arguments s_meta {_} _.
Arguments s_metaBytes {_} _.
Arguments s_gossipName {_} _.
Arguments s_Debug {_} _.
Arguments s_Domain {_} _.
Arguments s_peers {_} _.
Arguments s_clients {_} _.
Arguments s_peerGraph {_} _.
Arguments s_updatesCh {_} _.
Arguments s_cached {_} _.
Arguments s_clientEvtCh {_} _.
Arguments s_membershipCh {_} _.
Arguments s_certManager {_} _.

Section Updates.
Context {P : Type}.
Implicit Types s : Server P.

Definition with_peers (m : PeerMap P) s : Server P :=
  mkServer (s_id s) (s_meta s) (s_metaBytes s) (s_gossipName s) (s_Debug s) (s_Domain s)
    m (s_clients s) (s_peerGraph s) (s_updatesCh s) (s_cached s) (s_clientEvtCh s)
    (s_membershipCh s) (s_certManager s).
Definition with_clients (m : PeerMap P) s : Server P :=
  mkServer (s_id s) (s_meta s) (s_metaBytes s) (s_gossipName s) (s_Debug s) (s_Domain s)
    (s_peers s) m (s_peerGraph s) (s_updatesCh s) (s_cached s) (s_clientEvtCh s)
    (s_membershipCh s) (s_certManager s).
Definition with_graph (g : PeerGraph) s : Server P :=
  mkServer (s_id s) (s_meta s) (s_metaBytes s) (s_gossipName s) (s_Debug s) (s_Domain s)
    (s_peers s) (s_clients s) g (s_updatesCh s) (s_cached s) (s_clientEvtCh s)
    (s_membershipCh s) (s_certManager s).
Definition with_updates (u : chan ConnectedClients) s : Server P :=
  mkServer (s_id s) (s_meta s) (s_metaBytes s) (s_gossipName s) (s_Debug s) (s_Domain s)
    (s_peers s) (s_clients s) (s_peerGraph s) u (s_cached s) (s_clientEvtCh s)
    (s_membershipCh s) (s_certManager s).
Definition with_cached (b : option (list Z)) s : Server P :=
  mkServer (s_id s) (s_meta s) (s_metaBytes s) (s_gossipName s) (s_Debug s) (s_Domain s)
    (s_peers s) (s_clients s) (s_peerGraph s) (s_updatesCh s) b (s_clientEvtCh s)
    (s_membershipCh s) (s_certManager s).
Definition with_certs (c : CertManager) s : Server P :=
  mkServer (s_id s) (s_meta s) (s_metaBytes s) (s_gossipName s) (s_Debug s) (s_Domain s)
    (s_peers s) (s_clients s) (s_peerGraph s) (s_updatesCh s) (s_cached s) (s_clientEvtCh s)
    (s_membershipCh s) c.
Definition with_events (evt member : nat) s : Server P :=
  mkServer (s_id s) (s_meta s) (s_metaBytes s) (s_gossipName s) (s_Debug s) (s_Domain s)
    (s_peers s) (s_clients s) (s_peerGraph s) (s_updatesCh s) (s_cached s) evt
    member (s_certManager s).

(** [s.membershipCh <- struct{}{}] and [s.clientEvtCh <- struct{}{}]: the
    channels carry tokens and are never closed; a send on a full channel holds
    its token until the receiver takes it. *)
Definition send_membership s : Server P :=
  with_events (s_clientEvtCh s) (S (s_membershipCh s)) s.
Definition send_clientEvt s : Server P :=
  with_events (S (s_clientEvtCh s)) (s_membershipCh s) s.
End Updates.

Section Server.
Context {P : Type} `{MuxPeer P} (reg : gmap Z (Constructor P)) `{XorFilter}.
Implicit Types s : Server P.

(** [New]: [self] is the random identifier, [DecodeString] the base64 decoder
    and [NewKeyring] the keyring constructor of the gossip library. *)
Definition server_New (conf : ServerConfig) (self : Z)
    (DecodeString : string → list Z + error) (NewKeyring : list (list Z) → option error)
    : go (Server P) :=
  cm ← Config_validate conf;
  let meta := mkMeta (sc_AdvertiseAddr conf) (uint64_of_int (sc_PeerPort conf)) self
                (sc_Protocol conf) (sc_RespondOnly conf) in
  keys ← foldr (λ d rest,
            match DecodeString d with
            | inl b => ks ← rest; Ok (b :: ks)
            | inr e => Err (Wrapf "decoding base64 keyring" e)
            end) (Ok []) (sc_Keyring conf);
  if bool_decide (keys = []) then Err (Errorf "no gossip keyring was found" []) else
  match NewKeyring keys with
  | Some e => Err (Wrapf "creating gossip keyring" e)
  | None =>
      b ← wrap_err "marshal meta" (Meta_MarshalBinary meta);
      Ok (mkServer self meta b
            (sc_AdvertiseAddr conf +:+ ":" +:+ itoa (sc_PeerPort conf) +:+ "/" +:+ itoa self)
            (sc_Debug conf) (sc_Domain conf)
            (NewPeerMap self) (NewPeerMap self) (NewPeerGraph self)
            (make_chan 16) None 0 0 cm)
  end.

(** ** Routing *)

(** [findPath]: a local client, else the session of the peer that announced
    the client; [None] is nil. *)
Definition findPath s (range : gmap Z ConnectedClients → list (Z * ConnectedClients)) (link : Link)
    : go (option P) :=
  match PeerMap_Get (s_clients s) (Destination link) with
  | Some p => Ok (Some p)
  | None =>
      p ← PeerGraph_Who (s_peerGraph s) range (Destination link);
      Ok (PeerMap_Get (s_peers s) p)
  end.

Definition not_found {A} (link : Link) : go A :=
  Err (Wrapf ("peer " +:+ itoa (Destination link) +:+ " not found in peer graph")
         (Sentinel ErrDestinationNotFound)).

Definition Server_Forward s range (open : P → go (Z * writer)) (conn : Z) (link : Link)
    : go (Z * Z * list Z) :=
  p ← findPath s range link;
  match p with
  | None => not_found link
  | Some p => Peer_Bidirectional p (open p) conn link
  end.

Definition Server_Direct s range (open : P → go (Z * writer)) (link : Link) : go (Z * list Z) :=
  p ← findPath s range link;
  match p with
  | None => not_found link
  | Some p => Peer_Direct p (open p) link
  end.

(** ** Negotiation *)
(** [connector] is what the session is built on, [conn] the stream the
    handshake is read from. *)

(** [peerNegotiation] up to the call of [NewPeer]: the arguments of the call. *)
Definition peer_hello s (conn_ : connector) (conn : reader) (acceptable : list Protocol)
    : go (Protocol * Config) :=
  let '(r, err, _) := Read LinkSize conn in
  match err with
  | Some e => Err (Wrapf "reading handshake" e)
  | None =>
      link ← wrap_err "unmarshal link" (Link_UnmarshalBinary zero_Link (fill LinkSize r));
      if negb (link_ALPN link =? alpn_Multiplexer)
      then Err (Errorf "invalid ALPN received from peer" []) else
      if negb (existsb (λ p, p =? link_Protocol link) acceptable)
      then Err (Errorf "unacceptable protocol: %d" [link_Protocol link]) else
      _ ← wrap_err "negotiating protocol with peer" (multiplexer_New reg (link_Protocol link));
      if ((Source link =? 0) || (Destination link =? 0)) ||
         (Source link =? Destination link) ||
         negb (Destination link =? s_id s) ||
         (Source link =? s_id s)
      then Err (Errorf "invalid peer handshake %+v" [Source link; Destination link]) else
      Ok (link_Protocol link, mkConfig true (Some conn_) (Source link) false second)
  end.

(** [peerNegotiation], with a [NewPeer] that nothing interrupts; [closed_first]
    is [NewPeer]'s. *)
Definition peerNegotiation s (conn_ : connector) (conn : reader) (acceptable : list Protocol)
    (closed_first : bool) : go (Server P) :=
  '(proto, conf) ← peer_hello s conn_ conn acceptable;
  m ← wrap_err "setting up peer" (NewPeer reg (s_peers s) proto conf closed_first);
  Ok (with_peers m s).

(** What the client is sent: the link and the JSON of [shared.GeneratedName]. *)
Record client_reply := mkReply { reply_link : list Z; reply_Hostname : string }.

(** [clientNegotiation] up to the call of [NewPeer]: the arguments of the call and
    what was sent.  [name] is the result of [RandomHostname], [w] the writer and
    [json_err] the error of the JSON encoder. *)
Definition client_hello s (conn_ : connector) (conn : reader) (acceptable : list Protocol)
    (name : string) (w : writer) (json_err : option error) : go (Protocol * Config * client_reply) :=
  let '(r, err, _) := Read LinkSize conn in
  match err with
  | Some e => Err (Wrapf "reading handshake" e)
  | None =>
      link ← wrap_err "unmarshal link" (Link_UnmarshalBinary zero_Link (fill LinkSize r));
      if negb (link_ALPN link =? alpn_Multiplexer)
      then Err (Errorf "invalid ALPN received from client" []) else
      if negb (existsb (λ p, p =? link_Protocol link) acceptable)
      then Err (Errorf "unacceptable protocol: %d" [link_Protocol link]) else
      _ ← wrap_err "negotiating protocol with client" (multiplexer_New reg (link_Protocol link));
      if negb (Source link =? 0) || negb (Destination link =? 0)
      then Err (Errorf "invalid client handshake %+v" [Source link; Destination link]) else
      let link := mkLink (PeerHash name) (s_id s) (link_Protocol link) (link_ALPN link) in
      wbuf ← wrap_err "marshal link as binary" (Link_MarshalBinary link);
      let '(length, werr) := w wbuf in
      match werr with
      | Some e => Err (Wrapf "replying handshake" e)
      | None =>
          if negb (length =? LinkSize)
          then Err (Errorf "invalid handshake length sent to client: %d" [length]) else
          match json_err with
          | Some e => Err (Wrapf "writing generated hostname to client" e)
          | None =>
              Ok (link_Protocol link, mkConfig true (Some conn_) (Source link) false second,
                  mkReply wbuf ("https://" +:+ name +:+ "." +:+ s_Domain s))
          end
      end
  end.

(** [clientNegotiation], with a [NewPeer] that nothing interrupts. *)
Definition clientNegotiation s (conn_ : connector) (conn : reader) (acceptable : list Protocol)
    (name : string) (w : writer) (json_err : option error) (closed_first : bool)
    : go (Server P * client_reply) :=
  '(proto, conf, reply) ← client_hello s conn_ conn acceptable name w json_err;
  m ← wrap_err "setting up client" (NewPeer reg (s_clients s) proto conf closed_first);
  Ok (with_clients m s, reply).

(** ** Goroutines

    Where a goroutine of the server is when it works on shared state: inside a
    method of [s.peers] or of [s.clients], at the start of [removePeer], before
    one of the token sends that follow a [Remove], or done. *)
Inductive routine :=
| InPeers (t : thread P)
| InClients (t : thread P)
| RemovePeer (peer : Z)
| SendsMembership
| SendsClientEvt
| Finished.

(** A negotiation that reached [NewPeer], or ended before. *)
Definition negotiates (inside : thread P → routine) (r : go (Protocol * Config)) : routine :=
  match r with
  | Ok (proto, conf) => inside (NPLoad proto conf)
  | Err e => inside (Returned (Err e))
  | Panic e => inside (Returned (Panic e))
  end.

(** The listeners' handlers, each a goroutine. *)
Definition peerTLSHandshake s (conn : Z) (rd : reader) : routine :=
  negotiates InPeers (peer_hello s (NetConn conn) rd TLSProtos).

Definition peerQUICHandshake s (sess : Z) (stream : reader + error) : routine :=
  match stream with
  | inr e => InPeers (Returned (Err e))
  | inl conn => negotiates InPeers (peer_hello s (QuicSession sess) conn QUICProtos)
  end.

Definition clientTLSHandshake s (conn : Z) (rd : reader) name w json_err : routine :=
  negotiates InClients (r ← client_hello s (NetConn conn) rd TLSProtos name w json_err; Ok r.1).

Definition clientQUICHandshake s (sess : Z) (stream : reader + error) name w json_err : routine :=
  match stream with
  | inr e => InClients (Returned (Err e))
  | inl conn =>
      negotiates InClients (r ← client_hello s (QuicSession sess) conn QUICProtos name w json_err; Ok r.1)
  end.

(** How a handshake ended: with an error the connection (or the QUIC session)
    is closed. *)
Definition handshake_closes (r : routine) : bool :=
  match r with InPeers (Returned (Err _)) | InClients (Returned (Err _)) => true | _ => false end.

(** The result of [Remove] is ignored; a panic is not. *)
Definition is_remove (t : thread P) : bool :=
  match t with RMLoad _ | RMCount _ | RMBye _ => true | _ => false end.
Definition after_call (inside : thread P → routine) (next : routine) (t t' : thread P) : routine :=
  if is_remove t then
    match t' with
    | Returned (Ok _) | Returned (Err _) => next
    | _ => inside t'
    end
  else inside t'.

(** One statement of a goroutine; [closed_first] is [NewPeer]'s. *)
Definition routine_step (closed_first : bool) s (r : routine) : Server P * routine :=
  match r with
  | InPeers t =>
      let '(m, t') := call_step reg closed_first (s_peers s) t in
      (with_peers m s, after_call InPeers SendsMembership t t')
  | InClients t =>
      let '(m, t') := call_step reg closed_first (s_clients s) t in
      (with_clients m s, after_call InClients SendsClientEvt t t')
  | RemovePeer peer => (with_graph (PeerGraph_Remove (s_peerGraph s) peer) s, InPeers (RMLoad peer))
  | SendsMembership => (send_membership s, Finished)
  | SendsClientEvt => (send_clientEvt s, Finished)
  | Finished => (s, Finished)
  end.

Definition routine_done (r : routine) : bool :=
  match r with InPeers (Returned _) | InClients (Returned _) | Finished => true | _ => false end.

(** History and account of the two maps. *)
Definition replaces_peer s (r : routine) : list P :=
  match r with InPeers t => replaces (s_peers s) t | _ => [] end.
Definition replaces_client s (r : routine) : list P :=
  match r with InClients t => replaces (s_clients s) t | _ => [] end.
Definition owed_peers (r : routine) : Z := match r with InPeers t => owed t | _ => 0 end.
Definition owed_clients (r : routine) : Z := match r with InClients t => owed t | _ => 0 end.

(** A goroutine that has executed nothing owes nothing. *)
Definition fresh_routine (r : routine) : Prop := owed_peers r = 0 ∧ owed_clients r = 0.

(** ** Session events *)

(** [removePeer], uninterrupted; as a goroutine it is [RemovePeer]. *)
Definition removePeer s (peer : Z) : go (Server P) :=
  let s := with_graph (PeerGraph_Remove (s_peerGraph s) peer) s in
  r ← PeerMap_Remove (s_peers s) peer;
  Ok (send_membership (with_peers r.1 s)).

(** What a registered peer's goroutines do, by the body of [handlePeerEvents]:
    whether this side opens the messaging stream, and the notification of the
    leader election. *)
Definition opens_messaging (p : P) : bool := negb (Peer_Initiator p).

Definition handlePeerEvent s (p : P) : Server P * bool := (send_membership s, opens_messaging p).

(** An incoming stream of a peer. *)
Inductive stream_action :=
| OpenMessaging (conn peer : Z)
| Piped (near far : Z) (wire : list Z)
| CloseStream (conn : Z) (e : error).

Definition handlePeerStream s range (open : P → go (Z * writer)) (p : P) (c : LinkConnection)
    : go stream_action :=
  if bool_decide (lc_Link c = MessagingLink) then Ok (OpenMessaging (lc_Conn c) (Peer_Peer p)) else
  match Server_Forward s range open (lc_Conn c) (lc_Link c) with
  | Ok (far, near, wire) => Ok (Piped near far wire)
  | Err e => Ok (CloseStream (lc_Conn c) e)
  | Panic e => Panic e
  end.

(** The goroutines that wait for the end of a session: they remove whatever
    session is filed under the identifier. *)
Definition peer_closed (p : P) : routine := RemovePeer (Peer_Peer p).

(** [handleClientEvents]: a client is announced on arrival, and removed and
    announced again when its session ends. *)
Definition client_arrived s (p : P) : Server P := send_clientEvt s.
Definition client_closed (p : P) : routine := InClients (RMLoad (Peer_Peer p)).

(** [generateConnectedClients], given what [Snapshot] returned: an error of the
    encoder is logged, and the nil buffer stored. *)
Definition generateConnectedClients s (peers : list Z) : go (Server P) :=
  match NewConnectedClients (s_id s) peers with
  | Err _ => Ok s
  | Panic p => Panic p
  | Ok c =>
      match ConnectedClients_MarshalBinary c with
      | Ok b => Ok (with_cached (Some b) s)
      | Err _ => Ok (with_cached (Some []) s)
      | Panic p => Panic p
      end
  end.

(** [backgroundDispatcher] receives an event. *)
Definition take_clientEvt s : option (Server P) :=
  match s_clientEvtCh s with
  | S n => Some (with_events n (s_membershipCh s) s)
  | O => None
  end.

(** ** Lemmas on negotiation *)

(** The decoded link of a handshake, when the read succeeds. *)
Definition handshake_link (conn : reader) (link : Link) : Prop :=
  ∃ got r, Read LinkSize conn = (got, None, r) ∧
           Link_UnmarshalBinary zero_Link (fill LinkSize got) = Ok link.

Lemma handshake_link_wire l wire r :
  wf_Link l → Link_MarshalBinary l = Ok wire → handshake_link ((wire, None) :: r) l.
Proof.
  intros Hl Hw. pose proof (Link_wire_length _ _ Hw) as Hlen.
  pose proof (Link_unmarshal_marshal zero_Link l Hl) as Hrt. rewrite Hw in Hrt.
  exists wire, r. rewrite <-Hlen at 1. rewrite Read_all. split; [done|].
  by rewrite fill_exact.
Qed.

(** The guards of the two negotiations, on the decoded link. *)
Definition protocol_ok (acceptable : list Protocol) (link : Link) : Prop :=
  link_ALPN link = alpn_Multiplexer ∧ link_Protocol link ∈ acceptable ∧
  is_Some (reg !! link_Protocol link) ∧ link_Protocol link ≠ protocol_Unknown.

Lemma existsb_elem (p : Z) l : existsb (λ q, q =? p) l = true ↔ p ∈ l.
Proof.
  rewrite existsb_exists. setoid_rewrite Z.eqb_eq. setoid_rewrite <-list_elem_of_In. naive_solver.
Qed.

Definition peer_link_ok s (link : Link) : Prop :=
  Source link ≠ 0 ∧ Destination link = s_id s ∧ Source link ≠ s_id s ∧ s_id s ≠ 0.

(** [peer_hello] passes exactly the handshakes that pass all guards, *)
Lemma peer_hello_Ok s c conn acceptable proto conf :
  peer_hello s c conn acceptable = Ok (proto, conf) ↔
  ∃ link, handshake_link conn link ∧ protocol_ok acceptable link ∧ peer_link_ok s link ∧
    proto = link_Protocol link ∧ conf = mkConfig true (Some c) (Source link) false second.
Proof.
  unfold peer_hello, handshake_link, protocol_ok, peer_link_ok. split.
  - destruct (Read LinkSize conn) as [[got [e|]] r] eqn:Hread; [done|].
    destruct (Link_UnmarshalBinary zero_Link (fill LinkSize got)) as [link| |] eqn:Hl; cbn; [|done..].
    destruct (Z.eqb_spec (link_ALPN link) alpn_Multiplexer) as [Ha|]; cbn; [|done].
    pose proof (existsb_elem (link_Protocol link) acceptable) as He.
    destruct (existsb _ acceptable); cbn; [|done].
    destruct (multiplexer_New reg (link_Protocol link)) as [k| |] eqn:Hk; cbn; [|done..].
    apply multiplexer_New_Ok in Hk as [Hk Hne].
    destruct (_ || _ || _) eqn:Hg; cbn; [done|].
    intros [= <- <-]. exists link. split; [by exists got, r|]. split.
    { split_and!; [done|by apply He|by eexists|done]. }
    split; [lia|done].
  - intros (link & (got & r & Hread & Hl) & (Ha & Hin & Hreg & Hun) & (Hs & Hd & Hself & Hid) & -> & ->).
    rewrite Hread, Hl. cbn [wrap_err mbind go_bind].
    rewrite Ha, Z.eqb_refl. cbn [negb]. rewrite (proj2 (existsb_elem _ _) Hin). cbn [negb].
    destruct Hreg as [k Hk]. rewrite (proj2 (multiplexer_New_Ok reg _ k) (conj Hk Hun)).
    cbn [wrap_err mbind go_bind]. by replace (_ || _ || _) with false by lia.
Qed.

(** and [peerNegotiation] accepts those for which the session can be set up. *)
Lemma peerNegotiation_Ok s c conn acceptable cf s' :
  peerNegotiation s c conn acceptable cf = Ok s' →
  ∃ link m, handshake_link conn link ∧ protocol_ok acceptable link ∧ peer_link_ok s link ∧
    NewPeer reg (s_peers s) (link_Protocol link)
      (mkConfig true (Some c) (Source link) false second) cf = Ok m ∧
    s' = with_peers m s.
Proof.
  unfold peerNegotiation.
  intros ([proto conf] & (link & H1 & H2 & H3 & -> & ->)%peer_hello_Ok & (m & Hm%wrap_err_Ok & [= <-])%go_bind_Ok)
    %go_bind_Ok.
  by exists link, m.
Qed.

Lemma peerNegotiation_accepts s c conn acceptable cf link m :
  handshake_link conn link → protocol_ok acceptable link → peer_link_ok s link →
  NewPeer reg (s_peers s) (link_Protocol link)
    (mkConfig true (Some c) (Source link) false second) cf = Ok m →
  peerNegotiation s c conn acceptable cf = Ok (with_peers m s).
Proof.
  intros Hh Hp Hl Hm. unfold peerNegotiation.
  rewrite (proj2 (peer_hello_Ok s c conn acceptable (link_Protocol link)
    (mkConfig true (Some c) (Source link) false second))) by by exists link.
  cbn [mbind go_bind]. by rewrite Hm.
Qed.

Lemma client_hello_Ok s c conn acceptable name w je proto conf reply :
  client_hello s c conn acceptable name w je = Ok (proto, conf, reply) →
  ∃ link, handshake_link conn link ∧ protocol_ok acceptable link ∧
    Source link = 0 ∧ Destination link = 0 ∧
    proto = link_Protocol link ∧ conf = mkConfig true (Some c) (PeerHash name) false second ∧
    Link_MarshalBinary (mkLink (PeerHash name) (s_id s) (link_Protocol link) alpn_Multiplexer) =
      Ok (reply_link reply) ∧
    reply_Hostname reply = "https://" +:+ name +:+ "." +:+ s_Domain s.
Proof.
  unfold client_hello, handshake_link, protocol_ok.
  destruct (Read LinkSize conn) as [[got [e|]] r] eqn:Hread; [done|].
  destruct (Link_UnmarshalBinary zero_Link (fill LinkSize got)) as [link| |] eqn:Hl; cbn; [|done..].
  destruct (Z.eqb_spec (link_ALPN link) alpn_Multiplexer) as [Ha|]; cbn; [|done].
  pose proof (existsb_elem (link_Protocol link) acceptable) as He.
  destruct (existsb _ acceptable); cbn; [|done].
  destruct (multiplexer_New reg (link_Protocol link)) as [k| |] eqn:Hk; cbn; [|done..].
  apply multiplexer_New_Ok in Hk as [Hk Hne].
  destruct (Z.eqb_spec (Source link) 0); cbn; [|done].
  destruct (Z.eqb_spec (Destination link) 0); cbn; [|done].
  destruct (Link_MarshalBinary _) as [wb| |] eqn:Hm; cbn; [|done..].
  destruct (w wb) as [len [we|]]; [done|]. destruct (negb (len =? LinkSize)); [done|].
  destruct je; [done|].
  intros [= <- <- <-]. exists link. rewrite Ha in Hm. split; [by exists got, r|].
  split_and!; try done; by apply He.
Qed.

Lemma clientNegotiation_Ok s c conn acceptable name w je cf s' reply :
  clientNegotiation s c conn acceptable name w je cf = Ok (s', reply) →
  ∃ link m, handshake_link conn link ∧ protocol_ok acceptable link ∧
    Source link = 0 ∧ Destination link = 0 ∧
    NewPeer reg (s_clients s) (link_Protocol link)
      (mkConfig true (Some c) (PeerHash name) false second) cf = Ok m ∧
    s' = with_clients m s ∧
    Link_MarshalBinary (mkLink (PeerHash name) (s_id s) (link_Protocol link) alpn_Multiplexer) =
      Ok (reply_link reply) ∧
    reply_Hostname reply = "https://" +:+ name +:+ "." +:+ s_Domain s.
Proof.
  unfold clientNegotiation.
  intros ([[proto conf] rep] & (link & H1 & H2 & H3 & H4 & -> & -> & H5 & H6)%client_hello_Ok
    & (m & Hm%wrap_err_Ok & [= <- <-])%go_bind_Ok)%go_bind_Ok.
  by exists link, m.
Qed.

(** ** The invariant of a server *)
Record server_inv s : Prop := {
  si_peers : filed (λ id, id ≠ s_id s) (s_peers s);
  si_clients : filed (λ _, True) (s_clients s);
  si_graph : wf_PeerGraph (s_peerGraph s);
  si_self_graph : peerFilter (s_peerGraph s) !! s_id s = None;
  si_updates : Forall (λ c, is_Some (cc_f c)) (ch_buf (s_updatesCh s));
}.

Lemma server_New_Ok conf self dec ring s :
  server_New conf self dec ring = Ok s →
  ∃ cm b, Config_validate conf = Ok cm ∧
    let meta := mkMeta (sc_AdvertiseAddr conf) (uint64_of_int (sc_PeerPort conf)) self
                  (sc_Protocol conf) (sc_RespondOnly conf) in
    Meta_MarshalBinary meta = Ok b ∧
    s = mkServer self meta b
          (sc_AdvertiseAddr conf +:+ ":" +:+ itoa (sc_PeerPort conf) +:+ "/" +:+ itoa self)
          (sc_Debug conf) (sc_Domain conf) (NewPeerMap self) (NewPeerMap self) (NewPeerGraph self)
          (make_chan 16) None 0 0 cm.
Proof.
  unfold server_New. intros (cm & Hv & (keys & _ & Hs)%go_bind_Ok)%go_bind_Ok.
  case_bool_decide; [done|]. destruct (ring keys); [done|].
  apply go_bind_Ok in Hs as (b & Hb%wrap_err_Ok & [= <-]). by exists cm, b.
Qed.

Lemma server_New_inv conf self dec ring s :
  server_New conf self dec ring = Ok s → server_inv s ∧ s_id s = self.
Proof.
  intros (cm & b & _ & _ & ->)%server_New_Ok. split; [|done].
  split; try apply map_Forall_empty; done.
Qed.

Lemma si_self_peer s : server_inv s → PeerMap_Get (s_peers s) (s_id s) = None.
Proof.
  intros Hs. destruct (PeerMap_Get (s_peers s) (s_id s)) as [p|] eqn:E; [|done].
  by destruct (si_peers s Hs _ _ E) as (_ & ? & _).
Qed.

Lemma send_membership_inv s : server_inv s → server_inv (send_membership s).
Proof. intros []. by split. Qed.

Lemma send_clientEvt_inv s : server_inv s → server_inv (send_clientEvt s).
Proof. intros []. by split. Qed.

(** *** Statements keep it *)

(** A goroutine carries sessions that may be stored where it will store them. *)
Definition routine_ok (self : Z) (r : routine) : Prop :=
  match r with
  | InPeers t => thread_ok (λ id, id ≠ self) t
  | InClients t => thread_ok (λ _, True) t
  | _ => True
  end.

Lemma peer_hello_ok s c conn acceptable :
  routine_ok (s_id s) (negotiates InPeers (peer_hello s c conn acceptable)).
Proof.
  destruct (peer_hello s c conn acceptable) as [[proto conf]| |] eqn:E; [|done..].
  apply peer_hello_Ok in E as (link & _ & _ & (_ & _ & Hne & _) & -> & ->). by cbn.
Qed.

Lemma client_hello_ok self (r : go (Protocol * Config)) : routine_ok self (negotiates InClients r).
Proof. by destruct r as [[proto conf]| |]. Qed.

Lemma negotiates_fresh inside r :
  (inside = InPeers ∨ inside = InClients) → fresh_routine (negotiates inside r).
Proof. by intros [-> | ->]; destruct r as [[? ?]| |]. Qed.

Lemma peerTLSHandshake_fresh s conn rd : fresh_routine (peerTLSHandshake s conn rd).
Proof. apply negotiates_fresh. by left. Qed.
Lemma peerTLSHandshake_ok s conn rd : routine_ok (s_id s) (peerTLSHandshake s conn rd).
Proof. apply peer_hello_ok. Qed.
Lemma peerQUICHandshake_fresh s sess st : fresh_routine (peerQUICHandshake s sess st).
Proof. destruct st; [apply negotiates_fresh; by left|done]. Qed.
Lemma peerQUICHandshake_ok s sess st : routine_ok (s_id s) (peerQUICHandshake s sess st).
Proof. destruct st; [apply peer_hello_ok|done]. Qed.
Lemma clientTLSHandshake_fresh s conn rd n w je : fresh_routine (clientTLSHandshake s conn rd n w je).
Proof. apply negotiates_fresh. by right. Qed.
Lemma clientTLSHandshake_ok s conn rd n w je : routine_ok (s_id s) (clientTLSHandshake s conn rd n w je).
Proof. apply client_hello_ok. Qed.
Lemma clientQUICHandshake_fresh s sess st n w je : fresh_routine (clientQUICHandshake s sess st n w je).
Proof. destruct st; [apply negotiates_fresh; by right|done]. Qed.
Lemma clientQUICHandshake_ok s sess st n w je : routine_ok (s_id s) (clientQUICHandshake s sess st n w je).
Proof. destruct st; [apply client_hello_ok|done]. Qed.

Lemma with_peers_inv m s : server_inv s → filed (λ id, id ≠ s_id s) m → server_inv (with_peers m s).
Proof. intros []. by split. Qed.
Lemma with_clients_inv m s : server_inv s → filed (λ _, True) m → server_inv (with_clients m s).
Proof. intros []. by split. Qed.

Lemma routine_step_inv `{!ConstructorsOk reg} cf s r s' r' :
  server_inv s → routine_ok (s_id s) r → routine_step cf s r = (s', r') →
  server_inv s' ∧ s_id s' = s_id s ∧ routine_ok (s_id s) r'.
Proof.
  intros Hs Hr Hst. destruct r as [t|t|peer| | |]; cbn in Hst.
  - destruct (call_step reg cf (s_peers s) t) as [m t'] eqn:E. simplify_eq.
    destruct (call_step_filed reg _ cf _ _ _ _ (si_peers s Hs) Hr E) as [Hm Ht].
    split_and!; [by apply with_peers_inv|done|]. unfold after_call. by repeat case_match.
  - destruct (call_step reg cf (s_clients s) t) as [m t'] eqn:E. simplify_eq.
    destruct (call_step_filed reg _ cf _ _ _ _ (si_clients s Hs) Hr E) as [Hm Ht].
    split_and!; [by apply with_clients_inv|done|]. unfold after_call. by repeat case_match.
  - simplify_eq. split_and!; [|done|done]. destruct Hs as [Hp Hc Hg Hsg Hu]. split; cbn; try done.
    + by apply map_Forall_delete.
    + apply lookup_delete_None. by right.
  - simplify_eq. split_and!; [by apply send_membership_inv|done|done].
  - simplify_eq. split_and!; [by apply send_clientEvt_inv|done|done].
  - by simplify_eq.
Qed.

(** What a statement leaves alone. *)
Lemma routine_step_frame cf s r s' r' :
  routine_step cf s r = (s', r') →
  s_updatesCh s' = s_updatesCh s ∧ s_cached s' = s_cached s ∧ s_certManager s' = s_certManager s ∧
  (s_peerGraph s' = s_peerGraph s ∨
   ∃ peer, r = RemovePeer peer ∧ s_peerGraph s' = PeerGraph_Remove (s_peerGraph s) peer).
Proof.
  intros Hst. destruct r as [t|t|peer| | |]; cbn in Hst;
    [destruct (call_step reg cf (s_peers s) t)|destruct (call_step reg cf (s_clients s) t)|..];
    simplify_eq; split_and!; try done; try (by left); by right; exists peer.
Qed.

(** The account of a map through one statement of a goroutine. *)
Lemma routine_step_peer_count cf s r s' r' lost rest :
  pm_num (s_peers s) = wrap64 (Z.of_nat (size (pm_peers (s_peers s))) + lost - (owed_peers r + rest)) →
  routine_step cf s r = (s', r') →
  pm_num (s_peers s') = wrap64 (Z.of_nat (size (pm_peers (s_peers s'))) +
    (lost + zlen (replaces_peer s r)) - (owed_peers r' + rest)).
Proof.
  intros Hc Hst. destruct r as [t|t|peer| | |]; cbn in Hst;
    [| |simplify_eq; cbn in *; change (zlen []) with 0; rewrite Hc; f_equal; lia..].
  - destruct (call_step reg cf (s_peers s) t) as [m t'] eqn:E. simplify_eq. cbn in *.
    rewrite (call_step_count reg cf _ _ _ _ lost rest Hc E). f_equal.
    unfold after_call. destruct (is_remove t); [|done]. by destruct t' as [| | | | | | | | |[]].
  - destruct (call_step reg cf (s_clients s) t) as [m t'] eqn:E. simplify_eq. cbn in *.
    change (zlen []) with 0. rewrite Hc. f_equal. unfold after_call.
    destruct (is_remove t), t' as [| | | | | | | | |[]]; cbn; lia.
Qed.

Lemma routine_step_client_count cf s r s' r' lost rest :
  pm_num (s_clients s) = wrap64 (Z.of_nat (size (pm_peers (s_clients s))) + lost - (owed_clients r + rest)) →
  routine_step cf s r = (s', r') →
  pm_num (s_clients s') = wrap64 (Z.of_nat (size (pm_peers (s_clients s'))) +
    (lost + zlen (replaces_client s r)) - (owed_clients r' + rest)).
Proof.
  intros Hc Hst. destruct r as [t|t|peer| | |]; cbn in Hst;
    [| |simplify_eq; cbn in *; change (zlen []) with 0; rewrite Hc; f_equal; lia..].
  - destruct (call_step reg cf (s_peers s) t) as [m t'] eqn:E. simplify_eq. cbn in *.
    change (zlen []) with 0. rewrite Hc. f_equal. unfold after_call.
    destruct (is_remove t), t' as [| | | | | | | | |[]]; cbn; lia.
  - destruct (call_step reg cf (s_clients s) t) as [m t'] eqn:E. simplify_eq. cbn in *.
    rewrite (call_step_count reg cf _ _ _ _ lost rest Hc E). f_equal.
    unfold after_call. destruct (is_remove t); [|done]. by destruct t' as [| | | | | | | | |[]].
Qed.

Lemma removePeer_Ok s peer s' :
  removePeer s peer = Ok s' →
  ∃ m o, PeerMap_Remove (s_peers s) peer = Ok (m, o) ∧
    s' = send_membership (with_peers m (with_graph (PeerGraph_Remove (s_peerGraph s) peer) s)).
Proof.
  unfold removePeer. intros ([m o] & Hr & [= <-])%go_bind_Ok. by exists m, o.
Qed.

(** [removePeer] is the goroutine run to its end without interruption. *)
Lemma removePeer_steps cf s peer s' :
  removePeer s peer = Ok s' → Nat.iter 5 (λ sr, routine_step cf sr.1 sr.2) (s, RemovePeer peer) = (s', Finished).
Proof.
  intros (m & o & Hr & ->)%removePeer_Ok. unfold PeerMap_Remove in Hr. rewrite !Nat.iter_succ_r. cbn.
  destruct (pm_peers (s_peers s) !! peer) as [p|] eqn:E; cbn in *; simplify_eq.
  - destruct (Peer_Bye p); [|done..]. cbn in Hr. by simplify_eq.
  - done.
Qed.

Lemma generateConnectedClients_inv s peers s' :
  server_inv s → generateConnectedClients s peers = Ok s' → server_inv s'.
Proof.
  intros []. unfold generateConnectedClients. repeat case_match; intros; simplify_eq; by split.
Qed.

Lemma take_clientEvt_inv s s' : server_inv s → take_clientEvt s = Some s' → server_inv s'.
Proof. intros []. unfold take_clientEvt. case_match; [done|]. intros [= <-]. by split. Qed.

(** ** Lemmas on routing *)

(** Local clients come first. *)
Lemma findPath_local s range link p :
  PeerMap_Get (s_clients s) (Destination link) = Some p → findPath s range link = Ok (Some p).
Proof. intros Hp. unfold findPath. by rewrite Hp. Qed.

Lemma findPath_remote s range link peer :
  PeerMap_Get (s_clients s) (Destination link) = None →
  PeerGraph_Who (s_peerGraph s) range (Destination link) = Ok peer →
  findPath s range link = Ok (PeerMap_Get (s_peers s) peer).
Proof. intros Hc Hw. unfold findPath. by rewrite Hc, Hw. Qed.

(** Routing never panics and never sends a stream back to the server itself. *)
Lemma findPath_total s range link :
  server_inv s → range_ok range →
  ∃ o, findPath s range link = Ok o ∧
    (∀ p, o = Some p →
       (PeerMap_Get (s_clients s) (Destination link) = Some p ∧ Peer_Peer p = Destination link) ∨
       (PeerMap_Get (s_clients s) (Destination link) = None ∧
        Peer_Peer p ≠ s_id s ∧ PeerMap_Get (s_peers s) (Peer_Peer p) = Some p ∧
        ∃ c, peerFilter (s_peerGraph s) !! Peer_Peer p = Some c ∧
             ConnectedClients_Has c (Destination link) = Ok true)).
Proof.
  intros [Hp Hc Hg _ _] Hr. unfold findPath.
  destruct (PeerMap_Get (s_clients s) (Destination link)) as [p|] eqn:E.
  { eexists. split; [done|]. intros p' [= <-]. left. split; [done|].
    by apply (Hc _ _ E). }
  destruct (Who_spec _ range (Destination link) Hg Hr) as (q & -> & Hq). cbn.
  eexists. split; [done|]. intros p Hget. right.
  pose proof (Hp _ _ Hget) as (Hz & Hne & Hid). rewrite Hid.
  destruct Hq as [(c & Hc' & Hh)|[-> _]]; [|done]. eauto 10.
Qed.
End Server.
Arguments routine : clear implicits.

(** ** Properties *)

(** C11: what a successful client negotiation establishes.  The client is filed
    under the hash of the name generated for it, which no client used before;
    every other session, and the rest of the server, is untouched; the session
    is the responder's and runs a protocol acceptable on that listener; the link
    sent back decodes to that hash and the server's identifier; and the
    host name sent is [https://name.domain]. *)
Theorem client_registered {P} `{MuxPeer P} (reg : gmap Z (Constructor P))
    (s : Server P) c conn acceptable name w je cf s' reply :
  ConstructorsOk reg → u64 (s_id s) → Forall u8 acceptable →
  clientNegotiation reg s c conn acceptable name w je cf = Ok (s', reply) →
  ∃ p, PeerMap_Get (s_clients s) (PeerHash name) = None ∧
    pm_peers (s_clients s') = <[PeerHash name := p]> (pm_peers (s_clients s)) ∧
    s' = with_clients (s_clients s') s ∧
    Peer_Peer p = PeerHash name ∧ Peer_Initiator p = false ∧ Peer_Protocol p ∈ acceptable ∧
    Link_UnmarshalBinary zero_Link (reply_link reply) =
      Ok (mkLink (PeerHash name) (s_id s) (Peer_Protocol p) alpn_Multiplexer) ∧
    reply_Hostname reply = "https://" +:+ name +:+ "." +:+ s_Domain s.
Proof.
  intros Hok Hid Hacc (link & m & _ & (_ & Hin & _ & _) & _ & _ & Hn & -> & Hm & Hh)
    %clientNegotiation_Ok.
  apply (NewPeer_Ok reg) in Hn as (p & Hnone & _ & Hp & Hi & Hproto & ->). cbn in *.
  exists p. rewrite Hproto. split_and!; try done.
  assert (wf_Link (mkLink (PeerHash name) (s_id s) (link_Protocol link) alpn_Multiplexer)) as Hwf.
  { split_and!; cbn; [apply fnv64a_u64|done|by eapply Forall_forall|done]. }
  pose proof (Link_unmarshal_marshal zero_Link _ Hwf) as Hrt. by rewrite Hm in Hrt.
Qed.

(** A server listening on 10.0.200.7 with identifier 42. *)
Definition sample_server_conf : ServerConfig :=
  mkServerConfig true true true true true true true (Some sample_leader) "tunnel.example.com"
    "10.0.200.7" 1111 QUIC false ["a2V5"] false.
Definition sample_server (self : Z) : Server muxPeer :=
  mkServer self (mkMeta "10.0.200.7" 1111 self QUIC false) [] "a" false "tunnel.example.com"
    (NewPeerMap self) (NewPeerMap self) (NewPeerGraph self) (make_chan 16) None 0 0 sample_cm.

(** A client's opening handshake over TLS. *)
Definition sample_hello : reader := [(replicate 16 0 ++ [Mplex; alpn_Multiplexer], None)].
Definition sample_negotiation : go (Server muxPeer * client_reply) :=
  clientNegotiation (@protocolRegistry sample_sessions) (sample_server 42) (NetConn 5)
    sample_hello TLSProtos "correct-horse" (λ b, (zlen b, None)) None false.

Lemma client_registered_witness :
  ∃ s' reply, sample_negotiation = Ok (s', reply) ∧
    reply_Hostname reply = "https://correct-horse.tunnel.example.com".
Proof.
  assert (is_ok sample_negotiation = true) as Hok by (vm_compute; reflexivity).
  destruct sample_negotiation as [[s' reply]| |] eqn:E; [|discriminate Hok..].
  exists s', reply. split; [reflexivity|].
  assert (u64 (s_id (sample_server 42))) as H1 by (clear; done).
  assert (Forall u8 TLSProtos) as H2 by (clear; by repeat constructor).
  unfold sample_negotiation in E.
  pose proof (client_registered _ _ _ _ _ _ _ _ _ _ _ (@protocolRegistry_ok sample_sessions)
    H1 H2 E) as Hreg.
  destruct Hreg as (p & _ & _ & _ & _ & _ & _ & _ & Hh).
  exact Hh.
Defined.

(** Routing is safe on every server whose invariant holds, whatever order
    the graph is visited in: it does not panic; the session chosen is either
    the local client with the requested identifier or, when there is none, the
    session of another server that announced the client, never of the server
    itself; and when there is no such session [Forward] and [Direct] report
    [ErrDestinationNotFound]. *)
Theorem routing_safe {P} `{MuxPeer P} `{XorFilter} (s : Server P) range link :
  server_inv s → range_ok range →
  ∃ o, findPath s range link = Ok o ∧
    match o with
    | Some p =>
        (PeerMap_Get (s_clients s) (Destination link) = Some p ∧ Peer_Peer p = Destination link) ∨
        (PeerMap_Get (s_clients s) (Destination link) = None ∧
         Peer_Peer p ≠ s_id s ∧ PeerMap_Get (s_peers s) (Peer_Peer p) = Some p ∧
         ∃ c, peerFilter (s_peerGraph s) !! Peer_Peer p = Some c ∧
              ConnectedClients_Has c (Destination link) = Ok true)
    | None =>
        ∀ open conn, ∃ e, Server_Forward s range open conn link = Err e ∧
          Server_Direct s range open link = Err e ∧ errors_Is e ErrDestinationNotFound = true
    end.
Proof.
  intros Hs Hr. destruct (findPath_total s range link Hs Hr) as (o & Ho & Hcases).
  exists o. split; [done|]. destruct o as [p|]; [by apply Hcases|].
  intros open conn. eexists. unfold Server_Forward, Server_Direct. rewrite Ho. by split_and!.
Qed.

Lemma sample_server_inv self : server_inv (sample_server self).
Proof. split; try apply map_Forall_empty; done. Qed.

Lemma routing_safe_witness :
  ∃ e, Server_Forward (sample_server 42) map_to_list (λ _, Err (Foreign 0)) 5
         (mkLink 42 77 Mplex alpn_HTTP) = Err e ∧ errors_Is e ErrDestinationNotFound = true.
Proof.
  destruct (routing_safe (sample_server 42) map_to_list (mkLink 42 77 Mplex alpn_HTTP)
    (sample_server_inv 42)) as (o & Ho & Hc); [intros m; apply enumerates_self|].
  vm_compute in Ho. simplify_eq. destruct (Hc (λ _, Err (Foreign 0)) 5) as (e & He & _ & Hi).
  by exists e.
Defined.

(** The end of a session removes whatever session the peer has at that
    moment.  If a session ended by gossip ([NotifyLeave] calls [removePeer])
    is followed by a new session of the same peer before the goroutine of the
    old session runs, that goroutine ends the new session: the peer is no
    longer in the map and the new session has been said goodbye to. *)
Theorem stale_close_ends_new_session {P} `{MuxPeer P} (reg : gmap Z (Constructor P))
    (s s1 s2 : Server P) old proto conf m :
  ConstructorsOk reg → cfg_Peer conf = Peer_Peer old →
  removePeer s (Peer_Peer old) = Ok s1 →
  NewPeer reg (s_peers s1) proto conf false = Ok m → s2 = with_peers m s1 →
  (∀ p, is_ok (Peer_Bye p) = true) →
  ∃ new gone s3, PeerMap_Get (s_peers s2) (Peer_Peer old) = Some new ∧
    Nat.iter 5 (λ sr, routine_step reg false sr.1 sr.2) (s2, peer_closed old) = (s3, Finished) ∧
    PeerMap_Get (s_peers s3) (Peer_Peer old) = None ∧
    PeerMap_Remove (s_peers s2) (Peer_Peer old) = Ok (s_peers s3, Some gone) ∧
    Peer_Bye new = Ok gone.
Proof.
  intros Hok Hc Hr Hn -> Hbye.
  apply (NewPeer_Ok reg) in Hn as (p & _ & _ & _ & _ & _ & ->).
  destruct (Peer_Bye p) as [gone| |] eqn:Eb;
    [|by pose proof (Hbye p) as Hx; rewrite Eb in Hx..].
  set (s2 := with_peers _ s1).
  assert (pm_peers (s_peers s2) !! Peer_Peer old = Some p) as Hnew by (cbn; rewrite Hc; apply lookup_insert_eq).
  assert (removePeer s2 (Peer_Peer old) = Ok (send_membership (with_peers (mkPM (pm_self (s_peers s2))
    (delete (Peer_Peer old) (pm_peers (s_peers s2))) (wrap64 (pm_num (s_peers s2) + (2 ^ 64 - 1))) (pm_notify (s_peers s2)))
    (with_graph (PeerGraph_Remove (s_peerGraph s2) (Peer_Peer old)) s2)))) as Hrm.
  { unfold removePeer, PeerMap_Remove. cbn [s_peers with_graph]. rewrite Hnew, Eb. done. }
  eexists p, gone, _. split_and!; [exact Hnew|by apply (removePeer_steps reg)| | |done].
  - apply lookup_delete_eq.
  - unfold PeerMap_Remove. by rewrite Hnew, Eb.
Qed.

(** A peer object whose methods always succeed. *)
Definition stub_peer : MuxPeer (Z * bool * Protocol) :=
  {| Peer_Peer p := p.1.1; Peer_Initiator p := p.1.2; Peer_Protocol p := p.2;
     Peer_Bye := Ok; Peer_Direct _ _ _ := Ok (0, []); Peer_Bidirectional _ _ _ _ := Ok (0, 0, []) |}.
Definition stub_reg : gmap Z (Config → go (Z * bool * Protocol)) :=
  {[ Mplex := λ c, _ ← Config_Validate c; Ok (cfg_Peer c, cfg_Initiator c, Mplex) ]}.

Lemma stub_reg_ok : @ConstructorsOk _ stub_peer stub_reg.
Proof.
  split. intros p c conf q Hp. unfold stub_reg in Hp.
  apply lookup_singleton_Some in Hp as [<- <-]. intros ([] & Hv & [= <-])%go_bind_Ok. done.
Qed.

Lemma stale_close_ends_new_session_witness :
  ∃ s1 m s3, let _ := stub_peer in
    let s0 := mkServer 42 zero_Meta [] "" false "" (mkPM 42 {[8 := (8, true, Mplex)]} 1 [])
                (NewPeerMap 42) (NewPeerGraph 42) (make_chan 16) None 0 0 sample_cm in
    removePeer s0 8 = Ok s1 ∧ NewPeer stub_reg (s_peers s1) Mplex (tls_conf 5 8) false = Ok m ∧
    Nat.iter 5 (λ sr, routine_step stub_reg false sr.1 sr.2) (with_peers m s1, peer_closed (8, true, Mplex)) =
      (s3, Finished) ∧ PeerMap_Get (s_peers s3) 8 = None.
Proof.
  pose (HP := stub_peer).
  set (s0 := mkServer 42 zero_Meta [] "" false "" (mkPM 42 {[8 := (8, true, Mplex)]} 1 [])
                (NewPeerMap 42) (NewPeerGraph 42) (make_chan 16) None 0 0 sample_cm).
  destruct (@removePeer _ HP s0 8) as [s1| |] eqn:E1; [|by vm_compute in E1..].
  destruct (NewPeer stub_reg (s_peers s1) Mplex (tls_conf 5 8) false) as [m| |] eqn:E2;
    [|vm_compute in E1; injection E1 as <-; by vm_compute in E2..].
  destruct (@stale_close_ends_new_session _ HP stub_reg s0 s1 (with_peers m s1) (8, true, Mplex) Mplex
    (tls_conf 5 8) m stub_reg_ok eq_refl E1 E2 eq_refl (λ _, eq_refl))
    as (new & gone & s3 & _ & H1 & H2 & _).
  by exists s1, m, s3.
Defined.
