(* ===== verification/Gossip.v ===== *)
(** * Gossip: membership, state exchange and peering

    [server/gossip.go] and [server/messaging.go].  The memberlist library
    calls the delegate methods; what it passes (nodes, buffers, payloads) are
    the arguments.  The JSON codec of the ACME synchronization is a parameter
    with its round-trip law. *)
From S2P Require Import Prelude GoStd Link Message MuxChannel Multiplexer Mux PeerGraph PeerMap Meta Acme Server.

Open Scope Z_scope.

(** [memberlist.Node] *)
Record node := mkNode {
  node_Name : string;
  node_Meta : list Z;
  node_Alive : bool;     (* [State == memberlist.StateAlive] *)
}.

Record ACMESynchronization := mkSync {
  From : Z;
  sync_AccountFile : option AccountFile;   (* nil pointer: absent in the JSON *)
  sync_Bundle : option Bundle;
}.

(** [encoding/json] on the exchanged structures. *)
Class Json := {
  json_Marshal_sync : ACMESynchronization → go (list Z);
  json_Unmarshal_sync : list Z → go ACMESynchronization;
  json_Marshal_account : AccountFile → go (list Z);
  json_Unmarshal_account : list Z → go AccountFile;
  json_Marshal_bundle : Bundle → go (list Z);
  json_Unmarshal_bundle : list Z → go Bundle;
}.

Class JsonOk `{Json} := {
  sync_roundtrip as_ b : json_Marshal_sync as_ = Ok b → json_Unmarshal_sync b = Ok as_ ∧ b ≠ [];
  account_roundtrip af b : json_Marshal_account af = Ok b →
    json_Unmarshal_account b = Ok af ∧ wf_bytes b ∧ b ≠ [];
  bundle_roundtrip bu b : json_Marshal_bundle bu = Ok b →
    json_Unmarshal_bundle b = Ok bu ∧ wf_bytes b ∧ b ≠ [];
}.

Section Gossip.
Context {P : Type} `{MuxPeer P} (reg : gmap Z (Constructor P)) `{XorFilter} `{Crypto} `{Json}.
Implicit Types s : Server P.

(** ** Who connects to whom *)
Definition shouldReachOut s (m : Meta) : bool :=
  if RespondOnly (s_meta s) then false else
  if negb (RespondOnly m) && (PeerID m <? s_id s) then false else true.

(** The loop of [peerReconciliation]: [m] is declared outside of it.  The
    result is the list of [connectPeer] calls made. *)
Fixpoint reconcile_loop s (m : Meta) (nodes : list node) : list Meta :=
  match nodes with
  | [] => []
  | n :: rest =>
      if negb (node_Alive n) then reconcile_loop s m rest else
      if bool_decide (node_Name n = s_gossipName s) then reconcile_loop s m rest else
      match Meta_UnmarshalBinary m (node_Meta n) with
      | Ok m' =>
          if PeerID m' =? s_id s then reconcile_loop s m' rest else
          match PeerMap_Get (s_peers s) (PeerID m') with
          | None =>
              if shouldReachOut s m' then m' :: reconcile_loop s m' rest
              else reconcile_loop s m' rest
          | Some _ => reconcile_loop s m' rest
          end
      | _ => reconcile_loop s m rest
      end
  end.

Definition peerReconciliation s (knownNodes : list node) : list Meta :=
  reconcile_loop s zero_Meta knownNodes.

(** [NotifyJoin]: the peer to connect to, if any; a duplicate of our own
    identifier ends the process. *)
Definition NotifyJoin s (n : node) : go (option Meta) :=
  if bool_decide (node_Name n = s_gossipName s) then Ok None else
  match Meta_UnmarshalBinary zero_Meta (node_Meta n) with
  | Ok m =>
      if PeerID m =? s_id s
      then Panic (FatalExit "gossip: new peer has the same ID as current node")
      else if shouldReachOut s m then Ok (Some m) else Ok None
  | Err _ => Ok None
  | Panic p => Panic p
  end.

(** [NotifyLeave]: the peer to remove, if any, by [removePeer] in the goroutine
    of the gossip library. *)
Definition NotifyLeave s (n : node) : go (option Z) :=
  if bool_decide (node_Name n = s_gossipName s) then Ok None else
  match Meta_UnmarshalBinary zero_Meta (node_Meta n) with
  | Ok m => Ok (Some (PeerID m))
  | Err _ => Ok None
  | Panic p => Panic p
  end.

Definition NodeMeta s : list Z := s_metaBytes s.

(** ** Connecting *)
Record connect_result := mkConnect {
  cr_wire : option (list Z);     (* the handshake written *)
  cr_closed : option Z;          (* what the closer closed *)
  cr_err : option error;
}.

(** [connectPeer] up to the call of [NewPeer]: the handshake written, the
    arguments of the call and the closer; or what it returns before.  [dial] and
    [open] are the answers of the network to the dialer, [werr] the error of
    writing the handshake. *)
Definition connect_hello s (m : Meta) (dial open : Z + error) (werr : option error)
    : go (connect_result + list Z * (Protocol * Config) * option Z) :=
  let link := mkLink (s_id s) (PeerID m) (meta_Protocol m) alpn_Multiplexer in
  match Link_MarshalBinary link with
  | Panic p => Panic p
  | Err e => Ok (inl (mkConnect None None (Some (Wrapf "marshal link" e))))
  | Ok buf =>
      match multiplexer_Dialer (dReg dial open) (meta_Protocol m) with
      | Panic p => Panic p
      | Err e => Ok (inl (mkConnect None None (Some (Wrapf "getting dialer" e))))
      | Ok d =>
          match dl_err d with
          | Some e => Ok (inl (mkConnect None (dl_closer d) (Some (Wrapf "dialing peer" e))))
          | None =>
              match werr with
              | Some e => Ok (inl (mkConnect None (dl_closer d) (Some (Wrapf "writing handshake" e))))
              | None =>
                  Ok (inr (buf, (meta_Protocol m, mkConfig true (dl_connector d) (PeerID m) true second),
                           dl_closer d))
              end
          end
      end
  end.

(** [connectPeer], with a [NewPeer] that nothing interrupts. *)
Definition connectPeer s (m : Meta) (dial open : Z + error) (werr : option error) (closed_first : bool)
    : go (Server P * connect_result) :=
  h ← connect_hello s m dial open werr;
  match h with
  | inl r => Ok (s, r)
  | inr (buf, (proto, conf), closer) =>
      match NewPeer reg (s_peers s) proto conf closed_first with
      | Ok peers => Ok (with_peers peers s, mkConnect (Some buf) None None)
      | Err e => Ok (s, mkConnect (Some buf) closer (Some e))
      | Panic p => Panic p
      end
  end.

(** [connectPeer] as a goroutine. *)
Definition connects s (m : Meta) (dial open : Z + error) (werr : option error) : routine P :=
  match connect_hello s m dial open werr with
  | Ok (inr (_, (proto, conf), _)) => InPeers (NPLoad proto conf)
  | Ok (inl r) => InPeers (Returned match cr_err r with Some e => Err e | None => Ok tt end)
  | Err e => InPeers (Returned (Err e))
  | Panic p => InPeers (Returned (Panic p))
  end.

(** ** State exchange *)

(** [LocalState]; [None] is a nil buffer. *)
Definition LocalState s (join : bool) : go (option (list Z)) :=
  if join then
    match (ExportAccount (s_certManager s)).2 with
    | Panic p => Panic p
    | Err _ => Ok None
    | Ok af =>
        match (ExportBundle (s_certManager s)).2 with
        | Panic p => Panic p
        | Err _ => Ok None
        | Ok bundle =>
            match json_Marshal_sync (mkSync (s_id s) (Some af) (Some bundle)) with
            | Panic p => Panic p
            | Err _ => Ok None
            | Ok b => Ok (Some b)
            end
        end
    end
  else Ok (s_cached s).

(** The ACME part of [MergeRemoteState]. *)
Definition merge_acme s (ca : CA) (as_ : ACMESynchronization) : go (Server P) :=
  match sync_AccountFile as_, sync_Bundle as_ with
  | Some af, Some bundle =>
      if From as_ =? s_id s then Ok s else
      let '(cm1, err) := ImportAccount ca af (negb (s_Debug s)) (s_certManager s) in
      let s1 := with_certs cm1 s in
      let import_bundle :=
        let '(cm2, err2) := ImportBundle ca bundle (negb (s_Debug s)) cm1 in
        match err2 with
        | Panic p => Panic p
        | _ => Ok (with_certs cm2 s)
        end in
      match err with
      | Panic p => Panic p
      | Err e => if errors_Is e ErrAccountExists then import_bundle else Ok s1
      | Ok _ => import_bundle
      end
  | _, _ => Ok s
  end.

(** [MergeRemoteState]; [None] says that the goroutine blocks on the full
    update channel. *)
Definition MergeRemoteState s (ca : CA) (buf : list Z) (join : bool) : go (option (Server P)) :=
  if zlen buf =? 0 then Ok (Some s) else
  if join then
    match json_Unmarshal_sync buf with
    | Panic p => Panic p
    | Err _ => Ok (Some s)
    | Ok as_ => s' ← merge_acme s ca as_; Ok (Some s')
    end
  else
    match ConnectedClients_UnmarshalBinary zero_CC buf with
    | Panic p => Panic p
    | Err _ => Ok (Some s)
    | Ok c =>
        match chan_send (s_updatesCh s) c with
        | Sent ch => Ok (Some (with_updates ch s))
        | SendBlocks => Ok None
        | SendPanics => Panic SendOnClosedChannel
        end
    end.

(** One iteration of [handleMerge]; [None] when there is nothing to receive. *)
Definition handleMerge s : option (Server P) :=
  match chan_recv (s_updatesCh s) with
  | Received x ch =>
      let s := with_updates ch s in
      if cc_Peer x =? s_id s then Some s
      else Some (with_graph (PeerGraph_Replace (s_peerGraph s) x).1 s)
  | _ => None
  end.

(** ** Pings *)
Definition AckPayload s : go (list Z) :=
  b ← make_bytes 8;
  PutUint64 b 0 8 (uint64_of_int (PeerMap_Len (s_peers s))).

(** The number of peers the other side reports. *)
Definition NotifyPingComplete (other : node) (payload : list Z) : go (option Z) :=
  match Meta_UnmarshalBinary zero_Meta (node_Meta other) with
  | Panic p => Panic p
  | Err _ => Ok None
  | Ok _ => n ← Uint64 payload; Ok (Some n)
  end.

(** ** Messages from peers *)

(** One message of [handlePeerMessaging]: failed imports are logged. *)
Definition handlePeerMessage s (ca : CA) (m : Message) : go (Server P) :=
  if msg_Type m =? MessageACMEAccountKey then
    match json_Unmarshal_account (msg_Data m) with
    | Panic p => Panic p
    | Err _ => Ok s
    | Ok af =>
        let '(cm, r) := ImportAccount ca af (negb (s_Debug s)) (s_certManager s) in
        match r with Panic p => Panic p | _ => Ok (with_certs cm s) end
    end
  else if msg_Type m =? MessageClientCerts then
    match json_Unmarshal_bundle (msg_Data m) with
    | Panic p => Panic p
    | Err _ => Ok s
    | Ok b =>
        let '(cm, r) := ImportBundle ca b (negb (s_Debug s)) (s_certManager s) in
        match r with Panic p => Panic p | _ => Ok (with_certs cm s) end
    end
  else Ok s.

(** ** Lemmas *)

(** A server describes itself truthfully. *)
Definition self_described s : Prop := PeerID (s_meta s) = s_id s.

Lemma shouldReachOut_spec s m :
  shouldReachOut s m =
    negb (RespondOnly (s_meta s)) && (RespondOnly m || negb (PeerID m <? s_id s)).
Proof.
  unfold shouldReachOut. destruct (RespondOnly (s_meta s)), (RespondOnly m), (PeerID m <? s_id s); done.
Qed.

(** *** The outcome of a connection attempt *)
Lemma connect_hello_Ok s m dial open werr buf pc closer :
  connect_hello s m dial open werr = Ok (inr (buf, pc, closer)) →
  ∃ d, Link_MarshalBinary (mkLink (s_id s) (PeerID m) (meta_Protocol m) alpn_Multiplexer) = Ok buf ∧
    multiplexer_Dialer (dReg dial open) (meta_Protocol m) = Ok d ∧ closer = dl_closer d ∧
    pc = (meta_Protocol m, mkConfig true (dl_connector d) (PeerID m) true second) ∧
    meta_Protocol m ≠ protocol_Unknown.
Proof.
  unfold connect_hello. destruct (Link_MarshalBinary _) as [b| |] eqn:Hm; [|naive_solver..].
  destruct (multiplexer_Dialer _ _) as [d| |] eqn:Hd; [|naive_solver..].
  destruct (dl_err d); [naive_solver|]. destruct werr; [naive_solver|].
  intros [= <- <- <-]. exists d. split_and!; try done.
  unfold multiplexer_Dialer in Hd. destruct (dReg dial open !! meta_Protocol m); [|done].
  by destruct (Z.eqb_spec (meta_Protocol m) protocol_Unknown).
Qed.

(** Before [NewPeer] there is no success, and what was dialed is closed. *)
Lemma connect_hello_failed s m dial open werr r :
  connect_hello s m dial open werr = Ok (inl r) →
  is_Some (cr_err r) ∧ ∀ d, multiplexer_Dialer (dReg dial open) (meta_Protocol m) = Ok d →
    (∃ b, Link_MarshalBinary (mkLink (s_id s) (PeerID m) (meta_Protocol m) alpn_Multiplexer) = Ok b) →
    cr_closed r = dl_closer d.
Proof.
  unfold connect_hello. destruct (Link_MarshalBinary _) as [b| |] eqn:Hm; [|naive_solver..].
  destruct (multiplexer_Dialer _ _) as [d| |] eqn:Hd; [|naive_solver..].
  destruct (dl_err d); [naive_solver|]. destruct werr; naive_solver.
Qed.

Lemma connectPeer_success s m dial open werr cf s' r :
  connectPeer s m dial open werr cf = Ok (s', r) → cr_err r = None →
  ∃ peers conn wire,
    Link_MarshalBinary (mkLink (s_id s) (PeerID m) (meta_Protocol m) alpn_Multiplexer) = Ok wire ∧
    r = mkConnect (Some wire) None None ∧ s' = with_peers peers s ∧
    NewPeer reg (s_peers s) (meta_Protocol m) (mkConfig true conn (PeerID m) true second) cf = Ok peers ∧
    meta_Protocol m ≠ protocol_Unknown.
Proof.
  unfold connectPeer. intros ([r0|[[buf pc] closer]] & Hh & Hr)%go_bind_Ok He.
  { apply connect_hello_failed in Hh as [Hx _]. simplify_eq. by rewrite He in Hx; destruct Hx. }
  apply connect_hello_Ok in Hh as (d & Hb & _ & -> & -> & Hu).
  destruct (NewPeer _ _ _ _ _) as [peers| |] eqn:Hn; simplify_eq/=.
  by eexists peers, (dl_connector d), buf.
Qed.

(** A failed attempt changes nothing and closes what was dialed. *)
Lemma connectPeer_failure s m dial open werr cf s' r :
  connectPeer s m dial open werr cf = Ok (s', r) → is_Some (cr_err r) →
  s' = s ∧ ∀ d, multiplexer_Dialer (dReg dial open) (meta_Protocol m) = Ok d → cr_closed r = dl_closer d.
Proof.
  unfold connectPeer. intros ([r0|[[buf [proto conf]] closer]] & Hh & Hr)%go_bind_Ok He.
  - simplify_eq. split; [done|]. intros d Hd. apply connect_hello_failed in Hh as [_ Hx].
    apply Hx; [done|]. rewrite Link_MarshalBinary_eq. by eexists.
  - apply connect_hello_Ok in Hh as (d & _ & Hd & -> & [= -> ->] & _).
    destruct (NewPeer _ _ _ _ _) as [peers| |] eqn:Hn; simplify_eq/=; [by destruct He|].
    split; [done|]. intros d'. rewrite Hd. by intros [= <-].
Qed.

Lemma connects_ok s m dial open werr :
  PeerID m ≠ s_id s → routine_ok (s_id s) (connects s m dial open werr).
Proof.
  intros Hne. unfold connects. destruct (connect_hello s m dial open werr) as [[r|[[buf [proto conf]] closer]]| |] eqn:E;
    try done. apply connect_hello_Ok in E as (d & _ & _ & _ & [= -> ->] & _). by cbn.
Qed.

(** *** Merging *)
Lemma handleMerge_inv s s' : server_inv s → handleMerge s = Some s' → server_inv s'.
Proof.
  intros [Hp Hc Hg Hsg Hu]. unfold handleMerge, chan_recv.
  destruct (ch_buf (s_updatesCh s)) as [|x rest] eqn:Eb; [by destruct (ch_closed _)|].
  apply Forall_cons in Hu as [Hx Hu].
  cbn. destruct (Z.eqb_spec (cc_Peer x) (s_id s)) as [|Hne]; intros [= <-]; split; cbn; try done.
  - by apply Replace_wf.
  - by rewrite Replace_other.
Qed.

Lemma ConnectedClients_Unmarshal_some c b c' :
  ConnectedClients_UnmarshalBinary c b = Ok c' → is_Some (cc_f c').
Proof. unfold ConnectedClients_UnmarshalBinary. case_match; [done|]. intros. go_inv. by eexists. Qed.

Lemma with_certs_same s : with_certs (s_certManager s) s = s.
Proof. by destruct s. Qed.

Lemma merge_acme_frame s ca as_ s' :
  merge_acme s ca as_ = Ok s' → s' = with_certs (s_certManager s') s.
Proof.
  unfold merge_acme. intros Hm.
  repeat (case_match; simplify_eq/=; try done); by rewrite with_certs_same.
Qed.

Lemma with_certs_inv c s : server_inv s → server_inv (with_certs c s).
Proof. intros []. by split. Qed.

Lemma MergeRemoteState_inv s ca buf join s' :
  server_inv s → MergeRemoteState s ca buf join = Ok (Some s') → server_inv s'.
Proof.
  intros Hs. unfold MergeRemoteState. case_match; [naive_solver|]. destruct join.
  - destruct (json_Unmarshal_sync buf); [|naive_solver..].
    intros (s1 & Hm & [= <-])%go_bind_Ok. rewrite (merge_acme_frame _ _ _ _ Hm).
    by apply with_certs_inv.
  - destruct (ConnectedClients_UnmarshalBinary zero_CC buf) as [c| |] eqn:Ec; [|naive_solver..].
    unfold chan_send. repeat case_match; intros; simplify_eq.
    destruct Hs as [Hp Hc Hg Hsg Hu]. split; cbn; try done. apply Forall_app_2; [done|].
    apply Forall_cons. split; [by eapply ConnectedClients_Unmarshal_some|by apply Forall_nil].
Qed.

Lemma handlePeerMessage_inv s ca m s' :
  server_inv s → handlePeerMessage s ca m = Ok s' → server_inv s'.
Proof.
  intros Hs. unfold handlePeerMessage. intros Hm.
  repeat (case_match; simplify_eq/=; try done); by apply with_certs_inv.
Qed.

(** The peers that are dialed are never the server itself. *)
Lemma NotifyJoin_not_self s n m : NotifyJoin s n = Ok (Some m) → PeerID m ≠ s_id s.
Proof.
  unfold NotifyJoin. repeat (case_match; try done); intros; simplify_eq. by apply Z.eqb_neq.
Qed.

Lemma reconcile_not_self s m0 nodes m : m ∈ reconcile_loop s m0 nodes → PeerID m ≠ s_id s.
Proof.
  revert m0. induction nodes as [|n nodes IH]; intros m0; cbn; [set_solver|].
  repeat (case_match; eauto). intros [->|]%elem_of_cons; [by apply Z.eqb_neq|eauto].
Qed.

(** ** A server's life

    A server runs together with its goroutines: the [connectPeer] calls that
    were started and have not dialed yet, the goroutines that work on the
    session maps, and the enumeration of the clients by the dispatcher.  The
    sessions that a [Store] replaced in either map are kept as history. *)
Record background := mkBackground {
  bg_pending : list Meta;
  bg_routines : list (routine P);
  bg_dispatch : option range_window;
  bg_lost_peers : list P;
  bg_lost_clients : list P;
}.

Definition idle : background := mkBackground [] [] None [] [].

Definition bg_spawn (r : routine P) (bg : background) : background :=
  mkBackground (bg_pending bg) (bg_routines bg ++ [r]) (bg_dispatch bg) (bg_lost_peers bg) (bg_lost_clients bg).
Definition bg_connecting (ms : list Meta) (bg : background) : background :=
  mkBackground ms (bg_routines bg) (bg_dispatch bg) (bg_lost_peers bg) (bg_lost_clients bg).
Definition bg_dispatching (w : option range_window) (bg : background) : background :=
  mkBackground (bg_pending bg) (bg_routines bg) w (bg_lost_peers bg) (bg_lost_clients bg).

(** Goroutine [i] has executed a statement from [s] to [s']. *)
Definition bg_ran (i : nat) s (r r' : routine P) s' (bg : background) : background :=
  mkBackground (bg_pending bg) (<[i := r']> (bg_routines bg))
    (window_move (s_clients s') <$> bg_dispatch bg)
    (bg_lost_peers bg ++ replaces_peer s r) (bg_lost_clients bg ++ replaces_client s r).

Definition server_sys : Type := Server P * background.

(** What happens to a server: connections and notifications arrive, which start
    goroutines; a goroutine executes one statement ([EvRun]); the dispatcher
    starts to enumerate the clients, and later announces what it found; the
    channels between the goroutines are received from.  The certificate
    manager, the graph and the channels are guarded by their own locks. *)
Inductive server_event :=
| EvPeerTLS (conn : Z) (rd : reader)
| EvPeerQUIC (sess : Z) (stream : reader + error)
| EvClientTLS (conn : Z) (rd : reader) (name : string) (w : writer) (je : option error)
| EvClientQUIC (sess : Z) (stream : reader + error) (name : string) (w : writer) (je : option error)
| EvJoin (n : node)
| EvReconcile (nodes : list node)
| EvConnect (i : nat) (dial open : Z + error) (werr : option error)
| EvLeave (n : node)
| EvPeerRegistered (p : P)
| EvPeerClosed (p : P)
| EvClientArrived (p : P)
| EvClientClosed (p : P)
| EvRun (i : nat) (closed_first : bool)
| EvDispatch
| EvAnnounce (peers : list Z)
| EvMergeRemote (ca : CA) (buf : list Z) (join : bool)
| EvHandleMerge
| EvPeerMessage (ca : CA) (m : Message).

(** [None]: the event cannot happen, its goroutine blocks, or it ends the
    process. *)
Definition server_step (e : server_event) (sys : server_sys) : option server_sys :=
  let '(s, bg) := sys in
  match e with
  | EvPeerTLS conn rd => Some (s, bg_spawn (peerTLSHandshake reg s conn rd) bg)
  | EvPeerQUIC sess stream => Some (s, bg_spawn (peerQUICHandshake reg s sess stream) bg)
  | EvClientTLS conn rd name w je => Some (s, bg_spawn (clientTLSHandshake reg s conn rd name w je) bg)
  | EvClientQUIC sess stream name w je =>
      Some (s, bg_spawn (clientQUICHandshake reg s sess stream name w je) bg)
  | EvJoin n =>
      match NotifyJoin s n with
      | Ok o => Some (s, bg_connecting (bg_pending bg ++ option_list o) bg)
      | _ => None
      end
  | EvReconcile nodes => Some (s, bg_connecting (bg_pending bg ++ peerReconciliation s nodes) bg)
  | EvConnect i dial open werr =>
      m ← bg_pending bg !! i;
      Some (s, bg_spawn (connects s m dial open werr) (bg_connecting (delete i (bg_pending bg)) bg))
  | EvLeave n =>
      match NotifyLeave s n with
      | Ok (Some peer) => Some (s, bg_spawn (RemovePeer peer) bg)
      | Ok None => Some (s, bg)
      | _ => None
      end
  | EvPeerRegistered p => Some ((handlePeerEvent s p).1, bg)
  | EvPeerClosed p => Some (s, bg_spawn (peer_closed p) bg)
  | EvClientArrived p => Some (client_arrived s p, bg)
  | EvClientClosed p => Some (s, bg_spawn (client_closed p) bg)
  | EvRun i closed_first =>
      r ← bg_routines bg !! i;
      if routine_done r then None else
      let '(s', r') := routine_step reg closed_first s r in
      Some (s', bg_ran i s r r' s' bg)
  | EvDispatch =>
      match bg_dispatch bg with
      | Some _ => None
      | None => s' ← take_clientEvt s; Some (s', bg_dispatching (Some (window_open (s_clients s))) bg)
      end
  | EvAnnounce peers =>
      w ← bg_dispatch bg;
      if snapshot_ok w peers then
        match generateConnectedClients s peers with
        | Ok s' => Some (s', bg_dispatching None bg)
        | _ => None
        end
      else None
  | EvMergeRemote ca buf join =>
      match MergeRemoteState s ca buf join with Ok o => (., bg) <$> o | _ => None end
  | EvHandleMerge => (., bg) <$> handleMerge s
  | EvPeerMessage ca m => match handlePeerMessage s ca m with Ok s' => Some (s', bg) | _ => None end
  end.

(** A handler keeps the invariant and the identifier. *)
Definition keeps s s' : Prop := server_inv s' ∧ s_id s' = s_id s.

Lemma keeps_refl s : server_inv s → keeps s s.
Proof. by split. Qed.

(** *** What the goroutines carry *)

(** No goroutine was started to connect to the server itself, and none will
    store a session where it does not belong. *)
Definition bg_ok (id : Z) (bg : background) : Prop :=
  Forall (λ m, PeerID m ≠ id) (bg_pending bg) ∧ Forall (routine_ok id) (bg_routines bg).

Definition sys_inv (id : Z) (sys : server_sys) : Prop :=
  server_inv sys.1 ∧ s_id sys.1 = id ∧ bg_ok id sys.2.

Lemma sys_inv_keeps id s bg s' w :
  sys_inv id (s, bg) → keeps s s' → sys_inv id (s', bg_dispatching w bg).
Proof. intros (_ & <- & Hb) [Hs' Hid]. split_and!; cbn in *; [done|congruence|done]. Qed.

Lemma bg_dispatching_same bg : bg_dispatching (bg_dispatch bg) bg = bg.
Proof. by destruct bg. Qed.

Lemma sys_inv_keeps' id s bg s' : sys_inv id (s, bg) → keeps s s' → sys_inv id (s', bg).
Proof. intros Hs Hk. rewrite <-(bg_dispatching_same bg). by eapply sys_inv_keeps. Qed.

Lemma sys_inv_spawn id s bg r : sys_inv id (s, bg) → routine_ok id r → sys_inv id (s, bg_spawn r bg).
Proof.
  intros (Hs & Hid & Hp & Hr) Hr'. split_and!; try done. split; [done|]. cbn.
  apply Forall_app_2; [done|by apply Forall_singleton].
Qed.

Lemma sys_inv_connecting id s bg ms :
  sys_inv id (s, bg) → Forall (λ m, PeerID m ≠ id) ms → sys_inv id (s, bg_connecting ms bg).
Proof. intros (Hs & Hid & _ & Hr) Hms. by split_and!. Qed.

Lemma take_clientEvt_keeps s s' : server_inv s → take_clientEvt s = Some s' → keeps s s'.
Proof.
  intros Hs Ht. split; [by eapply take_clientEvt_inv|]. unfold take_clientEvt in Ht. by repeat (case_match; simplify_eq/=).
Qed.

Lemma generate_keeps s peers s' : server_inv s → generateConnectedClients s peers = Ok s' → keeps s s'.
Proof.
  intros Hs Hg. split; [by eapply generateConnectedClients_inv|].
  unfold generateConnectedClients in Hg. by repeat (case_match; simplify_eq/=).
Qed.

Lemma MergeRemoteState_keeps s ca buf join s' :
  server_inv s → MergeRemoteState s ca buf join = Ok (Some s') → keeps s s'.
Proof.
  intros Hs Hm. split; [by eapply MergeRemoteState_inv|]. unfold MergeRemoteState in Hm.
  repeat (case_match; simplify_eq/=; try done).
  apply go_bind_Ok in Hm as (s1 & Hm & [= <-]). by rewrite (merge_acme_frame _ _ _ _ Hm).
Qed.

Lemma handleMerge_keeps s s' : server_inv s → handleMerge s = Some s' → keeps s s'.
Proof.
  intros Hs He. split; [by eapply handleMerge_inv|].
  unfold handleMerge in He. by repeat (case_match; simplify_eq/=).
Qed.

Lemma handlePeerMessage_keeps s ca m s' :
  server_inv s → handlePeerMessage s ca m = Ok s' → keeps s s'.
Proof.
  intros Hs Hr. split; [by eapply handlePeerMessage_inv|].
  unfold handlePeerMessage in Hr. by repeat (case_match; simplify_eq/=).
Qed.

Lemma connects_fresh s m dial open werr : fresh_routine (connects s m dial open werr).
Proof. unfold connects. by repeat case_match. Qed.

(** *** The steps by kind

    Every event starts a goroutine, changes the list of connections to make,
    runs one statement, enumerates, announces, or changes the server alone. *)
Inductive step_kind (s : Server P) (bg : background) : server_event → Server P → background → Prop :=
| sk_spawn e r : routine_ok (s_id s) r → fresh_routine r → step_kind s bg e s (bg_spawn r bg)
| sk_connecting e ms :
    Forall (λ m, PeerID m ≠ s_id s ∨ m ∈ bg_pending bg) ms → step_kind s bg e s (bg_connecting ms bg)
| sk_connects e i m dial open werr :
    bg_pending bg !! i = Some m →
    step_kind s bg e s (bg_spawn (connects s m dial open werr) (bg_connecting (delete i (bg_pending bg)) bg))
| sk_run i cf r s' r' :
    bg_routines bg !! i = Some r → routine_done r = false → routine_step reg cf s r = (s', r') →
    step_kind s bg (EvRun i cf) s' (bg_ran i s r r' s' bg)
| sk_dispatch s' :
    bg_dispatch bg = None → take_clientEvt s = Some s' →
    step_kind s bg EvDispatch s' (bg_dispatching (Some (window_open (s_clients s))) bg)
| sk_announce peers w s' :
    bg_dispatch bg = Some w → snapshot_ok w peers = true → generateConnectedClients s peers = Ok s' →
    step_kind s bg (EvAnnounce peers) s' (bg_dispatching None bg)
| sk_token e s' : s' = send_membership s ∨ s' = send_clientEvt s → step_kind s bg e s' bg
| sk_nothing e : step_kind s bg e s bg
| sk_merge_remote ca buf join s' :
    MergeRemoteState s ca buf join = Ok (Some s') → step_kind s bg (EvMergeRemote ca buf join) s' bg
| sk_merge s' : handleMerge s = Some s' → step_kind s bg EvHandleMerge s' bg
| sk_message ca m s' : handlePeerMessage s ca m = Ok s' → step_kind s bg (EvPeerMessage ca m) s' bg.

Lemma server_step_kind e s bg s' bg' :
  server_step e (s, bg) = Some (s', bg') → step_kind s bg e s' bg'.
Proof.
  assert (∀ m, m ∈ bg_pending bg → PeerID m ≠ s_id s ∨ m ∈ bg_pending bg) as Hold by tauto.
  intros He. destruct e; cbn in He; simplify_eq.
  - apply sk_spawn; [apply peerTLSHandshake_ok|apply peerTLSHandshake_fresh].
  - apply sk_spawn; [apply peerQUICHandshake_ok|apply peerQUICHandshake_fresh].
  - apply sk_spawn; [apply clientTLSHandshake_ok|apply clientTLSHandshake_fresh].
  - apply sk_spawn; [apply clientQUICHandshake_ok|apply clientQUICHandshake_fresh].
  - destruct (NotifyJoin s n) as [o| |] eqn:Hj; simplify_eq. apply sk_connecting.
    apply Forall_app_2; [by apply Forall_forall|]. destruct o as [m|]; constructor; [|done].
    left. by eapply NotifyJoin_not_self.
  - apply sk_connecting. apply Forall_app_2; [by apply Forall_forall|].
    apply Forall_forall. intros m Hm. left. by eapply reconcile_not_self.
  - apply bind_Some in He as (m & Hm & He). simplify_eq. by apply sk_connects.
  - destruct (NotifyLeave s n) as [[peer|]| |]; simplify_eq; [by apply sk_spawn|apply sk_nothing].
  - apply sk_token. by left.
  - by apply sk_spawn.
  - apply sk_token. by right.
  - by apply sk_spawn.
  - apply bind_Some in He as (r & Hr & He). destruct (routine_done r) eqn:Hd; [done|].
    destruct (routine_step reg closed_first s r) as [s1 r'] eqn:Hs. simplify_eq. by apply sk_run.
  - destruct (bg_dispatch bg) eqn:Hd; [done|]. apply bind_Some in He as (s1 & Ht & He). simplify_eq.
    by apply sk_dispatch.
  - apply bind_Some in He as (w & Hw & He). destruct (snapshot_ok w peers) eqn:Hk; [|done].
    destruct (generateConnectedClients s peers) as [s1| |] eqn:Hg; simplify_eq. by eapply sk_announce.
  - destruct (MergeRemoteState s ca buf join) as [[s1|]| |] eqn:Hm; simplify_eq/=. by apply sk_merge_remote.
  - apply fmap_Some in He as (s1 & Hm & He). simplify_eq. by apply sk_merge.
  - destruct (handlePeerMessage s ca m) as [s1| |] eqn:Hm; simplify_eq. by apply sk_message.
Qed.

Lemma server_step_inv `{!ConstructorsOk reg} id e sys sys' :
  sys_inv id sys → server_step e sys = Some sys' → sys_inv id sys'.
Proof.
  intros Hsys He. destruct sys as [s bg], sys' as [s' bg'].
  pose proof Hsys as (Hs & Hid & Hp & Hr). cbn in Hs, Hid, Hp, Hr. apply server_step_kind in He.
  destruct He as [e r Hok _|e ms Hms|e i m dial open werr Hm|i cf r s' r' Hi _ Hst|s' _ Ht|peers w s' _ _ Hg
    |e s' Hs'|e|ca buf join s' Hm|s' Hm|ca m s' Hm].
  - apply sys_inv_spawn; [done|]. by rewrite <-Hid.
  - apply sys_inv_connecting; [done|]. eapply Forall_impl; [exact Hms|]. intros m [?|Hin]; [congruence|].
    by eapply (proj1 (Forall_forall _ _) Hp).
  - apply sys_inv_spawn.
    + apply sys_inv_connecting; [done|]. by apply Forall_delete.
    + rewrite <-Hid. apply connects_ok. rewrite Hid. by eapply (Forall_lookup_1 _ _ _ _ Hp).
  - destruct (routine_step_inv reg cf s r s' r' Hs) as (Hs' & Hid' & Hr'); [|done|].
    { rewrite Hid. by eapply (Forall_lookup_1 _ _ _ _ Hr). }
    split_and!; cbn; [done|congruence|]. split; [done|]. cbn. apply Forall_insert; [done|congruence].
  - by eapply sys_inv_keeps, take_clientEvt_keeps.
  - by eapply sys_inv_keeps, generate_keeps.
  - eapply sys_inv_keeps'; [done|]. destruct Hs' as [-> | ->];
      (split; [|done]); [by apply send_membership_inv|by apply send_clientEvt_inv].
  - done.
  - by eapply sys_inv_keeps', MergeRemoteState_keeps.
  - by eapply sys_inv_keeps', handleMerge_keeps.
  - by eapply sys_inv_keeps', handlePeerMessage_keeps.
Qed.

Lemma sys_inv_idle s0 : server_inv s0 → sys_inv (s_id s0) (s0, idle).
Proof. intros Hi. split_and!; [done|done|]. by split; apply Forall_nil. Qed.

Lemma server_reachable_inv `{!ConstructorsOk reg} s0 sys :
  server_inv s0 → reachable server_step (s0, idle) sys → sys_inv (s_id s0) sys.
Proof.
  intros Hinv. apply reachable_invariant; [by apply sys_inv_idle|].
  intros l sys1 sys2. apply server_step_inv.
Qed.

(** *** The account of the counters *)

(** What the goroutines still owe a counter. *)
Definition sum_owed (f : routine P → Z) (rs : list (routine P)) : Z := foldr (λ r n, f r + n) 0 rs.
#[local] Arguments sum_owed : simpl never.

Lemma sum_owed_insert (f : routine P → Z) rs i r r' :
  rs !! i = Some r → sum_owed f (<[i := r']> rs) = sum_owed f rs - f r + f r'.
Proof.
  revert i. induction rs as [|r0 rs IH]; intros [|i] Hi; [done..| |].
  - injection Hi as ->. change (<[0%nat := r']> (r :: rs)) with (r' :: rs). unfold sum_owed. cbn. lia.
  - change (<[S i := r']> (r0 :: rs)) with (r0 :: <[i := r']> rs).
    unfold sum_owed in *. cbn [foldr]. rewrite (IH i Hi). lia.
Qed.

Lemma sum_owed_app f rs1 rs2 : sum_owed f (rs1 ++ rs2) = sum_owed f rs1 + sum_owed f rs2.
Proof. unfold sum_owed. induction rs1 as [|r rs1 IH]; [done|]. cbn. rewrite IH. lia. Qed.

Lemma sum_owed_done f rs :
  (∀ r, routine_done r = true → f r = 0) → Forall (λ r, routine_done r = true) rs → sum_owed f rs = 0.
Proof. intros Hf. induction 1 as [|r rs Hr _ IH]; [done|]. unfold sum_owed in *. cbn. rewrite (Hf r Hr), IH. done. Qed.

(** A counter is the number of sessions in its map and of those replaced there,
    up to what is owed. *)
Definition counted (m : PeerMap P) (lost : list P) (owed : Z) : Prop :=
  pm_num m = wrap64 (Z.of_nat (size (pm_peers m)) + zlen lost - owed).

Definition sys_counted (sys : server_sys) : Prop :=
  counted (s_peers sys.1) (bg_lost_peers sys.2) (sum_owed owed_peers (bg_routines sys.2)) ∧
  counted (s_clients sys.1) (bg_lost_clients sys.2) (sum_owed owed_clients (bg_routines sys.2)).

Lemma counted_spawn s bg r : sys_counted (s, bg) → fresh_routine r → sys_counted (s, bg_spawn r bg).
Proof.
  intros [H1' H2'] [Hp Hc]. unfold sys_counted in *. cbn in *. rewrite !sum_owed_app.
  change (sum_owed owed_peers [r]) with (owed_peers r + 0).
  change (sum_owed owed_clients [r]) with (owed_clients r + 0). by rewrite Hp, Hc, !Z.add_0_r.
Qed.

(** Handlers that leave the two maps alone. *)
Definition same_maps s s' : Prop := s_peers s' = s_peers s ∧ s_clients s' = s_clients s.

Lemma counted_same s bg s' bg' :
  sys_counted (s, bg) → same_maps s s' → bg_routines bg' = bg_routines bg →
  bg_lost_peers bg' = bg_lost_peers bg → bg_lost_clients bg' = bg_lost_clients bg →
  sys_counted (s', bg').
Proof. unfold sys_counted. cbn. by intros Hc [-> ->] -> -> ->. Qed.

Lemma MergeRemoteState_maps s ca buf join s' :
  MergeRemoteState s ca buf join = Ok (Some s') → same_maps s s'.
Proof.
  unfold MergeRemoteState. intros Hm. repeat (case_match; simplify_eq/=; try done).
  apply go_bind_Ok in Hm as (s1 & Hm & [= <-]). by rewrite (merge_acme_frame _ _ _ _ Hm).
Qed.

Lemma handleMerge_maps s s' : handleMerge s = Some s' → same_maps s s'.
Proof. unfold handleMerge. intros Hm. by repeat (case_match; simplify_eq/=). Qed.

Lemma handlePeerMessage_maps s ca m s' : handlePeerMessage s ca m = Ok s' → same_maps s s'.
Proof. unfold handlePeerMessage. intros Hm. by repeat (case_match; simplify_eq/=). Qed.

Lemma generate_maps s peers s' : generateConnectedClients s peers = Ok s' → same_maps s s'.
Proof. unfold generateConnectedClients. intros Hm. by repeat (case_match; simplify_eq/=). Qed.

Lemma take_clientEvt_maps s s' : take_clientEvt s = Some s' → same_maps s s'.
Proof. unfold take_clientEvt. intros Hm. by repeat (case_match; simplify_eq/=). Qed.

Lemma counted_run i cf s bg r s' r' :
  sys_counted (s, bg) → bg_routines bg !! i = Some r → routine_step reg cf s r = (s', r') →
  sys_counted (s', bg_ran i s r r' s' bg).
Proof.
  intros [Hp Hc] Hi Hst. unfold sys_counted, counted in *. cbn [fst snd bg_routines bg_lost_peers
    bg_lost_clients bg_ran] in *. rewrite !(sum_owed_insert _ _ _ _ _ Hi), !zlen_app. split.
  - erewrite (routine_step_peer_count reg cf s r s' r' (zlen (bg_lost_peers bg))
      (sum_owed owed_peers (bg_routines bg) - owed_peers r)); [apply (f_equal wrap64); ring| |exact Hst].
    rewrite Hp. apply (f_equal wrap64). ring.
  - erewrite (routine_step_client_count reg cf s r s' r' (zlen (bg_lost_clients bg))
      (sum_owed owed_clients (bg_routines bg) - owed_clients r)); [apply (f_equal wrap64); ring| |exact Hst].
    rewrite Hc. apply (f_equal wrap64). ring.
Qed.

Lemma server_step_counted e sys sys' : sys_counted sys → server_step e sys = Some sys' → sys_counted sys'.
Proof.
  intros Hc He. destruct sys as [s bg], sys' as [s' bg']. apply server_step_kind in He.
  destruct He as [e r _ Hf|e ms _|e i m dial open werr _|i cf r s' r' Hi _ Hst|s' _ Ht|peers w s' _ _ Hg
    |e s' Hs'|e|ca buf join s' Hm|s' Hm|ca m s' Hm].
  - by apply counted_spawn.
  - by eapply counted_same.
  - apply counted_spawn; [by eapply counted_same|apply connects_fresh].
  - by eapply counted_run.
  - by eapply counted_same; [|by apply take_clientEvt_maps|..].
  - by eapply counted_same; [|by eapply generate_maps|..].
  - by eapply counted_same; [|destruct Hs' as [-> | ->]; done|..].
  - done.
  - by eapply counted_same; [|by eapply MergeRemoteState_maps|..].
  - by eapply counted_same; [|by apply handleMerge_maps|..].
  - by eapply counted_same; [|by eapply handlePeerMessage_maps|..].
Qed.

Lemma server_reachable_counted s0 sys :
  pm_peers (s_peers s0) = ∅ → pm_num (s_peers s0) = 0 → pm_peers (s_clients s0) = ∅ → pm_num (s_clients s0) = 0 →
  reachable server_step (s0, idle) sys → sys_counted sys.
Proof.
  intros E1 E2 E3 E4. apply reachable_invariant; [|intros l sys1 sys2; apply server_step_counted].
  unfold sys_counted, counted. cbn. by rewrite E1, E2, E3, E4.
Qed.

Lemma server_New_counted conf self dec ring s0 sys :
  server_New conf self dec ring = Ok s0 → reachable server_step (s0, idle) sys → sys_counted sys.
Proof. intros (cm & b & _ & _ & ->)%server_New_Ok. by apply server_reachable_counted. Qed.

(** When no goroutine works on the maps, the counters are settled. *)
Lemma counted_quiet s bg :
  sys_counted (s, bg) → Forall (λ r, routine_done r = true) (bg_routines bg) →
  pm_num (s_peers s) = wrap64 (Z.of_nat (size (pm_peers (s_peers s))) + zlen (bg_lost_peers bg)) ∧
  pm_num (s_clients s) = wrap64 (Z.of_nat (size (pm_peers (s_clients s))) + zlen (bg_lost_clients bg)).
Proof.
  unfold sys_counted, counted. cbn. intros [Hp Hc] Hd.
  rewrite sum_owed_done, Z.sub_0_r in Hp; [|by intros [[]|[]|?| | |]|done].
  rewrite sum_owed_done, Z.sub_0_r in Hc; [|by intros [[]|[]|?| | |]|done]. done.
Qed.
End Gossip.

(** ** Properties *)


(** JSON that knows one document. *)
Definition sample_json (doc : ACMESynchronization) : Json :=
  {| json_Marshal_sync _ := Ok [1];
     json_Unmarshal_sync b := if bool_decide (b = [1]) then Ok doc else Err (Foreign 3);
     json_Marshal_account _ := Err (Foreign 3);
     json_Unmarshal_account _ := Err (Foreign 3);
     json_Marshal_bundle _ := Err (Foreign 3);
     json_Unmarshal_bundle _ := Err (Foreign 3) |}.

Definition sample_new (self : Z) : go (Server muxPeer) :=
  server_New sample_server_conf self (λ _, inl [107; 101; 121]) (λ _, None).

(** A new server, and the events by which one client connects to it. *)
Definition sample_step : @server_event muxPeer → server_sys → option server_sys :=
  @server_step _ _ (@protocolRegistry sample_sessions) _ sample_crypto (sample_json (mkSync 0 None None)).
Definition sample_client : list (@server_event muxPeer) :=
  EvClientTLS 5 sample_hello "correct-horse" (λ b, (zlen b, None)) None :: replicate 6 (EvRun 0 false).

Lemma sample_run :
  ∃ (s0 s : Server muxPeer) bg, sample_new 42 = Ok s0 ∧ run sample_step sample_client (s0, idle) = Some (s, bg) ∧
    size (pm_peers (s_clients s)) = 1%nat.
Proof.
  assert (is_ok (sample_new 42) = true) as Hok by (vm_compute; reflexivity).
  destruct (sample_new 42) as [s0| |] eqn:E0; [|discriminate Hok..].
  assert (match run sample_step sample_client (s0, idle) with
          | Some (s, _) => size (pm_peers (s_clients s)) = 1%nat | None => False end) as Hrun.
  { vm_compute in E0. injection E0 as <-. vm_compute. reflexivity. }
  destruct (run sample_step sample_client (s0, idle)) as [[s bg]|] eqn:E; [|done].
  by exists s0, s, bg.
Qed.


(** C25: who reaches out.  When each of two servers knows the other's true
    description: if at most one of them only responds, exactly one of the two
    is told to reach out, namely the one that does not only respond, or else
    the one with the lower identifier; if both only respond, neither is. *)
Theorem reach_out_exactly_one {P} (a b : Server P) :
  self_described a → self_described b → s_id a ≠ s_id b →
  (shouldReachOut a (s_meta b), shouldReachOut b (s_meta a)) =
    match RespondOnly (s_meta a), RespondOnly (s_meta b) with
    | true, true => (false, false)
    | true, false => (false, true)
    | false, true => (true, false)
    | false, false => (s_id a <? s_id b, s_id b <? s_id a)
    end ∧
  (xorb (shouldReachOut a (s_meta b)) (shouldReachOut b (s_meta a)) = false ↔
     RespondOnly (s_meta a) = true ∧ RespondOnly (s_meta b) = true).
Proof.
  unfold self_described. intros Ha Hb Hne. rewrite !shouldReachOut_spec, Ha, Hb.
  destruct (RespondOnly (s_meta a)), (RespondOnly (s_meta b)); cbn; try (split; [done|naive_solver]).
  destruct (Z.ltb_spec (s_id b) (s_id a)), (Z.ltb_spec (s_id a) (s_id b)); cbn; try lia;
    (split; [done|naive_solver]).
Qed.

Lemma reach_out_exactly_one_witness :
  (shouldReachOut (sample_server 42) (s_meta (sample_server 43)),
   shouldReachOut (sample_server 43) (s_meta (sample_server 42))) = (true, false).
Proof. by destruct (reach_out_exactly_one (sample_server 42) (sample_server 43)) as [-> _]. Defined.

(** The listeners: what they accept and the protocols they allow. *)
Definition listener_of (conn : connector) : list Protocol :=
  match conn with NetConn _ => TLSProtos | QuicSession _ => QUICProtos end.

(** A session can be set up on what a listener accepted, if the library agrees. *)
Lemma listener_constructs `{Sessions} conn proto peer :
  proto ∈ listener_of conn → peer ≠ 0 → (∀ id, is_ok (yamux_Server id) = true) →
  ∃ c p, multiplexer_New protocolRegistry proto = Ok c ∧
    c (mkConfig true (Some conn) peer false second) = Ok p.
Proof.
  intros Hin Hz Hy. assert (∀ c, Config_Validate (mkConfig true (Some c) peer false second) = Ok tt) as Hv.
  { intros c. by apply Validate_Ok. }
  destruct conn as [id|id]; cbn in Hin; unfold TLSProtos, QUICProtos in Hin.
  - apply elem_of_cons in Hin as [->|Hin%list_elem_of_singleton].
    + specialize (Hy id). destruct (yamux_Server id) as [sess| |] eqn:Es; try done.
      eexists _, _. split; [reflexivity|]. unfold NewYamuxPeer. rewrite Hv. cbn. by rewrite Es.
    + subst proto. eexists _, _. split; [reflexivity|]. unfold NewMplexPeer. by rewrite Hv.
  - apply list_elem_of_singleton in Hin as ->. eexists _, _. split; [reflexivity|].
    unfold NewQuicPeer. by rewrite Hv.
Qed.

(** C9: the two ends of a connection between servers.  Suppose [connectPeer] on
    [a] succeeds for the description of [b], the handshake it wrote arrives at [b]'s
    listener for that protocol, and nothing else works on [b]'s sessions with
    [a] until it is handled.  If [b] still has a session with [a], it refuses
    the handshake with [ErrSessionAlreadyEstablished].  Otherwise, if the new
    session survives its first second and the session library accepts the
    connection, [b] accepts it, each server has a session filed under the
    other's identifier, both run the protocol [b] advertised, [a] is the
    initiator and [b] is not, and exactly one of them ([b]) opens the messaging
    stream. *)
Theorem peering_agreement `{Sessions} (a a' b : Server muxPeer) m dial open cf r wire conn rest :
  u64 (s_id a) → u64 (s_id b) → s_id a ≠ 0 → s_id b ≠ 0 → s_id a ≠ s_id b →
  PeerID m = s_id b → meta_Protocol m ∈ listener_of conn →
  (∀ id, is_ok (yamux_Server id) = true) →
  connectPeer protocolRegistry a m dial open None cf = Ok (a', r) → cr_err r = None → cr_wire r = Some wire →
  match PeerMap_Get (s_peers b) (s_id a) with
  | Some _ =>
      ∃ e, peerNegotiation protocolRegistry b conn ((wire, None) :: rest) (listener_of conn) false = Err e ∧
        errors_Is e ErrSessionAlreadyEstablished = true
  | None =>
      ∃ b' pa pb,
        peerNegotiation protocolRegistry b conn ((wire, None) :: rest) (listener_of conn) false = Ok b' ∧
        PeerMap_Get (s_peers a') (s_id b) = Some pa ∧ PeerMap_Get (s_peers b') (s_id a) = Some pb ∧
        Peer_Protocol pa = meta_Protocol m ∧ Peer_Protocol pb = meta_Protocol m ∧
        Peer_Initiator pa = true ∧ Peer_Initiator pb = false ∧
        opens_messaging pa = false ∧ opens_messaging pb = true
  end.
Proof.
  intros Hua Hub Ha0 Hb0 Hne Hm Hacc Hy Hc He Hw.
  destruct (connectPeer_success protocolRegistry _ _ _ _ _ _ _ _ Hc He)
    as (pm & ca & wire' & Hwire & -> & -> & Hna & Hunk). cbn in Hw. simplify_eq.
  pose proof (NewPeer_Ok protocolRegistry _ _ _ _ _ Hna) as (pa & _ & _ & _ & Hia & Hpa & Hma).
  destruct (listener_constructs conn (meta_Protocol m) (s_id a) Hacc Ha0 Hy) as (c & pb & Hnew & Hcon).
  assert (u8 (meta_Protocol m)) as Hproto.
  { assert (Forall u8 (listener_of conn)) as Hall by (destruct conn; by repeat constructor).
    by eapply (proj1 (Forall_forall _ _) Hall). }
  assert (peer_hello protocolRegistry b conn ((wire, None) :: rest) (listener_of conn) =
    Ok (meta_Protocol m, mkConfig true (Some conn) (s_id a) false second)) as Hhello.
  { apply peer_hello_Ok. exists (mkLink (s_id a) (PeerID m) (meta_Protocol m) alpn_Multiplexer).
    split_and!; try done; cbn.
    - apply handshake_link_wire; [|done]. split_and!; cbn; [done|by rewrite Hm|done|done].
    - split_and!; try done. apply multiplexer_New_Ok in Hnew as [Hnew _]. by eexists. }
  unfold peerNegotiation. rewrite Hhello. cbn [mbind go_bind]. unfold NewPeer, PeerMap_Get. cbn [cfg_Peer].
  destruct (pm_peers (s_peers b) !! s_id a); [by eexists|].
  rewrite Hnew. cbn [mbind go_bind]. rewrite Hcon. cbn. apply multiplexer_New_Ok in Hnew as [Hnew _].
  destruct (constructor_conf _ _ _ _ Hnew Hcon) as (_ & _ & Hib & Hpb).
  eexists _, pa, pb. split; [done|].
  assert (PeerMap_Get (s_peers (with_peers pm a)) (s_id b) = Some pa) as Hga.
  { rewrite Hma. unfold PeerMap_Get. cbn. rewrite Hm. apply lookup_insert_eq. }
  split; [exact Hga|]. split; [apply lookup_insert_eq|]. unfold opens_messaging. rewrite Hia, Hib. by split_and!.
Qed.

Definition sample_connect : go (Server muxPeer * connect_result) :=
  connectPeer (@protocolRegistry sample_sessions) (sample_server 42)
    (mkMeta "10.0.200.8" 1111 43 Mplex false) (inl 5) (inl 0) None false.

Lemma peering_agreement_witness :
  ∃ a' r wire b' pb, sample_connect = Ok (a', r) ∧ cr_wire r = Some wire ∧
    peerNegotiation (@protocolRegistry sample_sessions) (sample_server 43) (NetConn 6)
      [(wire, None)] TLSProtos false = Ok b' ∧
    PeerMap_Get (s_peers b') 42 = Some pb ∧ opens_messaging pb = true.
Proof.
  assert (is_ok sample_connect = true) as Hok by (vm_compute; reflexivity).
  assert (match sample_connect with Ok (_, r) => is_Some (cr_wire r) ∧ cr_err r = None | _ => True end)
    as Hr by (vm_compute; split; [by eexists|reflexivity]).
  assert (Mplex ∈ TLSProtos) as Hin by (clear; set_solver).
  destruct sample_connect as [[a' r]| |] eqn:Ec; [|discriminate Hok..].
  destruct Hr as [[wire Hw] He]. unfold sample_connect in Ec.
  destruct (@peering_agreement sample_sessions (sample_server 42) a'
    (sample_server 43) (mkMeta "10.0.200.8" 1111 43 Mplex false) (inl 5) (inl 0) false r wire
    (NetConn 6) [] ltac:(clear; done) ltac:(clear; done) ltac:(clear; done) ltac:(clear; done) ltac:(clear; done)
    eq_refl Hin (λ _, eq_refl) Ec He Hw) as (b' & pa & pb & H1 & _ & H2 & _ & _ & _ & _ & _ & H3).
  exists a', r, wire, b', pb. split; [reflexivity|]. split; [exact Hw|].
  split; [exact H1|]. split; [exact H2|exact H3].
Defined.

(** *** Reconciliation *)

(** Whether a node should be dialed, judged by its own description. *)
Definition reconcile_target {P} (s : Server P) (n : node) : option Meta :=
  if negb (node_Alive n) then None else
  if bool_decide (node_Name n = s_gossipName s) then None else
  match Meta_UnmarshalBinary zero_Meta (node_Meta n) with
  | Ok m =>
      if PeerID m =? s_id s then None else
      match PeerMap_Get (s_peers s) (PeerID m) with
      | None => if shouldReachOut s m then Some m else None
      | Some _ => None
      end
  | _ => None
  end.

(** The receiver of a decoding only matters through its flag. *)
Lemma Meta_Unmarshal_receiver m1 m2 b :
  RespondOnly m1 = RespondOnly m2 → Meta_UnmarshalBinary m1 b = Meta_UnmarshalBinary m2 b.
Proof. intros Heq. unfold Meta_UnmarshalBinary. by rewrite Heq. Qed.

Lemma reconcile_loop_spec {P} (s : Server P) m nodes :
  RespondOnly m = false →
  (∀ n m', n ∈ nodes → Meta_UnmarshalBinary zero_Meta (node_Meta n) = Ok m' → RespondOnly m' = false) →
  reconcile_loop s m nodes = omap (reconcile_target s) nodes.
Proof.
  revert m. induction nodes as [|n nodes IH]; intros m Hm Hall; [done|].
  assert (∀ m', RespondOnly m' = false → reconcile_loop s m' nodes = omap (reconcile_target s) nodes)
    as IH' by (intros m' Hm'; apply IH; [done|set_solver]).
  cbn. unfold reconcile_target at 1. destruct (negb (node_Alive n)); [by apply IH'|].
  case_bool_decide; [by apply IH'|]. rewrite (Meta_Unmarshal_receiver m zero_Meta) by done.
  destruct (Meta_UnmarshalBinary zero_Meta (node_Meta n)) as [m'| |] eqn:E; [|by apply IH'..].
  assert (RespondOnly m' = false) by (eapply Hall; [apply elem_of_cons; by left|done]).
  destruct (PeerID m' =? s_id s); [by apply IH'|].
  destruct (PeerMap_Get (s_peers s) (PeerID m')); [by apply IH'|].
  destruct (shouldReachOut s m'); [f_equal|]; by apply IH'.
Qed.

(** C26: reconciliation dials exactly the nodes that are alive, not the server
    itself, not connected and to be dialed by [shouldReachOut], in order, as
    long as no node advertises [RespondOnly]. *)
Theorem reconciliation_targets {P} (s : Server P) nodes :
  (∀ n m, n ∈ nodes → Meta_UnmarshalBinary zero_Meta (node_Meta n) = Ok m → RespondOnly m = false) →
  peerReconciliation s nodes = omap (reconcile_target s) nodes.
Proof. by apply reconcile_loop_spec. Qed.

(** The wire form of a description. *)
Definition meta_wire (m : Meta) : list Z :=
  match Meta_MarshalBinary m with Ok w => w | _ => [] end.
Definition sample_node (id : Z) (respond : bool) : node :=
  mkNode "other" (meta_wire (mkMeta "10.0.200.9" 1111 id Mplex respond)) true.

Lemma reconciliation_targets_witness :
  peerReconciliation (sample_server 42) [sample_node 50 false; sample_node 41 false] =
    [mkMeta "10.0.200.9" 1111 50 Mplex false].
Proof.
  rewrite (reconciliation_targets (sample_server 42) [sample_node 50 false; sample_node 41 false]).
  - vm_compute. reflexivity.
  - intros n m Hn Hm. apply elem_of_cons in Hn as [->|Hn].
    { vm_compute in Hm. by injection Hm as <-. }
    apply list_elem_of_singleton in Hn as ->. vm_compute in Hm. by injection Hm as <-.
Defined.

(** [RespondOnly] sticks to the nodes listed after one that advertises it.
    The loop decodes every node into the same variable and decoding never
    clears the flag: after a respond-only node, a node with a lower identifier
    is dialed although [shouldReachOut], asked about that node's own
    description, says that the other side does the dialing. *)
Theorem reconciliation_flag_sticks {P} (s : Server P) x y mx my :
  RespondOnly (s_meta s) = false →
  wf_Meta mx → wf_Meta my → RespondOnly mx = true → RespondOnly my = false →
  node_Alive x = true → node_Alive y = true →
  node_Name x ≠ s_gossipName s → node_Name y ≠ s_gossipName s →
  Meta_MarshalBinary mx = Ok (node_Meta x) → Meta_MarshalBinary my = Ok (node_Meta y) →
  PeerMap_Get (s_peers s) (PeerID my) = None → PeerID my < s_id s →
  shouldReachOut s my = false ∧ peerReconciliation s [y] = [] ∧
  ∃ dialed, PeerID dialed = PeerID my ∧ ConnectIP dialed = ConnectIP my ∧
            dialed ∈ peerReconciliation s [x; y].
Proof.
  intros Hro Hwx Hwy Hrx Hry Hax Hay Hnx Hny Hmx Hmy Hget Hlt.
  assert (shouldReachOut s my = false) as Hno.
  { rewrite shouldReachOut_spec, Hry, Hro. cbn. apply negb_false_iff. by apply Z.ltb_lt. }
  pose proof (λ m0, Meta_roundtrip m0 my Hwy) as Hy. rewrite Hmy in Hy.
  destruct (Meta_roundtrip zero_Meta mx Hwx) as (w & Hw & _ & Hx). rewrite Hmx in Hw. simplify_eq.
  assert (∀ m0, Meta_UnmarshalBinary m0 (node_Meta y) =
    Ok (mkMeta (ConnectIP my) (ConnectPort my) (PeerID my) (meta_Protocol my)
          (RespondOnly m0))) as Hy'.
  { intros m0. destruct (Hy m0) as (w & Hw & _ & Hu). simplify_eq. by rewrite Hu, Hry. }
  split; [done|]. split.
  - unfold peerReconciliation. cbn [reconcile_loop]. rewrite Hay. cbn [negb].
    rewrite bool_decide_eq_false_2, Hy' by done. cbn [PeerID RespondOnly zero_Meta].
    rewrite (proj2 (Z.eqb_neq _ _)) by lia. rewrite Hget, shouldReachOut_spec, Hro.
    cbn [PeerID RespondOnly negb orb andb]. by rewrite (proj2 (Z.ltb_lt _ _)).
  - eexists. split; [|split]; cycle 2.
    + unfold peerReconciliation. cbn [reconcile_loop]. rewrite Hax, Hay. cbn [negb].
      rewrite !bool_decide_eq_false_2 by done. rewrite Hx, !Hy'. cbn [PeerID RespondOnly].
      rewrite (proj2 (Z.eqb_neq (PeerID my) _)) by lia. rewrite Hget, Hrx. cbn [orb].
      rewrite !shouldReachOut_spec, Hro. cbn [negb orb andb RespondOnly].
      repeat case_match; apply elem_of_cons; (by left) || (right; by apply list_elem_of_singleton).
    + done.
    + done.
Qed.

Lemma reconciliation_flag_sticks_witness :
  shouldReachOut (sample_server 42) (mkMeta "10.0.200.9" 1111 41 Mplex false) = false ∧
  ∃ dialed, PeerID dialed = 41 ∧
    dialed ∈ peerReconciliation (sample_server 42) [sample_node 50 true; sample_node 41 false].
Proof.
  destruct (reconciliation_flag_sticks (sample_server 42) (sample_node 50 true) (sample_node 41 false)
    (mkMeta "10.0.200.9" 1111 50 Mplex true) (mkMeta "10.0.200.9" 1111 41 Mplex false))
    as (H1 & _ & d & H2 & _ & H3); try done.
  - split; [by exists 10, 0, 200, 9|done..].
  - split; [by exists 10, 0, 200, 9|done..].
  - split; [exact H1|]. by exists d.
Defined.

(** *** An announcement travels from one server to another *)
Lemma generate_LocalState {P} `{MuxPeer P} `{XorFilterOk} `{Crypto} `{Json} (a : Server P) rangea c a' :
  u64 (s_id a) →
  NewConnectedClients (s_id a) (PeerMap_Snapshot rangea (s_clients a)) = Ok c →
  generateConnectedClients a (PeerMap_Snapshot rangea (s_clients a)) = Ok a' →
  ∃ buf, ConnectedClients_MarshalBinary c = Ok buf ∧ a' = with_cached (Some buf) a ∧
         LocalState a' false = Ok (Some buf) ∧ 48 ≤ zlen buf.
Proof.
  intros Hid Hc Hg. unfold generateConnectedClients in Hg. rewrite Hc in Hg.
  destruct (NewConnectedClients_inv _ _ _ Hc) as (f & -> & Hf & _).
  rewrite ConnectedClients_MarshalBinary_eq in Hg |- * by done. simplify_eq.
  eexists. split; [done|]. split_and!; [done|done|].
  autorewrite with zlen. pose proof (zlen_nonneg (Fingerprints f)). lia.
Qed.

(** A client becomes reachable from the other servers.  Server [a]
    regenerates its announcement while client [k] is connected to it; the
    buffer travels by push/pull to server [b], which has an idle update queue,
    and is merged there over an entry that is absent or has another digest.
    Then [b] routes streams for [k] to its session with [a], and [a] routes
    them to the client, provided [k] is not also a client of [b] and no other
    server's filter claims it. *)
Theorem announced_client_routable {P} `{MuxPeer P} `{XorFilterOk} `{Crypto} `{Json}
    (a a' b b1 b2 : Server P) rangea c buf ca range link pa pk :
  server_inv b → range_ok rangea → range_ok range →
  u64 (s_id a) → s_id a ≠ s_id b →
  NewConnectedClients (s_id a) (PeerMap_Snapshot rangea (s_clients a)) = Ok c →
  generateConnectedClients a (PeerMap_Snapshot rangea (s_clients a)) = Ok a' → LocalState a' false = Ok (Some buf) →
  ch_buf (s_updatesCh b) = [] →
  MergeRemoteState b ca buf false = Ok (Some b1) → handleMerge b1 = Some b2 →
  PeerMap_Get (s_clients a) (Destination link) = Some pk →
  PeerMap_Get (s_clients b) (Destination link) = None →
  PeerMap_Get (s_peers b) (s_id a) = Some pa →
  (∀ old, peerFilter (s_peerGraph b) !! s_id a = Some old → cc_CRC64 old ≠ cc_CRC64 c) →
  (∀ k c', peerFilter (s_peerGraph b) !! k = Some c' → k ≠ s_id a →
     ConnectedClients_Has c' (Destination link) = Ok false) →
  findPath b2 range link = Ok (Some pa) ∧ findPath a' range link = Ok (Some pk).
Proof.
  intros Hb Hra Hr Hid Hne Hc Hg Hl Hq Hm Hh Hka Hkb Hpa Hold Hother.
  destruct (generate_LocalState a rangea c a' Hid Hc Hg) as (buf' & Hw & -> & Hl' & Hlen).
  rewrite Hl' in Hl. simplify_eq. split; [|by apply findPath_local].
  destruct (announcement_decodes _ _ _ _ Hid Hc Hw) as (Hdec & Hpeer & Hf & Hhas).
  unfold MergeRemoteState in Hm. rewrite (proj2 (Z.eqb_neq _ _)) in Hm by lia. rewrite Hdec in Hm.
  unfold chan_send in Hm. rewrite Hq in Hm. destruct (ch_closed _); [done|].
  destruct (_ <? _)%nat; [|done]. injection Hm as <-.
  unfold handleMerge, chan_recv in Hh. cbn in Hh.
  rewrite (proj2 (Z.eqb_neq _ _)) in Hh by lia. injection Hh as <-.
  rewrite (findPath_remote _ _ _ (s_id a)); [by cbn; rewrite Hpa|done|]. cbn.
  apply Replace_Who; try done; [by apply Hb|]. apply Hhas. unfold PeerMap_Snapshot.
  apply list_elem_of_fmap. exists (Destination link, pk). split; [done|].
  by apply (enumerates_elem _ _ _ _ (Hra _)).
Qed.

(** Two servers: 42 has client 77 and 43 has a session with 42. *)
Definition sample_a : Server (Z * bool * Protocol) :=
  mkServer 42 zero_Meta [] "a" false "" (NewPeerMap 42) (mkPM 42 {[77 := (77, false, Mplex)]} 1 [])
    (NewPeerGraph 42) (make_chan 16) None 0 0 sample_cm.
Definition sample_b : Server (Z * bool * Protocol) :=
  mkServer 43 zero_Meta [] "b" false "" (mkPM 43 {[42 := (42, true, Mplex)]} 1 []) (NewPeerMap 43)
    (NewPeerGraph 43) (make_chan 16) None 0 0 sample_cm.

Lemma sample_b_inv : @server_inv _ stub_peer sample_b.
Proof. split; try done. by apply map_Forall_singleton. Qed.

Lemma announced_client_routable_witness :
  ∃ a' buf b1 b2, @generateConnectedClients _ exact_filter sample_a (PeerMap_Snapshot map_to_list (s_clients sample_a)) = Ok a' ∧
    @LocalState _ sample_crypto (sample_json (mkSync 0 None None)) a' false = Ok (Some buf) ∧
    @MergeRemoteState _ sample_crypto (sample_json (mkSync 0 None None)) sample_b (sample_ca 0)
      buf false = Ok (Some b1) ∧
    handleMerge b1 = Some b2 ∧
    @findPath _ exact_filter b2 map_to_list (mkLink 43 77 Mplex alpn_HTTP) =
      Ok (Some (42, true, Mplex)).
Proof.
  assert (∃ c a' buf b1 b2, 
    @NewConnectedClients exact_filter 42 (PeerMap_Snapshot map_to_list (s_clients sample_a)) = Ok c ∧
    @generateConnectedClients _ exact_filter sample_a (PeerMap_Snapshot map_to_list (s_clients sample_a)) = Ok a' ∧
    @LocalState _ sample_crypto (sample_json (mkSync 0 None None)) a' false = Ok (Some buf) ∧
    @MergeRemoteState _ sample_crypto (sample_json (mkSync 0 None None)) sample_b (sample_ca 0)
      buf false = Ok (Some b1) ∧
    handleMerge b1 = Some b2) as (c & a' & buf & b1 & b2 & H0 & H1 & H2 & H3 & H4).
  { do 5 eexists. repeat (split; [vm_compute; reflexivity|]). vm_compute; reflexivity. }
  exists a', buf, b1, b2. repeat (split; [assumption|]).
  apply (@announced_client_routable _ stub_peer exact_filter exact_filter_ok sample_crypto
    (sample_json (mkSync 0 None None)) sample_a a' sample_b b1 b2 map_to_list c buf (sample_ca 0)
    map_to_list (mkLink 43 77 Mplex alpn_HTTP) (42, true, Mplex) (77, false, Mplex) sample_b_inv);
    try assumption; try (intros m; apply enumerates_self); clear; done.
Defined.

(** C17: a joining server receives the cluster's certificates.  What a server
    with an account and a bundle offers at a join is accepted by another server
    that has no account yet, if the CA still knows the account and the disk
    accepts the files; that server then holds the same account and serves the
    same certificate. *)
Theorem join_synchronizes {P} `{CryptoOk} `{JsonOk} (a b : Server P) ca buf :
  cm_inv (s_certManager a) → hasAcc (s_certManager b) = false → s_id a ≠ s_id b →
  LocalState a true = Ok (Some buf) →
  (∀ acct contact, ∃ a', ca_UpdateAccount ca acct contact = (a', None) ∧ acc_URL a' = acc_URL acct) →
  fs_Create ca = None → fs_Encode ca = None →
  ∃ b', MergeRemoteState b ca buf true = Ok (Some b') ∧
    (ExportAccount (s_certManager b')).2 = (ExportAccount (s_certManager a)).2 ∧
    (ExportBundle (s_certManager b')).2 = (ExportBundle (s_certManager a)).2 ∧
    (GetCertificatesFunc (s_certManager b')).2 = (GetCertificatesFunc (s_certManager a)).2 ∧
    b' = with_certs (s_certManager b') b.
Proof.
  intros [Ha _ Hc] Hb Hne Hl Hca Hf1 Hf2. unfold LocalState in Hl.
  destruct ((ExportAccount (s_certManager a)).2) as [af| |] eqn:Eaf; [|done..].
  destruct ((ExportBundle (s_certManager a)).2) as [bu| |] eqn:Ebu; [|done..].
  destruct (json_Marshal_sync _) as [bb| |] eqn:Ej; [|done..]. injection Hl as ->.
  destruct (sync_roundtrip _ _ Ej) as [Hdec Hnil].
  apply ExportAccount_Ok in Eaf as (Hacc & Hk & Hu). apply ExportBundle_Ok in Ebu as [Hcert <-].
  destruct (Ha Hacc) as [k Hkey]. rewrite Hkey in Hk.
  destruct (Hca (mkAccount (Some k) (af_URL af)) (Contact (config (s_certManager b))))
    as (acct & Hup & Hurl).
  destruct (ImportAccount_disk_Ok ca (s_certManager b) af k acct (negb (s_Debug b)) Hb
    (pemToKey_keyToPEM _ _ Hk) Hup Hf1 Hf2) as [fa Hia].
  destruct (Hc Hcert) as (_ & (k2 & Hk2 & _) & Hx).
  pose proof (λ d, ImportBundle_disk_Ok ca d _ k2 _ (negb (s_Debug b)) Hk2 Hx Hf1 Hf2) as Hib.
  unfold MergeRemoteState. rewrite (proj2 (Z.eqb_neq _ _)) by (destruct buf; [done|]; unfold zlen; cbn; lia).
  rewrite Hdec. unfold merge_acme. cbn [sync_AccountFile sync_Bundle From].
  rewrite (proj2 (Z.eqb_neq _ _)) by done. rewrite Hia.
  destruct (Hib (set_accounts_json fa (set_acc (Some k) acct true
    (set_acc (accKey (s_certManager b)) acct false (s_certManager b))))) as [fb ->].
  cbn [mbind go_bind]. eexists. split; [done|]. split_and!; try done.
  - by apply ExportAccount_Ok.
  - rewrite (proj2 (GetCertificatesFunc_Ok (s_certManager a) _) (conj Hcert eq_refl)).
    by apply GetCertificatesFunc_Ok.
Qed.

(** A codec for the three documents: the bits of an encoding, one per byte. *)
Definition account_tuple (f : AccountFile) : string * string := (af_PrivateKey f, af_URL f).
Definition tuple_account (t : string * string) : AccountFile := mkAF t.1 t.2.
Definition bundle_tuple (b : Bundle) : string * list string := (b_PrivateKey b, b_Chain b).
Definition tuple_bundle (t : string * list string) : Bundle := mkBundle t.1 t.2.
Definition sync_tuple (a : ACMESynchronization)
    : Z * option (string * string) * option (string * list string) :=
  (From a, account_tuple <$> sync_AccountFile a, bundle_tuple <$> sync_Bundle a).
Definition tuple_sync (t : Z * option (string * string) * option (string * list string))
    : ACMESynchronization :=
  mkSync t.1.1 (tuple_account <$> t.1.2) (tuple_bundle <$> t.2).

Fixpoint pos_bits (p : positive) : list Z :=
  match p with xH => [2] | xO q => 0 :: pos_bits q | xI q => 1 :: pos_bits q end.
Fixpoint bits_pos (l : list Z) : option positive :=
  match l with
  | [2] => Some xH
  | 0 :: r => xO <$> bits_pos r
  | 1 :: r => xI <$> bits_pos r
  | _ => None
  end.

Lemma bits_pos_bits p : bits_pos (pos_bits p) = Some p.
Proof. induction p as [p IH|p IH|]; cbn; [by rewrite IH..|done]. Qed.

Lemma pos_bits_wf p : wf_bytes (pos_bits p) ∧ pos_bits p ≠ [].
Proof.
  split; [|by destruct p]. induction p; cbn; repeat constructor; try done; apply IHp.
Qed.

Definition bits_decode {A} `{Countable A} (b : list Z) : go A :=
  match bits_pos b ≫= decode with Some t => Ok t | None => Err (Foreign 3) end.

Lemma bits_decode_encode `{Countable A} (a : A) : bits_decode (pos_bits (encode a)) = Ok a.
Proof. unfold bits_decode. rewrite bits_pos_bits. cbn. by rewrite decode_encode. Qed.

Definition tuple_json : Json :=
  {| json_Marshal_sync a := Ok (pos_bits (encode (sync_tuple a)));
     json_Unmarshal_sync b := t ← bits_decode b; Ok (tuple_sync t);
     json_Marshal_account a := Ok (pos_bits (encode (account_tuple a)));
     json_Unmarshal_account b := t ← bits_decode b; Ok (tuple_account t);
     json_Marshal_bundle a := Ok (pos_bits (encode (bundle_tuple a)));
     json_Unmarshal_bundle b := t ← bits_decode b; Ok (tuple_bundle t) |}.

Lemma tuple_json_ok : @JsonOk tuple_json.
Proof.
  split.
  - intros a b [= <-]. split; [|apply pos_bits_wf]. cbn. rewrite bits_decode_encode. cbn.
    by destruct a as [f [[]|] [[]|]].
  - intros a b [= <-]. split; [|apply pos_bits_wf]. cbn. rewrite bits_decode_encode. cbn. by destruct a.
  - intros a b [= <-]. split; [|apply pos_bits_wf]. cbn. rewrite bits_decode_encode. cbn. by destruct a.
Qed.

(** A server with a certificate and one without. *)
Definition sample_cert_server (self : Z) (cm : CertManager) : Server unit :=
  mkServer self zero_Meta [] "" false "" (NewPeerMap self) (NewPeerMap self)
    (NewPeerGraph self) (make_chan 16) None 0 0 cm.

Lemma join_synchronizes_witness :
  ∃ buf b', @LocalState _ sample_crypto tuple_json (sample_cert_server 42 sample_leader) true =
      Ok (Some buf) ∧
    @MergeRemoteState _ sample_crypto tuple_json (sample_cert_server 43 sample_cm) (sample_ca 0)
      buf true = Ok (Some b') ∧
    (GetCertificatesFunc (s_certManager b')).2 = (GetCertificatesFunc sample_leader).2.
Proof.
  assert (∃ buf, @LocalState _ sample_crypto tuple_json (sample_cert_server 42 sample_leader) true =
      Ok (Some buf)) as [buf Hl] by (eexists; vm_compute; reflexivity).
  destruct (@join_synchronizes unit sample_crypto sample_crypto_ok tuple_json tuple_json_ok
    (sample_cert_server 42 sample_leader) (sample_cert_server 43 sample_cm) (sample_ca 0) buf
    sample_leader_inv eq_refl) as (b' & H1 & _ & _ & H2 & _); try assumption; try reflexivity.
  - by clear.
  - intros acct contact. by exists acct.
  - by exists buf, b'.
Defined.
