(* ===== verification/Directory.v ===== *)
(** * Directory: what a server promises to know

    The abstract specification of a server's routing state: which clients are
    connected here, which servers are its neighbours and what they last
    announced.  The handlers of [Server] and [Gossip] implement it: every step
    of a server is a step of the directory or invisible to it, and [findPath]
    answers as the directory prescribes. *)
From S2P Require Import Prelude GoStd Link Message MuxChannel Multiplexer Mux PeerGraph PeerMap Meta Acme Server Gossip.

Open Scope Z_scope.

(** ** The specification *)
Record directory := mkDirectory {
  d_self : Z;
  d_clients : gset Z;
  d_peers : gset Z;
  d_claims : gmap Z ConnectedClients;
}.

Definition empty_directory (self : Z) : directory := mkDirectory self ∅ ∅ ∅.

(** How the directory may change: one client or one neighbour arrives or leaves
    at a time; the announcement of a server is replaced by a newer one, or
    withdrawn (as the code does before it removes the neighbour). *)
Inductive dir_step (d : directory) : directory → Prop :=
| client_joins id :
    id ≠ 0 → id ∉ d_clients d →
    dir_step d (mkDirectory (d_self d) ({[ id ]} ∪ d_clients d) (d_peers d) (d_claims d))
| client_leaves id :
    id ∈ d_clients d →
    dir_step d (mkDirectory (d_self d) (d_clients d ∖ {[ id ]}) (d_peers d) (d_claims d))
| peer_joins id :
    id ≠ 0 → id ≠ d_self d → id ∉ d_peers d →
    dir_step d (mkDirectory (d_self d) (d_clients d) ({[ id ]} ∪ d_peers d) (d_claims d))
| peer_leaves id :
    id ∈ d_peers d →
    dir_step d (mkDirectory (d_self d) (d_clients d) (d_peers d ∖ {[ id ]}) (d_claims d))
| peer_announces c :
    cc_Peer c ≠ d_self d → is_Some (cc_f c) →
    dir_step d (mkDirectory (d_self d) (d_clients d) (d_peers d) (<[cc_Peer c := c]> (d_claims d)))
| claim_withdrawn id :
    dir_step d (mkDirectory (d_self d) (d_clients d) (d_peers d) (delete id (d_claims d))).

Section Route.
Context `{XorFilter}.

(** The announcement of [id] claims the client. *)
Definition claims (d : directory) (id client : Z) : Prop :=
  ∃ c, d_claims d !! id = Some c ∧ ConnectedClients_Has c client = Ok true.

(** Where a stream may go: to the client when it is here; else to a neighbour
    that claims it; nowhere only when nobody claims it or some server that
    claims it is no neighbour. *)
Inductive route (d : directory) (client : Z) : option Z → Prop :=
| route_here : client ∈ d_clients d → route d client (Some client)
| route_on id :
    client ∉ d_clients d → id ∈ d_peers d → claims d id client → route d client (Some id)
| route_unclaimed :
    client ∉ d_clients d → (∀ id, ¬ claims d id client) → route d client None
| route_unreachable id :
    client ∉ d_clients d → claims d id client → id ∉ d_peers d → route d client None.

(** What holds of every directory that grew from an empty one. *)
Definition dir_ok (d : directory) : Prop :=
  d_self d ∉ d_peers d ∧ d_claims d !! d_self d = None ∧ 0 ∉ d_clients d ∧ 0 ∉ d_peers d.

Lemma dir_step_ok d d' : dir_step d d' → dir_ok d → dir_ok d' ∧ d_self d' = d_self d.
Proof.
  intros Hs (Hp & Hc & H0 & H1). unfold dir_ok. destruct Hs; cbn; split_and!; try done; try set_solver.
  - by rewrite lookup_insert_ne.
  - by rewrite lookup_delete_None; right.
Qed.

Lemma dir_steps_ok d d' : rtc dir_step d d' → dir_ok d → dir_ok d' ∧ d_self d' = d_self d.
Proof.
  induction 1 as [|d d1 d2 Hs _ IH]; intros Hd; [done|].
  destruct (dir_step_ok _ _ Hs Hd) as [H1 H2]. destruct (IH H1) as [? Heq]. by rewrite Heq.
Qed.

(** A stream is never sent back to the server itself, unless for its own
    client with that identifier. *)
Lemma route_not_self d client id :
  dir_ok d → client ∉ d_clients d → route d client (Some id) → id ≠ d_self d.
Proof. intros (Hp & _) Hc Hr. inversion Hr; subst; [done|]. set_solver. Qed.
End Route.

(** ** The implementation *)
Section Refinement.
Context {P : Type} `{MuxPeer P} (reg : gmap Z (Constructor P)) `{XorFilter} `{Crypto} `{Json}.
Implicit Types s : Server P.

Definition directory_of s : directory :=
  mkDirectory (s_id s) (dom (pm_peers (s_clients s))) (dom (pm_peers (s_peers s)))
    (peerFilter (s_peerGraph s)).

(** A handler that is invisible or one step of the directory. *)
Definition dir_moves s s' : Prop := rtc dir_step (directory_of s) (directory_of s').

(** Handlers that leave the three tables alone. *)
Definition same_tables s s' : Prop := directory_of s' = directory_of s.

Lemma same_tables_moves s s' : same_tables s s' → dir_moves s s'.
Proof. unfold same_tables, dir_moves. by intros ->. Qed.

(** One key more or less, or the same keys. *)
Lemma insert_moves {A} (m : gmap Z A) id a :
  dom (<[id := a]> m) = dom m ∨ id ∉ dom m ∧ dom (<[id := a]> m) = {[ id ]} ∪ dom m.
Proof.
  rewrite dom_insert_L. destruct (decide (id ∈ dom m)); [left; set_solver|by right].
Qed.

Lemma peers_run_moves cf s t m t' :
  thread_ok (λ id, id ≠ s_id s) t → call_step reg cf (s_peers s) t = (m, t') → dir_moves s (with_peers m s).
Proof.
  intros Ht Hs. unfold dir_moves, directory_of. cbn.
  destruct (call_step_dom reg _ _ _ _ _ Hs) as [->|[(id & p & -> & ->)|(id & -> & Hin & ->)]]; [done|..].
  - destruct Ht as (Hz & Hne & _).
    destruct (insert_moves (pm_peers (s_peers s)) id p) as [->|[Hnot ->]]; [done|].
    apply rtc_once. by apply peer_joins.
  - rewrite dom_delete_L. apply rtc_once, peer_leaves. cbn. by apply elem_of_dom.
Qed.

Lemma clients_run_moves cf s t m t' :
  thread_ok (λ _, True) t → call_step reg cf (s_clients s) t = (m, t') → dir_moves s (with_clients m s).
Proof.
  intros Ht Hs. unfold dir_moves, directory_of. cbn.
  destruct (call_step_dom reg _ _ _ _ _ Hs) as [->|[(id & p & -> & ->)|(id & -> & Hin & ->)]]; [done|..].
  - destruct Ht as (Hz & _).
    destruct (insert_moves (pm_peers (s_clients s)) id p) as [->|[Hnot ->]]; [done|].
    apply rtc_once. by apply client_joins.
  - rewrite dom_delete_L. apply rtc_once, client_leaves. cbn. by apply elem_of_dom.
Qed.

Lemma routine_step_moves cf s r s' r' :
  routine_ok (s_id s) r → routine_step reg cf s r = (s', r') → dir_moves s s'.
Proof.
  intros Hr Hst. destruct r as [t|t|peer| | |]; cbn in Hst.
  - destruct (call_step reg cf (s_peers s) t) as [m t'] eqn:E. simplify_eq. by eapply peers_run_moves.
  - destruct (call_step reg cf (s_clients s) t) as [m t'] eqn:E. simplify_eq. by eapply clients_run_moves.
  - simplify_eq. apply rtc_once, claim_withdrawn.
  - simplify_eq. by apply same_tables_moves.
  - simplify_eq. by apply same_tables_moves.
  - simplify_eq. by apply same_tables_moves.
Qed.

Lemma handleMerge_moves s s' : server_inv s → handleMerge s = Some s' → dir_moves s s'.
Proof.
  intros Hs. unfold handleMerge, chan_recv.
  destruct (ch_buf (s_updatesCh s)) as [|x rest] eqn:Eb; [by destruct (ch_closed _)|]. cbn.
  pose proof (si_updates s Hs) as Hu. rewrite Eb in Hu. apply Forall_cons in Hu as [Hx _].
  destruct (Z.eqb_spec (cc_Peer x) (s_id s)) as [|Hne]; intros [= <-]; [by apply same_tables_moves|].
  unfold PeerGraph_Replace. cbn.
  assert (dir_moves s (with_graph (mkPG (<[cc_Peer x := x]> (peerFilter (s_peerGraph s))))
    (with_updates (mkChan (ch_cap (s_updatesCh s)) rest (ch_closed (s_updatesCh s))) s))) as Hput
    by (apply rtc_once; by apply peer_announces).
  case_match; [|done]. case_match; [done|]. by apply same_tables_moves.
Qed.

Lemma generate_same s peers s' : generateConnectedClients s peers = Ok s' → same_tables s s'.
Proof. unfold generateConnectedClients. intros Hb. by repeat (case_match; simplify_eq/=). Qed.

Lemma take_clientEvt_same s s' : take_clientEvt s = Some s' → same_tables s s'.
Proof. unfold take_clientEvt. intros Hb. by repeat (case_match; simplify_eq/=). Qed.

Lemma MergeRemoteState_same s ca buf join s' :
  MergeRemoteState s ca buf join = Ok (Some s') → same_tables s s'.
Proof.
  unfold MergeRemoteState. intros Hm. repeat (case_match; simplify_eq/=; try done).
  apply go_bind_Ok in Hm as (s1 & Hm & [= <-]). by rewrite (merge_acme_frame _ _ _ _ Hm).
Qed.

Lemma handlePeerMessage_same s ca m s' : handlePeerMessage s ca m = Ok s' → same_tables s s'.
Proof. unfold handlePeerMessage. intros Hr. by repeat (case_match; simplify_eq/=). Qed.

(** Every step of a server is a step of its directory, or none. *)
Lemma server_step_moves `{!ConstructorsOk reg} id e s bg s' bg' :
  sys_inv id (s, bg) → server_step reg e (s, bg) = Some (s', bg') → dir_moves s s'.
Proof.
  intros (Hs & Hid & Hp & Hr) He. cbn in Hs, Hid, Hp, Hr. apply server_step_kind in He.
  destruct He as [e r _ _|e ms _|e i m dial open werr _|i cf r s' r' Hi _ Hst|s' _ Ht|peers w s' _ _ Hg
    |e s' Hs'|e|ca buf join s' Hm|s' Hm|ca m s' Hm]; try by apply same_tables_moves.
  - eapply routine_step_moves; [|done]. rewrite Hid. by eapply (Forall_lookup_1 _ _ _ _ Hr).
  - by apply same_tables_moves, take_clientEvt_same.
  - by eapply same_tables_moves, generate_same.
  - apply same_tables_moves. by destruct Hs' as [-> | ->].
  - by eapply same_tables_moves, MergeRemoteState_same.
  - by apply handleMerge_moves.
  - by eapply same_tables_moves, handlePeerMessage_same.
Qed.

(** *** The channel of announcements *)

(** Only merging touches the channel: one send or one receive. *)
Inductive updates_move (u : chan ConnectedClients) : chan ConnectedClients → Prop :=
| um_same : updates_move u u
| um_send c u' : chan_send u c = Sent u' → updates_move u u'
| um_recv x u' : chan_recv u = Received x u' → updates_move u u'.

Lemma updates_move_eq u u' : u' = u → updates_move u u'.
Proof. intros ->. constructor. Qed.

Lemma MergeRemoteState_updates s ca buf join s' :
  MergeRemoteState s ca buf join = Ok (Some s') → updates_move (s_updatesCh s) (s_updatesCh s').
Proof.
  unfold MergeRemoteState. intros Hm. repeat (case_match; simplify_eq/=; try constructor).
  - apply go_bind_Ok in Hm as (s1 & Hm & [= <-]). rewrite (merge_acme_frame _ _ _ _ Hm). constructor.
  - by eapply um_send.
Qed.

Lemma server_step_updates e s bg s' bg' :
  server_step reg e (s, bg) = Some (s', bg') → updates_move (s_updatesCh s) (s_updatesCh s').
Proof.
  intros He. apply server_step_kind in He.
  destruct He as [e r _ _|e ms _|e i m dial open werr _|i cf r s' r' Hi _ Hst|s' _ Ht|peers w s' _ _ Hg
    |e s' Hs'|e|ca buf join s' Hm|s' Hm|ca m s' Hm]; try constructor.
  - apply updates_move_eq. by apply (routine_step_frame reg) in Hst as (? & _).
  - apply updates_move_eq. unfold take_clientEvt in Ht. by repeat (case_match; simplify_eq/=).
  - apply updates_move_eq. unfold generateConnectedClients in Hg. by repeat (case_match; simplify_eq/=).
  - apply updates_move_eq. by destruct Hs' as [-> | ->].
  - by eapply MergeRemoteState_updates.
  - unfold handleMerge in Hm. destruct (chan_recv _) as [x ch| |] eqn:Er; [|done..].
    destruct (cc_Peer x =? _); simplify_eq/=; by eapply um_recv.
  - apply updates_move_eq. unfold handlePeerMessage in Hm. by repeat (case_match; simplify_eq/=).
Qed.

Definition updates_ok (u : chan ConnectedClients) : Prop :=
  ch_cap u = 16%nat ∧ (length (ch_buf u) ≤ 16)%nat ∧ ch_closed u = false.

Lemma updates_move_ok u u' : updates_ok u → updates_move u u' → updates_ok u'.
Proof.
  intros (Hc & Hl & Hcl) Hm. destruct Hm as [|c u' Hs|x u' Hr]; [done| |].
  - unfold chan_send in Hs. rewrite Hcl in Hs.
    destruct (Nat.ltb_spec (length (ch_buf u)) (ch_cap u)) as [Hlt|]; simplify_eq.
    split_and!; cbn; [done| |done]. rewrite length_app. cbn. lia.
  - unfold chan_recv in Hr. destruct (ch_buf u) as [|y b] eqn:Eb; [by destruct (ch_closed u)|].
    simplify_eq. split_and!; cbn in *; [done|lia|done].
Qed.

(** *** The number of neighbours in acknowledgements *)
Lemma AckPayload_roundtrip s n :
  pm_num (s_peers s) = n → 0 ≤ n < 2 ^ 63 →
  PeerMap_Len (s_peers s) = n ∧
  ∃ b, AckPayload s = Ok b ∧ zlen b = 8 ∧
    ∀ other m, Meta_UnmarshalBinary zero_Meta (node_Meta other) = Ok m →
      NotifyPingComplete other b = Ok (Some n).
Proof.
  intros Hn Hb. assert (PeerMap_Len (s_peers s) = n) as Hlen.
  { unfold PeerMap_Len, int_of_uint64. rewrite Hn. destruct (Z.ltb_spec n (2 ^ 63)); lia. }
  split; [done|]. unfold AckPayload. rewrite Hlen. unfold uint64_of_int.
  rewrite wrap64_small by (unfold u64; lia).
  change (make_bytes 8) with (Ok (replicate 8 0)). cbn [mbind go_bind].
  rewrite <-(app_nil_r (replicate 8 0)), (PutUint_hit 8) by done.
  exists (be_bytes 8 n). rewrite app_nil_r. split_and!; [done|done|].
  intros other m Hm. unfold NotifyPingComplete. rewrite Hm, Uint_full by apply length_be_bytes.
  cbn. rewrite be64_roundtrip; [done|]. unfold u64. lia.
Qed.

(** Lookups answer as the directory prescribes. *)
Lemma findPath_routes s range link :
  server_inv s → range_ok range →
  ∃ o, findPath s range link = Ok o ∧ route (directory_of s) (Destination link) (Peer_Peer <$> o).
Proof.
  intros [Hp Hc Hg _ _] Hr. unfold findPath.
  destruct (PeerMap_Get (s_clients s) (Destination link)) as [p|] eqn:E.
  { eexists. split; [done|]. cbn. destruct (Hc _ _ E) as (_ & _ & ->).
    apply route_here, elem_of_dom. by eexists. }
  assert (Destination link ∉ d_clients (directory_of s)) as Hnot by by apply not_elem_of_dom.
  destruct (Who_spec _ range (Destination link) Hg Hr) as (q & -> & Hq). cbn.
  eexists. split; [done|]. destruct Hq as [Hq|[-> Hall]].
  - destruct (PeerMap_Get (s_peers s) q) as [p|] eqn:Ep; cbn.
    + destruct (Hp _ _ Ep) as (_ & _ & ->). apply route_on; [done| |done].
      apply elem_of_dom. by eexists.
    + eapply route_unreachable; [done|exact Hq|]. by apply not_elem_of_dom.
  - destruct (PeerMap_Get (s_peers s) 0) as [p|] eqn:Ep.
    { by destruct (Hp _ _ Ep). }
    apply route_unclaimed; [done|]. intros id (c & Hid & Hh). by rewrite (Hall _ _ Hid) in Hh.
Qed.
End Refinement.

(** ** Properties *)



(** C39: what a server reports about its sessions.  In every state its
    goroutines can bring it to in which no [NewPeer] or [Remove] is in progress,
    the number it puts into its ping acknowledgements is the number of its
    neighbours plus the number of sessions that a racing [Store] replaced, as
    long as that is below 2^63; the payload has 8 bytes, and every server that
    gets it with a decodable description reads this number back. *)
Theorem ack_reports_sessions {P} `{MuxPeer P} (reg : gmap Z (Constructor P)) `{XorFilter} `{Crypto}
    `{Json} conf self dec ring s0 s bg :
  server_New conf self dec ring = Ok s0 → reachable (server_step reg) (s0, idle) (s, bg) →
  Forall (λ r, routine_done r = true) (bg_routines bg) →
  let n := Z.of_nat (size (pm_peers (s_peers s))) + zlen (bg_lost_peers bg) in
  n < 2 ^ 63 →
  PeerMap_Len (s_peers s) = n ∧
  ∃ b, AckPayload s = Ok b ∧ zlen b = 8 ∧
    ∀ other m, Meta_UnmarshalBinary zero_Meta (node_Meta other) = Ok m →
      NotifyPingComplete other b = Ok (Some n).
Proof.
  intros Hnew Hr Hd n Hn. pose proof (server_New_counted reg _ _ _ _ _ _ Hnew Hr) as Hc.
  destruct (counted_quiet s bg Hc Hd) as [Hp _]. pose proof (zlen_nonneg (bg_lost_peers bg)).
  apply AckPayload_roundtrip; [|lia]. rewrite Hp. apply wrap64_small. unfold u64. lia.
Qed.

Lemma ack_reports_sessions_witness :
  ∃ s0 s bg, sample_new 42 = Ok s0 ∧ run sample_step sample_client (s0, idle) = Some (s, bg) ∧
    PeerMap_Len (s_peers s) = 0.
Proof.
  assert (is_ok (sample_new 42) = true) as Hok by (vm_compute; reflexivity).
  destruct (sample_new 42) as [s0| |] eqn:E0; [|discriminate Hok..].
  destruct (run sample_step sample_client (s0, idle)) as [[s bg]|] eqn:E.
  - assert (Forall (λ r, routine_done r = true) (bg_routines bg) ∧ size (pm_peers (s_peers s)) = 0%nat ∧
      bg_lost_peers bg = []) as (Hd & Hz & Hl).
    { vm_compute in E0. injection E0 as <-. vm_compute in E. injection E as <- <-. by repeat constructor. }
    exists s0, s, bg. split; [reflexivity|]. split; [exact E|]. unfold sample_new in E0.
    destruct (@ack_reports_sessions _ _ (@protocolRegistry sample_sessions) exact_filter sample_crypto
      (sample_json (mkSync 0 None None)) _ _ _ _ s0 s bg E0 (run_reachable _ _ _ _ E) Hd) as [H1 _].
    { by rewrite Hz, Hl. }
    by rewrite H1, Hz, Hl.
  - exfalso. vm_compute in E0. injection E0 as <-. by vm_compute in E.
Defined.
