(* ===== verification/Handshake.v ===== *)
(** * Handshake: what a stranger can do to a server

    The four listener handlers of [server/peers.go] and [server/clients.go],
    with the constructors the program registers ([mux]), run as concurrent
    goroutines: whatever bytes and errors the other side produces and however
    the statements interleave, the process survives, a refused handshake leaves
    no trace, and an accepted one stores exactly one session, which can only
    replace that of another handshake for the same identifier. *)
From S2P Require Import Prelude GoStd Link Message MuxChannel Multiplexer Mux PeerGraph PeerMap Meta Acme Server Gossip.

Open Scope Z_scope.

#[local] Arguments protocolRegistry : simpl never.

Section Handshake.
Context `{Sessions}.
Implicit Types s : Server muxPeer.

(** The session libraries return; they do not panic. *)
Hypothesis Hlib : ∀ id, is_panic (yamux_Client id) = false ∧ is_panic (yamux_Server id) = false.

Lemma Link_Unmarshal_no_panic l b : is_panic (Link_UnmarshalBinary l b) = false.
Proof.
  destruct (decide (zlen b = LinkSize)) as [Hl|Hl]; [|by rewrite Link_Unmarshal_badlen].
  apply link_buffer_split in Hl as (src & dst & p & a & -> & Hs & Hd).
  by rewrite Link_UnmarshalBinary_eq.
Qed.

Lemma multiplexer_New_no_panic (reg : gmap Z (Constructor muxPeer)) p : is_panic (multiplexer_New reg p) = false.
Proof. unfold multiplexer_New. by repeat case_match. Qed.

(** The arguments with which the listeners call [NewPeer]: a connector of the
    right kind. *)
Definition listener_conf (proto : Protocol) (conf : Config) : Prop :=
  ∃ conn peer, conf = mkConfig true (Some conn) peer false second ∧ connector_fits conn proto = true.

(** Building a session on the connector of the listener that accepted it. *)
Lemma build_no_panic proto conf :
  listener_conf proto conf → is_panic (c ← multiplexer_New protocolRegistry proto; c conf) = false.
Proof.
  intros (conn & peer & -> & Hfit).
  apply go_bind_no_panic; [apply multiplexer_New_no_panic|]. intros c [Hc _]%multiplexer_New_Ok.
  destruct (protocolRegistry_inv _ _ Hc) as [[-> ->]|[[-> ->]|[-> ->]]];
    unfold NewYamuxPeer, NewMplexPeer, NewQuicPeer;
    (apply go_bind_no_panic; [unfold Config_Validate; by repeat case_match|intros [] _]);
    destruct conn as [id|id]; try done.
  apply go_bind_no_panic; [apply wrap_err_no_panic, Hlib|done].
Qed.

Lemma acceptable_fits conn acceptable proto :
  (∃ id, conn = NetConn id ∧ acceptable = TLSProtos) ∨ (∃ id, conn = QuicSession id ∧ acceptable = QUICProtos) →
  existsb (λ p, p =? proto) acceptable = true → connector_fits conn proto = true.
Proof. intros [(id & -> & ->)|(id & -> & ->)] Hp%existsb_elem; cbn; by apply bool_decide_eq_true. Qed.

(** A negotiation calls [NewPeer] with such arguments, or fails. *)
Definition hello_ok (r : go (Protocol * Config)) : Prop :=
  match r with Ok (proto, conf) => listener_conf proto conf | Err _ => True | Panic _ => False end.

Lemma peer_hello_listener s conn rd acceptable :
  (∃ id, conn = NetConn id ∧ acceptable = TLSProtos) ∨ (∃ id, conn = QuicSession id ∧ acceptable = QUICProtos) →
  hello_ok (peer_hello protocolRegistry s conn rd acceptable).
Proof.
  intros Hl. unfold peer_hello. destruct (Read LinkSize rd) as [[got [e|]] r]; [done|].
  pose proof (Link_Unmarshal_no_panic zero_Link (fill LinkSize got)) as Hu.
  destruct (Link_UnmarshalBinary zero_Link (fill LinkSize got)) as [link| |]; [|done..]. cbn [wrap_err mbind go_bind].
  case_match; [done|]. destruct (existsb _ acceptable) eqn:He; [|done]. cbn [negb].
  pose proof (multiplexer_New_no_panic protocolRegistry (link_Protocol link)) as Hn.
  destruct (multiplexer_New protocolRegistry (link_Protocol link)); [|done..]. cbn [wrap_err mbind go_bind]. case_match; [done|].
  cbn. eexists conn, _. split; [done|]. by eapply acceptable_fits.
Qed.

Lemma client_hello_listener s conn rd acceptable name w je :
  (∃ id, conn = NetConn id ∧ acceptable = TLSProtos) ∨ (∃ id, conn = QuicSession id ∧ acceptable = QUICProtos) →
  hello_ok (r ← client_hello protocolRegistry s conn rd acceptable name w je; Ok r.1).
Proof.
  intros Hl. unfold client_hello. destruct (Read LinkSize rd) as [[got [e|]] r]; [done|].
  pose proof (Link_Unmarshal_no_panic zero_Link (fill LinkSize got)) as Hu.
  destruct (Link_UnmarshalBinary zero_Link (fill LinkSize got)) as [link| |]; [|done..]. cbn [wrap_err mbind go_bind].
  case_match; [done|]. destruct (existsb _ acceptable) eqn:He; [|done]. cbn [negb].
  pose proof (multiplexer_New_no_panic protocolRegistry (link_Protocol link)) as Hn.
  destruct (multiplexer_New protocolRegistry (link_Protocol link)); [|done..]. cbn [wrap_err mbind go_bind]. case_match; [done|].
  rewrite Link_MarshalBinary_eq. cbn. destruct (w _) as [n [e|]]; [done|]. case_match; [done|].
  destruct je; [done|]. cbn. eexists conn, _. split; [done|]. by eapply acceptable_fits.
Qed.

(** ** The two listeners alike

    [true] is the side of the peers, [false] that of the clients. *)
Definition sessions (d : bool) s : PeerMap muxPeer := if d then s_peers s else s_clients s.
Definition inside (d : bool) (t : thread muxPeer) : routine muxPeer := if d then InPeers t else InClients t.
Definition lost (d : bool) (bg : @background muxPeer) : list muxPeer :=
  if d then bg_lost_peers bg else bg_lost_clients bg.

(** The goroutine of a handshake when it is started. *)
Definition arrival s (e : @server_event muxPeer) : option (routine muxPeer) :=
  match e with
  | EvPeerTLS conn rd => Some (peerTLSHandshake protocolRegistry s conn rd)
  | EvPeerQUIC sess stream => Some (peerQUICHandshake protocolRegistry s sess stream)
  | EvClientTLS conn rd name w je => Some (clientTLSHandshake protocolRegistry s conn rd name w je)
  | EvClientQUIC sess stream name w je => Some (clientQUICHandshake protocolRegistry s sess stream name w je)
  | _ => None
  end.

Definition is_run (e : @server_event muxPeer) : bool := match e with EvRun _ _ => true | _ => false end.

(** Handshakes arrive and their goroutines run. *)
Definition knocking s (e : @server_event muxPeer) : Prop := is_run e = true ∨ is_Some (arrival s e).

(** The side and the identifier that a handshake asks for, if it is not refused
    before [NewPeer]. *)
Definition wants (r : routine muxPeer) : option (bool * Z) :=
  match r with
  | InPeers (NPLoad _ conf) => Some (true, cfg_Peer conf)
  | InClients (NPLoad _ conf) => Some (false, cfg_Peer conf)
  | _ => None
  end.

(** The handshake has stored its session. *)
Definition stored (t : thread muxPeer) : bool :=
  match t with NPCount _ | NPNotify _ | Returned (Ok _) => true | _ => false end.
Definition accepted (d : bool) (r : routine muxPeer) : bool :=
  match r with InPeers t => d && stored t | InClients t => negb d && stored t | _ => false end.

(** How many have, on one side. *)
Definition kept (d : bool) (rs : list (routine muxPeer)) : nat :=
  sum_list_with (λ r, Nat.b2n (accepted d r)) rs.

Definition panicked (r : routine muxPeer) : bool :=
  match r with InPeers (Returned (Panic _)) | InClients (Returned (Panic _)) => true | _ => false end.

(** How many statements a call of [NewPeer] has left, at most. *)
Definition left (t : thread muxPeer) : nat :=
  match t with
  | NPLoad _ _ => 6 | NPBuild _ _ => 5 | NPWait _ _ => 4 | NPStore _ _ => 3 | NPCount _ => 2
  | NPNotify _ => 1 | _ => 0
  end.
Definition routine_left (r : routine muxPeer) : nat :=
  match r with InPeers t | InClients t => left t | _ => 0 end.

(** *** One handshake *)

(** Where a handshake for [key] can be, if the map was [m0] when it all began:
    past the [Load] it carries a session for an identifier that [m0] does not
    have. *)
Definition handshaking (m0 : gmap Z muxPeer) (key : option Z) (t : thread muxPeer) : Prop :=
  match t with
  | NPLoad proto conf => key = Some (cfg_Peer conf) ∧ listener_conf proto conf
  | NPBuild proto conf => key = Some (cfg_Peer conf) ∧ listener_conf proto conf ∧ m0 !! cfg_Peer conf = None
  | NPWait id p | NPStore id p => key = Some id ∧ m0 !! id = None ∧ Peer_Peer p = id
  | NPCount _ | NPNotify _ | Returned (Ok _) => is_Some key
  | Returned (Err _) => True
  | _ => False
  end.

Lemma handshaking_step m0 key cf m t m' t' :
  handshaking m0 key t → m0 ⊆ pm_peers m → call_step protocolRegistry cf m t = (m', t') →
  handshaking m0 key t' ∧ is_remove t = false ∧
  (stored t' = stored t ∧ pm_peers m' = pm_peers m ∧ replaces m t = [] ∨
   ∃ id p, t = NPStore id p ∧ stored t' = true ∧ pm_peers m' = <[id := p]> (pm_peers m)).
Proof.
  intros Ht Hm Hs.
  destruct t as [proto conf|proto conf|id p|id p|p|p|id|p|p|[u|e|e]]; cbn [call_step] in Hs; cbn in Ht; simplify_eq; cbn; try done.
  - destruct Ht as [Hk Hl]. destruct (pm_peers m' !! cfg_Peer conf) eqn:E; cbn; [by auto 10|].
    split; [|by auto 10]. split_and!; try done. by eapply lookup_weaken_None.
  - destruct Ht as (Hk & Hl & Hn). pose proof (build_no_panic proto conf Hl) as Hp.
    destruct (multiplexer_New protocolRegistry proto ≫= λ c, c conf) as [p| |] eqn:E; cbn; [|by auto 10|done].
    split; [|by auto 10]. apply go_bind_Ok in E as (c & [Hc _]%multiplexer_New_Ok & Ep).
    by destruct (constructor_conf _ _ _ _ Hc Ep) as (_ & Hpp & _).
  - destruct cf; cbn; auto 10.
  - split; [by destruct Ht; eexists|]. split; [done|]. right. by exists id, p.
  - auto 10.
  - auto 10.
  - auto 10.
  - auto 10.
Qed.

Lemma call_step_left cf m t m' t' :
  is_remove t = false → returned t = false → call_step protocolRegistry cf m t = (m', t') → (left t' < left t)%nat.
Proof. intros Hr Hd Hs. destruct t; cbn in Hs; simplify_eq; cbn; try done; repeat case_match; cbn; lia. Qed.

(** *** All handshakes *)

(** The side [d] of a server that began as [s0], with the goroutines [rs0]
    started and now [rs]. *)
Record side_inv (d : bool) s0 (rs0 : list (routine muxPeer)) s (bg : @background muxPeer) : Prop := {
  sd_keeps : pm_peers (sessions d s0) ⊆ pm_peers (sessions d s);
  sd_from : ∀ id p, pm_peers (sessions d s) !! id = Some p →
    pm_peers (sessions d s0) !! id = Some p ∨
    Peer_Peer p = id ∧ ∃ i r0 r, rs0 !! i = Some r0 ∧ wants r0 = Some (d, id) ∧
      bg_routines bg !! i = Some r ∧ accepted d r = true;
  sd_lost : ∀ p, p ∈ lost d bg → ∃ i j ri rj, i ≠ j ∧ rs0 !! i = Some ri ∧ rs0 !! j = Some rj ∧
    wants ri = Some (d, Peer_Peer p) ∧ wants rj = Some (d, Peer_Peer p);
  sd_count : (size (pm_peers (sessions d s)) + length (lost d bg) =
    size (pm_peers (sessions d s0)) + kept d (bg_routines bg))%nat;
}.

(** Goroutine [r] is what became of [r0]. *)
Definition became s0 (r0 r : routine muxPeer) : Prop :=
  ∃ d t, r = inside d t ∧
    handshaking (pm_peers (sessions d s0)) (match wants r0 with Some (d', k) => if eqb d d' then Some k else None
                                            | None => None end) t.

Record knock_inv s0 (rs0 : list (routine muxPeer)) (n : nat) (sys : Server muxPeer * @background muxPeer) : Prop := {
  ki_frame : sys.1 = with_peers (s_peers sys.1) (with_clients (s_clients sys.1) s0);
  ki_became : Forall2 (became s0) rs0 (bg_routines sys.2);
  ki_sides : ∀ d, side_inv d s0 rs0 sys.1 sys.2;
  ki_left : (n + sum_list_with routine_left (bg_routines sys.2) ≤ 6 * length rs0)%nat;
}.

Lemma knock_inv_init s : knock_inv s [] 0 (s, idle).
Proof.
  split; cbn; [by destruct s|constructor| |done]. intros d. split; cbn; [done|by auto| |].
  - intros p Hp. destruct d; cbn in Hp; set_solver.
  - by destruct d; cbn; rewrite Nat.add_0_r.
Qed.

(** *** A handshake arrives *)
Lemma negotiates_became s0 d (r : go (Protocol * Config)) :
  hello_ok r → let r0 := negotiates (inside d) r in
  became s0 r0 r0 ∧ (routine_left r0 ≤ 6)%nat ∧ ∀ d', accepted d' r0 = false.
Proof.
  destruct r as [[proto conf]|e|]; cbn; [|intros _..|done].
  - intros Hl. split; [|destruct d; split; cbn; [lia|by intros []|lia|by intros []]].
    exists d, (NPLoad proto conf). split; [done|]. by destruct d.
  - split; [exists d, (Returned (Err e)); by destruct d|]. destruct d; split; cbn; [lia|by intros []|lia|by intros []].
Qed.

Lemma arrival_became s0 e r :
  arrival s0 e = Some r → became s0 r r ∧ (routine_left r ≤ 6)%nat ∧ ∀ d, accepted d r = false.
Proof.
  destruct e as [conn rd|sess [rd|e]|conn rd name w je|sess [rd|e] name w je| | | | | | | | | | | | | |];
    intros Ha; simplify_eq/=.
  - apply (negotiates_became s0 true), peer_hello_listener. eauto.
  - apply (negotiates_became s0 true), peer_hello_listener. eauto.
  - by apply (negotiates_became s0 true (Err e)).
  - apply (negotiates_became s0 false), client_hello_listener. eauto.
  - apply (negotiates_became s0 false), client_hello_listener. eauto.
  - by apply (negotiates_became s0 false (Err e)).
Qed.

Lemma side_inv_arrival d s0 rs0 s bg r :
  length rs0 = length (bg_routines bg) → accepted d r = false →
  side_inv d s0 rs0 s bg → side_inv d s0 (rs0 ++ [r]) s (bg_spawn r bg).
Proof.
  intros Hlen Hr [Hk Hf Hl Hc]. split; cbn; [done| | |].
  - intros id p [Hp|(Hp & i & r0 & ri & H1 & H2 & H3 & H4)]%Hf; [by left|right]. split; [done|].
    exists i, r0, ri. split_and!; try done; by apply lookup_app_l_Some.
  - destruct d; cbn in *; intros p (i & j & ri & rj & Hne & H1 & H2 & H3 & H4)%Hl;
      exists i, j, ri, rj; split_and!; try done; by apply lookup_app_l_Some.
  - unfold kept in *. rewrite sum_list_with_app. cbn. rewrite Hr. cbn. destruct d; cbn in *; lia.
Qed.

Lemma knock_inv_arrival s0 rs0 n s bg e r :
  arrival s0 e = Some r → knock_inv s0 rs0 n (s, bg) → knock_inv s0 (rs0 ++ [r]) n (s, bg_spawn r bg).
Proof.
  intros (Hb & H6 & Ha)%arrival_became [Hf Hr Hs Hl]. cbn in *. split; cbn; [done| | |].
  - apply Forall2_app; [done|by repeat constructor].
  - intros d. apply side_inv_arrival; [by eapply Forall2_length|done..].
  - rewrite sum_list_with_app, length_app. cbn. lia.
Qed.

(** *** A handshake executes a statement *)
Lemma sum_list_with_insert (f : routine muxPeer → nat) rs i r r' :
  rs !! i = Some r → (sum_list_with f (<[i := r']> rs) + f r = sum_list_with f rs + f r')%nat.
Proof.
  revert i. induction rs as [|r0 rs IH]; intros [|i] Hi; [done..| |].
  - injection Hi as ->. change (<[0%nat := r']> (r :: rs)) with (r' :: rs). cbn. lia.
  - change (<[S i := r']> (r0 :: rs)) with (r0 :: <[i := r']> rs). cbn. specialize (IH i Hi). lia.
Qed.

Lemma routine_step_inside cf d s t m t' :
  is_remove t = false → call_step protocolRegistry cf (sessions d s) t = (m, t') →
  routine_step protocolRegistry cf s (inside d t) =
    (if d then with_peers m s else with_clients m s, inside d t').
Proof. intros Hr Hs. destruct d; cbn in *; by rewrite Hs; unfold after_call; rewrite Hr. Qed.

(** Nothing happens on a side, *)
Lemma side_inv_same d s0 rs0 s bg s' bg' i r r' :
  side_inv d s0 rs0 s bg → pm_peers (sessions d s') = pm_peers (sessions d s) → lost d bg' = lost d bg →
  bg_routines bg !! i = Some r → bg_routines bg' = <[i := r']> (bg_routines bg) → accepted d r' = accepted d r →
  side_inv d s0 rs0 s' bg'.
Proof.
  intros [Hk Hf Hl Hc] Hp Hlo Hi Hrs Ha. split; rewrite ?Hp, ?Hlo, ?Hrs; try done.
  - intros id p [H1|(H1 & j & r0 & rj & H2 & H3 & H4 & H5)]%Hf; [by left|right]. split; [done|].
    destruct (decide (i = j)) as [->|Hne].
    + simplify_eq. exists j, r0, r'. split_and!; [done|done| |congruence].
      apply list_lookup_insert_eq. by eapply lookup_lt_Some.
    + exists j, r0, rj. split_and!; try done. by rewrite list_lookup_insert_ne.
  - pose proof (sum_list_with_insert (λ r, Nat.b2n (accepted d r)) _ i r r' Hi) as Hsum. cbn in Hsum.
    unfold kept in *. rewrite Ha in Hsum. lia.
Qed.

(** or a session is stored there. *)
Lemma side_inv_store d s0 rs0 s bg s' bg' i r0 id p t' :
  side_inv d s0 rs0 s bg → pm_peers (sessions d s0) !! id = None → Peer_Peer p = id →
  rs0 !! i = Some r0 → wants r0 = Some (d, id) → bg_routines bg !! i = Some (inside d (NPStore id p)) →
  pm_peers (sessions d s') = <[id := p]> (pm_peers (sessions d s)) → stored t' = true →
  lost d bg' = lost d bg ++ option_list (pm_peers (sessions d s) !! id) →
  bg_routines bg' = <[i := inside d t']> (bg_routines bg) → side_inv d s0 rs0 s' bg'.
Proof.
  intros [Hk Hf Hl Hc] Hn Hpp Hr0 Hw Hi Hp Hst Hlo Hrs.
  assert (accepted d (inside d t') = true) as Ha by (destruct d; cbn; by rewrite Hst).
  assert (<[i := inside d t']> (bg_routines bg) !! i = Some (inside d t')) as Hii.
  { apply list_lookup_insert_eq. by eapply lookup_lt_Some. }
  assert (∀ j rj, bg_routines bg !! j = Some rj → accepted d rj = true → j ≠ i) as Hother.
  { intros j rj Hj Haj ->. simplify_eq. by destruct d. }
  split; rewrite ?Hp, ?Hlo, ?Hrs.
  - by apply insert_subseteq_r.
  - intros k q. rewrite lookup_insert_Some. intros [[<- <-]|[Hne Hq]].
    { right. split; [done|]. by exists i, r0, (inside d t'). }
    apply Hf in Hq as [Hq|(Hq & j & rj0 & rj & H1 & H2 & H3 & H4)]; [by left|right]. split; [done|].
    exists j, rj0, rj. split_and!; try done. rewrite list_lookup_insert_ne; [done|].
    apply not_eq_sym. by eapply Hother.
  - intros q [Hq|Hq]%elem_of_app; [by apply Hl|].
    destruct (pm_peers (sessions d s) !! id) as [old|] eqn:E; cbn in Hq; [|set_solver].
    apply list_elem_of_singleton in Hq as ->.
    apply Hf in E as [E|(Hold & j & rj0 & rj & H1 & H2 & H3 & H4)]; [congruence|].
    exists i, j, r0, rj0. rewrite Hold. split_and!; try done. apply not_eq_sym. by eapply Hother.
  - pose proof (sum_list_with_insert (λ r, Nat.b2n (accepted d r)) _ i _ (inside d t') Hi) as Hsum. cbn in Hsum.
    rewrite Ha in Hsum. replace (accepted d (inside d (NPStore id p))) with false in Hsum by by destruct d.
    cbn in Hsum. unfold kept in *. rewrite length_app.
    destruct (pm_peers (sessions d s) !! id) as [old|] eqn:E; cbn.
    + rewrite map_size_insert_Some by eauto. lia.
    + rewrite map_size_insert_None by done. lia.
Qed.

Lemma inside_done d t : routine_done (inside d t) = returned t.
Proof. by destruct d, t. Qed.

Lemma bg_ran_lost d d' i s t r' s' bg :
  lost d (bg_ran i s (inside d' t) r' s' bg) =
    lost d bg ++ if eqb d d' then replaces (sessions d s) t else [].
Proof. by destruct d, d'. Qed.

Lemma knock_inv_run cf s0 rs0 n s bg i r s' r' :
  knock_inv s0 rs0 n (s, bg) → bg_routines bg !! i = Some r → routine_done r = false →
  routine_step protocolRegistry cf s r = (s', r') → knock_inv s0 rs0 (S n) (s', bg_ran i s r r' s' bg).
Proof.
  intros [Hfr Hrs Hsd Hle] Hi Hd Hst. cbn in *.
  destruct (Forall2_lookup_r _ _ _ _ _ Hrs Hi) as (r0 & Hr0 & d & t & -> & Ht).
  destruct (call_step protocolRegistry cf (sessions d s) t) as [m t'] eqn:Hcall.
  destruct (handshaking_step _ _ _ _ _ _ _ Ht (sd_keeps _ _ _ _ _ (Hsd d)) Hcall) as (Ht' & Hrem & Hmove).
  rewrite (routine_step_inside _ _ _ _ _ _ Hrem Hcall) in Hst. injection Hst as <- <-.
  rewrite inside_done in Hd. pose proof (call_step_left _ _ _ _ _ Hrem Hd Hcall) as Hlt.
  split; cbn.
  - rewrite Hfr. by destruct d.
  - rewrite <-(list_insert_id rs0 i r0 Hr0). apply Forall2_insert; [done|]. by exists d, t'.
  - intros d'. destruct (decide (d' = d)) as [->|Hne].
    + destruct Hmove as [(Hst & Hp & Hno)|(id & p & -> & Hst & Hp)].
      * eapply side_inv_same; [apply Hsd| | |exact Hi|done|].
        -- by destruct d.
        -- by rewrite bg_ran_lost, eqb_reflx, Hno, app_nil_r.
        -- destruct d; cbn; by rewrite Hst.
      * cbn in Ht. destruct Ht as (Hk & Hn & Hpp).
        eapply (side_inv_store d s0 rs0 s bg _ _ i r0 id p t'); [apply Hsd|done|done|done| |done| |done| |done].
        -- destruct (wants r0) as [[d' k]|]; [|done]. by destruct d, d'; simplify_eq/=.
        -- by destruct d.
        -- by rewrite bg_ran_lost, eqb_reflx.
    + eapply side_inv_same; [apply Hsd| | |exact Hi|done|].
      * by destruct d, d'.
      * rewrite bg_ran_lost, (proj2 (eqb_false_iff _ _)) by done. by rewrite app_nil_r.
      * by destruct d, d'.
  - pose proof (sum_list_with_insert routine_left _ i _ (inside d t') Hi) as Hsum.
    replace (routine_left (inside d t)) with (left t) in Hsum by by destruct d.
    replace (routine_left (inside d t')) with (left t') in Hsum by by destruct d.
    lia.
Qed.

(** *** A run of handshakes *)
Context `{XorFilter} `{Crypto} `{Json}.

(** What a handshake reads of the server does not change meanwhile. *)
Lemma arrival_frame s0 s e : s = with_peers (s_peers s) (with_clients (s_clients s) s0) → arrival s e = arrival s0 e.
Proof. intros ->. by destruct e. Qed.

Lemma knock_inv_runs es s0 rs0 n sys sys' :
  Forall (knocking s0) es → knock_inv s0 rs0 n sys → run (server_step protocolRegistry) es sys = Some sys' →
  knock_inv s0 (rs0 ++ omap (arrival s0) es) (n + length (filter (λ e, is_run e = true) es)) sys'.
Proof.
  intros Hes. revert rs0 n sys. induction Hes as [|e es He _ IH]; intros rs0 n [s bg] Hinv Hrun.
  { injection Hrun as <-. by rewrite app_nil_r, Nat.add_0_r. }
  cbn [run] in Hrun. destruct (server_step protocolRegistry e (s, bg)) as [[s1 bg1]|] eqn:Hs; [|done].
  destruct He as [Hr|[r Ha]].
  - destruct e; try done. cbn in Hs. destruct (bg_routines bg !! i) as [r|] eqn:Hi; [|done]. cbn in Hs.
    destruct (routine_done r) eqn:Hd; [done|].
    destruct (routine_step protocolRegistry closed_first s r) as [s2 r'] eqn:Hst. injection Hs as <- <-.
    rewrite filter_cons_True by done. cbn [length omap list_omap arrival]. rewrite Nat.add_succ_r.
    apply (IH rs0 (S n) _ (knock_inv_run _ _ _ _ _ _ _ _ _ _ Hinv Hi Hd Hst) Hrun).
  - assert (is_run e = false) as Hr by (by destruct e).
    rewrite filter_cons_False by (by rewrite Hr). cbn. rewrite Ha.
    change (r :: omap (arrival s0) es) with ([r] ++ omap (arrival s0) es). rewrite (assoc_L (++)).
    apply (IH (rs0 ++ [r]) n (s1, bg1)); [|done].
    rewrite <-(arrival_frame s0 s e (ki_frame _ _ _ _ Hinv)) in Ha.
    assert (s1 = s ∧ bg1 = bg_spawn r bg) as [-> ->] by (destruct e; by simplify_eq/=).
    rewrite (arrival_frame s0 s e (ki_frame _ _ _ _ Hinv)) in Ha. by eapply knock_inv_arrival.
Qed.

Lemma became_calm s0 r0 r : became s0 r0 r → panicked r = false.
Proof. intros (d & t & -> & Ht). by destruct d, t as [| | | | | | | | |[]]. Qed.
End Handshake.

(** ** Properties *)


(** A stranger that sends garbage, and a client, in between. *)
Definition sample_knocks : list (@server_event muxPeer) :=
  EvPeerTLS 4 [([1; 2; 3], None)] ::
  EvClientTLS 5 sample_hello "correct-horse" (λ b, (zlen b, None)) None :: replicate 6 (EvRun 1 false).

