(* ===== verification/Leader.v ===== *)
(** * Leader: election and certificate renewal

    [server/leader.go].  The two goroutines [handleMembershipChange] and
    [leaderTimer], the checks the latter spawns, their three channels, the changes
    of the peers and the goroutines that report them are a transition system;
    the ACME checks themselves are functions on the
    certificate manager. *)
From S2P Require Import Prelude GoStd PeerMap Acme.

Open Scope Z_scope.

(** ** Election *)

(** The loop over the snapshot with our own identifier appended. *)
Definition lowest_of (peers : list Z) : Z :=
  foldl (λ lowest peer, if peer <? lowest then peer else lowest) (2 ^ 64 - 1) peers.
Definition elect (self : Z) (snapshot : list Z) : Z := lowest_of (snapshot ++ [self]).

(** Where [handleMembershipChange] is: at its select, in the enumeration of
    [s.peers.Snapshot()], or sending. *)
Inductive member_pc := MSelect | MRange (w : range_window) | MSendStart | MSendStop.
(** Where [leaderTimer] is: at its select, or sending on [stopLeader]. *)
Inductive timer_pc := TSelect | TSendStop.
(** The channel of [time.After]: nil or drained, running, or holding a value. *)
Inductive timer_chan := TimerNil | TimerRunning | TimerFired.

Record leader_sys := mkLS {
  ls_self : Z;
  ls_peers : list Z;              (* the keys of [s.peers] *)
  ls_changing : nat;              (* goroutines that changed [s.peers] and have not sent their token *)
  ls_currentLeader : Z;
  ls_membership : nat;            (* tokens waiting on [membershipCh] *)
  ls_start : chan unit;
  ls_stop : chan unit;
  ls_mpc : member_pc;
  ls_tpc : timer_pc;
  ls_timer : timer_chan;
  ls_checking : nat;              (* goroutines running the ACME checks *)
  ls_restarting : nat;            (* goroutines sending on [startLeader] afterwards *)
}.

(** [ListenForPeers] has sent the first token. *)
Definition init_leader (self : Z) (peers : list Z) : leader_sys :=
  mkLS self peers 0 0 1 (make_chan 1) (make_chan 1) MSelect TSelect TimerNil 0 0.

Inductive leader_label :=
| LPeers (peers : list Z)   (* a goroutine stores or deletes a session *)
| LToken                    (* and sends its token, later *)
| LMember                   (* [handleMembershipChange] takes a token *)
| LElect (peers : list Z)   (* and elects among what [Snapshot] returned *)
| LMemberSend               (* and its send completes *)
| LTimerStart               (* [leaderTimer] receives from [startLeader] *)
| LTimerStop                (* from [stopLeader] *)
| LTimerFired               (* from the timer *)
| LTimerSend                (* and its send on [stopLeader] completes *)
| LFire                     (* the timer expires *)
| LCheckDone                (* a check ends *)
| LCheckSend.               (* and its send on [startLeader] completes *)

Definition set_member (s : leader_sys) (leader : Z) (tokens : nat) (pc : member_pc) : leader_sys :=
  mkLS (ls_self s) (ls_peers s) (ls_changing s) leader tokens (ls_start s) (ls_stop s) pc (ls_tpc s) (ls_timer s)
    (ls_checking s) (ls_restarting s).
Definition set_chans (s : leader_sys) (start stop : chan unit) : leader_sys :=
  mkLS (ls_self s) (ls_peers s) (ls_changing s) (ls_currentLeader s) (ls_membership s) start stop (ls_mpc s)
    (ls_tpc s) (ls_timer s) (ls_checking s) (ls_restarting s).
Definition set_timer (s : leader_sys) (pc : timer_pc) (t : timer_chan) : leader_sys :=
  mkLS (ls_self s) (ls_peers s) (ls_changing s) (ls_currentLeader s) (ls_membership s) (ls_start s) (ls_stop s)
    (ls_mpc s) pc t (ls_checking s) (ls_restarting s).
Definition set_checks (s : leader_sys) (checking restarting : nat) : leader_sys :=
  mkLS (ls_self s) (ls_peers s) (ls_changing s) (ls_currentLeader s) (ls_membership s) (ls_start s) (ls_stop s)
    (ls_mpc s) (ls_tpc s) (ls_timer s) checking restarting.

(** The enumeration of [s.peers] begins, and the peers change meanwhile. *)
Definition peers_open (peers : list Z) : range_window := mkWindow (list_to_set peers) (list_to_set peers).
Definition peers_move (peers : list Z) (pc : member_pc) : member_pc :=
  match pc with
  | MRange w => MRange (mkWindow (rw_all w ∩ list_to_set peers) (rw_some w ∪ list_to_set peers))
  | _ => pc
  end.

(** [handleMembershipChange] after the snapshot. *)
Definition membership_step (s : leader_sys) (snapshot : list Z) : leader_sys :=
  let lowest := elect (ls_self s) snapshot in
  if ls_currentLeader s =? lowest then set_member s lowest (ls_membership s) MSelect
  else set_member s lowest (ls_membership s) (if ls_self s =? lowest then MSendStart else MSendStop).

Definition leader_step (l : leader_label) (s : leader_sys) : option leader_sys :=
  match l with
  | LPeers peers =>
      Some (mkLS (ls_self s) peers (S (ls_changing s)) (ls_currentLeader s) (ls_membership s) (ls_start s)
              (ls_stop s) (peers_move peers (ls_mpc s)) (ls_tpc s) (ls_timer s) (ls_checking s)
              (ls_restarting s))
  | LToken =>
      match ls_changing s with
      | O => None
      | S n =>
          Some (mkLS (ls_self s) (ls_peers s) n (ls_currentLeader s) (S (ls_membership s)) (ls_start s)
                  (ls_stop s) (ls_mpc s) (ls_tpc s) (ls_timer s) (ls_checking s) (ls_restarting s))
      end
  | LMember =>
      match ls_mpc s, ls_membership s with
      | MSelect, S n => Some (set_member s (ls_currentLeader s) n (MRange (peers_open (ls_peers s))))
      | _, _ => None
      end
  | LElect snapshot =>
      match ls_mpc s with
      | MRange w => if snapshot_ok w snapshot then Some (membership_step s snapshot) else None
      | _ => None
      end
  | LMemberSend =>
      match ls_mpc s with
      | MSelect | MRange _ => None
      | MSendStart =>
          match chan_send (ls_start s) tt with
          | Sent c => Some (set_chans (set_member s (ls_currentLeader s) (ls_membership s) MSelect)
                              c (ls_stop s))
          | _ => None
          end
      | MSendStop =>
          match chan_send (ls_stop s) tt with
          | Sent c => Some (set_chans (set_member s (ls_currentLeader s) (ls_membership s) MSelect)
                              (ls_start s) c)
          | _ => None
          end
      end
  | LTimerStart =>
      match ls_tpc s, chan_recv (ls_start s) with
      | TSelect, Received _ c => Some (set_timer (set_chans s c (ls_stop s)) TSelect TimerRunning)
      | _, _ => None
      end
  | LTimerStop =>
      match ls_tpc s, chan_recv (ls_stop s) with
      | TSelect, Received _ c => Some (set_timer (set_chans s (ls_start s) c) TSelect TimerNil)
      | _, _ => None
      end
  | LTimerFired =>
      match ls_tpc s, ls_timer s with
      | TSelect, TimerFired =>
          if negb (ls_self s =? ls_currentLeader s) then Some (set_timer s TSendStop TimerNil)
          else Some (set_checks (set_timer s TSelect TimerNil) (S (ls_checking s)) (ls_restarting s))
      | _, _ => None
      end
  | LTimerSend =>
      match ls_tpc s, chan_send (ls_stop s) tt with
      | TSendStop, Sent c => Some (set_timer (set_chans s (ls_start s) c) TSelect (ls_timer s))
      | _, _ => None
      end
  | LFire =>
      match ls_timer s with
      | TimerRunning => Some (set_timer s (ls_tpc s) TimerFired)
      | _ => None
      end
  | LCheckDone =>
      match ls_checking s with
      | O => None
      | S n =>
          if ls_self s =? ls_currentLeader s
          then Some (set_checks s n (S (ls_restarting s)))
          else Some (set_checks s n (ls_restarting s))
      end
  | LCheckSend =>
      match ls_restarting s, chan_send (ls_start s) tt with
      | S n, Sent c => Some (set_checks (set_chans s c (ls_stop s)) (ls_checking s) n)
      | _, _ => None
      end
  end.

(** ** The checks of the leader *)
Section Checks.
Context `{Crypto}.

(** [checkACMEAccountKeys]: the manager, and the account announced to the
    peers, if any.  A failed JSON encoding is [json_ok = false]. *)
Definition checkACMEAccountKeys (ca : CA) (json_ok : bool) : M (option AccountFile) := λ c,
  let '(c0, r) := ExportAccount c in
  match r with
  | Panic p => (c0, Panic p)
  | Ok _ => (c0, Ok None)
  | Err e =>
      if errors_Is e ErrNoAccount then
        let '(c1, r1) := LoadAccountFromFile ca c0 in
        match r1 with
        | Panic p => (c1, Panic p)
        | _ =>
            let create := match r1 with Err e1 => errors_Is e1 ErrNoAccount | _ => false end in
            let '(c2, r2) := if create then CreateAccount ca c1 else (c1, Ok tt) in
            match r2 with
            | Panic p => (c2, Panic p)
            | Err _ => (c2, Ok None)
            | Ok _ =>
                let '(c3, r3) := ExportAccount c2 in
                match r3 with
                | Panic p => (c3, Panic p)
                | Err _ => (c3, Ok None)
                | Ok af => (c3, Ok (if json_ok then Some af else None))
                end
            end
        end
      else (c0, Ok None)
  end.

(** [x509.ParseCertificate] on the chain of a certificate: the DNS names and
    the expiry of each element. *)
Definition parsed_chain := list (go (list string * Z)).

(** The loop that looks for the leaf: the last element with a name contained in
    our domain; a parse error gives up. *)
Fixpoint find_leaf (domain : string) (chain : parsed_chain) (leaf : option Z) : option (option Z) :=
  match chain with
  | [] => Some leaf
  | Ok (names, notAfter) :: rest =>
      find_leaf domain rest (if existsb (Contains domain) names then Some notAfter else leaf)
  | _ :: _ => None
  end.

Definition day : Z := 24 * 3600.

(** [checkACMECerts] at time [now] (seconds): the manager, and the bundle
    announced to the peers, if any. *)
Definition checkACMECerts (ca : CA) (domain : string) (parse : Z → parsed_chain) (now : Z)
    (json_ok : bool) : M (option Bundle) := λ c,
  let '(c0, r) := ExportBundle c in
  let no_cert := match r with Err e => errors_Is e ErrNoCert | _ => false end in
  let '(c1, r1) := if no_cert then RequestCertificate ca c0 else (c0, Ok tt) in
  match r1 with
  | Panic p => (c1, Panic p)
  | Err _ => (c1, Ok None)
  | Ok _ =>
      match (if no_cert then (ExportBundle c1).2 else r) with
      | Panic p => (c1, Panic p)
      | Err _ => (c1, Ok None)
      | Ok bundle =>
          match (GetCertificatesFunc c1).2 with
          | Panic p => (c1, Panic p)
          | Err _ => (c1, Ok None)
          | Ok x =>
              match find_leaf domain (parse x) None with
              | None | Some None => (c1, Ok None)
              | Some (Some notAfter) =>
                  if notAfter - now <? 30 * day then
                    let '(c2, r2) := RequestCertificate ca c1 in
                    match r2 with
                    | Panic p => (c2, Panic p)
                    | Err _ => (c2, Ok None)
                    | Ok _ =>
                        match (ExportBundle c2).2 with
                        | Panic p => (c2, Panic p)
                        | Err _ => (c2, Ok None)
                        | Ok bundle' => (c2, Ok (if json_ok then Some bundle' else None))
                        end
                    end
                  else (c1, Ok (if json_ok && no_cert then Some bundle else None))
              end
          end
      end
  end.

(** ** Lemmas on the checks *)

Lemma ExportAccount_fst c : (ExportAccount c).1 = c.
Proof.
  unfold ExportAccount. rewrite M_bind_eq. cbn. case_match; [done|].
  rewrite M_bind_eq, wrapping_fst. cbn. by case_match.
Qed.

Lemma ExportBundle_fst c : (ExportBundle c).1 = c.
Proof. unfold ExportBundle. rewrite M_bind_eq. cbn. by case_match. Qed.

Lemma accounts_announced ca json_ok c c' af :
  checkACMEAccountKeys ca json_ok c = (c', Ok (Some af)) →
  (ExportAccount c').2 = Ok af ∧ is_ok (ExportAccount c).2 = false ∧ json_ok = true.
Proof.
  unfold checkACMEAccountKeys. pose proof (ExportAccount_fst c) as Hf.
  destruct (ExportAccount c) as [c0 [a|e|]]; [done| |done]. cbn in Hf. subst c0.
  destruct (errors_Is e ErrNoAccount); [|done].
  destruct (LoadAccountFromFile ca c) as [c1 r1].
  destruct (match r1 with Err e1 => errors_Is e1 ErrNoAccount | _ => false end);
    [destruct (CreateAccount ca c1) as [c2 [u|e2|]]|];
    (destruct r1 as [u1|e1|]; [..|done]); try done;
    match goal with |- context [ExportAccount ?x] =>
      pose proof (ExportAccount_fst x) as Hf; destruct (ExportAccount x) as [c3 [af'|e3|]] eqn:E end;
    try done; cbn in Hf; subst; destruct json_ok; intros; simplify_eq/=; by rewrite E.
Qed.

Lemma certs_announced ca domain parse now json_ok c c' b :
  checkACMECerts ca domain parse now json_ok c = (c', Ok (Some b)) →
  (ExportBundle c').2 = Ok b ∧ json_ok = true ∧
  (is_ok (ExportBundle c).2 = true →
   ∃ x notAfter, (GetCertificatesFunc c).2 = Ok x ∧
     find_leaf domain (parse x) None = Some (Some notAfter) ∧ notAfter - now < 30 * day).
Proof.
  unfold checkACMECerts. pose proof (ExportBundle_fst c) as Hf.
  destruct (ExportBundle c) as [c0 r]. cbn in Hf. subst c0.
  set (no_cert := match r with Err e => errors_Is e ErrNoCert | _ => false end).
  assert (is_ok r = true → no_cert = false) as Hno by (by destruct r).
  destruct (if no_cert then RequestCertificate ca c else (c, Ok tt)) as [c1 r1] eqn:E1.
  destruct r1 as [u|e|]; [|done..].
  destruct (if no_cert then (ExportBundle c1).2 else r) as [bu|e|] eqn:Eb; [|done..].
  destruct ((GetCertificatesFunc c1).2) as [x|e|] eqn:Ex; [|done..].
  destruct (find_leaf domain (parse x) None) as [[na|]|] eqn:El; [|done..].
  destruct (Z.ltb_spec (na - now) (30 * day)).
  - destruct (RequestCertificate ca c1) as [c2 [u2|e2|]]; [|done..].
    destruct ((ExportBundle c2).2) as [bu'|e2|] eqn:Eb2; [|done..].
    destruct json_ok; [|done]. intros [= <- <-]. split_and!; [done|done|]. cbn.
    intros Hok%Hno. rewrite Hok in E1. simplify_eq. by exists x, na.
  - destruct json_ok; [|done]. cbn. destruct no_cert eqn:En; [|done]. intros [= <- <-].
    split_and!; [done|done|]. cbn. by intros Hx%Hno.
Qed.
End Checks.

(** ** Lemmas on the election *)

Lemma lowest_fold_spec l x :
  let r := foldl (λ lowest peer, if peer <? lowest then peer else lowest) x l in
  (r = x ∨ r ∈ l) ∧ r ≤ x ∧ Forall (λ y, r ≤ y) l.
Proof.
  revert x. induction l as [|y l IH]; intros x; cbn; [split_and!; [by left|lia|by constructor]|].
  destruct (IH (if y <? x then y else x)) as (Hin & Hle & Hall).
  destruct (Z.ltb_spec y x).
  - split_and!; [right; apply elem_of_cons; naive_solver|lia|by constructor].
  - split_and!; [destruct Hin; [by left|right; apply elem_of_cons; by right]|done|].
    constructor; [lia|done].
Qed.

Lemma elect_spec self peers :
  Forall u64 (self :: peers) →
  elect self peers ∈ self :: peers ∧ Forall (λ y, elect self peers ≤ y) (self :: peers).
Proof.
  intros Hu. unfold elect, lowest_of.
  destruct (lowest_fold_spec (peers ++ [self]) (2 ^ 64 - 1)) as (Hin & Hle & Hall).
  apply Forall_app in Hall as [Hp [Hs _]%Forall_cons]. split; [|by constructor].
  destruct Hin as [Heq|Hin]; [|set_solver].
  apply Forall_cons in Hu as [Hself _]. unfold u64 in Hself.
  apply elem_of_cons. left. rewrite Heq in *. lia.
Qed.

Lemma elect_unique self peers x :
  Forall u64 (self :: peers) → x ∈ self :: peers → Forall (λ y, x ≤ y) (self :: peers) →
  elect self peers = x.
Proof.
  intros Hu Hx Hmin. destruct (elect_spec self peers Hu) as [Hin Hall].
  rewrite Forall_forall in Hmin, Hall. pose proof (Hmin _ Hin). pose proof (Hall _ Hx). lia.
Qed.

(** Only the set of the candidates matters. *)
Lemma lowest_fold_ext l l' x :
  (∀ y, y ∈ l ↔ y ∈ l') →
  foldl (λ lowest peer, if peer <? lowest then peer else lowest) x l =
  foldl (λ lowest peer, if peer <? lowest then peer else lowest) x l'.
Proof.
  intros Heq. destruct (lowest_fold_spec l x) as (Hin & Hle & Hall).
  destruct (lowest_fold_spec l' x) as (Hin' & Hle' & Hall'). rewrite Forall_forall in Hall, Hall'.
  set (r := foldl _ x l) in *. set (r' := foldl _ x l') in *.
  assert (r ≤ r') by (destruct Hin' as [->|Hin']; [done|by apply Hall, Heq]).
  assert (r' ≤ r) by (destruct Hin as [->|Hin]; [done|by apply Hall', Heq]). lia.
Qed.

Lemma elect_ext self l l' : (∀ y, y ∈ l ↔ y ∈ l') → elect self l = elect self l'.
Proof. intros Heq. apply lowest_fold_ext. intros y. rewrite !elem_of_app. naive_solver. Qed.

(** The membership changes that [handleMembershipChange] has not processed: those
    whose token is still to be sent or taken, and the one it is at. *)
Definition unprocessed (s : leader_sys) : nat :=
  ls_changing s + ls_membership s + match ls_mpc s with MRange _ => 1 | _ => 0 end.

(** With none left, the current leader is the one of the current peers; with
    only the current one left, no peer changes under the enumeration. *)
Definition up_to_date (s : leader_sys) : Prop :=
  match ls_mpc s with
  | MRange w => w = peers_open (ls_peers s)
  | _ => ls_currentLeader s = elect (ls_self s) (ls_peers s)
  end.

Lemma quiescent_leader self peers s :
  reachable leader_step (init_leader self peers) s →
  ls_self s = self ∧ (ls_changing s = 0%nat → ls_membership s = 0%nat → up_to_date s).
Proof.
  revert s. apply reachable_invariant; [done|].
  intros l s s' [Hself Hq] Hs. destruct l as [| | |snapshot| | | | | | | |]; cbn in Hs.
  4: { destruct (ls_mpc s) as [|w| |] eqn:Hpc; try done. destruct (snapshot_ok w snapshot) eqn:Hok; [|done].
       injection Hs as <-. unfold membership_step. split; [by case_match|]. intros Hc Hm.
       assert (elect (ls_self s) snapshot = elect (ls_self s) (ls_peers s)) as He.
       { apply elect_ext. apply snapshot_ok_spec in Hok as (_ & H1 & H2).
         unfold up_to_date in Hq. rewrite Hpc in Hq. rewrite Hq in H1, H2 by (by repeat case_match).
         cbn in H1, H2. set_solver. }
       rewrite He. unfold up_to_date. by repeat case_match. }
  all: step_cases Hs; (split; [done|]); unfold up_to_date in *; cbn; try done;
    repeat match goal with E : ls_mpc ?x = _ |- _ => rewrite E in * end; cbn; done.
Qed.

(** The sole receiver of [stopLeader] is blocked sending to it. *)
Definition timer_stuck (s : leader_sys) : Prop :=
  ls_tpc s = TSendStop ∧ ch_closed (ls_stop s) = false ∧
  (ch_cap (ls_stop s) ≤ length (ch_buf (ls_stop s)))%nat.

Lemma chan_send_full {A} (c : chan A) x :
  ch_closed c = false → (ch_cap c ≤ length (ch_buf c))%nat → chan_send c x = SendBlocks.
Proof.
  intros Hc Hf. unfold chan_send. rewrite Hc. by rewrite (proj2 (Nat.ltb_ge _ _)).
Qed.

Lemma timer_stuck_step l s s' :
  timer_stuck s → leader_step l s = Some s' →
  timer_stuck s' ∧ (ls_checking s' ≤ ls_checking s)%nat.
Proof.
  intros (Ht & Hc & Hf) Hs. pose proof (chan_send_full (ls_stop s) tt Hc Hf) as Hblock.
  unfold timer_stuck. destruct l; cbn in Hs; rewrite ?Ht, ?Hblock in Hs; step_cases Hs;
    unfold membership_step; repeat case_match; cbn; split_and!; try done; lia.
Qed.

Lemma timer_stuck_forever s s' :
  timer_stuck s → reachable leader_step s s' →
  timer_stuck s' ∧ (ls_checking s' ≤ ls_checking s)%nat.
Proof.
  intros Hs Hr. induction Hr as [|s1 l s2 _ [IH Hle] Hstep]; [done|].
  destruct (timer_stuck_step l s1 s2 IH Hstep). split; [done|lia].
Qed.

(** ** Properties *)

(** C24: servers that see the same cluster elect the same leader.  When two
    servers have processed all membership changes (no change of the peers whose
    token is still to be sent, taken or acted on) and each one's peers and own
    identifier make up the same set, both hold the same current leader; it is
    the lowest identifier of the set and belongs to it, so exactly the server
    with that identifier takes itself for the leader. *)
Theorem leader_agreement a b pa pb sa sb :
  reachable leader_step (init_leader a pa) sa → reachable leader_step (init_leader b pb) sb →
  unprocessed sa = 0%nat → unprocessed sb = 0%nat →
  Forall u64 (a :: ls_peers sa) → Forall u64 (b :: ls_peers sb) →
  (∀ x, x ∈ a :: ls_peers sa ↔ x ∈ b :: ls_peers sb) →
  ls_currentLeader sa = ls_currentLeader sb ∧
  ls_currentLeader sa ∈ a :: ls_peers sa ∧
  Forall (λ x, ls_currentLeader sa ≤ x) (a :: ls_peers sa).
Proof.
  intros Ha Hb Hqa Hqb Hua Hub Hsame.
  destruct (quiescent_leader _ _ _ Ha) as [Hsa Hla]. destruct (quiescent_leader _ _ _ Hb) as [Hsb Hlb].
  assert (∀ s, unprocessed s = 0%nat → ls_changing s = 0%nat ∧ ls_membership s = 0%nat ∧ ∀ w, ls_mpc s ≠ MRange w)
    as Hun by (intros s; unfold unprocessed; case_match; intros; split_and!; (lia || congruence)).
  destruct (Hun _ Hqa) as (Ha1 & Ha2 & Ha3), (Hun _ Hqb) as (Hb1 & Hb2 & Hb3).
  assert (ls_currentLeader sa = elect a (ls_peers sa)) as ->.
  { specialize (Hla Ha1 Ha2). unfold up_to_date in Hla. destruct (ls_mpc sa); naive_solver. }
  assert (ls_currentLeader sb = elect b (ls_peers sb)) as ->.
  { specialize (Hlb Hb1 Hb2). unfold up_to_date in Hlb. destruct (ls_mpc sb); naive_solver. }
  destruct (elect_spec a _ Hua) as [Hin Hall].
  split; [|done]. symmetry. apply elect_unique; [done|by apply Hsame|].
  rewrite Forall_forall in Hall |- *. intros x Hx. apply Hall. by apply Hsame.
Qed.

Lemma leader_agreement_witness :
  ∃ sa sb, run leader_step [LMember; LElect [7; 9]] (init_leader 5 [9; 7]) = Some sa ∧
    run leader_step [LMember; LElect [5; 9]] (init_leader 7 [5; 9]) = Some sb ∧
    ls_currentLeader sa = ls_currentLeader sb.
Proof.
  eexists _, _. split; [vm_compute; reflexivity|]. split; [vm_compute; reflexivity|].
  eapply (leader_agreement 5 7 [9; 7] [5; 9]).
  - apply (run_reachable _ [LMember; LElect [7; 9]]). vm_compute. reflexivity.
  - apply (run_reachable _ [LMember; LElect [5; 9]]). vm_compute. reflexivity.
  - done.
  - done.
  - by repeat constructor.
  - by repeat constructor.
  - cbn. set_solver.
Defined.

(** [leaderTimer] can block itself for ever.  The timer expires while the
    server loses leadership: [stopLeader] (capacity 1) already holds the
    message of [handleMembershipChange], the select takes the timer case, and
    the goroutine, which is the only receiver of [stopLeader], sends on it.
    From that state on it stays there whatever happens, and no certificate
    check is ever started again, also not when the server becomes leader. *)
Theorem leader_timer_deadlock :
  ∃ s, reachable leader_step (init_leader 5 []) s ∧ ls_checking s = 0%nat ∧
    (∀ s', reachable leader_step s s' → ls_tpc s' = TSendStop ∧ ls_checking s' = 0%nat) ∧
    ∃ s', reachable leader_step s s' ∧ ls_currentLeader s' = ls_self s'.
Proof.
  destruct (run leader_step [LMember; LElect []; LMemberSend; LTimerStart; LPeers [3]; LToken; LMember;
    LElect [3]; LMemberSend; LFire; LTimerFired] (init_leader 5 [])) as [s|] eqn:E; [|done].
  exists s. split; [by eapply run_reachable|].
  assert (timer_stuck s ∧ ls_checking s = 0%nat) as [Hs Hc]
    by (vm_compute in E; injection E as <-; vm_compute; repeat split; lia).
  split; [done|]. split.
  - intros s' Hr. destruct (timer_stuck_forever s s' Hs Hr) as [[Ht _] Hle]. split; [done|lia].
  - destruct (run leader_step [LPeers []; LToken; LMember; LElect []] s) as [s'|] eqn:E'.
    + exists s'. split; [by eapply run_reachable|].
      vm_compute in E. injection E as <-. vm_compute in E'. by injection E' as <-.
    + vm_compute in E. injection E as <-. by vm_compute in E'.
Qed.

(** The leader announces exactly what it has.  When the account check
    announces an account, the manager had none before and now exports that
    account; when the certificate check announces a bundle, the manager now
    exports that bundle, and if it had a certificate before then the leaf for
    the configured domain was within 30 days of its expiry. *)
Theorem leader_announces_current `{Crypto} ca c domain parse now json_ok :
  (∀ c' af, checkACMEAccountKeys ca json_ok c = (c', Ok (Some af)) →
     (ExportAccount c').2 = Ok af ∧ is_ok (ExportAccount c).2 = false) ∧
  (∀ c' b, checkACMECerts ca domain parse now json_ok c = (c', Ok (Some b)) →
     (ExportBundle c').2 = Ok b ∧
     (is_ok (ExportBundle c).2 = true →
      ∃ x notAfter, (GetCertificatesFunc c).2 = Ok x ∧
        find_leaf domain (parse x) None = Some (Some notAfter) ∧ notAfter - now < 30 * day)).
Proof.
  split.
  - intros c' af Hc. by apply accounts_announced in Hc as (? & ? & _).
  - intros c' b Hc. by apply certs_announced in Hc as (? & _ & ?).
Qed.

Lemma leader_announces_current_witness :
  ∃ c af, @checkACMEAccountKeys sample_crypto (sample_ca 7) true sample_cm = (c, Ok (Some af)) ∧
    (@ExportAccount sample_crypto c).2 = Ok af.
Proof.
  assert (∃ c af, @checkACMEAccountKeys sample_crypto (sample_ca 7) true sample_cm =
    (c, Ok (Some af))) as (c & af & E) by (do 2 eexists; vm_compute; reflexivity).
  exists c, af. split; [exact E|].
  by apply (proj1 (@leader_announces_current sample_crypto (sample_ca 7) sample_cm "" (λ _, []) 0 true)
    c af).
Defined.
