(* ===== verification/Renewal.v ===== *)
(** * Renewal: a certificate travels from the leader to the other servers

    The composition of [server/leader.go] (what is announced), [messaging]
    (how an announcement is queued, framed and read back) and
    [server/messaging.go] (what a server does with it), with [openMessaging] of
    [server/peers.go] that connects the last two. *)
From S2P Require Import Prelude GoStd Link Message Messaging MuxChannel Multiplexer Mux PeerGraph PeerMap Meta Acme Server Gossip Leader.

Open Scope Z_scope.

Section Renewal.
Context {P : Type} `{Crypto} `{Json}.
Implicit Types s : Server P.

(** [handlePeerMessaging] on the messages its channel delivers before it is
    closed, each with what the CA and the disk answer meanwhile. *)
Fixpoint handlePeerMessaging s (ms : list (CA * Message)) : go (Server P) :=
  match ms with
  | [] => Ok s
  | (ca, m) :: rest => s' ← handlePeerMessage s ca m; handlePeerMessaging s' rest
  end.

(** [openMessaging]: the stream is registered under the peer, and the messages
    read from it are handled; a panic of [Register] takes the process down. *)
Definition openMessaging s (r : registry) (peer : Z) (ms : list (CA * Message))
    : go (registry * Server P) :=
  let r' := Register r peer in
  match r_crash r' with
  | Some p => Panic p
  | None => s' ← handlePeerMessaging s ms; Ok (r', s')
  end.

(** ** Lemmas *)

Lemma handlePeerMessaging_app s ms1 ms2 :
  handlePeerMessaging s (ms1 ++ ms2) = s' ← handlePeerMessaging s ms1; handlePeerMessaging s' ms2.
Proof.
  revert s. induction ms1 as [|[ca m] ms1 IH]; intros s; [done|]. cbn.
  destruct (handlePeerMessage s ca m); cbn; [apply IH|done..].
Qed.

(** Only the certificate manager changes. *)
Lemma handlePeerMessage_frame s ca m s' :
  handlePeerMessage s ca m = Ok s' → s' = with_certs (s_certManager s') s.
Proof.
  unfold handlePeerMessage. intros Hm.
  repeat (case_match; simplify_eq/=; try done); by rewrite with_certs_same.
Qed.

Lemma handlePeerMessaging_frame s ms s' :
  handlePeerMessaging s ms = Ok s' → s' = with_certs (s_certManager s') s.
Proof.
  revert s. induction ms as [|[ca m] ms IH]; intros s; cbn; [intros [= <-]; by rewrite with_certs_same|].
  intros (s1 & H1%handlePeerMessage_frame & H2%IH)%go_bind_Ok. rewrite H2, H1. by destruct s.
Qed.

(** The checks keep the manager consistent. *)
Lemma checkACMECerts_inv ca domain parse now json_ok c :
  cm_inv c → cm_inv (checkACMECerts ca domain parse now json_ok c).1.
Proof.
  intros Hc. unfold checkACMECerts. pose proof (ExportBundle_fst c) as Hf.
  destruct (ExportBundle c) as [c0 r]. cbn in Hf. subst c0.
  assert (∀ x, cm_inv x → cm_inv (RequestCertificate ca x).1) as Hreq.
  { intros x Hx. eapply assigns_inv; [exact Hx|apply RequestCertificate_assigns]. }
  set (no_cert := match r with Err e => errors_Is e ErrNoCert | _ => false end).
  assert (cm_inv (if no_cert then RequestCertificate ca c else (c, Ok tt)).1) as H1
    by (destruct no_cert; [by apply Hreq|done]).
  destruct (if no_cert then RequestCertificate ca c else (c, Ok tt)) as [c1 r1]. cbn in H1.
  pose proof (Hreq c1 H1) as H2. destruct (RequestCertificate ca c1) as [c2 r2]. cbn in H2.
  repeat case_match; done.
Qed.

(** A server that receives a bundle of a consistent manager uses it. *)
Lemma bundle_adopted `{!CryptoOk} s ca c m :
  cm_inv c → hasCert c = true → msg_Type m = MessageClientCerts →
  json_Unmarshal_bundle (msg_Data m) = Ok (storedPem c) →
  fs_Create ca = None → fs_Encode ca = None →
  ∃ s', handlePeerMessage s ca m = Ok s' ∧ hasCert (s_certManager s') = true ∧
    storedPem (s_certManager s') = storedPem c ∧ storedCert (s_certManager s') = storedCert c.
Proof.
  intros [_ _ Hc] Hcert Hty Hdec Hf1 Hf2. destruct (Hc Hcert) as (_ & (k & Hk & _) & Hx).
  destruct (ImportBundle_disk_Ok ca (s_certManager s) _ k _ (negb (s_Debug s)) Hk Hx Hf1 Hf2) as [f Hi].
  unfold handlePeerMessage. rewrite Hty. cbn [MessageClientCerts MessageACMEAccountKey Z.eqb Pos.eqb].
  rewrite Hdec, Hi. by eexists.
Qed.

(** A write to a registered peer with room in its queue is queued last. *)
Lemma reg_write_queued (r : registry) peer m i c :
  r_peers r !! peer = Some i → r_comms r !! i = Some c → ch_closed (c_out c) = false →
  (length (ch_buf (c_out c)) < ch_cap (c_out c))%nat →
  ∃ r' c', reg_write r peer m = Written r' ∧ r_comms r' !! i = Some c' ∧
    ch_buf (c_out c') = ch_buf (c_out c) ++ [m].
Proof.
  intros Hp Hi Hcl Hroom. unfold reg_write. rewrite Hp. cbn. rewrite Hi. cbn. unfold chan_send.
  rewrite Hcl, (proj2 (Nat.ltb_lt _ _)) by done. do 2 eexists. split; [done|]. cbn.
  rewrite list_lookup_insert_eq by by eapply lookup_lt_Some. done.
Qed.
End Renewal.

(** ** Properties *)

(** C18: a renewed certificate reaches every other server.  When the leader's
    check announces a bundle, then for every server whose messaging stream is
    registered with the leader and has room, the message is queued last on that
    stream; its frame, read in one piece at the other end, is handed to the
    handler; and the server that handles it, whatever it had before, exports
    the leader's bundle and serves the very certificate the leader serves, and
    nothing else about it changes. *)
Theorem renewal_propagates {P} `{CryptoOk} `{JsonOk} (a b : Server P) ca ca' domain parse now c' bundle
    data range r i comm rest f :
  cm_inv (s_certManager a) → u64 (s_id a) →
  checkACMECerts ca domain parse now true (s_certManager a) = (c', Ok (Some bundle)) →
  json_Marshal_bundle bundle = Ok data → 24 + zlen data ≤ maxAlloc →
  r_peers r !! s_id b = Some i → r_comms r !! i = Some comm →
  ch_closed (c_out comm) = false → (length (ch_buf (c_out comm)) < ch_cap (c_out comm))%nat →
  enumerates (r_peers r) (range (r_peers r)) → fs_Create ca' = None → fs_Encode ca' = None →
  ∃ m wire r' comm' b',
    (s_id b, m) ∈ Announce range r (s_id a) MessageClientCerts data ∧
    reg_write r (s_id b) m = Written r' ∧ r_comms r' !! i = Some comm' ∧
    ch_buf (c_out comm') = ch_buf (c_out comm) ++ [m] ∧
    Message_MarshalBinary m = Ok wire ∧
    reader_step ((wire ++ rest, None) :: f) =
      (Ok (ToIn m), if bool_decide (rest = []) then f else (rest, None) :: f) ∧
    handlePeerMessage b ca' m = Ok b' ∧ b' = with_certs (s_certManager b') b ∧
    (ExportBundle (s_certManager b')).2 = Ok bundle ∧ (ExportBundle c').2 = Ok bundle ∧
    (GetCertificatesFunc (s_certManager b')).2 = (GetCertificatesFunc c').2.
Proof.
  intros Ha Hid Hcheck Hjson Hlen Hreg Hcomm Hcl Hroom Hrange Hf1 Hf2.
  set (m := mkMessage MessageClientCerts (s_id a) data).
  destruct (bundle_roundtrip _ _ Hjson) as (Hdec & Hwf & Hne).
  destruct (certs_announced _ _ _ _ _ _ _ _ Hcheck) as (Hexp & _ & _).
  pose proof (checkACMECerts_inv ca domain parse now true _ Ha) as Hinv. rewrite Hcheck in Hinv. cbn in Hinv.
  pose proof Hexp as [Hcert Hpem]%ExportBundle_Ok. rewrite <-Hpem in Hdec.
  destruct (bundle_adopted b ca' c' m Hinv Hcert eq_refl Hdec Hf1 Hf2) as (b' & Hh & Hc' & Hp' & Hs').
  destruct (reg_write_queued r (s_id b) m i comm Hreg Hcomm Hcl Hroom) as (r' & comm' & Hw & Hi' & Hq).
  assert (wf_Message m) as Hwm by (split_and!; done).
  exists m, (message_wire m), r', comm', b'. split_and!; try done.
  - unfold Announce. apply list_elem_of_fmap. exists (s_id b, i). split; [done|].
    by apply (enumerates_elem _ _ _ _ Hrange).
  - by apply message_wire_Marshal.
  - by rewrite reader_step_frame by done.
  - by eapply handlePeerMessage_frame.
  - apply ExportBundle_Ok. split; [done|congruence].
  - rewrite (proj2 (GetCertificatesFunc_Ok c' _) (conj Hcert eq_refl)). by apply GetCertificatesFunc_Ok.
Qed.

(** A leader with an account and no certificate yet, and one follower. *)
Definition sample_account : CertManager := @acme_calls sample_crypto [OpCreateAccount (sample_ca 7)] sample_cm.
Definition sample_check (c : CertManager) : CertManager * go (option Bundle) :=
  @checkACMECerts sample_crypto (sample_ca 8) "example.com" (λ _, [Ok (["example.com"], 90 * day)]) 0 true c.
Definition sample_registry : registry := Register empty_registry 43.

Lemma sample_renewal :
  ∃ c0 c' bundle data, @cm_inv sample_crypto c0 ∧ sample_check c0 = (c', Ok (Some bundle)) ∧
    @json_Marshal_bundle tuple_json bundle = Ok data ∧ 24 + zlen data ≤ maxAlloc.
Proof.
  assert (∃ c' bundle, sample_check sample_account = (c', Ok (Some bundle))) as (c' & bundle & E)
    by (do 2 eexists; vm_compute; reflexivity).
  assert (∃ data, @json_Marshal_bundle tuple_json bundle = Ok data ∧ (24 + zlen data <=? maxAlloc) = true)
    as (data & Hd & Hl).
  { vm_compute in E. injection E as _ <-. eexists. split; [reflexivity|]. vm_compute. reflexivity. }
  exists sample_account, c', bundle, data. apply Z.leb_le in Hl. split_and!; [|done..].
  eapply assigns_inv; [|apply acme_calls_assigns].
  by apply (@acme_New_inv sample_crypto sample_conf NoFile NoFile None).
Qed.

Lemma renewal_propagates_witness :
  ∃ c0 c' bundle m b', sample_check c0 = (c', Ok (Some bundle)) ∧
    @handlePeerMessage unit sample_crypto tuple_json (sample_cert_server 43 sample_cm) (sample_ca 0) m = Ok b' ∧
    (GetCertificatesFunc (s_certManager b')).2 = (GetCertificatesFunc c').2.
Proof.
  destruct sample_renewal as (c0 & c' & bundle & data & Hinv & E & Hd & Hl).
  destruct (@renewal_propagates unit sample_crypto sample_crypto_ok tuple_json tuple_json_ok
    (sample_cert_server 42 c0) (sample_cert_server 43 sample_cm) (sample_ca 8) (sample_ca 0)
    "example.com" (λ _, [Ok (["example.com"], 90 * day)]) 0 c' bundle data map_to_list sample_registry
    0%nat (mkComm 43 (make_chan 16) (make_chan 16) false Reading false false) [] [] Hinv
    ltac:(clear; done) E Hd Hl eq_refl eq_refl eq_refl)
    as (m & _ & _ & _ & b' & _ & _ & _ & _ & _ & _ & Hh & _ & _ & _ & Hg).
  - clear. cbn. lia.
  - apply enumerates_self.
  - reflexivity.
  - reflexivity.
  - exists c0, c', bundle, m, b'. split; [exact E|]. split; [exact Hh|exact Hg].
Defined.
