(* ===== verification/Network.v ===== *)
(** * Network: streams across several servers

    The composition of [Server.Forward] ([server/server.go]) and the stream
    handler of [handlePeerEvents] ([server/peers.go]) over a cluster: a stream
    that a server forwards to the session of a peer is an incoming stream of
    that peer, which forwards it by its own tables. *)
From S2P Require Import Prelude GoStd Link MuxChannel Multiplexer PeerGraph PeerMap Meta Acme Server Mux.

Open Scope Z_scope.

Section Network.
Context {P : Type} `{MuxPeer P} `{XorFilter}.

(** The servers by identifier. *)
Definition cluster := gmap Z (Server P).
Implicit Types cl : cluster.

Inductive outcome :=
| Delivered (server : Z) (client : P) (hops : nat)
| Dropped (server : Z)
| Crashed (server : Z)
| StillForwarding (server : Z).

(** Follows a stream from server [at_] for at most [fuel] hops; [hops] counts
    the hops made. *)
Fixpoint follow (range : gmap Z ConnectedClients → list (Z * ConnectedClients)) cl (link : Link)
    (fuel hops : nat) (at_ : Z) : outcome :=
  match cl !! at_ with
  | None => Dropped at_
  | Some s =>
      match findPath s range link with
      | Panic _ => Crashed at_
      | Err _ => Dropped at_
      | Ok None => Dropped at_
      | Ok (Some p) =>
          if bool_decide (is_Some (PeerMap_Get (s_clients s) (Destination link)))
          then Delivered at_ p hops
          else match fuel with
               | O => StillForwarding at_
               | S fuel' => follow range cl link fuel' (S hops) (Peer_Peer p)
               end
      end
  end.

(** What server [b] knows about the destination: only [home]'s announcement
    claims it, and there is a session with [home]. *)
Definition knows_home (b : Server P) (home k : Z) : Prop :=
  PeerMap_Get (s_clients b) k = None ∧
  (∃ c, peerFilter (s_peerGraph b) !! home = Some c ∧ ConnectedClients_Has c k = Ok true) ∧
  (∀ id c, peerFilter (s_peerGraph b) !! id = Some c → id ≠ home →
     ConnectedClients_Has c k = Ok false) ∧
  is_Some (PeerMap_Get (s_peers b) home).

(** The server believes that [other] has the destination, and can reach it. *)
Definition believes (s : Server P) (other k : Z) : Prop := knows_home s other k.

Lemma follow_local range cl link fuel hops at_ s p :
  cl !! at_ = Some s → PeerMap_Get (s_clients s) (Destination link) = Some p →
  follow range cl link fuel hops at_ = Delivered at_ p hops.
Proof.
  intros Hs Hp. destruct fuel; cbn [follow]; rewrite Hs, (findPath_local s range link p Hp);
    rewrite bool_decide_eq_true_2 by (rewrite Hp; by eexists); done.
Qed.

(** Such a server sends the stream to its session with [home]. *)
Lemma knows_home_path range s home link :
  server_inv s → range_ok range → knows_home s home (Destination link) →
  ∃ p, findPath s range link = Ok (Some p) ∧ PeerMap_Get (s_peers s) home = Some p ∧ Peer_Peer p = home.
Proof.
  intros Hinv Hr (Hc & (c & Hg & Hh) & Hu & [p Hp]). exists p. split_and!; [|done|].
  - rewrite (findPath_remote s range link home Hc), Hp; [done|]. eapply Who_unique; eauto. by apply Hinv.
  - by destruct (si_peers s Hinv home p Hp) as (_ & _ & ?).
Qed.

Lemma follow_forward range cl link fuel hops at_ s other :
  cl !! at_ = Some s → server_inv s → range_ok range → believes s other (Destination link) →
  follow range cl link (S fuel) hops at_ = follow range cl link fuel (S hops) other ∧
  follow range cl link 0 hops at_ = StillForwarding at_.
Proof.
  intros Hs Hinv Hr Hk. destruct (knows_home_path range s other link Hinv Hr Hk) as (p & Hf & _ & Hid).
  destruct Hk as (Hc & _).
  split; cbn [follow]; rewrite Hs, Hf, Hc;
    rewrite bool_decide_eq_false_2 by (by intros [? ?]); by rewrite ?Hid.
Qed.
End Network.

(** ** Properties *)

(** With accurate announcements a stream needs at most one hop.  If the
    client is connected to server [home], then from [home] the stream is
    delivered at once, and from every other server that has a session with
    [home] and in whose graph only [home]'s announcement claims the client it
    is delivered after exactly one hop. *)
Theorem one_hop_delivery {P} `{MuxPeer P} `{XorFilter} (cl : cluster) range link home h p :
  cl !! home = Some h → PeerMap_Get (s_clients h) (Destination link) = Some p → range_ok range →
  follow range cl link 0 0 home = Delivered home p 0 ∧
  (∀ at_ s, cl !! at_ = Some s → server_inv s → knows_home s home (Destination link) →
     follow range cl link 1 0 at_ = Delivered home p 1).
Proof.
  intros Hh Hp Hr. split; [by eapply follow_local|].
  intros at_ s Hs Hinv Hk.
  destruct (follow_forward range cl link 0 0 at_ s home Hs Hinv Hr Hk) as [-> _].
  by eapply follow_local.
Qed.

(** Nothing bounds the number of hops.  If two servers each believe that
    the other has a destination (a false positive of the filter on each side,
    or stale announcements) and neither has it, a stream for it is forwarded
    back and forth for ever: for every bound it is still being forwarded. *)
Theorem forwarding_loop {P} `{MuxPeer P} `{XorFilter} (cl : cluster) range link a b sa sb fuel hops :
  cl !! a = Some sa → cl !! b = Some sb → server_inv sa → server_inv sb → range_ok range →
  believes sa b (Destination link) → believes sb a (Destination link) →
  ∃ at_, (at_ = a ∨ at_ = b) ∧ follow range cl link fuel hops a = StillForwarding at_.
Proof.
  intros Ha Hb Hia Hib Hr Hba Hbb. revert hops a b sa sb Ha Hb Hia Hib Hba Hbb.
  induction fuel as [|fuel IH]; intros hops a b sa sb Ha Hb Hia Hib Hba Hbb.
  - exists a. split; [by left|]. by apply (follow_forward range cl link 0 hops a sa b).
  - destruct (follow_forward range cl link fuel hops a sa b Ha Hia Hr Hba) as [-> _].
    destruct (IH (S hops) b a sb sa Hb Ha Hib Hia Hbb Hba) as (at_ & Hat & ->).
    exists at_. split; [naive_solver|done].
Qed.

(** Servers for the examples: [claims] are the identifiers the other server's
    announcement claims. *)
Definition net_server (self other : Z) (clients : gmap Z (Z * bool * Protocol)) (claims : list Z)
    : Server (Z * bool * Protocol) :=
  mkServer self zero_Meta [] "" false "" (mkPM self {[other := (other, true, Mplex)]} 1 [])
    (mkPM self clients (Z.of_nat (size clients)) [])
    (mkPG (match @NewConnectedClients exact_filter other claims with
           | Ok c => {[other := c]} | _ => ∅ end))
    (make_chan 16) None 0 0 sample_cm.

Lemma net_server_inv self other claims :
  self ≠ other → other ≠ 0 → zlen claims < 100 →
  @server_inv _ stub_peer (net_server self other ∅ claims).
Proof.
  intros Hne H0 Hl. unfold net_server. split; cbn -[NewConnectedClients]; try done.
  - by apply map_Forall_singleton.
  - destruct (@NewConnectedClients exact_filter other claims) as [c| |] eqn:E;
      [|apply map_Forall_empty..].
    destruct (NewConnectedClients_inv _ _ _ E) as (f & -> & _). apply map_Forall_singleton.
    split; [done|by eexists].
  - destruct (@NewConnectedClients exact_filter other claims); [by rewrite lookup_singleton_ne|done..].
Qed.

Lemma net_server_believes self other :
  self ≠ other →
  @believes _ exact_filter (net_server self other ∅ [77]) other 77.
Proof.
  intros Hne. unfold believes, knows_home, net_server. cbn -[NewConnectedClients].
  change (@NewConnectedClients exact_filter other [77]) with
    (@Ok ConnectedClients (mkCC other (clients_crc 0 [77])
      (Some (mkFuse 0 0 0 0 0 (be_bytes 8 77 ++ []))))).
  cbn [peerFilter]. split_and!.
  - done.
  - eexists. rewrite lookup_singleton_eq. split; [done|]. vm_compute. reflexivity.
  - intros id c Hid Hx. by rewrite lookup_singleton_ne in Hid.
  - eexists. unfold PeerMap_Get. cbn. by rewrite lookup_singleton_eq.
Qed.

Lemma forwarding_loop_witness :
  let cl : gmap Z (Server (Z * bool * Protocol)) :=
    {[1 := net_server 1 2 ∅ [77]; 2 := net_server 2 1 ∅ [77]]} in
  ∃ at_, @follow _ stub_peer exact_filter map_to_list cl (mkLink 9 77 Mplex alpn_HTTP) 1000 0 1 =
           StillForwarding at_.
Proof.
  intros cl.
  destruct (@forwarding_loop _ stub_peer exact_filter cl map_to_list (mkLink 9 77 Mplex alpn_HTTP)
    1 2 (net_server 1 2 ∅ [77]) (net_server 2 1 ∅ [77]) 1000 0) as (at_ & _ & Hf).
  - reflexivity.
  - reflexivity.
  - by apply net_server_inv.
  - by apply net_server_inv.
  - intros m. apply enumerates_self.
  - by apply net_server_believes.
  - by apply net_server_believes.
  - by exists at_.
Defined.

Lemma one_hop_delivery_witness :
  let cl : gmap Z (Server (Z * bool * Protocol)) :=
    {[1 := net_server 1 2 ∅ [77]; 2 := net_server 2 1 {[77 := (77, false, Mplex)]} []]} in
  @follow _ stub_peer exact_filter map_to_list cl (mkLink 9 77 Mplex alpn_HTTP) 1 0 1 =
    Delivered 2 (77, false, Mplex) 1.
Proof.
  intros cl.
  destruct (@one_hop_delivery _ stub_peer exact_filter cl map_to_list (mkLink 9 77 Mplex alpn_HTTP)
    2 (net_server 2 1 {[77 := (77, false, Mplex)]} []) (77, false, Mplex)) as [_ Hd];
    [reflexivity|reflexivity|intros m; apply enumerates_self|].
  apply (Hd 1 (net_server 1 2 ∅ [77])); [reflexivity|by apply net_server_inv|].
  by apply net_server_believes.
Defined.
