(* ===== verification/Cluster.v ===== *)
(** * Cluster: announcements between several servers

    Several servers of [server/gossip.go] run side by side.  Each takes the
    steps of its own handlers; the periodic push/pull of the membership library
    takes the buffer that [LocalState] returns on one server to
    [MergeRemoteState] on another, and buffers in flight may be delayed,
    reordered or lost.  Servers may start and stop at any time. *)
From S2P Require Import Prelude GoStd Link Message MuxChannel Multiplexer Mux PeerGraph PeerMap Meta Acme Server Gossip Directory Network.

Open Scope Z_scope.

(** A buffer on its way. *)
Record flight := mkFlight {
  fl_from : Z;
  fl_to : Z;
  fl_buf : list Z;
}.

Section Cluster.
Context {P : Type} `{MuxPeer P} (reg : gmap Z (Constructor P)) `{XorFilter} `{Crypto} `{Json}.
Implicit Types s : Server P.

(** The running servers, the buffers in flight and, as history, the client
    identifiers each dispatch announced. *)
Record cluster_sys := mkCluster {
  cl_nodes : gmap Z (Server P * @background P);
  cl_flights : list flight;
  cl_log : list (Z * list Z);
}.
Implicit Types cl : cluster_sys.

Definition empty_cluster : cluster_sys := mkCluster ∅ [] [].

Definition with_node (id : Z) (sys : Server P * @background P) cl : cluster_sys :=
  mkCluster (<[id := sys]> (cl_nodes cl)) (cl_flights cl) (cl_log cl).

(** The handlers that are not the receiving end of a push/pull. *)
Definition ordinary (e : server_event (P:=P)) : Prop :=
  match e with
  | EvMergeRemote _ _ join => join = true
  | _ => True
  end.

(** What an announcement adds to the history. *)
Definition dispatched (id : Z) (e : server_event (P:=P)) : list (Z * list Z) :=
  match e with
  | EvAnnounce peers => [(id, peers)]
  | _ => []
  end.

Inductive cluster_event :=
| CStart (id : Z)
| CStop (id : Z)
| CServer (id : Z) (e : server_event (P:=P))
| CPush (a b : Z)
| CDeliver (i : nat)
| CLose (i : nat).

Inductive cluster_step : cluster_event → cluster_sys → cluster_sys → Prop :=
| cs_start cl id conf dec ring s0 :
    cl_nodes cl !! id = None → u64 id → server_New conf id dec ring = Ok s0 →
    cluster_step (CStart id) cl (with_node id (s0, idle) cl)
| cs_stop cl id :
    cluster_step (CStop id) cl (mkCluster (delete id (cl_nodes cl)) (cl_flights cl) (cl_log cl))
| cs_server cl id e s pending sys' :
    cl_nodes cl !! id = Some (s, pending) → ordinary e →
    server_step reg e (s, pending) = Some sys' →
    cluster_step (CServer id e) cl
      (mkCluster (<[id := sys']> (cl_nodes cl)) (cl_flights cl) (dispatched id e ++ cl_log cl))
| cs_push cl a b s pending buf :
    cl_nodes cl !! a = Some (s, pending) → LocalState s false = Ok (Some buf) →
    cluster_step (CPush a b) cl
      (mkCluster (cl_nodes cl) (cl_flights cl ++ [mkFlight a b buf]) (cl_log cl))
| cs_deliver cl i f ca s pending s' :
    cl_flights cl !! i = Some f → cl_nodes cl !! fl_to f = Some (s, pending) →
    MergeRemoteState s ca (fl_buf f) false = Ok (Some s') →
    cluster_step (CDeliver i) cl
      (mkCluster (<[fl_to f := (s', pending)]> (cl_nodes cl)) (delete i (cl_flights cl)) (cl_log cl))
| cs_lose cl i :
    cluster_step (CLose i) cl (mkCluster (cl_nodes cl) (delete i (cl_flights cl)) (cl_log cl)).

(** Some step, and the states a cluster can be in. *)
Definition cluster_move cl cl' : Prop := ∃ l, cluster_step l cl cl'.
Definition cluster_reachable cl : Prop := rtc cluster_move empty_cluster cl.

(** ** What one step does to what a server knows *)

(** An ordinary handler leaves the cached announcement alone unless it is the
    dispatch; the queue of announcements only shrinks; and what is new in the
    graph was in the queue. *)
Record learns s s' : Prop := {
  ln_queue c : c ∈ ch_buf (s_updatesCh s') → c ∈ ch_buf (s_updatesCh s);
  ln_graph k c : peerFilter (s_peerGraph s') !! k = Some c →
    peerFilter (s_peerGraph s) !! k = Some c ∨ (cc_Peer c = k ∧ c ∈ ch_buf (s_updatesCh s));
}.

Definition knowledge s := (s_peerGraph s, s_updatesCh s).

Lemma same_knowledge s s' : knowledge s' = knowledge s → learns s s'.
Proof. unfold knowledge. intros [= Hg Hu]. split; rewrite ?Hg, ?Hu; auto. Qed.

Lemma routine_step_learns cf s r s' r' :
  routine_step reg cf s r = (s', r') → learns s s' ∧ s_cached s' = s_cached s.
Proof.
  intros (Hu & Hc & _ & Hg)%routine_step_frame. split; [|done].
  destruct Hg as [Hg|(peer & _ & Hg)]; [apply same_knowledge; unfold knowledge; congruence|].
  split; rewrite ?Hu, ?Hg; [done|]. intros k c Hk. cbn in Hk. apply lookup_delete_Some in Hk as [_ Hk]. by left.
Qed.

Lemma handleMerge_learns s s' : handleMerge s = Some s' → learns s s' ∧ s_cached s' = s_cached s.
Proof.
  unfold handleMerge, chan_recv. destruct (ch_buf (s_updatesCh s)) as [|x rest] eqn:Eb;
    [by destruct (ch_closed _)|]. cbn.
  destruct (cc_Peer x =? s_id s); intros [= <-]; (split; [|done]);
    (split; cbn; rewrite Eb; [set_solver|]); [by left|].
  intros k c. destruct (decide (k = cc_Peer x)) as [->|Hne].
  - destruct (Replace_entry (s_peerGraph s) x) as (c' & -> & _ & [->|Hc']); intros [= <-];
      [right; set_solver|by left].
  - rewrite Replace_other by done. by left.
Qed.

Lemma MergeRemoteState_join_learns s ca buf s' :
  MergeRemoteState s ca buf true = Ok (Some s') → learns s s' ∧ s_cached s' = s_cached s.
Proof.
  unfold MergeRemoteState. intros Hm. case_match; [simplify_eq; split; [by apply same_knowledge|done]|].
  destruct (json_Unmarshal_sync buf); simplify_eq/=; [|split; [by apply same_knowledge|done]].
  apply go_bind_Ok in Hm as (s2 & Hm & [= <-]). rewrite (merge_acme_frame _ _ _ _ Hm).
  split; [by apply same_knowledge|done].
Qed.

Lemma server_step_learns e s bg s' bg' :
  ordinary e → server_step reg e (s, bg) = Some (s', bg') →
  learns s s' ∧
  (s_cached s' = s_cached s ∨ ∃ peers, e = EvAnnounce peers ∧ generateConnectedClients s peers = Ok s').
Proof.
  intros Ho He%server_step_kind. cut (learns s s' ∧ s_cached s' = s_cached s ∨
    learns s s' ∧ ∃ peers, e = EvAnnounce peers ∧ generateConnectedClients s peers = Ok s'); [tauto|].
  destruct He as [e r _ _|e ms _|e i m dial open werr _|i cf r s' r' Hi _ Hst|s' _ Ht|peers w s' _ _ Hg
    |e s' Hs'|e|ca buf join s' Hm|s' Hm|ca m s' Hm];
    try (left; split; [by apply same_knowledge|done]; fail).
  - left. by eapply routine_step_learns.
  - left. unfold take_clientEvt in Ht. repeat (case_match; simplify_eq/=). split; [by apply same_knowledge|done].
  - right. split; [|by exists peers]. apply same_knowledge. unfold generateConnectedClients in Hg.
    by repeat (case_match; simplify_eq/=).
  - left. split; [apply same_knowledge|]; by destruct Hs' as [-> | ->].
  - left. cbn in Ho. subst join. by eapply MergeRemoteState_join_learns.
  - left. by apply handleMerge_learns.
  - left. unfold handlePeerMessage in Hm.
    repeat (case_match; simplify_eq/=); (split; [by apply same_knowledge|done]).
Qed.

(** ** Announcements are genuine *)
Context `{!XorFilterOk}.

(** [buf] is the wire form of an announcement that [Ann] allows for [id]. *)
Definition carries (Ann : Z → ConnectedClients → Prop) (id : Z) (buf : list Z) : Prop :=
  ∃ c, Ann id c ∧ u64 id ∧ ConnectedClients_MarshalBinary c = Ok buf.

(** Everything the cluster holds about a server is allowed by [Ann]. *)
Record node_truthful (Ann : Z → ConnectedClients → Prop) (id : Z) (sys : Server P * @background P) : Prop := {
  nt_inv : sys_inv id sys;
  nt_id : u64 id;
  nt_updates : updates_ok (s_updatesCh sys.1);
  nt_cached buf : s_cached sys.1 = Some buf → carries Ann id buf;
  nt_queue c : c ∈ ch_buf (s_updatesCh sys.1) → Ann (cc_Peer c) c;
  nt_graph k c : peerFilter (s_peerGraph sys.1) !! k = Some c → Ann k c;
}.

Record truthful (Ann : Z → ConnectedClients → Prop) cl : Prop := {
  tr_nodes : map_Forall (node_truthful Ann) (cl_nodes cl);
  tr_flights : Forall (λ f, carries Ann (fl_from f) (fl_buf f)) (cl_flights cl);
}.

(** Only announcements that the code can build. *)
Definition genuine (Ann : Z → ConnectedClients → Prop) : Prop :=
  ∀ id c, Ann id c → ∃ l, NewConnectedClients id l = Ok c.

Lemma carries_mono (Ann Ann' : Z → ConnectedClients → Prop) id buf :
  (∀ id c, Ann id c → Ann' id c) → carries Ann id buf → carries Ann' id buf.
Proof. intros Hm (c & Hc & Hw). exists c. eauto. Qed.

Lemma truthful_mono (Ann Ann' : Z → ConnectedClients → Prop) cl :
  (∀ id c, Ann id c → Ann' id c) → truthful Ann cl → truthful Ann' cl.
Proof.
  intros Hm [Hn Hf]. split.
  - intros id sys Hs. destruct (Hn id sys Hs). split; eauto using carries_mono.
  - eapply Forall_impl; [exact Hf|]. intros f. by apply carries_mono.
Qed.

Lemma genuine_peer Ann id c : genuine Ann → Ann id c → cc_Peer c = id.
Proof. by intros Hg (l & (f & -> & _)%NewConnectedClients_inv)%Hg. Qed.

Lemma carries_decodes Ann id buf :
  genuine Ann → carries Ann id buf →
  0 < zlen buf ∧
  ∃ c, ConnectedClients_UnmarshalBinary zero_CC buf = Ok c ∧ Ann id c ∧ cc_Peer c = id.
Proof.
  intros Hg (c & Hc & Hid & Hw). destruct (Hg id c Hc) as [l Hl].
  destruct (announcement_decodes _ _ _ _ Hid Hl Hw) as (Hd & Hp & _ & _).
  split; [|by exists c]. destruct (NewConnectedClients_inv _ _ _ Hl) as (f & -> & Hf & _).
  rewrite ConnectedClients_MarshalBinary_eq in Hw by done. simplify_eq.
  autorewrite with zlen. pose proof (zlen_nonneg (Fingerprints f)). lia.
Qed.

(** What a push/pull delivers is queued. *)
Lemma deliver_Ok s ca buf s' c :
  0 < zlen buf → ConnectedClients_UnmarshalBinary zero_CC buf = Ok c →
  MergeRemoteState s ca buf false = Ok (Some s') →
  ∃ u, chan_send (s_updatesCh s) c = Sent u ∧ s' = with_updates u s.
Proof.
  intros Hl Hd. unfold MergeRemoteState. rewrite (proj2 (Z.eqb_neq _ _)), Hd by lia.
  destruct (chan_send _ c) as [u| |]; intros; simplify_eq. by exists u.
Qed.

Lemma chan_send_Sent {A} (u u' : chan A) x :
  chan_send u x = Sent u' → ch_buf u' = ch_buf u ++ [x].
Proof. unfold chan_send. repeat case_match; by intros [= <-]. Qed.

Lemma announce_caches Ann id s bg peers s' buf :
  sys_inv id (s, bg) → u64 id → generateConnectedClients s peers = Ok s' →
  (∀ c, NewConnectedClients id peers = Ok c → Ann id c) →
  (∀ buf, s_cached s = Some buf → carries Ann id buf) →
  s_cached s' = Some buf → carries Ann id buf.
Proof.
  intros (_ & Hid & _) Hu Hg Hann Hold Hs'. cbn in Hid. unfold generateConnectedClients in Hg.
  rewrite Hid in Hg. destruct (NewConnectedClients id _) as [c| |] eqn:Ec; simplify_eq/=; [|by apply Hold].
  destruct (NewConnectedClients_inv _ _ _ Ec) as (f & -> & Hf & _).
  destruct (ConnectedClients_MarshalBinary _) as [b| |] eqn:Ew; simplify_eq/=.
  - eexists. split_and!; [by apply Hann|done|exact Ew].
  - by rewrite ConnectedClients_MarshalBinary_eq in Ew.
Qed.

(** A step keeps everything truthful, when what it announces is allowed. *)
Lemma cluster_step_truthful `{!ConstructorsOk reg} Ann l cl cl' :
  genuine Ann → cluster_step l cl cl' →
  (∀ id peers c, l = CServer id (EvAnnounce peers) → NewConnectedClients id peers = Ok c → Ann id c) →
  truthful Ann cl → truthful Ann cl'.
Proof.
  intros Hg Hs Hd [Hn Hf]. destruct Hs as [cl id conf dec ring s0 Hfresh Hu Hnew|cl id
    |cl id e s pending [s' pending'] Hid Ho He|cl a b s pending buf Ha Hl
    |cl i f ca s pending s' Hi Hto Hm|cl i]; split; cbn; try done.
  - apply map_Forall_insert_2; [|done]. destruct (server_New_inv _ _ _ _ _ Hnew) as [Hi Hself].
    pose proof (server_New_Ok _ _ _ _ _ Hnew) as (cm & b & _ & _ & ->).
    split; cbn [s_updatesCh s_cached s_peerGraph peerFilter ch_buf make_chan NewPeerGraph fst]; try done.
    + split_and!; cbn; [done|lia|done].
    + by intros c ?%elem_of_nil.
  - by apply map_Forall_delete.
  - apply map_Forall_insert_2; [|done]. destruct (Hn _ _ Hid) as [Hi Hu Hup Hc Hq Hgr].
    destruct (server_step_learns _ _ _ _ _ Ho He) as [[Lq Lg] Lc].
    split; cbn in *; try done.
    + by eapply server_step_inv.
    + by eapply updates_move_ok, server_step_updates.
    + intros buf Hbuf. destruct Lc as [Lc|(peers & -> & Hb)]; [apply Hc; congruence|].
      eapply announce_caches; eauto.
    + eauto.
    + intros k c Hk. destruct (Lg k c Hk) as [|[<- ?]]; eauto.
  - apply Forall_app_2; [done|]. apply Forall_singleton. cbn.
    injection Hl as Hl. by apply (nt_cached _ _ _ (Hn _ _ Ha)).
  - apply map_Forall_insert_2; [|done]. destruct (Hn _ _ Hto) as [Hi' Hu Hup Hc Hq Hgr].
    destruct (carries_decodes Ann _ _ Hg (Forall_lookup_1 _ _ _ _ Hf Hi)) as (Hlen & c & Hdec & Hann & Hp).
    pose proof (MergeRemoteState_updates _ _ _ _ _ Hm) as Hmove.
    pose proof (MergeRemoteState_keeps _ _ _ _ _ (proj1 Hi') Hm) as Hk.
    destruct (deliver_Ok _ _ _ _ _ Hlen Hdec Hm) as (u & Hsend & ->).
    split; cbn in *; try done.
    + by eapply sys_inv_keeps'.
    + by eapply updates_move_ok.
    + intros c'. rewrite (chan_send_Sent _ _ _ Hsend). rewrite elem_of_app, list_elem_of_singleton.
      intros [?| ->]; [auto|]. by rewrite Hp.
  - by apply Forall_delete.
  - by apply Forall_delete.
Qed.

(** *** The history *)

(** [c] announces a set of clients that [id] dispatched. *)
Definition logged cl (id : Z) (c : ConnectedClients) : Prop :=
  ∃ l, (id, l) ∈ cl_log cl ∧ NewConnectedClients id l = Ok c.

Lemma logged_genuine cl : genuine (logged cl).
Proof. intros id c (l & _ & Hc). by exists l. Qed.

Lemma cluster_step_log l cl cl' : cluster_step l cl cl' → ∃ new, cl_log cl' = new ++ cl_log cl.
Proof. destruct 1; cbn; eauto; by exists []. Qed.

Lemma cluster_step_logged l cl cl' id c : cluster_step l cl cl' → logged cl id c → logged cl' id c.
Proof.
  intros (new & Hl)%cluster_step_log (cs & Hin & Hc). exists cs. split; [|done]. rewrite Hl. set_solver.
Qed.

Lemma step_truthful `{!ConstructorsOk reg} l cl cl' :
  cluster_step l cl cl' → truthful (logged cl) cl → truthful (logged cl') cl'.
Proof.
  intros Hs Ht. eapply cluster_step_truthful; [apply logged_genuine|exact Hs| |].
  - intros id peers c -> Hc. inversion Hs; subst. cbn.
    eexists. split; [by apply elem_of_cons; left|done].
  - eapply truthful_mono; [|exact Ht]. intros id c. by eapply cluster_step_logged.
Qed.

Lemma reachable_truthful `{!ConstructorsOk reg} cl : cluster_reachable cl → truthful (logged cl) cl.
Proof.
  apply (rtc_ind_r (λ cl, truthful (logged cl) cl)).
  - split; [apply map_Forall_empty|by apply Forall_nil].
  - intros cl1 cl2 _ [l Hl] Ht. by eapply step_truthful.
Qed.

(** *** What was announced

    Server [id] runs from [cl1] to [cl2] without a stop; the client sets it had,
    state by state. *)
Definition clients_of s : gset Z := dom (pm_peers (s_clients s)).

Inductive passes (id : Z) (cl1 : cluster_sys) : cluster_sys → list (gset Z) → Prop :=
| passes_at s bg : cl_nodes cl1 !! id = Some (s, bg) → passes id cl1 cl1 [clients_of s]
| passes_step cl2 cl3 sets s bg :
    passes id cl1 cl2 sets → cluster_move cl2 cl3 → cl_nodes cl3 !! id = Some (s, bg) →
    passes id cl1 cl3 (sets ++ [clients_of s]).

Lemma passes_last id cl1 cl2 sets s bg :
  passes id cl1 cl2 sets → cl_nodes cl2 !! id = Some (s, bg) → ∃ l, sets = l ++ [clients_of s].
Proof. intros Hp Hs. destruct Hp; simplify_eq; [by exists []|by eexists]. Qed.

(** The window of an enumeration that began at [cl1]. *)
Definition window_over (sets : list (gset Z)) (w : range_window) : Prop :=
  (∀ k, k ∈ rw_all w ↔ Forall (λ D, k ∈ D) sets) ∧ (∀ k, k ∈ rw_some w ↔ Exists (λ D, k ∈ D) sets).

Definition window_traced cl (id : Z) (w : range_window) : Prop :=
  ∃ cl1 sets, cluster_reachable cl1 ∧ passes id cl1 cl sets ∧ window_over sets w.

Lemma window_traced_open cl id s bg :
  cluster_reachable cl → cl_nodes cl !! id = Some (s, bg) → window_traced cl id (window_open (s_clients s)).
Proof.
  intros Hr Hs. exists cl, [clients_of s]. split; [done|]. split; [by eapply passes_at|].
  split; intros k; cbn; [by rewrite Forall_singleton|by rewrite Exists_cons, Exists_nil; naive_solver].
Qed.

Lemma window_traced_move cl cl' id s bg w :
  window_traced cl id w → cluster_move cl cl' → cl_nodes cl' !! id = Some (s, bg) →
  window_traced cl' id (window_move (s_clients s) w).
Proof.
  intros (cl1 & sets & Hr & Hp & Hall & Hsome) Hm Hs. exists cl1, (sets ++ [clients_of s]).
  split; [done|]. split; [by eapply passes_step|]. split; intros k; cbn.
  - rewrite elem_of_intersection, Hall, Forall_app, Forall_singleton. done.
  - rewrite elem_of_union, Hsome, Exists_app, Exists_cons, Exists_nil. unfold clients_of. tauto.
Qed.

Lemma window_traced_same cl cl' id s bg s' bg' w :
  window_traced cl id w → cluster_move cl cl' → cl_nodes cl !! id = Some (s, bg) →
  cl_nodes cl' !! id = Some (s', bg') → s_clients s' = s_clients s → window_traced cl' id w.
Proof.
  intros (cl1 & sets & Hr & Hp & Hall & Hsome) Hm Hs Hs' Heq.
  destruct (passes_last _ _ _ _ _ _ Hp Hs) as [l Hl]. exists cl1, (sets ++ [clients_of s']).
  split; [done|]. split; [by eapply passes_step|]. unfold clients_of in *. rewrite Heq.
  split; intros k.
  - rewrite Hall, Hl, !Forall_app, !Forall_singleton. tauto.
  - rewrite Hsome, Hl, !Exists_app, !Exists_cons, !Exists_nil. tauto.
Qed.

(** What a step of a server does to its enumeration. *)
Lemma server_step_window e s bg s' bg' w :
  server_step reg e (s, bg) = Some (s', bg') → bg_dispatch bg' = Some w →
  (bg_dispatch bg = Some w ∧ s_clients s' = s_clients s) ∨
  (∃ w0, bg_dispatch bg = Some w0 ∧ w = window_move (s_clients s') w0) ∨
  (w = window_open (s_clients s') ∧ e = EvDispatch).
Proof.
  intros He%server_step_kind Hw.
  destruct He as [e r _ _|e ms _|e i m dial open werr _|i cf r s' r' Hi _ Hst|s' _ Ht|peers w' s' _ _ Hg
    |e s' Hs'|e|ca buf join s' Hm|s' Hm|ca m s' Hm]; cbn in Hw; try by left.
  - apply fmap_Some in Hw as (w0 & Hw & ->). right. left. by exists w0.
  - right. right. simplify_eq. split; [|done]. by destruct (take_clientEvt_maps _ _ Ht) as [_ ->].
  - left. split; [done|]. by destruct Hs' as [-> | ->].
  - left. split; [done|]. by apply (MergeRemoteState_maps _ _ _ _ _ Hm).
  - left. split; [done|]. by apply (handleMerge_maps _ _ Hm).
  - left. split; [done|]. by apply (handlePeerMessage_maps _ _ _ _ Hm).
Qed.

Definition windows_traced cl : Prop :=
  ∀ id s bg w, cl_nodes cl !! id = Some (s, bg) → bg_dispatch bg = Some w → window_traced cl id w.

Lemma cluster_step_windows l cl cl' :
  cluster_reachable cl → cluster_step l cl cl' → windows_traced cl → windows_traced cl'.
Proof.
  intros Hr Hs Ht id0 s0 bg0 w0 Hid Hw. assert (cluster_move cl cl') as Hm by by exists l.
  assert (∀ s, cl_nodes cl !! id0 = Some (s, bg0) → s_clients s0 = s_clients s → window_traced cl' id0 w0) as Hsame.
  { intros s Hold Heq. eapply (window_traced_same cl); eauto. }
  destruct Hs as [cl id conf dec ring s1 Hfresh Hu Hnew|cl id
    |cl id e s bg [s' bg'] Hold Ho He|cl a b s bg buf Ha Hl
    |cl i f ca s bg s' Hi Hto Hmr|cl i]; cbn in Hid.
  - apply lookup_insert_Some in Hid as [[<- [= <- <-]]|[_ Hid]]; [done|]. by eapply Hsame.
  - apply lookup_delete_Some in Hid as [_ Hid]. by eapply Hsame.
  - apply lookup_insert_Some in Hid as [[<- [= <- <-]]|[_ Hid]]; [|by eapply Hsame].
    assert (cl_nodes (mkCluster (<[id:=(s', bg')]> (cl_nodes cl)) (cl_flights cl) (dispatched id e ++ cl_log cl))
      !! id = Some (s', bg')) as Hnew by apply lookup_insert_eq.
    destruct (server_step_window _ _ _ _ _ _ He Hw) as [[Hb Heq]|[(w1 & Hb & ->)|[-> _]]].
    + eapply (window_traced_same cl); eauto.
    + eapply (window_traced_move cl); eauto.
    + eapply window_traced_open; [|done]. by eapply rtc_r.
  - by eapply Hsame.
  - apply lookup_insert_Some in Hid as [[<- [= <- <-]]|[_ Hid]]; [|by eapply Hsame].
    eapply Hsame; [done|]. by apply (MergeRemoteState_maps _ _ _ _ _ Hmr).
  - by eapply Hsame.
Qed.

Lemma reachable_windows cl : cluster_reachable cl → windows_traced cl.
Proof.
  intros Hr. cut (cluster_reachable cl ∧ windows_traced cl); [tauto|]. revert cl Hr.
  apply (rtc_ind_r (λ cl, cluster_reachable cl ∧ windows_traced cl)).
  - split; [apply rtc_refl|]. intros id s bg w Hid. cbn in Hid. by rewrite lookup_empty in Hid.
  - intros cl1 cl2 _ [l Hl] [Hr Ht]. split; [eapply rtc_r; [done|by exists l]|]. by eapply cluster_step_windows.
Qed.

(** Every entry of the history lists the clients of that server, as far as they
    did not change while it enumerated them. *)
Definition was_connected cl (id : Z) (clients : list Z) : Prop :=
  ∃ cl1 cl2 sets, cluster_reachable cl1 ∧ passes id cl1 cl2 sets ∧ rtc cluster_move cl2 cl ∧
    (∀ k, Forall (λ D, k ∈ D) sets → k ∈ clients) ∧ (∀ k, k ∈ clients → Exists (λ D, k ∈ D) sets).

Lemma log_was_connected cl id clients :
  cluster_reachable cl → (id, clients) ∈ cl_log cl → was_connected cl id clients.
Proof.
  intros Hr. revert cl Hr id clients.
  refine (rtc_ind_r (λ cl, ∀ id clients, (id, clients) ∈ cl_log cl → was_connected cl id clients) _ _ _);
    [by intros ? ? ?%elem_of_nil|].
  intros cl1 cl2 Hr1 Hm IH id clients Hin.
  assert ((id, clients) ∈ cl_log cl1 → was_connected cl2 id clients) as Hold.
  { intros (c1 & c2 & sets & H1' & H2' & H3' & ?)%IH. exists c1, c2, sets. split_and!; try done; [|naive_solver..].
    by eapply rtc_r. }
  pose proof Hm as Hmove. destruct Hm as [l Hs].
  destruct Hs as [| |cl1 id' e s bg [s' bg'] Hid Ho He| | |]; cbn in Hin; try by apply Hold.
  apply elem_of_app in Hin as [Hin|]; [|by apply Hold].
  destruct e; cbn in Hin; try by apply elem_of_nil in Hin.
  apply list_elem_of_singleton in Hin as [= -> ->]. cbn in He.
  apply bind_Some in He as (w & Hw & He). destruct (snapshot_ok w peers) eqn:Hk; [|done].
  destruct (reachable_windows cl1 Hr1 _ _ _ _ Hid Hw) as (c1 & sets & Hr' & Hp & Hall & Hsome).
  exists c1, cl1, sets. split_and!; [done|done|by apply rtc_once|..];
    apply snapshot_ok_spec in Hk as (_ & Hk1 & Hk2).
  - intros k Hk. by apply Hk1, Hall.
  - intros k Hk. by apply Hsome, Hk2.
Qed.

(** ** Settling

    Two servers: [a] announces, [b] listens.  Quiet steps are all those in
    which [a] makes no new announcement and neither of the two stops. *)
Definition quiet (a b : Z) (l : cluster_event) : Prop :=
  match l with
  | CStop id => id ≠ a ∧ id ≠ b
  | CServer id (EvAnnounce _) => id ≠ a
  | _ => True
  end.

Definition quiet_move (a b : Z) cl cl' : Prop := ∃ l, quiet a b l ∧ cluster_step l cl cl'.

(** The steps by which [b] learns: a push, deliveries and merges. *)
Definition exchange_move (a b : Z) cl cl' : Prop :=
  ∃ l, cluster_step l cl cl' ∧
    match l with
    | CPush x y => x = a ∧ y = b
    | CDeliver _ => True
    | CServer x EvHandleMerge => x = b
    | _ => False
    end.

Lemma exchange_quiet a b cl cl' : exchange_move a b cl cl' → quiet_move a b cl cl'.
Proof.
  intros (l & Hs & Hl). exists l. split; [|done]. destruct l as [| |? []| | |]; cbn; done.
Qed.

Lemma quiet_moves a b cl cl' : quiet_move a b cl cl' → cluster_move cl cl'.
Proof. intros (l & _ & Hl). by exists l. Qed.

(** Everything that [b] holds or may still receive about [a] has the digest of
    [a]'s current announcement. *)
Record settled (a b d : Z) cl : Prop := {
  st_announcer : ∃ (sys : Server P * @background P) buf c, cl_nodes cl !! a = Some sys ∧ s_cached sys.1 = Some buf ∧
    ConnectedClients_UnmarshalBinary zero_CC buf = Ok c ∧ cc_CRC64 c = d;
  st_listener : ∃ sys : Server P * @background P, cl_nodes cl !! b = Some sys ∧
    (∀ c, c ∈ ch_buf (s_updatesCh sys.1) → cc_Peer c = a → cc_CRC64 c = d) ∧
    (∀ c, peerFilter (s_peerGraph sys.1) !! a = Some c → cc_CRC64 c = d);
  st_flights f c : f ∈ cl_flights cl → fl_to f = b → fl_from f = a →
    ConnectedClients_UnmarshalBinary zero_CC (fl_buf f) = Ok c → cc_CRC64 c = d;
}.

Lemma quiet_cached a b e s pending s' pending' :
  quiet a b (CServer a e) → ordinary e → server_step reg e (s, pending) = Some (s', pending') →
  s_cached s' = s_cached s.
Proof.
  intros Hq Ho He. destruct (server_step_learns _ _ _ _ _ Ho He) as [_ [?|(peers & -> & _)]]; [done|].
  by cbn in Hq.
Qed.

Lemma settled_quiet Ann a b d cl cl' :
  genuine Ann → truthful Ann cl → a ≠ b → settled a b d cl → quiet_move a b cl cl' → settled a b d cl'.
Proof.
  intros Hg [Hn Hf] Hab [(sysa & buf & ca & Ha & Hbuf & Hca & Hd) (sysb & Hb & Hbq & Hbg) Hfl] (l & Hq & Hs).
  destruct Hs as [cl id conf dec ring s0 Hfresh Hu Hnew|cl id
    |cl id e s pending [s' pending'] Hid Ho He|cl x y s pending xbuf Hx Hl
    |cl i f cca s pending s' Hi Hto Hm|cl i].
  - assert (id ≠ a ∧ id ≠ b) as [Hia Hib] by (split; intros ->; congruence).
    split; [exists sysa, buf, ca|exists sysb|done]; cbn; rewrite lookup_insert_ne by done; auto.
  - destruct Hq. split; [exists sysa, buf, ca|exists sysb|done]; cbn; rewrite lookup_delete_ne by done; auto.
  - destruct (server_step_learns _ _ _ _ _ Ho He) as [[Lq Lg] _]. split; cbn; [| |done].
    + destruct (decide (id = a)) as [->|Hne]; [|exists sysa, buf, ca; rewrite lookup_insert_ne by done; auto].
      pose proof (quiet_cached a b _ _ _ _ _ Hq Ho He) as Hsame.
      exists (s', pending'), buf, ca.
      rewrite lookup_insert_eq. simplify_eq. cbn in *. by rewrite Hsame.
    + destruct (decide (id = b)) as [->|Hne]; [|exists sysb; rewrite lookup_insert_ne by done; auto].
      exists (s', pending'). rewrite lookup_insert_eq. simplify_eq. cbn in *.
      split_and!; [done|auto|]. intros c Hc. destruct (Lg a c Hc) as [|[? ?]]; auto.
  - split; [by exists sysa, buf, ca|by exists sysb|]. cbn. intros f c [Hin| ->%list_elem_of_singleton]%elem_of_app;
      [by apply Hfl|]. cbn. intros -> -> Hc. injection Hl as Hl.
    simplify_eq. cbn in *.
    congruence.
  - destruct (carries_decodes Ann _ _ Hg (Forall_lookup_1 _ _ _ _ Hf Hi)) as (Hlen & c & Hdec & Hann & Hp).
    destruct (deliver_Ok _ _ _ _ _ Hlen Hdec Hm) as (u & Hsend & ->). split; cbn.
    + destruct (decide (fl_to f = a)) as [E|Hne]; [|exists sysa, buf, ca; rewrite lookup_insert_ne by done; auto].
      rewrite E, lookup_insert_eq. rewrite E in Hto. simplify_eq. by exists (with_updates u s, pending), buf, ca.
    + destruct (decide (fl_to f = b)) as [E|Hne]; [|exists sysb; rewrite lookup_insert_ne by done; auto].
      rewrite E, lookup_insert_eq. rewrite E in Hto. simplify_eq. eexists. split; [done|]. cbn in *.
      split; [|done]. rewrite (chan_send_Sent _ _ _ Hsend). intros c' [?|Hc']%elem_of_app Hp'; [auto|].
      apply list_elem_of_singleton in Hc' as ->. eapply Hfl; [by eapply list_elem_of_lookup_2|done|congruence|done].
    + intros f' c' Hin. apply Hfl. by eapply list_elem_of_delete_inv.
  - split; [by exists sysa, buf, ca|by exists sysb|]. cbn. intros f c Hin. apply Hfl.
    by eapply list_elem_of_delete_inv.
Qed.

(** ** The exchange

    From any state [b] can catch up: it merges what is queued, takes what is in
    flight, and then a fresh push of [a]. *)
Section Exchange.
Context `{!ConstructorsOk reg} (Ann : Z → ConnectedClients → Prop) (a b : Z) (ca : CA) (pending : @background P).
Hypothesis Hgenuine : genuine Ann.

(** [b]'s server is [s'] instead of [s], with the same sessions; the other
    servers and the history are the same. *)
Record learned s s' cl cl' : Prop := {
  le_moves : rtc (exchange_move a b) cl cl';
  le_truthful : truthful Ann cl';
  le_before : cl_nodes cl !! b = Some (s, pending);
  le_nodes : cl_nodes cl' = <[b := (s', pending)]> (cl_nodes cl);
  le_log : cl_log cl' = cl_log cl;
  le_peers : s_peers s' = s_peers s;
  le_clients : s_clients s' = s_clients s;
}.

Lemma learned_refl s cl : truthful Ann cl → cl_nodes cl !! b = Some (s, pending) → learned s s cl cl.
Proof. intros Ht Hb. split; try done. by rewrite insert_id. Qed.

Lemma learned_at s s' cl cl' : learned s s' cl cl' → cl_nodes cl' !! b = Some (s', pending).
Proof. intros []. by rewrite le_nodes0, lookup_insert_eq. Qed.

Lemma learned_trans s s1 s2 cl cl1 cl2 : learned s s1 cl cl1 → learned s1 s2 cl1 cl2 → learned s s2 cl cl2.
Proof.
  intros [? ? ? E1 ? ? ?] [? ? ? E2 ? ? ?]. split; try done; try congruence.
  - by etrans.
  - by rewrite E2, E1, insert_insert_eq.
Qed.

Lemma exchange_truthful cl cl' : exchange_move a b cl cl' → truthful Ann cl → truthful Ann cl'.
Proof.
  intros (l & Hs & Hl). eapply cluster_step_truthful; [done|done|]. by intros ? ? ? ->.
Qed.

Lemma learned_once s s' cl cl' :
  truthful Ann cl → exchange_move a b cl cl' → cl_nodes cl !! b = Some (s, pending) →
  cl_nodes cl' = <[b := (s', pending)]> (cl_nodes cl) → cl_log cl' = cl_log cl →
  s_peers s' = s_peers s → s_clients s' = s_clients s → learned s s' cl cl'.
Proof. intros Ht Hm. split; try done; [by apply rtc_once|by eapply exchange_truthful]. Qed.

Lemma handleMerge_cons s x rest :
  ch_buf (s_updatesCh s) = x :: rest →
  ∃ s', handleMerge s = Some s' ∧ s_peers s' = s_peers s ∧ s_clients s' = s_clients s ∧
    ch_buf (s_updatesCh s') = rest ∧
    (cc_Peer x ≠ s_id s → s_peerGraph s' = (PeerGraph_Replace (s_peerGraph s) x).1).
Proof.
  intros Hx. unfold handleMerge, chan_recv. rewrite Hx. cbn.
  destruct (Z.eqb_spec (cc_Peer x) (s_id s)); eexists; (split; [done|]); split_and!; done.
Qed.

(** One merge. *)
Lemma exchange_merge cl s x rest :
  truthful Ann cl → cl_nodes cl !! b = Some (s, pending) → ch_buf (s_updatesCh s) = x :: rest →
  ∃ cl' s', learned s s' cl cl' ∧ cl_flights cl' = cl_flights cl ∧ ch_buf (s_updatesCh s') = rest ∧
    (cc_Peer x ≠ s_id s → s_peerGraph s' = (PeerGraph_Replace (s_peerGraph s) x).1).
Proof.
  intros Ht Hb Hx. destruct (handleMerge_cons s x rest Hx) as (s' & Hm & Hp & Hc & Hr & Hg).
  exists (with_node b (s', pending) cl), s'. split; [apply learned_once; try done|done].
  exists (CServer b EvHandleMerge). split; [|done].
  apply (cs_server cl b EvHandleMerge s pending (s', pending)); [done|done|]. cbn. by rewrite Hm.
Qed.

Lemma exchange_drain cl s :
  truthful Ann cl → cl_nodes cl !! b = Some (s, pending) →
  ∃ cl' s', learned s s' cl cl' ∧ cl_flights cl' = cl_flights cl ∧ ch_buf (s_updatesCh s') = [].
Proof.
  intros Ht Hb. remember (ch_buf (s_updatesCh s)) as q eqn:Hq. revert cl s Ht Hb Hq.
  induction q as [|x q IH]; intros cl s Ht Hb Hq; [exists cl, s; auto using learned_refl|].
  destruct (exchange_merge cl s x q Ht Hb (eq_sym Hq)) as (cl1 & s1 & L1 & F1 & Q1 & _).
  destruct (IH cl1 s1) as (cl2 & s2 & L2 & F2 & Q2);
    [apply L1|by eapply learned_at|done|]. exists cl2, s2.
  split; [by eapply learned_trans|]. split; [congruence|done].
Qed.

(** One delivery into an empty queue. *)
Lemma exchange_deliver cl s i f :
  truthful Ann cl → cl_nodes cl !! b = Some (s, pending) → ch_buf (s_updatesCh s) = [] →
  cl_flights cl !! i = Some f → fl_to f = b →
  ∃ cl' s' c, learned s s' cl cl' ∧ cl_flights cl' = delete i (cl_flights cl) ∧
    s_peerGraph s' = s_peerGraph s ∧ s_id s' = s_id s ∧ ch_buf (s_updatesCh s') = [c] ∧
    Ann (fl_from f) c ∧ ConnectedClients_UnmarshalBinary zero_CC (fl_buf f) = Ok c.
Proof.
  intros Ht Hb Hq Hi Hto. pose proof Ht as [Hn Hf].
  destruct (carries_decodes Ann _ _ Hgenuine (Forall_lookup_1 _ _ _ _ Hf Hi))
    as (Hlen & c & Hdec & Hann & Hp).
  destruct (nt_updates _ _ _ (Hn _ _ Hb)) as (Hcap & _ & Hcl). cbn in Hcap, Hcl.
  set (u := mkChan 16 [c] false).
  assert (MergeRemoteState s ca (fl_buf f) false = Ok (Some (with_updates u s))) as Hm.
  { unfold MergeRemoteState. rewrite (proj2 (Z.eqb_neq _ _)), Hdec by lia.
    unfold chan_send. by rewrite Hcl, Hcap, Hq. }
  exists (mkCluster (<[b := (with_updates u s, pending)]> (cl_nodes cl)) (delete i (cl_flights cl))
    (cl_log cl)), (with_updates u s), c.
  split; [apply learned_once; try done|done].
  exists (CDeliver i). split; [|done]. rewrite <-Hto. eapply cs_deliver; [done|by rewrite Hto|exact Hm].
Qed.

Definition flights_to cl : list flight := filter (λ f, fl_to f = b) (cl_flights cl).

Lemma exchange_flush n cl s :
  length (flights_to cl) = n → truthful Ann cl → cl_nodes cl !! b = Some (s, pending) →
  ∃ cl' s', learned s s' cl cl' ∧ flights_to cl' = [] ∧ ch_buf (s_updatesCh s') = [].
Proof.
  revert cl s. induction n as [|n IH]; intros cl s Hl Ht Hb;
    destruct (exchange_drain cl s Ht Hb) as (cl1 & s1 & L1 & F1 & Q1).
  { exists cl1, s1. split_and!; [done| |done]. apply nil_length_inv. unfold flights_to in *. by rewrite F1. }
  destruct (flights_to cl) as [|f fs] eqn:Ef; [done|].
  assert (f ∈ flights_to cl) as [Hto Hin]%list_elem_of_filter by (rewrite Ef; apply elem_of_cons; by left).
  apply list_elem_of_lookup in Hin as [i Hi].
  destruct (exchange_deliver cl1 s1 i f) as (cl2 & s2 & c & L2 & F2 & _);
    [apply L1|by eapply learned_at|done|by rewrite F1|done|].
  destruct (IH cl2 s2) as (cl3 & s3 & L3 & F3 & Q3); [|apply L2|by eapply learned_at|].
  - unfold flights_to in *. rewrite F2, F1. pose proof (delete_Permutation _ _ _ Hi) as Hperm.
    apply (filter_Permutation (λ f, fl_to f = b)) in Hperm. apply Permutation_length in Hperm.
    rewrite Ef, filter_cons_True in Hperm by done. cbn in Hperm, Hl. lia.
  - exists cl3, s3. split; [|done]. eapply learned_trans; [done|]. by eapply learned_trans.
Qed.

(** The whole exchange. *)
Lemma exchange_settles cl s sysa buf c :
  a ≠ b → truthful Ann cl → cl_nodes cl !! b = Some (s, pending) →
  cl_nodes cl !! a = Some sysa → s_cached sysa.1 = Some buf →
  ConnectedClients_UnmarshalBinary zero_CC buf = Ok c →
  ∃ cl' s' c', learned s s' cl cl' ∧ settled a b (cc_CRC64 c) cl' ∧
    peerFilter (s_peerGraph s') !! a = Some c'.
Proof.
  intros Hab Ht Hb Ha Hbuf Hdec.
  destruct (exchange_flush _ cl s eq_refl Ht Hb) as (cl1 & s1 & L1 & F1 & Q1).
  set (cl2 := mkCluster (cl_nodes cl1) (cl_flights cl1 ++ [mkFlight a b buf]) (cl_log cl1)).
  assert (cl_nodes cl1 !! a = Some sysa) as Ha1 by (rewrite (le_nodes _ _ _ _ L1), lookup_insert_ne; done).
  pose proof (learned_at _ _ _ _ L1) as Hb1.
  assert (exchange_move a b cl1 cl2) as Hpush.
  { exists (CPush a b). split; [|done]. destruct sysa as [sa pa]. eapply cs_push; [done|]. by apply (f_equal Ok). }
  assert (learned s1 s1 cl1 cl2) as L2.
  { apply learned_once; try done; [apply L1|]. by rewrite insert_id. }
  destruct (exchange_deliver cl2 s1 (length (cl_flights cl1)) (mkFlight a b buf))
    as (cl3 & s3 & c3 & L3 & F3 & G3 & I3 & Q3 & Ann3 & D3); [apply L2|done|done| |done|].
  { cbn. by apply list_lookup_middle. }
  assert (c3 = c) as -> by (cbn in D3; congruence). clear D3.
  cbn in Ann3. pose proof (genuine_peer Ann a c Hgenuine Ann3) as Hpeer.
  assert (s_id s3 = b) as Hid3.
  { by destruct (nt_inv _ _ _ (tr_nodes _ _ (le_truthful _ _ _ _ L3) _ _ (learned_at _ _ _ _ L3))) as (_ & ? & _). }
  destruct (exchange_merge cl3 s3 c [] (le_truthful _ _ _ _ L3) (learned_at _ _ _ _ L3) Q3)
    as (cl4 & s4 & L4 & F4 & Q4 & G4). rewrite G3 in G4.
  assert (learned s s4 cl cl4) as L by eauto using learned_trans.
  assert (∃ c', peerFilter (s_peerGraph s4) !! a = Some c' ∧ cc_CRC64 c' = cc_CRC64 c) as (c' & Hc' & Hcrc).
  { rewrite G4 by congruence. destruct (Replace_entry (s_peerGraph s1) c) as (c' & Hc' & ? & _).
    rewrite Hpeer in Hc'. by exists c'. }
  exists cl4, s4, c'. split_and!; [done| |done]. split.
  - exists sysa, buf, c. rewrite (le_nodes _ _ _ _ L), lookup_insert_ne by done. done.
  - exists (s4, pending). split; [by eapply learned_at|]. cbn. rewrite Q4, Hc'.
    split; [by intros ? ?%elem_of_nil|]. by intros ? [= <-].
  - intros f cf Hin Hto Hfrom. rewrite F4, F3 in Hin. cbn in Hin.
    rewrite delete_middle, app_nil_r in Hin.
    assert (f ∈ flights_to cl1) as Hf by (apply list_elem_of_filter; done).
    rewrite F1 in Hf. by apply elem_of_nil in Hf.
Qed.
End Exchange.

(** *** Afterwards *)

(** What [a] may be said to have announced: what it did announce by [cl]. *)
Definition announced_by cl (a x : Z) (c : ConnectedClients) : Prop :=
  (∃ l, NewConnectedClients x l = Ok c) ∧ (x = a → logged cl a c).

Lemma announced_by_genuine cl a : genuine (announced_by cl a).
Proof. by intros id c [? _]. Qed.

Lemma quiet_truthful `{!ConstructorsOk reg} cl0 a b cl cl' :
  quiet_move a b cl cl' → truthful (announced_by cl0 a) cl → truthful (announced_by cl0 a) cl'.
Proof.
  intros (l & Hq & Hs). eapply cluster_step_truthful; [apply announced_by_genuine|done|].
  intros id peers c -> Hc. cbn in Hq. split; [by eexists|done].
Qed.

Lemma settled_quiets `{!ConstructorsOk reg} cl0 a b d cl cl' :
  a ≠ b → rtc (quiet_move a b) cl cl' →
  truthful (announced_by cl0 a) cl ∧ settled a b d cl → truthful (announced_by cl0 a) cl' ∧ settled a b d cl'.
Proof.
  intros Hab. induction 1 as [|cl cl1 cl2 Hm _ IH]; [done|]. intros [Ht Hs]. apply IH.
  split; [by eapply quiet_truthful|]. eapply settled_quiet; eauto using announced_by_genuine.
Qed.

(** [a]'s cached announcement is that of the clients it has now. *)
Definition up_to_date cl (a : Z) s : Prop :=
  ∃ clients c buf, (∀ k, k ∈ clients ↔ is_Some (PeerMap_Get (s_clients s) k)) ∧
    (a, clients) ∈ cl_log cl ∧ NewConnectedClients a clients = Ok c ∧
    ConnectedClients_MarshalBinary c = Ok buf ∧ s_cached s = Some buf.

(** No two client sets that [a] announced have the same digest, unless the
    second contains the first. *)
Definition digests_distinct cl (a : Z) : Prop :=
  ∀ l l', (a, l) ∈ cl_log cl → (a, l') ∈ cl_log cl → clients_crc 0 l = clients_crc 0 l' →
  ∀ k, k ∈ l → k ∈ l'.

(** The servers, for following a stream. *)
Definition servers cl : gmap Z (Server P) := fst <$> cl_nodes cl.

Lemma servers_lookup cl id s pending : cl_nodes cl !! id = Some (s, pending) → servers cl !! id = Some s.
Proof. intros Hs. unfold servers. by rewrite lookup_fmap, Hs. Qed.
End Cluster.

(** ** Properties *)

(** C6: nobody is misrepresented.  In every state a cluster can reach, whatever
    servers started, stopped, pushed, merged or lost: if the graph of server
    [b] has an entry for [a], then [a] is another server and the entry is an
    announcement [a] itself built earlier, from an enumeration of its clients
    that took from [cl1] to [cl2]; it claims every client that was connected to
    [a] in all the states in between; it was built from clients that were
    connected in one of them; and when nobody connected or left meanwhile, it was built
    from exactly the clients connected then. *)
Theorem announcements_truthful {P} `{MuxPeer P} (reg : gmap Z (Constructor P)) `{XorFilterOk} `{Crypto}
    `{Json} cl a b sb bgb c :
  ConstructorsOk reg → cluster_reachable reg cl →
  cl_nodes cl !! b = Some (sb, bgb) → peerFilter (s_peerGraph sb) !! a = Some c →
  a ≠ b ∧ ∃ cl1 cl2 sets clients,
    cluster_reachable reg cl1 ∧ passes reg a cl1 cl2 sets ∧ rtc (cluster_move reg) cl2 cl ∧
    NewConnectedClients a clients = Ok c ∧
    (∀ k, Forall (λ D, k ∈ D) sets → k ∈ clients) ∧
    (∀ k, k ∈ clients → ConnectedClients_Has c k = Ok true ∧ Exists (λ D, k ∈ D) sets) ∧
    (∀ D, Forall (λ D', D' = D) sets → ∀ k, k ∈ clients ↔ k ∈ D).
Proof.
  intros Hok Hr Hb Hc. pose proof (tr_nodes _ _ (reachable_truthful reg cl Hr) _ _ Hb) as Hn.
  destruct (nt_inv _ _ _ Hn) as (Hinv & Hid & _). cbn in Hinv, Hid.
  destruct (nt_graph _ _ _ Hn a c Hc) as (clients & Hin & Hnew). split.
  { intros ->. pose proof (si_self_graph sb Hinv) as Hself. rewrite Hid in Hself. congruence. }
  destruct (log_was_connected reg cl a clients Hr Hin) as (cl1 & cl2 & sets & H1' & H2' & H3' & Hall & Hsome).
  exists cl1, cl2, sets, clients. split_and!; try done.
  - intros k Hk. split; [|by apply Hsome].
    destruct (NewConnectedClients_inv _ _ _ Hnew) as (f & -> & _ & Hf).
    unfold ConnectedClients_Has. cbn. by rewrite Hf.
  - intros D HD k. split.
    + intros (D' & Hin' & Hk)%Hsome%Exists_exists. rewrite Forall_forall in HD. by rewrite <-(HD D' Hin').
    + intros Hk. apply Hall. eapply Forall_impl; [exact HD|]. by intros ? ->.
Qed.

(** C5: the cluster converges.  Take any state a cluster can reach in which
    server [a]'s cached announcement is that of the clients it has now, and the
    client sets it ever announced have distinct digests.  Then another server
    [b] can catch up by one push of [a], the deliveries and its own merges, no
    matter what was queued or in flight: its sessions are untouched and its
    entry for [a] claims every client of [a].  And from then on, as long as [a]
    makes no new announcement and neither stops, nothing that happens in the
    cluster undoes this: whenever [b] has an entry for [a] it claims all those
    clients, and a stream for one that is still connected is delivered in one
    hop, if [b] has a session with [a] and no other entry claims the client. *)
Theorem cluster_converges {P} `{MuxPeer P} (reg : gmap Z (Constructor P)) `{XorFilterOk} `{Crypto}
    `{Json} (ca : CA) cl a b sa pa sb pb :
  ConstructorsOk reg → cluster_reachable reg cl → a ≠ b →
  cl_nodes cl !! a = Some (sa, pa) → cl_nodes cl !! b = Some (sb, pb) →
  up_to_date cl a sa → digests_distinct cl a →
  ∃ cl' sb' c', rtc (exchange_move reg a b) cl cl' ∧
    cl_nodes cl' !! a = Some (sa, pa) ∧ cl_nodes cl' !! b = Some (sb', pb) ∧
    s_peers sb' = s_peers sb ∧ s_clients sb' = s_clients sb ∧
    peerFilter (s_peerGraph sb') !! a = Some c' ∧
    ∀ cl'', rtc (quiet_move reg a b) cl' cl'' →
      ∃ sa'' pa'' sb'' pb'', cl_nodes cl'' !! a = Some (sa'', pa'') ∧
        cl_nodes cl'' !! b = Some (sb'', pb'') ∧
        ∀ k c'', is_Some (PeerMap_Get (s_clients sa) k) →
          peerFilter (s_peerGraph sb'') !! a = Some c'' →
          ConnectedClients_Has c'' k = Ok true ∧
          ∀ range link pk, range_ok range → Destination link = k →
            PeerMap_Get (s_clients sa'') k = Some pk → PeerMap_Get (s_clients sb'') k = None →
            is_Some (PeerMap_Get (s_peers sb'') a) →
            (∀ id c, peerFilter (s_peerGraph sb'') !! id = Some c → id ≠ a →
               ConnectedClients_Has c k = Ok false) →
            follow range (servers cl'') link 1 0 b = Delivered a pk 1.
Proof.
  intros Hok Hr Hab Ha Hb (clients & c & buf & Hcl & Hlog & Hnew & Hw & Hbuf) Hdist.
  assert (truthful (announced_by cl a) cl) as Ht.
  { eapply truthful_mono; [|by apply (reachable_truthful reg)]. intros id c0 Hc0. split.
    - by eapply logged_genuine.
    - by intros ->. }
  pose proof (nt_id _ _ _ (tr_nodes _ _ Ht _ _ Ha)) as Hu.
  destruct (announcement_decodes _ _ _ _ Hu Hnew Hw) as (Hdec & _ & _ & _).
  destruct (exchange_settles reg (announced_by cl a) a b ca pb (announced_by_genuine cl a)
    cl sb (sa, pa) buf c Hab Ht Hb Ha Hbuf Hdec) as (cl' & sb' & c' & L & Hset & Hc').
  pose proof (le_nodes _ _ _ _ _ _ _ _ _ L) as Hnodes.
  exists cl', sb', c'. split; [apply L|]. split; [by rewrite Hnodes, lookup_insert_ne|].
  split; [by rewrite Hnodes, lookup_insert_eq|]. split; [apply L|]. split; [apply L|]. split; [done|].
  intros cl'' Hq. destruct (settled_quiets reg cl a b (cc_CRC64 c) cl' cl'' Hab Hq) as [Ht'' Hset''].
  { split; [apply L|done]. }
  destruct Hset'' as [([sa'' pa''] & _ & _ & Ha'' & _) ([sb'' pb''] & Hb'' & _ & Hg'') _].
  exists sa'', pa'', sb'', pb''. split; [done|]. split; [done|]. intros k c'' Hk Hc''.
  assert (ConnectedClients_Has c'' k = Ok true) as Hhas.
  { pose proof (tr_nodes _ _ Ht'' _ _ Hb'') as Hn''.
    destruct (nt_graph _ _ _ Hn'' a c'' Hc'') as [_ (l & Hl & Hnew'')]; [done|].
    pose proof (Hg'' c'' Hc'') as Hcrc.
    destruct (NewConnectedClients_inv _ _ _ Hnew) as (f & -> & _ & _).
    destruct (NewConnectedClients_inv _ _ _ Hnew'') as (f'' & -> & _ & Hf'').
    unfold ConnectedClients_Has. cbn in Hcrc |- *. rewrite Hf''; [done|].
    eapply Hdist; [exact Hlog|exact Hl|done|]. by apply Hcl. }
  split; [done|]. intros range link pk Hrange <- Hpk Hnone Hsess Hother.
  assert (server_inv sb'') as Hinv by apply (nt_inv _ _ _ (tr_nodes _ _ Ht'' _ _ Hb'')).
  destruct (follow_forward range (servers cl'') link 0 0 b sb'' a) as [-> _]; try done.
  - by eapply servers_lookup.
  - split_and!; [done|by exists c''|done|done].
  - eapply follow_local; [by eapply servers_lookup|done].
Qed.

(** ** A sample cluster

    Servers 42 and 43 start; a client connects to 42, which announces it. *)
Definition sample_peer : muxPeer :=
  mkPeer KMplex 1 (mkConfig true None 1 true 0) NewChannel (make_chan 0) 0 false false.
Definition sample_reg : gmap Z (Constructor muxPeer) := @protocolRegistry sample_sessions.
Definition sample_reachable : cluster_sys → Prop :=
  @cluster_reachable _ _ sample_reg exact_filter sample_crypto (sample_json (mkSync 0 None None)).

(** A run of one server of the cluster. *)
Lemma cluster_run {P} `{MuxPeer P} (reg : gmap Z (Constructor P)) `{XorFilter} `{Crypto} `{Json} es cl id sys sys' :
  Forall ordinary es → cl_nodes cl !! id = Some sys → run (server_step reg) es sys = Some sys' →
  rtc (cluster_move reg) cl
    (mkCluster (<[id := sys']> (cl_nodes cl)) (cl_flights cl)
      (reverse (es ≫= dispatched id) ++ cl_log cl)).
Proof.
  intros Hes. revert cl sys. induction Hes as [|e es He _ IH]; intros cl [s bg] Hid Hrun.
  { injection Hrun as <-. cbn. rewrite insert_id by done. by destruct cl. }
  cbn [run] in Hrun. destruct (server_step reg e (s, bg)) as [sys1|] eqn:E; [|done].
  eapply rtc_l; [exists (CServer id e); by eapply cs_server|].
  assert (reverse (dispatched id e) = dispatched id e) as Hrev by (by destruct e).
  specialize (IH (mkCluster (<[id := sys1]> (cl_nodes cl)) (cl_flights cl) (dispatched id e ++ cl_log cl)) sys1).
  cbn in IH. rewrite insert_insert_eq in IH.
  change ((e :: es) ≫= dispatched id) with (dispatched id e ++ (es ≫= dispatched id)). rewrite reverse_app, Hrev, <-(assoc_L (++)).
  apply IH; [apply lookup_insert_eq|done].
Qed.

Definition sample_events : list (@server_event muxPeer) :=
  sample_client ++ [EvClientArrived sample_peer; EvDispatch; EvAnnounce [PeerHash "correct-horse"]].

Lemma sample_cluster :
  ∃ (cl : cluster_sys (P:=muxPeer)) sa ba sb k, sample_reachable cl ∧
    cl_nodes cl !! 42 = Some (sa, ba) ∧ cl_nodes cl !! 43 = Some (sb, idle) ∧
    @up_to_date _ exact_filter cl 42 sa ∧ digests_distinct cl 42 ∧
    is_Some (PeerMap_Get (s_clients sa) k).
Proof.
  assert (is_ok (sample_new 43) = true) as Hok by (vm_compute; reflexivity).
  destruct (sample_new 43) as [sb| |] eqn:Eb; [|discriminate Hok..]. clear Hok.
  assert (∃ s0 s1 bg1 c buf, sample_new 42 = Ok s0 ∧ run sample_step sample_events (s0, idle) = Some (s1, bg1) ∧
    (map_to_list (pm_peers (s_clients s1))).*1 = [PeerHash "correct-horse"] ∧
    @NewConnectedClients exact_filter 42 [PeerHash "correct-horse"] = Ok c ∧
    ConnectedClients_MarshalBinary c = Ok buf ∧ s_cached s1 = Some buf)
    as (s0 & s1 & bg1 & c & buf & E0 & E1 & Hk & Hc & Hw & Hbuf).
  { do 5 eexists. do 5 (split; [vm_compute; reflexivity|]). vm_compute; reflexivity. }
  assert (∀ k, k ∈ [PeerHash "correct-horse"] ↔ is_Some (PeerMap_Get (s_clients s1) k)) as Hcl.
  { intros k. rewrite <-Hk, list_elem_of_fmap. unfold PeerMap_Get. split.
    - intros ([k' p] & -> & Hp%elem_of_map_to_list). by eexists.
    - intros [p Hp]. exists (k, p). split; [done|]. by apply elem_of_map_to_list. }
  unfold sample_new in Eb, E0.
  set (cl0 := with_node 42 (s0, idle) (with_node 43 (sb, idle) empty_cluster)).
  eexists _, s1, bg1, sb, (PeerHash "correct-horse").
  split; [|split; [|split; [|split; [|split; [|apply Hcl; by apply list_elem_of_singleton]]]]].
  - unfold sample_reachable, cluster_reachable. etrans; [eapply rtc_r; [apply rtc_once|]|apply (cluster_run sample_reg sample_events cl0 42 (s0, idle))].
    + eexists. eapply (cs_start _ empty_cluster 43); [reflexivity|done|exact Eb].
    + eexists. eapply (cs_start _ _ 42); [reflexivity|done|exact E0].
    + by repeat constructor.
    + apply lookup_insert_eq.
    + exact E1.
  - apply lookup_insert_eq.
  - cbn. by rewrite !lookup_insert_ne, lookup_insert_eq by done.
  - exists [PeerHash "correct-horse"], c, buf. split_and!; try done. cbn. by apply list_elem_of_singleton.
  - intros l l'. cbn. by intros [= ->]%list_elem_of_singleton [= ->]%list_elem_of_singleton.
Qed.

Lemma cluster_converges_witness :
  ∃ (cl cl' : cluster_sys (P:=muxPeer)) k sb' c', sample_reachable cl ∧
    @rtc cluster_sys (@exchange_move _ _ sample_reg exact_filter sample_crypto
      (sample_json (mkSync 0 None None)) 42 43) cl cl' ∧
    cl_nodes cl' !! 43 = Some (sb', idle) ∧ peerFilter (s_peerGraph sb') !! 42 = Some c' ∧
    @ConnectedClients_Has exact_filter c' k = Ok true.
Proof.
  destruct sample_cluster as (cl & sa & ba & sb & k & Hr & Ha & Hb & Hup & Hd & Hk).
  destruct (@cluster_converges _ _ sample_reg exact_filter exact_filter_ok sample_crypto
    (sample_json (mkSync 0 None None)) (sample_ca 0) cl 42 43 sa ba sb idle (@protocolRegistry_ok sample_sessions)
    Hr ltac:(clear; done) Ha Hb Hup Hd) as (cl' & sb' & c' & Hm & _ & Hb' & _ & _ & Hc' & Hq).
  destruct (Hq cl' (rtc_refl _ _)) as (sa'' & pa'' & sb'' & pb'' & _ & Hb'' & Hall).
  rewrite Hb' in Hb''. injection Hb'' as <- <-. destruct (Hall k c' Hk Hc') as [Hhas _].
  exists cl, cl', k, sb', c'. by split_and!.
Defined.

Lemma announcements_truthful_witness :
  ∃ (cl : cluster_sys (P:=muxPeer)) sb c clients, sample_reachable cl ∧
    cl_nodes cl !! 43 = Some (sb, idle) ∧ peerFilter (s_peerGraph sb) !! 42 = Some c ∧
    @NewConnectedClients exact_filter 42 clients = Ok c.
Proof.
  destruct sample_cluster as (cl & sa & ba & sb & k & Hr & Ha & Hb & (l & c & buf & _ & _ & Hc & Hw & Hbuf) & _).
  pose proof (@reachable_truthful _ _ sample_reg exact_filter sample_crypto
    (sample_json (mkSync 0 None None)) exact_filter_ok (@protocolRegistry_ok sample_sessions) cl Hr) as Ht.
  destruct (@announcement_decodes exact_filter exact_filter_ok 42 _ c buf ltac:(clear; done) Hc Hw) as (Hdec & _).
  destruct (@exchange_settles _ _ sample_reg exact_filter sample_crypto (sample_json (mkSync 0 None None))
    exact_filter_ok (@protocolRegistry_ok sample_sessions) (logged cl) 42 43 (sample_ca 0) idle
    (logged_genuine cl) cl sb (sa, ba) buf c ltac:(clear; done) Ht Hb Ha Hbuf Hdec) as (cl' & sb' & c' & L & _ & Hc').
  assert (sample_reachable cl') as Hr'.
  { unfold sample_reachable, cluster_reachable in *. etrans; [exact Hr|].
    eapply rtc_subrel; [|apply L]. intros x y Hxy. by eapply quiet_moves, exchange_quiet. }
  destruct (@announcements_truthful _ _ sample_reg exact_filter exact_filter_ok sample_crypto
    (sample_json (mkSync 0 None None)) cl' 42 43 sb' idle c' (@protocolRegistry_ok sample_sessions) Hr'
    (learned_at _ _ _ _ _ _ _ _ _ L) Hc') as (_ & _ & _ & _ & clients & _ & _ & _ & Hnew & _).
  exists cl', sb', c', clients. split_and!; [exact Hr'|by eapply learned_at|exact Hc'|exact Hnew].
Defined.

(** *** The limit of convergence: announcements carry no version *)

(** An older announcement that arrives late wins.  Server [b]'s entry for [a]
    claims a client and [b] would forward to [a]; then a buffer that [a] pushed
    before the client connected is delivered and merged.  The entry is the old
    announcement again, and [b] finds no path to the client any more, until
    [a]'s next push. *)
Theorem stale_push_wins {P} `{MuxPeer P} `{XorFilterOk} `{Crypto} `{Json} (b b1 b2 : Server P) ca a pa
    old_clients old new buf range link :
  server_inv b → range_ok range → u64 a → a ≠ s_id b →
  peerFilter (s_peerGraph b) !! a = Some new → ConnectedClients_Has new (Destination link) = Ok true →
  PeerMap_Get (s_clients b) (Destination link) = None → PeerMap_Get (s_peers b) a = Some pa →
  (∀ id c, peerFilter (s_peerGraph b) !! id = Some c → id ≠ a →
     ConnectedClients_Has c (Destination link) = Ok false) →
  NewConnectedClients a old_clients = Ok old → ConnectedClients_MarshalBinary old = Ok buf →
  cc_CRC64 old ≠ cc_CRC64 new → ConnectedClients_Has old (Destination link) = Ok false →
  ch_buf (s_updatesCh b) = [] →
  MergeRemoteState b ca buf false = Ok (Some b1) → handleMerge b1 = Some b2 →
  findPath b range link = Ok (Some pa) ∧
  peerFilter (s_peerGraph b2) !! a = Some old ∧ findPath b2 range link = Ok None.
Proof.
  intros Hb Hr Hu Hne Hnew Hhas Hnone Hpa Hother Hold Hw Hcrc Hnot Hq Hm Hh. split.
  { rewrite (findPath_remote b range link a Hnone), Hpa; [done|]. eapply Who_unique; eauto. apply Hb. }
  destruct (carries_decodes (λ id c, NewConnectedClients id old_clients = Ok c) a buf)
    as (Hlen & c & Hdec & Hc & Hp); [by intros id c Hc; eexists|by exists old|].
  assert (c = old) as -> by congruence.
  destruct (deliver_Ok _ _ _ _ _ Hlen Hdec Hm) as (u & Hsend%chan_send_Sent & ->).
  rewrite Hq in Hsend. destruct (handleMerge_cons (with_updates u b) old []) as (b' & Hh' & Hpe & Hcl & _ & Hg).
  { done. }
  rewrite Hh' in Hh. injection Hh as ->. specialize (Hg ltac:(cbn; congruence)). cbn in Hg, Hpe, Hcl.
  assert (peerFilter (s_peerGraph b2) !! a = Some old) as Hentry.
  { rewrite Hg, <-Hp. apply Replace_changes. rewrite Hp. intros ? ?. congruence. }
  split; [done|]. rewrite (findPath_remote b2 range link 0).
  - rewrite Hpe. destruct (PeerMap_Get (s_peers b) 0) as [p0|] eqn:E0; [|done].
    by destruct (si_peers b Hb 0 p0 E0).
  - by rewrite Hcl.
  - apply Who_none; [|done|].
    + rewrite Hg. apply Replace_wf; [apply Hb|]. by destruct (NewConnectedClients_inv _ _ _ Hold) as (f & -> & _).
    + intros k c Hk. destruct (decide (k = a)) as [->|Hka]; [congruence|].
      rewrite Hg, Replace_other in Hk by congruence. by eapply Hother.
Qed.

Lemma stale_push_wins_witness :
  ∃ old buf b1 b2, @NewConnectedClients exact_filter 2 [] = Ok old ∧
    ConnectedClients_MarshalBinary old = Ok buf ∧
    @MergeRemoteState _ sample_crypto (sample_json (mkSync 0 None None)) (net_server 1 2 ∅ [77]) (sample_ca 0)
      buf false = Ok (Some b1) ∧ handleMerge b1 = Some b2 ∧
    @findPath _ exact_filter (net_server 1 2 ∅ [77]) map_to_list (mkLink 9 77 Mplex alpn_HTTP) =
      Ok (Some (2, true, Mplex)) ∧
    @findPath _ exact_filter b2 map_to_list (mkLink 9 77 Mplex alpn_HTTP) = Ok None.
Proof.
  assert (∃ new old buf b1 b2, @NewConnectedClients exact_filter 2 [77] = Ok new ∧
    @NewConnectedClients exact_filter 2 [] = Ok old ∧
    ConnectedClients_MarshalBinary old = Ok buf ∧
    @MergeRemoteState _ sample_crypto (sample_json (mkSync 0 None None)) (net_server 1 2 ∅ [77]) (sample_ca 0)
      buf false = Ok (Some b1) ∧ handleMerge b1 = Some b2 ∧
    (cc_CRC64 old =? cc_CRC64 new) = false ∧ @ConnectedClients_Has exact_filter new 77 = Ok true ∧
    @ConnectedClients_Has exact_filter old 77 = Ok false ∧
    peerFilter (s_peerGraph (net_server 1 2 ∅ [77])) = {[ 2 := new ]})
    as (new & old & buf & b1 & b2 & Hnew & Hold & Hw & Hm & Hh & Hcrc & Hn & Ho & Hg).
  { do 5 eexists. repeat (split; [vm_compute; reflexivity|]). vm_compute. reflexivity. }
  destruct (@stale_push_wins _ stub_peer exact_filter exact_filter_ok sample_crypto
    (sample_json (mkSync 0 None None)) (net_server 1 2 ∅ [77]) b1 b2 (sample_ca 0) 2 (2, true, Mplex) [] old new
    buf map_to_list (mkLink 9 77 Mplex alpn_HTTP)) as (H1 & _ & H2); try assumption.
  - by apply net_server_inv.
  - intros m. apply enumerates_self.
  - by clear.
  - by clear.
  - rewrite Hg. apply lookup_singleton_eq.
  - by clear.
  - by clear.
  - intros id c Hid Hne. rewrite Hg, lookup_singleton_ne in Hid by congruence. discriminate Hid.
  - by apply Z.eqb_neq.
  - by clear.
  - exists old, buf, b1, b2. by split_and!.
Defined.
