(* ===== verification/Alpn.v ===== *)
(** * Alpn: connections by negotiated protocol

    [gateway/alpn.go]: the registration of listeners, the accept loop, the
    handshake goroutines and the listeners' [Accept], as functions on the
    mux; then all of them interleaved as one transition system. *)
From S2P Require Import Prelude GoStd Link.

Open Scope Z_scope.

(** What the TLS layer reports about a connection. *)
Record ConnectionState := mkCS {
  ServerName : string;
  NegotiatedProtocol : string;
}.

(** ** [ALPN]: connections by negotiated protocol

    A channel is named by its number in the order of the [For] calls. *)
Record ALPNMux := mkALPN {
  am_protos : gmap string nat;
  am_chans : list (chan Z);
  am_done : bool;
}.

Definition NewALPNMux : ALPNMux := mkALPN ∅ [] false.

(** [For]: the mux and the listener, named by its channel. *)
Definition ALPN_For (a : ALPNMux) (protos : list ALPN) : ALPNMux * nat :=
  let ch := length (am_chans a) in
  (mkALPN (foldl (λ m p, <[ALPN_String p := ch]> m) (am_protos a) protos)
     (am_chans a ++ [make_chan 32]) (am_done a), ch).

Inductive handshake_result :=
| Queued (a : ALPNMux) (ch : nat)
| QueueFull
| ConnClosed.

(** [handshake]: [tls_ok] is the outcome of the TLS handshake. *)
Definition ALPN_handshake (a : ALPNMux) (conn : Z) (tls_ok : bool) (cs : ConnectionState)
    : handshake_result :=
  if negb tls_ok then ConnClosed else
  match am_protos a !! NegotiatedProtocol cs with
  | None => ConnClosed
  | Some ch =>
      match am_chans a !! ch with
      | None => ConnClosed
      | Some c =>
          match chan_send c conn with
          | Sent c' => Queued (mkALPN (am_protos a) (<[ch := c']> (am_chans a)) (am_done a)) ch
          | _ => QueueFull
          end
      end
  end.

(** [protoListener.Accept]: a queued connection, or [net.ErrClosed] after the
    mux is done; [None] while there is nothing to return.  When both are
    possible the select may take either. *)
Definition protoListener_Accept (a : ALPNMux) (ch : nat) (prefer_done : bool)
    : option (ALPNMux * go Z) :=
  match am_chans a !! ch with
  | None => None
  | Some c =>
      if am_done a && (prefer_done || bool_decide (ch_buf c = []))
      then Some (a, Err (Sentinel net_ErrClosed))
      else match chan_recv c with
           | Received x c' =>
               Some (mkALPN (am_protos a) (<[ch := c']> (am_chans a)) (am_done a), Ok x)
           | _ => None
           end
  end.

(** ** [Serve] *)

(** What the inner listener returns: a TLS connection or another one. *)
Inductive raw_conn := TLSConn (conn : Z) | OtherConn.

(** One iteration: [None] when the loop returns, which closes [done]; else the
    connection whose handshake goroutine was started. *)
Definition Serve_iter (ctx_done : bool) (acc : raw_conn + error) : go (option Z) :=
  if ctx_done then Ok None else
  match acc with
  | inr _ => Ok None
  | inl OtherConn => Panic (FatalExit "listener is not returning tls connection")
  | inl (TLSConn conn) => Ok (Some conn)
  end.

(** The whole system: the mux, whether [Serve] still runs, the handshake
    goroutines that have not finished, and the histories of what was accepted,
    queued (with its channel), returned by a listener and closed. *)
Record alpn_sys := mkSys {
  as_mux : ALPNMux;
  as_serving : bool;
  as_pending : list Z;
  as_accepted : list Z;
  as_queued : list (nat * Z);
  as_returned : list (nat * Z);
  as_closed : list Z;
}.

Inductive alpn_event :=
| SvAccept (ctx_done : bool) (acc : raw_conn + error)
| SvHandshake (i : nat) (tls_ok : bool)
| SvReturn (ch : nat) (prefer_done : bool).

Section System.
(** What TLS reports about each connection. *)
Context (state_of : Z → ConnectionState).

Definition set_done (a : ALPNMux) : ALPNMux := mkALPN (am_protos a) (am_chans a) true.

(** [None] when the statement is not enabled or the process has ended. *)
Definition alpn_step (e : alpn_event) (s : alpn_sys) : option alpn_sys :=
  match e with
  | SvAccept ctx_done acc =>
      if negb (as_serving s) then None else
      match Serve_iter ctx_done acc with
      | Ok (Some conn) =>
          Some (mkSys (as_mux s) true (as_pending s ++ [conn]) (as_accepted s ++ [conn])
                  (as_queued s) (as_returned s) (as_closed s))
      | Ok None =>
          Some (mkSys (set_done (as_mux s)) false (as_pending s) (as_accepted s)
                  (as_queued s) (as_returned s) (as_closed s))
      | _ => None
      end
  | SvHandshake i tls_ok =>
      conn ← as_pending s !! i;
      match ALPN_handshake (as_mux s) conn tls_ok (state_of conn) with
      | Queued a ch =>
          Some (mkSys a (as_serving s) (delete i (as_pending s)) (as_accepted s)
                  (as_queued s ++ [(ch, conn)]) (as_returned s) (as_closed s))
      | QueueFull => None
      | ConnClosed =>
          Some (mkSys (as_mux s) (as_serving s) (delete i (as_pending s)) (as_accepted s)
                  (as_queued s) (as_returned s) (as_closed s ++ [conn]))
      end
  | SvReturn ch prefer_done =>
      r ← protoListener_Accept (as_mux s) ch prefer_done;
      match r with
      | (a, Ok conn) =>
          Some (mkSys a (as_serving s) (as_pending s) (as_accepted s) (as_queued s)
                  (as_returned s ++ [(ch, conn)]) (as_closed s))
      | (a, _) => Some s
      end
  end.

Definition alpn_start (a : ALPNMux) : alpn_sys := mkSys a true [] [] [] [] [].

(** What went through one channel, in order. *)
Definition chan_log (ch : nat) (l : list (nat * Z)) : list Z := (filter (λ x, x.1 = ch) l).*2.

#[local] Arguments chan_log : simpl never.

Lemma chan_log_app ch l l' : chan_log ch (l ++ l') = chan_log ch l ++ chan_log ch l'.
Proof. unfold chan_log. by rewrite filter_app, fmap_app. Qed.

Lemma chan_log_one ch c x : chan_log ch [(c, x)] = if decide (c = ch) then [x] else [].
Proof. unfold chan_log. rewrite filter_cons, filter_nil. cbn. by case_decide. Qed.

Record alpn_inv (protos : gmap string nat) (n : nat) (s : alpn_sys) : Prop := {
  ai_protos : am_protos (as_mux s) = protos;
  ai_chans : length (am_chans (as_mux s)) = n;
  ai_done : am_done (as_mux s) = negb (as_serving s);
  ai_accepted : as_accepted s ≡ₚ as_pending s ++ (as_queued s).*2 ++ as_closed s;
  ai_fifo ch c : am_chans (as_mux s) !! ch = Some c →
    chan_log ch (as_queued s) = chan_log ch (as_returned s) ++ ch_buf c ∧ ch_closed c = false;
  ai_right ch conn : (ch, conn) ∈ as_queued s →
    protos !! NegotiatedProtocol (state_of conn) = Some ch;
  ai_returned x : x ∈ as_returned s → x ∈ as_queued s;
}.

Lemma elem_of_chan_log ch x l : x ∈ chan_log ch l ↔ (ch, x) ∈ l.
Proof.
  unfold chan_log. rewrite list_elem_of_fmap. split.
  - intros ([c y] & -> & [Hc Hin]%list_elem_of_filter). cbn in *. by subst.
  - intros Hin. exists (ch, x). split; [done|]. by apply list_elem_of_filter.
Qed.

Lemma alpn_inv_start a :
  am_done a = false → Forall (λ c, ch_buf c = [] ∧ ch_closed c = false) (am_chans a) →
  alpn_inv (am_protos a) (length (am_chans a)) (alpn_start a).
Proof.
  intros Hd Hc. split; cbn; try done; [|set_solver..].
  intros ch c Hl. by destruct (proj1 (Forall_lookup _ _) Hc ch c Hl) as [-> ->].
Qed.

Lemma alpn_inv_accept protos n ctx acc s s' :
  alpn_inv protos n s → alpn_step (SvAccept ctx acc) s = Some s' → alpn_inv protos n s'.
Proof.
  intros [Hp Hn Hd Ha Hf Hr Hret]. cbn. destruct (as_serving s) eqn:Es; cbn; [|done].
  unfold Serve_iter. repeat case_match; intros; simplify_eq/=; split; cbn; try done.
  rewrite Ha. solve_Permutation.
Qed.

Lemma alpn_inv_handshake protos n i ok s s' :
  alpn_inv protos n s → alpn_step (SvHandshake i ok) s = Some s' → alpn_inv protos n s'.
Proof.
  intros [Hp Hn Hd Ha Hf Hr Hret]. cbn. destruct (as_pending s !! i) as [conn|] eqn:Ei; [|done]. cbn.
  apply delete_Permutation in Ei. rewrite Ei in Ha.
  destruct (ALPN_handshake _ _ _ _) as [a ch| |] eqn:Eh; [|done|]; intros [= <-].
  - unfold ALPN_handshake in Eh. destruct ok; [|done]. cbn in Eh.
    destruct (am_protos (as_mux s) !! _) as [ch'|] eqn:Ep; [|done].
    destruct (am_chans (as_mux s) !! ch') as [c|] eqn:Ec; [|done].
    unfold chan_send in Eh. destruct (ch_closed c) eqn:Ecl; [done|].
    destruct (length (ch_buf c) <? ch_cap c)%nat; simplify_eq/=.
    split; cbn; try done.
    + by rewrite length_insert.
    + rewrite Ha, fmap_app. cbn. solve_Permutation.
    + intros k c'. destruct (decide (k = ch)) as [->|Hne].
      * rewrite list_lookup_insert_eq by (by eapply lookup_lt_Some). intros [= <-]. cbn.
        rewrite chan_log_app, chan_log_one, decide_True by done.
        destruct (Hf ch c Ec) as [-> _]. by rewrite app_assoc.
      * rewrite list_lookup_insert_ne by done. rewrite chan_log_app, chan_log_one, decide_False by done.
        rewrite app_nil_r. apply Hf.
    + intros k x [Hin|[= -> ->]%list_elem_of_singleton]%elem_of_app; [by apply Hr|done].
    + set_solver.
  - split; cbn; try done. rewrite Ha. solve_Permutation.
Qed.

Lemma alpn_inv_return protos n ch pd s s' :
  alpn_inv protos n s → alpn_step (SvReturn ch pd) s = Some s' → alpn_inv protos n s'.
Proof.
  intros [Hp Hn Hd Ha Hf Hr Hret]. cbn. unfold protoListener_Accept.
  destruct (am_chans (as_mux s) !! ch) as [c|] eqn:Ec; [|done].
  destruct (am_done _ && _); cbn; [by intros [= <-]|].
  unfold chan_recv. destruct (ch_buf c) as [|x b] eqn:Eb; [by destruct (ch_closed c)|].
  cbn. intros [= <-]. destruct (Hf ch c Ec) as [Hlog Hcl]. rewrite Eb in Hlog.
  split; cbn; try done.
  - by rewrite length_insert.
  - intros k c'. destruct (decide (k = ch)) as [->|Hne].
    + rewrite list_lookup_insert_eq by (by eapply lookup_lt_Some). intros [= <-]. cbn.
      rewrite chan_log_app, chan_log_one, decide_True, Hlog by done. by rewrite <-app_assoc.
    + rewrite list_lookup_insert_ne by done. rewrite chan_log_app, chan_log_one, decide_False by done.
      rewrite app_nil_r. apply Hf.
  - intros y [Hin| ->%list_elem_of_singleton]%elem_of_app; [by apply Hret|].
    apply elem_of_chan_log. rewrite Hlog. set_solver.
Qed.

Lemma alpn_inv_reachable a s :
  am_done a = false → Forall (λ c, ch_buf c = [] ∧ ch_closed c = false) (am_chans a) →
  reachable alpn_step (alpn_start a) s → alpn_inv (am_protos a) (length (am_chans a)) s.
Proof.
  intros Hd Hc. apply reachable_invariant; [by apply alpn_inv_start|].
  intros [ctx acc|i ok|ch pd] s1 s2;
    eauto using alpn_inv_accept, alpn_inv_handshake, alpn_inv_return.
Qed.
End System.

(** The mux with the listeners [main] asks for: the clients' and the
    gateway's. *)
Definition server_mux : ALPNMux * nat * nat :=
  let '(a, client) := ALPN_For NewALPNMux [alpn_Multiplexer] in
  let '(a, gateway) := ALPN_For a [alpn_Raw; alpn_HTTP; alpn_Unknown] in
  (a, client, gateway).

Lemma server_mux_protos p ch :
  am_protos server_mux.1.1 !! p = Some ch →
  (ch = server_mux.1.2 ∧ p = ALPN_String alpn_Multiplexer) ∨
  (ch = server_mux.2 ∧
   p ∈ [ALPN_String alpn_Raw; ALPN_String alpn_HTTP; ALPN_String alpn_Unknown]).
Proof.
  change (am_protos server_mux.1.1) with
    (<[ALPN_String alpn_Unknown := 1%nat]> (<[ALPN_String alpn_HTTP := 1%nat]>
       (<[ALPN_String alpn_Raw := 1%nat]> (<[ALPN_String alpn_Multiplexer := 0%nat]> ∅)))
     : gmap string nat).
  rewrite !lookup_insert_Some, lookup_empty. change (server_mux.1.2) with 0%nat.
  change (server_mux.2) with 1%nat. set_solver.
Qed.

Lemma ALPN_For_lookup a protos p :
  p ∈ protos → am_protos (ALPN_For a protos).1 !! ALPN_String p = Some (length (am_chans a)).
Proof.
  unfold ALPN_For. cbn. generalize (am_protos a) as m.
  induction protos as [|q protos IH]; intros m; [set_solver|].
  intros [->|Hin]%elem_of_cons; [|by apply IH]. cbn.
  destruct (decide (q ∈ protos)) as [Hq|Hq]; [by apply IH|].
  assert (∀ m : gmap string nat, m !! ALPN_String q = Some (length (am_chans a)) →
    foldl (λ m p, <[ALPN_String p := length (am_chans a)]> m) m protos !! ALPN_String q =
      Some (length (am_chans a))) as Hkeep.
  { clear. induction protos as [|x protos IH]; intros m Hm; [done|]. cbn. apply IH.
    destruct (decide (ALPN_String x = ALPN_String q)) as [->|Hne];
      [apply lookup_insert_eq|by rewrite lookup_insert_ne]. }
  apply Hkeep, lookup_insert_eq.
Qed.

(** ** Properties *)

(** C12: no connection is lost or misdirected between [Serve] and the two
    listeners, in every interleaving of the accept loop, the handshake
    goroutines and the listeners.  What was accepted is, connection by
    connection, still in its handshake, queued, or closed; each listener
    returns what was queued for it in that order, each connection once; the
    client listener returns only connections that negotiated the multiplexer
    protocol and the gateway's only raw, HTTP or unnegotiated ones; and once
    [Serve] has returned, a listener with nothing queued reports that it is
    closed. *)
Theorem alpn_mux_conserves state_of s :
  let '(a, client, gateway) := server_mux in
  reachable (alpn_step state_of) (alpn_start a) s →
  as_accepted s ≡ₚ as_pending s ++ (as_queued s).*2 ++ as_closed s ∧
  (∀ ch c, am_chans (as_mux s) !! ch = Some c →
     chan_log ch (as_queued s) = chan_log ch (as_returned s) ++ ch_buf c) ∧
  (∀ ch conn, (ch, conn) ∈ as_returned s →
     (ch = client ∧ NegotiatedProtocol (state_of conn) = ALPN_String alpn_Multiplexer) ∨
     (ch = gateway ∧ NegotiatedProtocol (state_of conn) ∈
        [ALPN_String alpn_Raw; ALPN_String alpn_HTTP; ALPN_String alpn_Unknown])) ∧
  (∀ ch c pd, as_serving s = false → am_chans (as_mux s) !! ch = Some c → ch_buf c = [] →
     protoListener_Accept (as_mux s) ch pd = Some (as_mux s, Err (Sentinel net_ErrClosed))).
Proof.
  destruct server_mux as [[a client] gateway] eqn:E. intros Hr.
  assert (a = server_mux.1.1 ∧ client = server_mux.1.2 ∧ gateway = server_mux.2) as (-> & -> & ->)
    by by rewrite E.
  apply alpn_inv_reachable in Hr as [Hp Hn Hd Ha Hf Hq Hret]; [|done|by repeat constructor].
  split_and!; [done| | |].
  - intros ch c Hc. by apply Hf.
  - intros ch conn Hin. by apply server_mux_protos, Hq, Hret.
  - intros ch c pd Hs Hc Hb. unfold protoListener_Accept. rewrite Hc, Hd, Hs, Hb.
    by destruct pd.
Qed.

(** A client and a visitor connect; the visitor's handshake finishes first. *)
Definition sample_state_of (conn : Z) : ConnectionState :=
  mkCS "tunnel.example.com" (ALPN_String (if conn =? 1 then alpn_Multiplexer else alpn_HTTP)).
Definition sample_serve : list alpn_event :=
  [SvAccept false (inl (TLSConn 1)); SvAccept false (inl (TLSConn 2)); SvHandshake 1 true;
   SvHandshake 0 true; SvReturn 0 false; SvAccept false (inr (Foreign 0))].

Lemma alpn_mux_conserves_witness :
  ∃ s, run (alpn_step sample_state_of) sample_serve (alpn_start server_mux.1.1) = Some s ∧
    as_returned s = [(0%nat, 1)] ∧ as_accepted s ≡ₚ as_pending s ++ (as_queued s).*2 ++ as_closed s.
Proof.
  destruct (run (alpn_step sample_state_of) sample_serve (alpn_start server_mux.1.1)) as [s|] eqn:E;
    [|by vm_compute in E].
  exists s. split; [done|]. split; [by vm_compute in E; simplify_eq|].
  apply (alpn_mux_conserves sample_state_of s). by eapply run_reachable.
Defined.

(** Every protocol the gateway offers has a listener.  With the listeners
    the server sets up ([Multiplexer] for clients, then [Raw], [HTTP] and
    [Unknown] for the gateway), a connection that completes its handshake is
    queued at the client listener exactly when it negotiated the multiplexer
    protocol, at the gateway listener when it negotiated raw, HTTP or nothing,
    as long as there is room, and any other negotiated protocol is refused. *)
Theorem alpn_mux_dispatch conn cs :
  let '(a2, client, gateway) := server_mux in
  client ≠ gateway ∧
  match ALPN_handshake a2 conn true cs with
  | Queued _ ch =>
      (ch = client ∧ NegotiatedProtocol cs = ALPN_String alpn_Multiplexer) ∨
      (ch = gateway ∧ NegotiatedProtocol cs ∈
         [ALPN_String alpn_Raw; ALPN_String alpn_HTTP; ALPN_String alpn_Unknown])
  | QueueFull => False
  | ConnClosed => NegotiatedProtocol cs ∉ ALPN_String <$> [0; 1; 2; 3]
  end.
Proof.
  destruct server_mux as [[a2 client] gateway] eqn:E. unfold server_mux, ALPN_For in E.
  cbn in E. simplify_eq. split; [done|].
  unfold ALPN_handshake. cbn [negb am_protos am_chans].
  destruct (decide (NegotiatedProtocol cs = ALPN_String alpn_Unknown)) as [Hp|H0];
    [rewrite Hp; vm_compute; right; split; [done|set_solver]|].
  destruct (decide (NegotiatedProtocol cs = ALPN_String alpn_HTTP)) as [Hp|H1];
    [rewrite Hp; vm_compute; right; split; [done|set_solver]|].
  destruct (decide (NegotiatedProtocol cs = ALPN_String alpn_Raw)) as [Hp|H2];
    [rewrite Hp; vm_compute; right; split; [done|set_solver]|].
  destruct (decide (NegotiatedProtocol cs = ALPN_String alpn_Multiplexer)) as [Hp|H3];
    [rewrite Hp; vm_compute; by left|].
  rewrite !lookup_insert_ne by done. rewrite lookup_empty.
  change (NegotiatedProtocol cs ∉ [ALPN_String 0; ALPN_String 1; ALPN_String 2; ALPN_String 3]).
  set_solver.
Qed.
