(* ===== verification/Gateway.v ===== *)
(** * Gateway: from a visitor's TLS connection to a tunnel

    [gateway/gateway.go], [gateway/tunnel_http.go], [gateway/accepter.go],
    [gateway/apex.go], [gateway/redirect.go] and the connection checks of
    [cmd/server/authz.go]. *)
From S2P Require Import Prelude GoStd Link MuxChannel Multiplexer PeerGraph PeerMap Meta Acme Server Mux Alpn.

Open Scope Z_scope.

(** ** [cmd/server/authz.go] *)
Definition checkClientSNI (domain : string) (cs : ConnectionState) : go unit :=
  if negb (HasSuffix (ServerName cs) domain)
  then Err (Errorf ("unauthorized domain name: " +:+ ServerName cs) [])
  else Ok tt.

(** [PeerCertificates] as the DNS names of each certificate. *)
Definition checkPeerSAN (required : string) (certs : list (list string)) : go unit :=
  match certs with
  | [names] =>
      let found := foldl (λ found name, found || bool_decide (name = required)) false names in
      if negb found then Err (Errorf (required +:+ " must be present in SANs") []) else Ok tt
  | _ => Err (Errorf "exactly one peer certificate is required" [])
  end.

(** ** [Gateway] *)
Record Gateway := mkGateway {
  g_RootDomain : string;
  g_GatewayPort : Z;
  g_host : string;               (* the apex server's [host] *)
  g_apex : chan Z;               (* [apexAcceptor.ch] *)
  g_http : chan Z;               (* [httpTunnelAcceptor.ch] *)
}.

(** [New], when the embedded templates parse. *)
Definition gateway_New (rootDomain : string) (port : Z) : Gateway :=
  let d := if negb (port =? 443) then rootDomain +:+ ":" +:+ itoa port else rootDomain in
  mkGateway rootDomain port d (make_chan 1024) (make_chan 1024).

(** [httpAccepter.Accept]: a nil connection (a closed channel) is end-of-file. *)
Definition httpAccepter_Accept (ch : chan Z) : option (chan Z * go Z) :=
  match chan_recv ch with
  | Received x c => Some (c, Ok x)
  | RecvClosed => Some (ch, Err (Sentinel io_EOF))
  | RecvBlocks => None
  end.

(** [handleLookup]: the body of [/where]. *)
Definition handleLookup (g : Gateway) : string * Z := (g_RootDomain g, g_GatewayPort g).

(** *** The apex site *)
Inductive apex_page := ApexRoot | ApexLookup.

(** [Handler]: the routes of the mux, for a clean path. *)
Definition apex_Handler (path : string) : apex_page :=
  if bool_decide (path = "/where") then ApexLookup else ApexRoot.

(** [handleRoot]: the status and the body; [md], [marshal] and [index] are the
    templates and the JSON encoder ([index] writes its output as it goes),
    [random] and [rnd] the random name and number.  On an error the status is still 200, with what was written. *)
Definition handleRoot (g : Gateway) (random : string) (rnd : Z)
    (md : string * string * Z → string + error) (marshal : string → list Z + error)
    (index : list Z → string * option error) : go (Z * string) :=
  match md (g_host g, random, rnd + 1024) with
  | inr _ => Ok (200, "")
  | inl page =>
      match marshal page with
      | inr _ => Ok (200, "")
      | inl buf =>
          content ← slice buf 1 (zlen buf - 1);
          Ok (200, (index content).1)
      end
  end.

(** *** The reverse proxy *)

(** The fields of the outgoing request the director sets. *)
Record proxied := mkProxied { px_Scheme : string; px_Host : string }.
Definition Director (cs : ConnectionState) : proxied := mkProxied "http" (ServerName cs).

(** [ModifyResponse]; [Del] canonicalizes its key. *)
Definition ModifyResponse (header : gmap string (list string)) : gmap string (list string) :=
  delete "Alt-Svc" header.

(** [bufferPool]: the size asked of the pool of the library. *)
Definition gateway_bufferSize : Z := 8 * 1024.

(** *** Redirection of plain HTTP *)

(** A URL by the fields that are set. *)
Record redirect := mkRedirect {
  re_Scheme : string;
  re_Host : string;
  re_Path : string;
  re_RawQuery : string;
}.

(** [httpRedirecter]: the status and the location. *)
Definition httpRedirecter (host path rawQuery : string) : Z * redirect :=
  (308, mkRedirect "https" host path rawQuery).

(** [RedirectHTTP]: the address listened on, if any. *)
Definition RedirectHTTP (bindAddr : string) (webPort : Z) : option string :=
  if negb (webPort =? 443) then None else Some (bindAddr +:+ ":80").

(** *** [Start]: the connections handed to [handleConnection] goroutines *)
Definition Gateway_Start (accepts : list (Z + error)) : list Z := accept_each accepts.

Section Gateway.
Context {P : Type} `{MuxPeer P} `{XorFilter} (entries : list (Z * string)).
Implicit Types s : Server P.

(** [link]; [entries] is the order in which [alpn.Map] is visited. *)
Definition gateway_link s (sni proto : string) : Link :=
  mkLink (s_id s) (PeerHash (before_sep (Ascii.ascii_of_nat 46) sni)) 0
    (alpn_of_string entries proto).

Inductive conn_action :=
| ToApex (g : Gateway)
| ToHTTP (g : Gateway)
| PipedTo (far : Z) (wire : list Z)
| CloseConn (e : option error)
| WaitsForRoom.

Definition hand_to (g : Gateway) (apex : bool) (conn : Z) : conn_action :=
  match chan_send (if apex then g_apex g else g_http g) conn with
  | Sent c =>
      if apex then ToApex (mkGateway (g_RootDomain g) (g_GatewayPort g) (g_host g) c (g_http g))
      else ToHTTP (mkGateway (g_RootDomain g) (g_GatewayPort g) (g_host g) (g_apex g) c)
  | _ => WaitsForRoom
  end.

Definition handleConnection (g : Gateway) s range (open : P → go (Z * writer)) (conn : Z)
    (cs : ConnectionState) : go conn_action :=
  if bool_decide (ServerName cs = g_RootDomain g) then Ok (hand_to g true conn) else
  let proto := NegotiatedProtocol cs in
  if bool_decide (proto = ALPN_String alpn_Unknown) || bool_decide (proto = ALPN_String alpn_HTTP)
  then Ok (hand_to g false conn) else
  if bool_decide (proto = ALPN_String alpn_Raw) then
    match Server_Forward s range open conn (gateway_link s (ServerName cs) proto) with
    | Ok (far, _, wire) => Ok (PipedTo far wire)
    | Err e => Ok (CloseConn (Some e))
    | Panic p => Panic p
    end
  else Ok (CloseConn None).

(** The dialer of the reverse proxy: [addr] is the visitor's server name with
    the port appended by the transport. *)
Definition http_dial s range (open : P → go (Z * writer)) (addr : string) : go (Z * list Z) :=
  Server_Direct s range open (gateway_link s addr (ALPN_String alpn_HTTP)).

(** [errorHandler]: the status written, if any. *)
Definition errorHandler (e : error) : option Z :=
  if errors_Is e ErrDestinationNotFound then Some 404 else
  if IsTimeout e then Some 504 else
  if errors_Is e context_Canceled then None else
  Some 503.

(** ** Lemmas *)

Lemma gateway_link_name s name rest proto :
  has_char (Ascii.ascii_of_nat 46) name = false →
  Destination (gateway_link s (name +:+ "." +:+ rest) proto) = PeerHash name.
Proof. intros Hn. cbn. by rewrite before_sep_app. Qed.

Lemma gateway_link_under s name rest proto :
  has_char (Ascii.ascii_of_nat 46) name = false →
  gateway_link s (name +:+ "." +:+ rest) proto = mkLink (s_id s) (PeerHash name) 0 (alpn_of_string entries proto).
Proof.
  intros Hn. unfold gateway_link. change ("." +:+ rest) with (String.String (Ascii.ascii_of_nat 46) rest).
  by rewrite before_sep_app.
Qed.

Lemma under_root_not_root name root : name +:+ "." +:+ root ≠ root.
Proof. intros Heq. apply (f_equal strlen) in Heq. rewrite !strlen_app in Heq. cbn in Heq. lia. Qed.

(** Only the root domain's own name leads to the apex site. *)
Lemma handleConnection_apex g s range open conn cs g' :
  handleConnection g s range open conn cs = Ok (ToApex g') → ServerName cs = g_RootDomain g.
Proof.
  unfold handleConnection. case_bool_decide; [done|]. case_match.
  - unfold hand_to. case_match; intros; simplify_eq.
  - destruct (bool_decide (NegotiatedProtocol cs = ALPN_String alpn_Raw)); [|done].
    by destruct (Server_Forward _ _ _ _ _) as [[[? ?] ?]| |].
Qed.

Lemma handleConnection_root g s range open conn cs :
  ServerName cs = g_RootDomain g → handleConnection g s range open conn cs = Ok (hand_to g true conn).
Proof. intros Hn. unfold handleConnection. by rewrite bool_decide_eq_true_2. Qed.

(** A name under the root domain: raw connections are forwarded to the client of
    that name, *)
Lemma handleConnection_raw g s range open conn name :
  enumerates alpn_Map entries → has_char (Ascii.ascii_of_nat 46) name = false →
  handleConnection g s range open conn (mkCS (name +:+ "." +:+ g_RootDomain g) (ALPN_String alpn_Raw)) =
    match Server_Forward s range open conn (mkLink (s_id s) (PeerHash name) 0 alpn_Raw) with
    | Ok (far, _, wire) => Ok (PipedTo far wire)
    | Err e => Ok (CloseConn (Some e))
    | Panic p => Panic p
    end.
Proof.
  intros He Hdot. unfold handleConnection. cbn [ServerName NegotiatedProtocol].
  rewrite bool_decide_eq_false_2 by apply under_root_not_root.
  change (bool_decide (ALPN_String alpn_Raw = ALPN_String alpn_Unknown) ||
          bool_decide (ALPN_String alpn_Raw = ALPN_String alpn_HTTP)) with false.
  rewrite bool_decide_eq_true_2 by done. cbv iota.
  by rewrite gateway_link_under, (alpn_of_string_in entries alpn_Raw) by done.
Qed.

(** HTTP ones are queued for the reverse proxy, *)
Lemma handleConnection_http g s range open conn name proto :
  proto ∈ [ALPN_String alpn_HTTP; ALPN_String alpn_Unknown] →
  ch_closed (g_http g) = false → (length (ch_buf (g_http g)) < ch_cap (g_http g))%nat →
  handleConnection g s range open conn (mkCS (name +:+ "." +:+ g_RootDomain g) proto) =
    Ok (ToHTTP (mkGateway (g_RootDomain g) (g_GatewayPort g) (g_host g) (g_apex g)
      (mkChan (ch_cap (g_http g)) (ch_buf (g_http g) ++ [conn]) false))).
Proof.
  intros Hp Hc Hroom. unfold handleConnection. cbn [ServerName NegotiatedProtocol].
  rewrite bool_decide_eq_false_2 by apply under_root_not_root.
  assert (bool_decide (proto = ALPN_String alpn_Unknown) || bool_decide (proto = ALPN_String alpn_HTTP) = true) as ->.
  { apply orb_true_iff. rewrite !bool_decide_eq_true. set_solver. }
  unfold hand_to, chan_send. by rewrite Hc, (proj2 (Nat.ltb_lt _ _) Hroom).
Qed.

(** whose dialer forwards to the client, whatever port the transport appends. *)
Lemma http_dial_under s range open name rest :
  enumerates alpn_Map entries → has_char (Ascii.ascii_of_nat 46) name = false →
  http_dial s range open (name +:+ "." +:+ rest) =
    Server_Direct s range open (mkLink (s_id s) (PeerHash name) 0 alpn_HTTP).
Proof.
  intros He Hdot. unfold http_dial.
  by rewrite gateway_link_under, (alpn_of_string_in entries alpn_HTTP) by done.
Qed.
End Gateway.

(** ** Properties *)

(** The host name handed to a client reaches that client.  After a
    successful negotiation with a generated name without dots, a visitor whose
    server name is that name under the gateway's root domain is not sent to the
    apex site; for a raw connection [handleConnection] looks the client's own
    session up and opens the stream there, and for HTTP the dialer of the
    reverse proxy does, whatever port the transport appends. *)
Theorem visitor_reaches_client {P} `{MuxPeer P} `{XorFilter} (reg : gmap Z (Constructor P)) entries
    (s s' : Server P) c conn acceptable name w je cf reply g range :
  ConstructorsOk reg → enumerates alpn_Map entries →
  has_char (Ascii.ascii_of_nat 46) name = false →
  clientNegotiation reg s c conn acceptable name w je cf = Ok (s', reply) →
  ∃ p, PeerMap_Get (s_clients s') (PeerHash name) = Some p ∧
    reply_Hostname reply = "https://" +:+ name +:+ "." +:+ s_Domain s ∧
    (∀ open v, handleConnection entries g s' range open v
        (mkCS (name +:+ "." +:+ g_RootDomain g) (ALPN_String alpn_Raw)) =
      match Peer_Bidirectional p (open p) v (mkLink (s_id s) (PeerHash name) 0 alpn_Raw) with
      | Ok (far, _, wire) => Ok (PipedTo far wire)
      | Err e => Ok (CloseConn (Some e))
      | Panic e => Panic e
      end) ∧
    (∀ open port, http_dial entries s' range open (name +:+ "." +:+ g_RootDomain g +:+ port) =
      Peer_Direct p (open p) (mkLink (s_id s) (PeerHash name) 0 alpn_HTTP)).
Proof.
  intros Hok He Hdot Hc.
  apply clientNegotiation_Ok in Hc as (link & m & _ & _ & _ & _ & Hn & -> & _ & Hh).
  apply (NewPeer_Ok reg) in Hn as (p & _ & _ & _ & _ & _ & ->). cbn [cfg_Peer].
  exists p. split; [apply lookup_insert_eq|]. split; [exact Hh|]. split.
  - intros open v. rewrite handleConnection_raw by done.
    unfold Server_Forward. erewrite findPath_local; [|cbn; apply lookup_insert_eq]. done.
  - intros open port. rewrite http_dial_under by done.
    unfold Server_Direct. erewrite findPath_local; [|cbn; apply lookup_insert_eq]. done.
Qed.

Lemma visitor_reaches_client_witness :
  ∃ s' reply p, sample_negotiation = Ok (s', reply) ∧
    PeerMap_Get (s_clients s') (PeerHash "correct-horse") = Some p ∧
    (∀ open, @http_dial _ _ exact_filter (map_to_list alpn_Map) s' map_to_list open
       "correct-horse.tunnel.example.com:80" =
       Peer_Direct p (open p) (mkLink 42 (PeerHash "correct-horse") 0 alpn_HTTP)).
Proof.
  assert (is_ok sample_negotiation = true) as Hok by (vm_compute; reflexivity).
  destruct sample_negotiation as [[s' reply]| |] eqn:E; [|discriminate Hok..].
  unfold sample_negotiation in E.
  pose proof (visitor_reaches_client (@protocolRegistry sample_sessions) (map_to_list alpn_Map)
    _ _ _ _ _ "correct-horse" _ _ _ _ (gateway_New "tunnel.example.com" 443) map_to_list
    (@protocolRegistry_ok sample_sessions) (enumerates_self _) eq_refl E)
    as (p & H1 & _ & _ & H2).
  exists s', reply, p. split; [reflexivity|]. split; [exact H1|]. intros open. exact (H2 open ":80").
Defined.



(** Timeouts of other session libraries are not recognized.  [IsTimeout] means
    to accept an error whose [net.Error] says so, and does when it is given that
    error itself; but every session wraps the error of opening a stream, and the
    type assertion does not look through the wrapping: a session that timed out
    in this way is answered with 503 instead of 504. *)
Theorem wrapped_timeout_missed `{XorFilter} entries (s : Server muxPeer) range open addr p :
  findPath s range (gateway_link entries s addr (ALPN_String alpn_HTTP)) = Ok (Some p) →
  open p = Err (NetError true) →
  errorHandler (NetError true) = Some 504 ∧
  ∃ e, http_dial entries s range open addr = Err e ∧ errorHandler e = Some 503.
Proof.
  intros Hp Ho. split; [done|]. unfold http_dial, Server_Direct. rewrite Hp. cbn [mbind go_bind].
  cbn [Peer_Direct muxPeer_MuxPeer]. rewrite Direct_eq, Ho. by eexists.
Qed.

(** The check of the server name has no dot at the boundary: a name that only
    ends like the domain passes. *)
Lemma checkClientSNI_lookalike :
  checkClientSNI "tunnel.example.com" (mkCS "eviltunnel.example.com" "") = Ok tt.
Proof. reflexivity. Qed.

(** The SAN check accepts exactly single certificates that carry the name. *)
Lemma checkPeerSAN_spec required certs :
  checkPeerSAN required certs = Ok tt ↔ ∃ names, certs = [names] ∧ required ∈ names.
Proof.
  unfold checkPeerSAN. destruct certs as [|names [|n certs]]; [naive_solver| |naive_solver].
  assert (∀ b, foldl (λ f name, f || bool_decide (name = required)) b names = true ↔
    b = true ∨ required ∈ names) as Hf.
  { induction names as [|x names IH]; intros b; cbn; [set_solver|]. rewrite IH, orb_true_iff,
      bool_decide_eq_true, elem_of_cons. naive_solver. }
  specialize (Hf false). destruct (foldl _ false names); cbn; naive_solver.
Qed.
