(* ===== verification/Provider.v ===== *)
(** * Provider: dynamic DNS updates

    [provider/rfc2136.go].  The DNS library is the class [Dns]; its documented
    behaviour, observed on the messages it builds, is [DnsOk].  A call returns
    the messages it sent together with its result.  What a name server does with
    an update is not modelled: the theorems say what it is asked. *)
From S2P Require Import Prelude GoStd Acme.

Open Scope Z_scope.

(** ** The DNS library *)
Record dns_Client := mkDnsClient {
  SingleInflight : bool;
  TsigSecret : gmap string string;
}.

Class Dns := {
  RR : Type;
  Msg : Type;
  Fqdn : string → string;
  NewRR : string → RR + error;
  new_Msg : Msg;
  SetUpdate : string → Msg → Msg;
  SetTsig : string → string → Z → Z → Msg → Msg;
  RemoveRRset : list RR → Msg → Msg;
  Insert : list RR → Msg → Msg;
  Msg_Remove : list RR → Msg → Msg;
}.

Definition RcodeSuccess : Z := 0.

(** ** [RFC2136] *)
Record RFC2136Config := mkRFC2136Config {
  TSIGKey : string;
  TSIGAlgo : string;
  TSIGSecret : string;
  Nameserver : string;
  Zone : string;
}.

Record RFC2136 := mkRFC2136 {
  r_conf : RFC2136Config;
  r_nameserver : string;
  r_algo : string;
  r_tsig : gmap string string;
  r_zone : string;
}.

Section Provider.
Context `{Dns}.

Definition NewRFC2136Provider (conf : RFC2136Config) : go RFC2136 :=
  Ok (mkRFC2136 conf (Nameserver conf) (Fqdn (TSIGAlgo conf))
        {[ Fqdn (TSIGKey conf) := TSIGSecret conf ]} (Fqdn (Zone conf))).

Definition newClient (r : RFC2136) : dns_Client := mkDnsClient true (r_tsig r).

(** [now] is the time of the call in seconds. *)
Definition buildMsg (r : RFC2136) (now : Z) (host t value : string) : go (Msg * list RR) :=
  match NewRR (host +:+ "." +:+ r_zone r +:+ " " +:+ itoa 15 +:+ " IN " +:+ t +:+ " " +:+ value) with
  | inr e => Err e
  | inl aRR =>
      let m := SetUpdate (r_zone r) new_Msg in
      let m := SetTsig (TSIGKey (r_conf r)) (TSIGAlgo (r_conf r)) 300 now m in
      Ok (m, [aRR])
  end.

(** [c.ExchangeContext]: the response code or an error. *)
Definition exchange := dns_Client → Msg → string → Z + error.

Definition sent_reply (ex : exchange) (r : RFC2136) (m : Msg) : list (Msg * string) * go bool :=
  ([(m, r_nameserver r)],
   match ex (newClient r) m (r_nameserver r) with
   | inl rcode => Ok (rcode =? RcodeSuccess)
   | inr e => Err e
   end).

Definition RFC2136_Update (ex : exchange) (now : Z) (r : RFC2136) (host t value : string)
    : list (Msg * string) * go bool :=
  match buildMsg r now host t value with
  | Ok (m, rrs) => sent_reply ex r (Insert rrs (RemoveRRset rrs m))
  | Err e => ([], Err e)
  | Panic p => ([], Panic p)
  end.

Definition RFC2136_Remove (ex : exchange) (now : Z) (r : RFC2136) (host t value : string)
    : list (Msg * string) * go bool :=
  match buildMsg r now host t value with
  | Ok (m, rrs) => sent_reply ex r (Msg_Remove rrs m)
  | Err e => ([], Err e)
  | Panic p => ([], Panic p)
  end.
End Provider.

(** ** What a message asks of the name server *)

(** A record: name, type and value. *)
Definition record := (string * string * string)%type.

Inductive dns_update :=
| DeleteRRset (name type : string)
| AddRR (rr : record)
| DeleteRR (rr : record).

(** Names and values that stand for themselves in the text of a record. *)
Definition plain_char (c : Ascii.ascii) : bool :=
  let v := Ascii.nat_of_ascii c in
  ((48 <=? v) && (v <=? 57) || (65 <=? v) && (v <=? 90) || (97 <=? v) && (v <=? 122) ||
   (v =? 45) || (v =? 46) || (v =? 95))%nat.
Fixpoint plain (s : string) : bool :=
  match s with
  | EmptyString => true
  | String.String c s' => plain_char c && plain s'
  end.

(** A fully qualified domain name: labels of 1 to 63 octets, each followed by a
    dot, at most 254 octets in all; [n] is the length of the current label. *)
Fixpoint labels_ok (n : nat) (s : string) : bool :=
  match s with
  | EmptyString => (n =? 0)%nat
  | String.String c s' =>
      if Ascii.eqb c (Ascii.ascii_of_nat 46)
      then ((1 <=? n) && (n <=? 63))%nat && labels_ok 0 s'
      else labels_ok (S n) s'
  end.
Definition domain_name (s : string) : bool :=
  plain s && labels_ok 0 s && ((1 <=? strlen s) && (strlen s <=? 254))%nat.

(** A single character string of a TXT record. *)
Definition txt_value (s : string) : bool := plain s && ((1 <=? strlen s) && (strlen s <=? 255))%nat.

(** The documented behaviour of the library. *)
Class DnsOk `{Dns} := {
  rr_record : RR → record;
  msg_Zone : Msg → string;
  msg_Updates : Msg → list dns_update;
  msg_Tsig : Msg → option (string * string);   (* name of the key, algorithm *)
  Fqdn_relative s : HasSuffix s "." = false → Fqdn s = s +:+ ".";
  Fqdn_absolute s : HasSuffix s "." = true → Fqdn s = s;
  NewRR_TXT name value :
    domain_name name = true → txt_value value = true →
    ∃ rr, NewRR (name +:+ " " +:+ itoa 15 +:+ " IN TXT " +:+ value) = inl rr ∧
      rr_record rr = (name, "TXT", value);
  SetUpdate_new zone :
    msg_Zone (SetUpdate zone new_Msg) = zone ∧ msg_Updates (SetUpdate zone new_Msg) = [];
  SetTsig_keeps k a f now m :
    msg_Zone (SetTsig k a f now m) = msg_Zone m ∧
    msg_Updates (SetTsig k a f now m) = msg_Updates m ∧
    msg_Tsig (SetTsig k a f now m) = Some (k, a);
  RemoveRRset_adds rrs m :
    msg_Zone (RemoveRRset rrs m) = msg_Zone m ∧ msg_Tsig (RemoveRRset rrs m) = msg_Tsig m ∧
    msg_Updates (RemoveRRset rrs m) =
      msg_Updates m ++ ((λ rr, DeleteRRset (rr_record rr).1.1 (rr_record rr).1.2) <$> rrs);
  Insert_adds rrs m :
    msg_Zone (Insert rrs m) = msg_Zone m ∧ msg_Tsig (Insert rrs m) = msg_Tsig m ∧
    msg_Updates (Insert rrs m) = msg_Updates m ++ ((AddRR ∘ rr_record) <$> rrs);
  Remove_adds rrs m :
    msg_Zone (Msg_Remove rrs m) = msg_Zone m ∧ msg_Tsig (Msg_Remove rrs m) = msg_Tsig m ∧
    msg_Updates (Msg_Remove rrs m) = msg_Updates m ++ ((DeleteRR ∘ rr_record) <$> rrs);
}.

(** The client signs a message with the secret filed under the key's name, and
    fails when there is none. *)
Definition signs `{DnsOk} (ex : exchange) : Prop :=
  ∀ c m ns k a, msg_Tsig m = Some (k, a) → TsigSecret c !! k = None → ∃ e, ex c m ns = inr e.

(** ** Lemmas *)

Section ProviderOk.
Context `{DnsOk}.

(** The relative name of a record under the zone. *)
Definition under (r : RFC2136) (host : string) : string := host +:+ "." +:+ r_zone r.

Lemma buildMsg_Ok r now host t value :
  domain_name (under r host) = true → txt_value value = true → t = "TXT" →
  ∃ m rr, buildMsg r now host t value = Ok (m, [rr]) ∧ rr_record rr = (under r host, t, value) ∧
    msg_Zone m = r_zone r ∧ msg_Updates m = [] ∧
    msg_Tsig m = Some (TSIGKey (r_conf r), TSIGAlgo (r_conf r)).
Proof.
  intros Hn Hv ->. unfold buildMsg.
  destruct (NewRR_TXT (under r host) value Hn Hv) as (rr & Hrr & Hrec).
  unfold under in Hrr. rewrite !str_app_assoc in Hrr. cbn [String.append] in *.
  rewrite Hrr.
  destruct (SetUpdate_new (r_zone r)) as [Hz Hu].
  destruct (SetTsig_keeps (TSIGKey (r_conf r)) (TSIGAlgo (r_conf r)) 300 now
    (SetUpdate (r_zone r) new_Msg)) as (Hz' & Hu' & Ht).
  eexists _, rr. split; [done|]. split; [done|]. by rewrite Hz', Hu', Ht, Hz, Hu.
Qed.

(** A call that sends one message, for the zone, signed with the configured key
    and asking for [us], to the configured name server, and returns what the
    server's answer says. *)
Definition asks (ex : exchange) (r : RFC2136) (us : list dns_update) (call : list (Msg * string) * go bool)
    : Prop :=
  ∃ m, call = ([(m, r_nameserver r)],
               match ex (newClient r) m (r_nameserver r) with
               | inl rcode => Ok (rcode =? RcodeSuccess)
               | inr e => Err e
               end) ∧
    msg_Zone m = r_zone r ∧ msg_Tsig m = Some (TSIGKey (r_conf r), TSIGAlgo (r_conf r)) ∧
    msg_Updates m = us.
End ProviderOk.

(** A key name without its final dot is filed under another name than the one
    messages are signed with: no update ever succeeds. *)
Lemma relative_tsig_key_fails `{DnsOk} ex conf r now host t value :
  signs ex → NewRFC2136Provider conf = Ok r → HasSuffix (TSIGKey conf) "." = false →
  (∃ e, (RFC2136_Update ex now r host t value).2 = Err e) ∧
  (∃ e, (RFC2136_Remove ex now r host t value).2 = Err e).
Proof.
  intros Hs [= <-] Hk.
  assert (∀ m, msg_Tsig m = Some (TSIGKey conf, TSIGAlgo conf) →
    ∃ e, (sent_reply ex (mkRFC2136 conf (Nameserver conf) (Fqdn (TSIGAlgo conf))
        {[ Fqdn (TSIGKey conf) := TSIGSecret conf ]} (Fqdn (Zone conf))) m).2 = Err e) as Hsend.
  { intros m Hm. unfold sent_reply, newClient. cbn.
    edestruct (Hs (mkDnsClient true {[ Fqdn (TSIGKey conf) := TSIGSecret conf ]}) m
      (Nameserver conf)) as [e ->]; [exact Hm| |by eexists].
    cbn. apply lookup_singleton_None. rewrite Fqdn_relative by done.
    intros Heq%(f_equal strlen). rewrite strlen_app in Heq. cbn in Heq. lia. }
  unfold RFC2136_Update, RFC2136_Remove, buildMsg. cbn.
  destruct (NewRR _) as [rr|e]; [|by split; eexists].
  destruct (SetTsig_keeps (TSIGKey conf) (TSIGAlgo conf) 300 now
    (SetUpdate (Fqdn (Zone conf)) new_Msg)) as (_ & _ & Ht).
  split; apply Hsend.
  - destruct (Insert_adds [rr] (RemoveRRset [rr] (SetTsig (TSIGKey conf) (TSIGAlgo conf) 300 now
      (SetUpdate (Fqdn (Zone conf)) new_Msg)))) as (_ & -> & _).
    edestruct RemoveRRset_adds as (_ & -> & _). exact Ht.
  - edestruct Remove_adds as (_ & -> & _). exact Ht.
Qed.

(** The messages of the two calls for an ordinary record. *)
Lemma Update_asks `{DnsOk} ex r now host value :
  domain_name (under r host) = true → txt_value value = true →
  asks ex r [DeleteRRset (under r host) "TXT"; AddRR (under r host, "TXT", value)]
    (RFC2136_Update ex now r host "TXT" value).
Proof.
  intros Hn Hv.
  destruct (buildMsg_Ok r now host "TXT" value Hn Hv eq_refl) as (m & rr & Hb & Hrec & Hz & Hu & Ht).
  unfold RFC2136_Update. rewrite Hb. eexists. split; [done|].
  destruct (Insert_adds [rr] (RemoveRRset [rr] m)) as (-> & -> & ->).
  destruct (RemoveRRset_adds [rr] m) as (-> & -> & ->). cbn. by rewrite Hu, Hrec.
Qed.

Lemma Remove_asks `{DnsOk} ex r now host value :
  domain_name (under r host) = true → txt_value value = true →
  asks ex r [DeleteRR (under r host, "TXT", value)] (RFC2136_Remove ex now r host "TXT" value).
Proof.
  intros Hn Hv.
  destruct (buildMsg_Ok r now host "TXT" value Hn Hv eq_refl) as (m & rr & Hb & Hrec & Hz & Hu & Ht).
  unfold RFC2136_Remove. rewrite Hb. eexists. split; [done|].
  destruct (Remove_adds [rr] m) as (-> & -> & ->). cbn. by rewrite Hu, Hrec.
Qed.

(** A library with messages as lists of updates, for closed examples. *)
Definition cut_word (s : string) : string * string :=
  let w := before_sep (Ascii.ascii_of_nat 32) s in (w, str_drop (S (strlen w)) s).

Definition sample_NewRR (s : string) : record + error :=
  let '(name, s) := cut_word s in
  let '(ttl, s) := cut_word s in
  let '(class, s) := cut_word s in
  let '(t, value) := cut_word s in
  if bool_decide (class = "IN") && bool_decide (t = "TXT") then inl (name, t, value)
  else inr (Foreign 0).

Definition sample_dns : Dns := {|
  RR := record;
  Msg := string * list dns_update * option (string * string);
  Fqdn s := if HasSuffix s "." then s else s +:+ ".";
  NewRR := sample_NewRR;
  new_Msg := ("", [], None);
  SetUpdate z m := (z, m.1.2, m.2);
  SetTsig k a _ _ m := (m.1, Some (k, a));
  RemoveRRset rrs m := (m.1.1, m.1.2 ++ ((λ rr, DeleteRRset rr.1.1 rr.1.2) <$> rrs), m.2);
  Insert rrs m := (m.1.1, m.1.2 ++ (AddRR <$> rrs), m.2);
  Msg_Remove rrs m := (m.1.1, m.1.2 ++ (DeleteRR <$> rrs), m.2);
|}.

Lemma plain_no_space s : plain s = true → has_char (Ascii.ascii_of_nat 32) s = false.
Proof.
  induction s as [|c s IH]; [done|]. cbn. intros [Hc Hs]%andb_true_iff. rewrite IH by done.
  destruct (Ascii.eqb_spec (Ascii.ascii_of_nat 32) c) as [<-|]; [done|].
  destruct (Ascii.eqb_spec c (Ascii.ascii_of_nat 32)) as [->|]; done.
Qed.

Lemma cut_word_app w s : plain w = true → cut_word (w +:+ " " +:+ s) = (w, s).
Proof.
  intros Hw. unfold cut_word. change (" " +:+ s) with (String.String (Ascii.ascii_of_nat 32) s).
  rewrite before_sep_app by by apply plain_no_space.
  f_equal. change (String.String (Ascii.ascii_of_nat 32) s) with (" " +:+ s).
  rewrite <-str_app_assoc. replace (S (strlen w)) with (strlen (w +:+ " "))
    by (rewrite strlen_app; cbn; lia). apply str_drop_app.
Qed.

Definition sample_dns_ok : @DnsOk sample_dns.
Proof.
  refine (@Build_DnsOk sample_dns id (λ m, m.1.1) (λ m, m.1.2) (λ m, m.2) _ _ _ _ _ _ _ _);
    cbn [Fqdn NewRR sample_dns]; try (by intros; split_and!).
  - by intros s ->.
  - by intros s ->.
  - intros name value [[Hn _]%andb_true_iff _]%andb_true_iff [Hv _]%andb_true_iff.
    exists (name, "TXT", value). split; [|done]. unfold sample_NewRR.
    rewrite cut_word_app by done.
    change (itoa 15 +:+ " IN TXT " +:+ value)
      with ("15" +:+ " " +:+ "IN" +:+ " " +:+ "TXT" +:+ " " +:+ value).
    by rewrite !cut_word_app.
Defined.

(** ** Properties *)

(** C21: what is asked of the name server for the challenge of a wildcard
    certificate.  For the wildcard of a domain below the configured zone, when
    the name [_acme-challenge.] of the certified domain is a domain name and the
    challenge fits a TXT record: [RequestCertificate] asks the provider for a
    host whose record lies exactly at that name; [Update] sends one message, to
    the configured server, for the configured zone and signed with the
    configured key, that first deletes the TXT records at that name and then
    adds the challenge; [Remove] sends one that deletes this very record; both
    report success exactly when the server answers with it; and when the key
    is configured with its final dot, the client holds the secret for the key
    that the messages are signed with. *)
Theorem challenge_provisioned `{DnsOk} ex conf r now contact sub txt :
  NewRFC2136Provider conf = Ok r → HasSuffix (Zone conf) "." = false →
  sub ≠ "" → HasPrefix sub "*" = false →
  let name := "_acme-challenge." +:+ (sub +:+ "." +:+ Zone conf) +:+ "." in
  domain_name name = true → txt_value txt = true →
  ∃ host,
    certificate_names (mkAcmeConfig contact (Zone conf) ("*." +:+ sub +:+ "." +:+ Zone conf)) =
      Ok (host, sub +:+ "." +:+ Zone conf,
          [sub +:+ "." +:+ Zone conf; "*." +:+ sub +:+ "." +:+ Zone conf]) ∧
    r_nameserver r = Nameserver conf ∧ r_zone r = Zone conf +:+ "." ∧ r_conf r = conf ∧
    asks ex r [DeleteRRset name "TXT"; AddRR (name, "TXT", txt)] (RFC2136_Update ex now r host "TXT" txt) ∧
    asks ex r [DeleteRR (name, "TXT", txt)] (RFC2136_Remove ex now r host "TXT" txt) ∧
    (HasSuffix (TSIGKey conf) "." = true →
     TsigSecret (newClient r) !! TSIGKey conf = Some (TSIGSecret conf)).
Proof.
  intros Hr Hdot Hne Hstar name Hname Ht.
  destruct (acme_names contact (Zone conf) sub Hne Hstar) as (_ & Hnames & _).
  unfold NewRFC2136Provider in Hr. injection Hr as <-.
  set (r := mkRFC2136 _ _ _ _ _). set (host := "_acme-challenge." +:+ sub) in *.
  assert (under r host = name) as Hu.
  { unfold under, host, name. cbn [r_zone r]. by rewrite Fqdn_relative, !str_app_assoc. }
  exists host. rewrite <-Hu in *. split_and!; try done.
  - cbn. by rewrite Fqdn_relative.
  - by apply Update_asks.
  - by apply Remove_asks.
  - intros Hk. cbn. rewrite Fqdn_absolute by done. apply lookup_singleton_eq.
Qed.

(** A name server at 127.0.0.1 for the zone example.com. *)
Definition sample_rfc2136 : RFC2136Config :=
  mkRFC2136Config "sign." "hmac-sha256." "c2VjcmV0" "127.0.0.1:53" "example.com".

Lemma challenge_provisioned_witness :
  ∃ r m res, @NewRFC2136Provider sample_dns sample_rfc2136 = Ok r ∧
    @RFC2136_Update sample_dns (λ _ _ _, inl 0) 1700000000 r "_acme-challenge.tunnel" "TXT" "tok_1" =
      ([(m, "127.0.0.1:53")], res) ∧ res = Ok true ∧
    @msg_Updates sample_dns sample_dns_ok m =
      [DeleteRRset "_acme-challenge.tunnel.example.com." "TXT";
       AddRR ("_acme-challenge.tunnel.example.com.", "TXT", "tok_1")].
Proof.
  destruct (@NewRFC2136Provider sample_dns sample_rfc2136) as [r| |] eqn:E; [|done..].
  destruct (@challenge_provisioned sample_dns sample_dns_ok
    (λ _ _ _, inl 0) sample_rfc2136 r 1700000000 "ops" "tunnel" "tok_1" E)
    as (host & Hn & Hns & _ & _ & (m & Hm & _ & _ & Hu) & _); try done.
  exists r, m. eexists. split; [done|]. vm_compute in Hn. injection Hn as <-.
  split; [rewrite Hm, Hns; reflexivity|]. split; [reflexivity|exact Hu].
Defined.
