(* ===== verification/Client.v ===== *)
(** * Client: the commands of the tunnel client

    [client/tunnel.go], [client/connect.go], [client/forward.go],
    [client/accepter.go] and the options of [cmd/client/main.go].
    [logger.Fatal] ends the process: it is [Panic (FatalExit _)].  What the
    network, the URL parser, the HTTP client and the terminal answer are
    arguments. *)
From S2P Require Import Prelude GoStd Link MuxChannel Multiplexer PeerGraph PeerMap Meta Acme Server Mux Alpn Gateway.

Open Scope Z_scope.

Definition fatal {A} (msg : string) : go A := Panic (FatalExit msg).

(** [alpnCheck]; the argument is the scheme of the forwarding target. *)
Definition alpnCheck (a : ALPN) (scheme : string) : bool :=
  if bool_decide (scheme = "http") || bool_decide (scheme = "https") then a =? alpn_HTTP
  else if bool_decide (scheme = "tcp") then a =? alpn_Raw
  else false.

(** The check at the start of [Tunnel]. *)
Definition tunnel_scheme_ok (scheme : string) : go unit :=
  if bool_decide (scheme = "http") || bool_decide (scheme = "https") || bool_decide (scheme = "tcp")
  then Ok tt
  else fatal "unsupported scheme. valid schemes: http, https, tcp".

(** [peerNegotiation]: one write, one read into the same buffer (a short read
    keeps the rest of what was written), then the JSON reply.  The result is
    the link and the host name. *)
Definition client_peerNegotiation (proto : Protocol) (w : writer) (conn : reader)
    (json : string + error) : go (Link * string) :=
  let link := mkLink 0 0 proto alpn_Multiplexer in
  match Link_MarshalBinary link with
  | Err _ => fatal "marshal link"
  | Panic p => Panic p
  | Ok buf =>
      let '(n, err) := w buf in
      match err with
      | Some _ => fatal "writing handshake to peer"
      | None =>
          if negb (n =? LinkSize) then fatal "invalid handshake length sent" else
          let '(got, err, _) := Read LinkSize conn in
          match err with
          | Some _ => fatal "reading handshake from peer"
          | None =>
              match Link_UnmarshalBinary link (copy buf got) with
              | Err _ => fatal "unmarshal link"
              | Panic p => Panic p
              | Ok link =>
                  match json with
                  | inr _ => fatal "unmarshaling generated name response"
                  | inl hostname => Ok (link, hostname)
                  end
              end
          end
      end
  end.

(** The configuration of the session the client then sets up. *)
Definition tunnel_config (connector : option connector) (link : Link) : Config :=
  mkConfig true connector (Destination link) true 0.

(** What happens to an incoming stream. *)
Inductive tunnel_action :=
| ToForwarder (conn : Z)          (* queued for the local HTTP server *)
| PipedToTarget (target conn : Z)
| StreamClosed (conn : Z).

(** The loop body over [p.Handle()]; [dial] is the connection to the target. *)
Definition tunnel_dispatch (scheme : string) (l : LinkConnection) (dial : Z + error)
    : go tunnel_action :=
  if negb (alpnCheck (link_ALPN (lc_Link l)) scheme) then Ok (StreamClosed (lc_Conn l)) else
  let a := link_ALPN (lc_Link l) in
  if a =? alpn_Multiplexer
  then fatal "received alpn proposal for multiplexer on forward target"
  else if a =? alpn_Raw then
    match dial with
    | inl n => Ok (PipedToTarget n (lc_Conn l))
    | inr _ => Ok (StreamClosed (lc_Conn l))
    end
  else Ok (ToForwarder (lc_Conn l)).

(** ** URLs *)

(** [url.URL]: its scheme, its host with the port as written, and the results
    of [Hostname] and [Port]. *)
Record url := mkURL {
  u_Scheme : string;
  u_Host : string;
  u_Hostname : string;
  u_Port : string;
}.

(** ** [tunnel] *)
Record TunnelOpts := mkTunnelOpts {
  to_Forward : string;
  to_Where : string;
  to_Proto : Z;
  to_Debug : bool;
  to_Overwrite : bool;
  to_Concise : bool;
}.

(** What the outside answers during [Tunnel]. *)
Record TunnelEnv := mkTunnelEnv {
  te_Parse : string → url + error;                           (* [url.Parse] *)
  te_Get : string → (Z * (string * Z + error)) + error;      (* status and decoded [Where] *)
  te_Dial : string → Z + error;
  te_OpenStream : Z + error;
  te_Write : writer;
  te_Read : reader;
  te_JSON : string + error;                                  (* the decoded [GeneratedName] *)
  te_closed_first : bool;
}.

(** What [Tunnel] has set up when it starts to serve. *)
Record tunnel (P : Type) := mkTunnel {
  tn_target : url;
  tn_link : Link;
  tn_pm : PeerMap P;
  tn_peer : P;
  tn_hostname : string;
  tn_hostHeader : string;
}.
Arguments mkTunnel {_} _ _ _ _ _ _.
Arguments tn_target {_} _.
Arguments tn_link {_} _.
Arguments tn_pm {_} _.
Arguments tn_peer {_} _.
Arguments tn_hostname {_} _.
Arguments tn_hostHeader {_} _.

(** A value or the end of the process. *)
Definition or_fatal {A} (msg : string) (r : A + error) : go A :=
  match r with inl a => Ok a | inr _ => fatal msg end.

(** The lookup of the server: [/where] on the host given. *)
Definition discover (env : TunnelEnv) (where_ : string) : go string :=
  resp ← or_fatal "auto discovering peer" (te_Get env ("https://" +:+ where_ +:+ "/where"));
  if negb (resp.1 =? 200) then fatal "auto discovering returns non-200 response code" else
  w ← or_fatal "cannot recode auto discovering result" resp.2;
  Ok (w.1 +:+ ":" +:+ itoa w.2).

(** The [Host] header sent to the target; the parsed host name is dereferenced
    without looking at the error. *)
Definition host_header (env : TunnelEnv) (opts : TunnelOpts) (u : url) (hostname : string) : go string :=
  if to_Overwrite opts then
    match te_Parse env hostname with
    | inl tunnelURL => Ok (u_Host tunnelURL)
    | inr _ => Panic NilDereference
    end
  else Ok (u_Host u).

Section Tunnel.
Context {P : Type} `{MuxPeer P} (reg : gmap Z (Constructor P)).

(** [Tunnel], up to the point where it waits for a signal. *)
Definition Tunnel (env : TunnelEnv) (opts : TunnelOpts) : go (tunnel P) :=
  u ← or_fatal "parsing forwarding target" (te_Parse env (to_Forward opts));
  _ ← tunnel_scheme_ok (u_Scheme u);
  peerTarget ← discover env (to_Where opts);
  let proposedProtocol := wrap8 (to_Proto opts) in
  match multiplexer_Dialer (dReg (te_Dial env peerTarget) (te_OpenStream env)) proposedProtocol with
  | Panic p => Panic p
  | Err _ => fatal "selecting peer dialer"
  | Ok d =>
      match dl_err d with
      | Some _ => fatal "connecting to peer"
      | None =>
          r ← client_peerNegotiation proposedProtocol (te_Write env) (te_Read env) (te_JSON env);
          let '(link, hostname) := r in
          match NewPeer reg (NewPeerMap (Source link)) (link_Protocol link)
                  (tunnel_config (dl_connector d) link) (te_closed_first env) with
          | Panic p => Panic p
          | Err _ => fatal "registering peer"
          | Ok pm =>
              match pm_notify pm with
              | [] => fatal "timeout attempting to establish connection with peer"
              | p :: _ =>
                  hostHeader ← host_header env opts u hostname;
                  Ok (mkTunnel u link pm p hostname hostHeader)
              end
          end
      end
  end.

(** On a signal the session is removed and said goodbye to. *)
Definition Tunnel_exit (t : tunnel P) : go (PeerMap P * option P) :=
  PeerMap_Remove (tn_pm t) (Peer_Peer (tn_peer t)).
End Tunnel.

(** [httpAccepter.Accept] of the client: nil (a closed channel) is end-of-file. *)
Definition client_httpAccepter_Accept (ch : chan Z) : option (chan Z * go Z) :=
  match chan_recv ch with
  | Received x c => Some (c, Ok x)
  | RecvClosed => Some (ch, Err (Sentinel io_EOF))
  | RecvBlocks => None
  end.

(** ** [connect] and [forward] *)

(** The check both commands make. *)
Definition gateway_scheme_ok (scheme : string) : go unit :=
  if bool_decide (scheme = "https") then Ok tt
  else fatal "unsupported scheme. valid schemes: https".

(** [getConn]: the address dialed for a tunnel URL, and what the gateway sees
    of the connection. *)
Definition getConn_addr (hostname port : string) : string :=
  let port := if bool_decide (port = "") then "443" else port in
  hostname +:+ ":" +:+ port.
Definition getConn (dial : string → Z + error) (u : url) : (Z * ConnectionState) + error :=
  match dial (getConn_addr (u_Hostname u) (u_Port u)) with
  | inl conn => inl (conn, mkCS (u_Hostname u) (ALPN_String alpn_Raw))
  | inr e => inr e
  end.

(** [Connect]: the connection that standard input and output are copied to. *)
Definition client_Connect (parse : string → url + error) (dial : string → Z + error) (URL : string)
    : go (Z * ConnectionState) :=
  u ← or_fatal "parsing gateway target" (parse URL);
  _ ← gateway_scheme_ok (u_Scheme u);
  or_fatal "connecting to gateway" (getConn dial u).

(** The two copying goroutines: only an error asks the process to end. *)
Definition copy_ended (err : option error) : bool := match err with Some _ => true | None => false end.

(** [Forward]: what happens to each local connection accepted before the
    listener fails, which ends the process. *)
Inductive forward_action :=
| ForwardPiped (lConn rConn : Z) (cs : ConnectionState)
| ForwardClosed (lConn : Z).

Definition forward_conn (dial : string → Z + error) (u : url) (lConn : Z) : forward_action :=
  match getConn dial u with
  | inl (rConn, cs) => ForwardPiped lConn rConn cs
  | inr _ => ForwardClosed lConn
  end.

Definition client_Forward (parse : string → url + error) (listen : option error)
    (dial : string → Z + error) (URL : string) (accepts : list Z) : go (list forward_action) :=
  u ← or_fatal "parsing gateway target" (parse URL);
  _ ← gateway_scheme_ok (u_Scheme u);
  match listen with
  | Some _ => fatal "listening for connections"
  | None => Ok (forward_conn dial u <$> accepts)
  end.

(** ** The command line *)

(** The flags given: [None] for a flag that was left out. *)
Record cli := mkCLI {
  c_String : string → option string;
  c_Int : string → option Z;
  c_Bool : string → bool;
}.

Inductive client_command :=
| RunTunnel (opts : TunnelOpts)
| RunConnect (URL : string)
| RunForward (URL listen : string)
| ShowHelp.

(** A required flag that is missing ends the run before the action. *)
Definition required (c : cli) (name : string) : go string :=
  match c_String c name with
  | Some v => Ok v
  | None => Err (Errorf ("Required flag " +:+ name +:+ " not set") [])
  end.

(** [main]: the action of each command. *)
Definition client_main (command : string) (c : cli) : go client_command :=
  if bool_decide (command = "tunnel") then
    where_ ← required c "where";
    Ok (RunTunnel (mkTunnelOpts (default "http://127.0.0.1:3000" (c_String c "forward")) where_
          (default Mplex (c_Int c "protocol")) (c_Bool c "debug") (c_Bool c "overwrite")
          (c_Bool c "concise")))
  else if bool_decide (command = "connect") then
    url ← required c "url"; Ok (RunConnect url)
  else if bool_decide (command = "forward") then
    url ← required c "url"; Ok (RunForward url (default ":5678" (c_String c "listen")))
  else Ok ShowHelp.

(** ** Lemmas *)

Lemma alpnCheck_eq a scheme :
  alpnCheck a scheme =
    if decide (scheme ∈ ["http"; "https"]) then a =? alpn_HTTP
    else if decide (scheme = "tcp") then a =? alpn_Raw else false.
Proof.
  unfold alpnCheck. destruct (decide (scheme ∈ ["http"; "https"])) as [Hh|Hh].
  - replace (_ || _) with true; [done|]. symmetry. apply orb_true_iff.
    rewrite !bool_decide_eq_true. set_solver.
  - rewrite (bool_decide_eq_false_2 (scheme = "http")), (bool_decide_eq_false_2 (scheme = "https"))
      by set_solver.
    cbn. by destruct (decide (scheme = "tcp")); case_bool_decide.
Qed.

(** ** Properties *)

(** A tunnel stream never ends the client process.  Whatever link arrives
    on the session, the fatal branch for the multiplexer protocol is dead: the
    stream is closed, queued for the local HTTP server exactly when the target
    is an HTTP one and the stream is HTTP, or piped to the target exactly when
    the target is TCP, the stream is raw and the target could be dialed. *)
Theorem tunnel_dispatch_total scheme l dial :
  ∃ act, tunnel_dispatch scheme l dial = Ok act ∧
    (act = ToForwarder (lc_Conn l) ↔
       scheme ∈ ["http"; "https"] ∧ link_ALPN (lc_Link l) = alpn_HTTP) ∧
    (∀ t, act = PipedToTarget t (lc_Conn l) ↔
       scheme = "tcp" ∧ link_ALPN (lc_Link l) = alpn_Raw ∧ dial = inl t).
Proof.
  unfold tunnel_dispatch. rewrite alpnCheck_eq. set (a := link_ALPN (lc_Link l)).
  assert (StreamClosed (lc_Conn l) ≠ ToForwarder (lc_Conn l)) as Hsf by done.
  destruct (decide (scheme ∈ ["http"; "https"])) as [Hh|Hh].
  { assert (scheme ≠ "tcp") by set_solver. destruct (Z.eqb_spec a alpn_HTTP) as [->|Hne]; cbn.
    - eexists. split; [done|]. split; [done|]. intros t. split; [done|naive_solver].
    - eexists. split; [done|]. split; [naive_solver|]. intros t. split; [done|naive_solver]. }
  destruct (decide (scheme = "tcp")) as [->|Ht].
  - destruct (Z.eqb_spec a alpn_Raw) as [->|Hne]; cbn.
    + destruct dial as [n|e]; eexists; (split; [done|]); (split; [naive_solver|]); intros t;
        split; naive_solver.
    + eexists. split; [done|]. split; [naive_solver|]. intros t. split; [done|naive_solver].
  - eexists. split; [done|]. split; [naive_solver|]. intros t. split; [done|naive_solver].
Qed.

(** C36: client and server agree on the tunnel.  The hello the client writes is
    accepted by the server's listener for that protocol, when a session can be
    set up there; the reply, read back in one piece, gives the client the
    identifier under which the server filed it and the server's identifier as
    the peer of the session it sets up, with the same protocol; and the host
    name it prints is the generated one. *)
Theorem tunnel_handshake {P} `{MuxPeer P} (reg : gmap Z (Constructor P)) (s s' : Server P) proto
    hello c acceptable name cf reply rest rest' :
  ConstructorsOk reg → u64 (s_id s) → u8 proto →
  Link_MarshalBinary (mkLink 0 0 proto alpn_Multiplexer) = Ok hello →
  clientNegotiation reg s c ((hello, None) :: rest) acceptable name (λ b, (zlen b, None)) None cf =
    Ok (s', reply) →
  ∃ link p, client_peerNegotiation proto (λ b, (zlen b, None)) ((reply_link reply, None) :: rest')
              (inl (reply_Hostname reply)) =
            Ok (link, "https://" +:+ name +:+ "." +:+ s_Domain s) ∧
    link = mkLink (PeerHash name) (s_id s) proto alpn_Multiplexer ∧
    PeerMap_Get (s_clients s') (Source link) = Some p ∧ Peer_Peer p = Source link ∧
    Peer_Protocol p = proto ∧ cfg_Peer (tunnel_config None link) = s_id s'.
Proof.
  intros Hok Hid Hproto Hh Hc.
  apply clientNegotiation_Ok in Hc as (l & m & Hl & _ & _ & _ & Hn & -> & Hm & Hhost).
  assert (wf_Link (mkLink 0 0 proto alpn_Multiplexer)) as Hwf by by split_and!.
  assert (l = mkLink 0 0 proto alpn_Multiplexer) as ->.
  { destruct (handshake_link_wire _ _ rest Hwf Hh) as (g1 & r1 & Hr1 & Hu1).
    destruct Hl as (g2 & r2 & Hr2 & Hu2). rewrite Hr1 in Hr2. simplify_eq. congruence. }
  cbn [link_Protocol] in *. set (rl := mkLink (PeerHash name) (s_id s) proto alpn_Multiplexer) in *.
  assert (wf_Link rl) as Hwr by (split_and!; [apply fnv64a_u64|done|done|done]).
  pose proof (Link_unmarshal_marshal (mkLink 0 0 proto alpn_Multiplexer) rl Hwr) as Hrt.
  rewrite Hm in Hrt. cbn [mbind go_bind] in Hrt.
  pose proof (Link_wire_length _ _ Hm) as Hlm. pose proof (Link_wire_length _ _ Hh) as Hlh.
  apply (NewPeer_Ok reg) in Hn as (p & _ & _ & Hp & _ & Hpp & ->).
  exists rl, p. split_and!; try done; [|apply lookup_insert_eq].
  unfold client_peerNegotiation. rewrite Hh. cbv beta iota. rewrite Hlh. cbn [negb].
  rewrite Z.eqb_refl. cbn [negb]. rewrite <-Hlm at 1. rewrite Read_all.
  rewrite copy_full by (unfold zlen in *; lia). by rewrite Hrt, Hhost.
Qed.

Lemma tunnel_handshake_witness :
  ∃ s' reply link p, sample_negotiation = Ok (s', reply) ∧
    client_peerNegotiation Mplex (λ b, (zlen b, None)) [(reply_link reply, None)]
      (inl (reply_Hostname reply)) = Ok (link, "https://correct-horse.tunnel.example.com") ∧
    PeerMap_Get (s_clients s') (Source link) = Some p.
Proof.
  assert (is_ok sample_negotiation = true) as Hok by (vm_compute; reflexivity).
  assert (u64 (s_id (sample_server 42))) as H1 by (clear; done).
  assert (u8 Mplex) as H2 by (clear; done).
  assert (Link_MarshalBinary (mkLink 0 0 Mplex alpn_Multiplexer) =
    Ok (replicate 16 0 ++ [Mplex; alpn_Multiplexer])) as H3 by (vm_compute; reflexivity).
  destruct sample_negotiation as [[s' reply]| |] eqn:E; [|discriminate Hok..].
  unfold sample_negotiation, sample_hello in E.
  destruct (tunnel_handshake (@protocolRegistry sample_sessions) _ _ Mplex _ _ _ _ _ _ [] []
    (@protocolRegistry_ok sample_sessions) H1 H2 H3 E) as (link & p & Hn & _ & Hg & _).
  exists s', reply, link, p. split; [reflexivity|]. split; [exact Hn|exact Hg].
Defined.

(** C3: a visitor's stream reaches the application behind the tunnel.  Take any
    client that negotiated a tunnel under a generated name without dots, on a
    server whose sessions are the real ones, and a visitor who connects to that
    name under the gateway's domain, while the stream opened on the client's
    session takes the header.  A raw visitor is piped to the stream and, for a
    TCP target that can be dialed, the client pipes the other end to the
    target; an HTTP request is sent on a stream that, for an HTTP target, is
    queued for the local forwarder.  In both cases the bytes after the header
    are left for the application, and a stream of the other kind is closed. *)
Theorem tunnel_end_to_end `{Sessions} `{XorFilter} entries (s s' : Server muxPeer) c conn acceptable
    name w je cf reply g range (open : muxPeer → go (Z * writer)) far (q : muxPeer) stream data r :
  enumerates alpn_Map entries → u64 (s_id s) → has_char (Ascii.ascii_of_nat 46) name = false →
  clientNegotiation protocolRegistry s c conn acceptable name w je cf = Ok (s', reply) →
  (∀ p, open p = Ok (far, λ b, (zlen b, None))) →
  let left := if bool_decide (data = []) then r else (data, None) :: r in
  (∀ v, ∃ wire l,
     handleConnection entries g s' range open v
       (mkCS (name +:+ "." +:+ g_RootDomain g) (ALPN_String alpn_Raw)) = Ok (PipedTo far wire) ∧
     hands_on q stream ((wire ++ data, None) :: r) l ∧
     streamHandshake ((wire ++ data, None) :: r) = Ok (lc_Link l, left) ∧
     (∀ t, tunnel_dispatch "tcp" l (inl t) = Ok (PipedToTarget t stream)) ∧
     (∀ dial, tunnel_dispatch "http" l dial = Ok (StreamClosed stream))) ∧
  (∀ port, ∃ wire l,
     http_dial entries s' range open (name +:+ "." +:+ g_RootDomain g +:+ port) = Ok (far, wire) ∧
     hands_on q stream ((wire ++ data, None) :: r) l ∧
     streamHandshake ((wire ++ data, None) :: r) = Ok (lc_Link l, left) ∧
     (∀ scheme dial, scheme ∈ ["http"; "https"] →
        tunnel_dispatch scheme l dial = Ok (ToForwarder stream)) ∧
     (∀ dial, tunnel_dispatch "tcp" l dial = Ok (StreamClosed stream))).
Proof.
  intros He Hid Hdot Hc Hopen left.
  destruct (visitor_reaches_client protocolRegistry entries s s' c conn acceptable name w je cf reply
    g range protocolRegistry_ok He Hdot Hc) as (p & _ & _ & Hraw & Hhttp).
  assert (∀ a, u8 a → wf_Link (mkLink (s_id s) (PeerHash name) 0 a)) as Hwf
    by (intros a Ha; split_and!; [done|apply fnv64a_u64|done|done]).
  split.
  - intros v. destruct (Direct_arrives p q far _ stream data r (Hwf alpn_Raw ltac:(done)))
      as (wire & Hd & Hs & Hst).
    exists wire, (mkLC stream (mkLink (s_id s) (PeerHash name) 0 alpn_Raw)).
    rewrite Hraw, Hopen. cbn [Peer_Bidirectional muxPeer_MuxPeer].
    rewrite Bidirectional_eq, Hd. by split_and!.
  - intros port. destruct (Direct_arrives p q far _ stream data r (Hwf alpn_HTTP ltac:(done)))
      as (wire & Hd & Hs & Hst).
    exists wire, (mkLC stream (mkLink (s_id s) (PeerHash name) 0 alpn_HTTP)).
    rewrite Hhttp, Hopen. split_and!; try done.
    intros scheme dial [->|[->|[]%not_elem_of_nil]%elem_of_cons]%elem_of_cons; done.
Qed.

Lemma tunnel_end_to_end_witness :
  ∃ s' reply wire l, sample_negotiation = Ok (s', reply) ∧
    @handleConnection _ _ exact_filter (map_to_list alpn_Map) (gateway_New "tunnel.example.com" 443)
      s' map_to_list (λ _, Ok (9, λ b, (zlen b, None))) 4
      (mkCS "correct-horse.tunnel.example.com" (ALPN_String alpn_Raw)) = Ok (PipedTo 9 wire) ∧
    tunnel_dispatch "tcp" l (inl 6) = Ok (PipedToTarget 6 3).
Proof.
  assert (is_ok sample_negotiation = true) as Hok by (vm_compute; reflexivity).
  destruct sample_negotiation as [[s' reply]| |] eqn:E; [|discriminate Hok..].
  unfold sample_negotiation in E.
  assert (u64 (s_id (sample_server 42))) as Hid by (clear; done).
  destruct (@tunnel_end_to_end sample_sessions exact_filter (map_to_list alpn_Map)
    _ _ _ _ _ "correct-horse" _ _ _ _ (gateway_New "tunnel.example.com" 443) map_to_list
    (λ _, Ok (9, λ b, (zlen b, None))) 9
    (mkPeer KMplex 1 (mkConfig true None 1 true 0) NewChannel (make_chan 0) 0 false false) 3 [1; 2] []
    (enumerates_self _) Hid eq_refl E (λ _, eq_refl)) as [Hraw _].
  destruct (Hraw 4) as (wire & l & H1 & _ & _ & H2 & _).
  exists s', reply, wire, l. split; [reflexivity|]. split; [exact H1|exact (H2 6)].
Defined.

(** What a successful [client_peerNegotiation] says about its link. *)
Lemma NewPeer_fresh {P} `{MuxPeer P} (reg : gmap Z (Constructor P)) self proto conf cf pm :
  ConstructorsOk reg → NewPeer reg (NewPeerMap self) proto conf cf = Ok pm →
  ∃ p, pm = mkPM self {[ cfg_Peer conf := p ]} 1 [p] ∧ Peer_Peer p = cfg_Peer conf ∧
    Peer_Initiator p = cfg_Initiator conf ∧ Peer_Protocol p = proto.
Proof.
  intros Hok Hn. apply (NewPeer_Ok reg) in Hn as (p & _ & _ & Hp & Hi & Hpr & ->).
  exists p. by split_and!.
Qed.

(** The client's negotiation and its library calls end the process instead of
    returning an error. *)
Lemma or_fatal_Ok {A} msg (r : A + error) a : or_fatal msg r = Ok a ↔ r = inl a.
Proof. destruct r; cbn; naive_solver. Qed.

Lemma discover_Ok env where_ target :
  discover env where_ = Ok target ↔
    ∃ addr port, te_Get env ("https://" +:+ where_ +:+ "/where") = inl (200, inl (addr, port)) ∧
      target = addr +:+ ":" +:+ itoa port.
Proof.
  unfold discover. split.
  - intros ([code [[addr port]|e]] & Hr%or_fatal_Ok & Hc)%go_bind_Ok; cbn in Hc;
      destruct (Z.eqb_spec code 200) as [->|]; cbn in Hc; simplify_eq. by exists addr, port.
  - by intros (addr & port & -> & ->).
Qed.

Lemma dialed_conn dial open p d :
  multiplexer_Dialer (dReg dial open) p = Ok d → dl_err d = None → ∃ conn, dial = inl conn.
Proof.
  intros Hd. assert (dReg dial open !! p = Some d) as Hl.
  { unfold multiplexer_Dialer in Hd. destruct (dReg dial open !! p); [|done].
    destruct (p =? protocol_Unknown); by simplify_eq. }
  unfold dReg, RegisterDialer in Hl. apply lookup_insert_Some in Hl as [[_ <-]|[_ Hl]];
    [|apply lookup_insert_Some in Hl as [[_ <-]|[_ Hl]];
      [|apply lookup_insert_Some in Hl as [[_ <-]|[_ Hl]];
        [|by apply lookup_empty_Some in Hl]]];
    destruct dial; try done; by eexists.
Qed.

Lemma Tunnel_Ok {P} `{MuxPeer P} (reg : gmap Z (Constructor P)) env opts t :
  Tunnel reg env opts = Ok t →
  ∃ target d hostname cf, tunnel_scheme_ok (u_Scheme (tn_target t)) = Ok tt ∧
    discover env (to_Where opts) = Ok target ∧
    multiplexer_Dialer (dReg (te_Dial env target) (te_OpenStream env)) (wrap8 (to_Proto opts)) = Ok d ∧
    dl_err d = None ∧
    client_peerNegotiation (wrap8 (to_Proto opts)) (te_Write env) (te_Read env) (te_JSON env) =
      Ok (tn_link t, hostname) ∧
    NewPeer reg (NewPeerMap (Source (tn_link t))) (link_Protocol (tn_link t))
      (tunnel_config (dl_connector d) (tn_link t)) cf = Ok (tn_pm t) ∧
    ∃ rest, pm_notify (tn_pm t) = tn_peer t :: rest.
Proof.
  unfold Tunnel. intros (u & _ & ([] & Hs & (target & Hd & Ht)%go_bind_Ok)%go_bind_Ok)%go_bind_Ok.
  destruct (multiplexer_Dialer _ _) as [d| |] eqn:Ed; [|done..].
  destruct (dl_err d) eqn:Ee; [done|].
  apply go_bind_Ok in Ht as ([link hostname] & Hn & Ht).
  destruct (NewPeer _ _ _ _ _) as [pm| |] eqn:En; [|done..].
  destruct (pm_notify pm) as [|p rest] eqn:Ep; [done|].
  apply go_bind_Ok in Ht as (hh & _ & [= <-]). cbn [tn_target tn_link tn_pm tn_peer].
  exists target, d, hostname, (te_closed_first env). split_and!; try done. by exists rest.
Qed.

Lemma or_fatal_no_err {A} msg (r : A + error) : is_err (or_fatal msg r) = false.
Proof. by destruct r. Qed.

Lemma discover_no_err env where_ : is_err (discover env where_) = false.
Proof.
  unfold discover. apply go_bind_no_err; [apply or_fatal_no_err|]. intros r _. case_match; [done|].
  apply go_bind_no_err; [apply or_fatal_no_err|done].
Qed.

Lemma client_peerNegotiation_no_err proto w conn json :
  is_err (client_peerNegotiation proto w conn json) = false.
Proof. unfold client_peerNegotiation. repeat (case_match; try done). Qed.

Lemma Tunnel_no_err {P} `{MuxPeer P} (reg : gmap Z (Constructor P)) env opts :
  is_err (Tunnel reg env opts) = false.
Proof.
  unfold Tunnel. apply go_bind_no_err; [apply or_fatal_no_err|]. intros u _.
  apply go_bind_no_err; [unfold tunnel_scheme_ok; by case_match|]. intros [] _.
  apply go_bind_no_err; [apply discover_no_err|]. intros target _.
  do 2 (case_match; try done).
  apply go_bind_no_err; [apply client_peerNegotiation_no_err|]. intros [link hostname] _.
  do 2 (case_match; try done).
  apply go_bind_no_err; [unfold host_header; by repeat case_match|done].
Qed.

(** C40: what a running tunnel consists of.  [Tunnel] never returns an error: it
    ends the process or serves.  When it serves, the target has one of the
    three schemes, there is exactly one session, filed under the server's
    identifier from the reply, which this side initiated and whose protocol is
    the one of the reply, and the server contacted is the one [/where] named;
    leaving says goodbye to that session and empties the map. *)
Theorem tunnel_established {P} `{MuxPeer P} (reg : gmap Z (Constructor P)) env opts :
  ConstructorsOk reg →
  match Tunnel reg env opts with
  | Err _ => False
  | Panic _ => True
  | Ok t =>
      u_Scheme (tn_target t) ∈ ["http"; "https"; "tcp"] ∧
      (∃ addr port conn,
         te_Get env ("https://" +:+ to_Where opts +:+ "/where") = inl (200, inl (addr, port)) ∧
         te_Dial env (addr +:+ ":" +:+ itoa port) = inl conn) ∧
      pm_peers (tn_pm t) = {[ Destination (tn_link t) := tn_peer t ]} ∧
      PeerMap_Len (tn_pm t) = 1 ∧ Peer_Peer (tn_peer t) = Destination (tn_link t) ∧
      Peer_Initiator (tn_peer t) = true ∧ Peer_Protocol (tn_peer t) = link_Protocol (tn_link t) ∧
      ∀ gone, Peer_Bye (tn_peer t) = Ok gone →
        ∃ m, Tunnel_exit t = Ok (m, Some gone) ∧ pm_peers m = ∅ ∧ PeerMap_Len m = 0
  end.
Proof.
  intros Hok. destruct (Tunnel reg env opts) as [t|e|] eqn:E; 
    [|by pose proof (Tunnel_no_err reg env opts) as Hne; rewrite E in Hne|done].
  apply Tunnel_Ok in E as (target & d & hostname & cf & Hs & Hd & Hdial & Herr & _ & Hn & rest & Hnot).
  apply discover_Ok in Hd as (addr & port & Hget & ->).
  destruct (dialed_conn _ _ _ _ Hdial Herr) as [conn Hconn].
  apply NewPeer_fresh in Hn as (p & Hpm & Hp & Hi & Hpr); [|done].
  rewrite Hpm in Hnot. cbn in Hnot. injection Hnot as -> _. cbn in Hp, Hi, Hpm.
  split_and!; try done; [|by eexists _, _, _|by rewrite Hpm..|].
  - unfold tunnel_scheme_ok in Hs. revert Hs. repeat case_bool_decide; cbn; set_solver.
  - intros gone Hb. unfold Tunnel_exit, PeerMap_Remove. rewrite Hp, Hpm. cbn.
    rewrite lookup_insert_eq, Hb. eexists. split; [done|]. cbn. by rewrite delete_insert_eq.
Qed.

(** A tunnel to a local web server, negotiated with [sample_server]. *)
Definition sample_tunnel_env : TunnelEnv :=
  mkTunnelEnv (λ s, inl (mkURL "http" "127.0.0.1:3000" "127.0.0.1" "3000"))
    (λ _, inl (200, inl ("tunnel.example.com", 443))) (λ _, inl 5) (inl 6) (λ b, (zlen b, None))
    [(be_bytes 8 7 ++ be_bytes 8 42 ++ [Mplex; alpn_Multiplexer], None)]
    (inl "https://correct-horse.tunnel.example.com") false.
Definition sample_tunnel_opts : TunnelOpts :=
  mkTunnelOpts "http://127.0.0.1:3000" "tunnel.example.com" Mplex false false false.

Lemma tunnel_established_witness :
  ∃ t, Tunnel (@protocolRegistry sample_sessions) sample_tunnel_env sample_tunnel_opts = Ok t ∧
    PeerMap_Len (tn_pm t) = 1 ∧ Peer_Peer (tn_peer t) = Destination (tn_link t).
Proof.
  pose proof (tunnel_established (@protocolRegistry sample_sessions) sample_tunnel_env
    sample_tunnel_opts (@protocolRegistry_ok sample_sessions)) as Ht.
  assert (is_ok (Tunnel (@protocolRegistry sample_sessions) sample_tunnel_env sample_tunnel_opts) = true)
    as Hok by (vm_compute; reflexivity).
  destruct (Tunnel _ _ _) as [t| |]; [|discriminate Hok..].
  exists t. split; [reflexivity|]. split; apply Ht.
Defined.

(** With [-overwrite], a reply whose host name is not a URL crashes the client. *)
Lemma overwrite_unparsable_crashes env opts u hostname e :
  to_Overwrite opts = true → te_Parse env hostname = inr e →
  host_header env opts u hostname = Panic NilDereference.
Proof. intros Ho Hp. unfold host_header. by rewrite Ho, Hp. Qed.
