(* ===== verification/TunnelLoop.v ===== *)
(** * TunnelLoop: the tunnel client while it serves

    The goroutines that [Tunnel] of [client/tunnel.go] leaves running once the
    session is established: the loop over the streams of the session, the local
    HTTP server that accepts from the queue of 32 connections, the watcher that
    turns the end of the session into a signal, and the main goroutine that
    waits for it.  Also what [Tunnel] prints, the error page of its reverse
    proxy, and the life cycle of the command in [cmd/client/main.go]. *)
From S2P Require Import Prelude GoStd Link MuxChannel Multiplexer PeerGraph PeerMap Meta Acme Server Mux Alpn Gateway Client.

Open Scope Z_scope.

(** ** Output *)
Fixpoint Repeat (s : string) (n : nat) : string :=
  match n with O => "" | S n' => s +:+ Repeat s n' end.

Definition ruler : string := nl +:+ Repeat "=" 50 +:+ nl +:+ nl.

(** What is printed once the tunnel is up; [sep] is the path separator and
    [app] the name of the program. *)
Definition banner (opts : TunnelOpts) (u : url) (sep app hostname hostHeader : string) : string :=
  if to_Concise opts then hostname +:+ nl else
  ruler +:+
  (if bool_decide (u_Scheme u = "http") || bool_decide (u_Scheme u = "https") then
     "HTTPS requests will be forwarded to: " +:+ to_Forward opts +:+ " (Host: " +:+ hostHeader +:+ ")" +:+ nl
   else if bool_decide (u_Scheme u = "tcp") then
     "TCP connections will be forwarded to: " +:+ to_Forward opts +:+ nl +:+ nl +:+
     "Example usages:" +:+ nl +:+ nl +:+ "SSH:" +:+ nl +:+
     "ssh -o ProxyCommand=" +:+ String.String (Ascii.ascii_of_nat 34) "." +:+ sep +:+ app +:+
     " connect -url " +:+ hostname +:+ String.String (Ascii.ascii_of_nat 34) " user@127.0.0.1" +:+ nl
   else "") +:+
  nl +:+ "Your Hostname: " +:+ hostname +:+ nl +:+ ruler.

(** The reverse proxy to the target: the [Host] header it sends, and its answer
    when the target fails. *)
Definition proxy_Director (hostHeader : string) (rewritten_host : string) : string := hostHeader.
Definition proxy_ErrorHandler (e : string) : Z * string :=
  (502, "Forwarding target returned error: " +:+ e).

(** ** The command

    [main] of [cmd/client/main.go]: the logger is built before the command, and
    each of the three commands undoes the redirection of the standard logger
    afterwards. *)
Record client_env := mkClientEnv {
  ce_Build : bool → option error;       (* [logCfg.Build], for development or production *)
  ce_Redirect : option error;           (* [zap.RedirectStdLogAt] *)
}.

Definition client_Before (env : client_env) (c : cli) : option error :=
  match ce_Build env (c_Bool c "debug") with
  | Some e => Some e
  | None => ce_Redirect env
  end.

Inductive app_result :=
| AppFailed (e : error)                                  (* printed on standard error *)
| AppRan (cmd : client_command) (undone : bool)
| AppCrashed (p : panic).

Definition client_app (env : client_env) (command : string) (c : cli) : app_result :=
  match client_Before env c with
  | Some e => AppFailed e
  | None =>
      match client_main command c with
      | Ok ShowHelp => AppRan ShowHelp false
      | Ok cmd => AppRan cmd true
      | Err e => AppFailed e
      | Panic p => AppCrashed p
      end
  end.

(** The command line never crashes the program: a command runs exactly when
    the logger could be built and redirected and its required flag was given,
    and then with the values of its flags or their defaults. *)
Lemma client_app_runs env command c :
  client_app env command c =
    match client_Before env c with
    | Some e => AppFailed e
    | None =>
        if bool_decide (command = "tunnel") then
          match c_String c "where" with
          | Some w => AppRan (RunTunnel (mkTunnelOpts (default "http://127.0.0.1:3000" (c_String c "forward")) w
              (default Mplex (c_Int c "protocol")) (c_Bool c "debug") (c_Bool c "overwrite") (c_Bool c "concise"))) true
          | None => AppFailed (Errorf ("Required flag " +:+ "where" +:+ " not set") [])
          end
        else if bool_decide (command = "connect") then
          match c_String c "url" with
          | Some u => AppRan (RunConnect u) true
          | None => AppFailed (Errorf ("Required flag " +:+ "url" +:+ " not set") [])
          end
        else if bool_decide (command = "forward") then
          match c_String c "url" with
          | Some u => AppRan (RunForward u (default ":5678" (c_String c "listen"))) true
          | None => AppFailed (Errorf ("Required flag " +:+ "url" +:+ " not set") [])
          end
        else AppRan ShowHelp false
    end.
Proof.
  unfold client_app, client_main, required. destruct (client_Before env c); [done|].
  repeat case_bool_decide; try done; by destruct (c_String c "where"), (c_String c "url").
Qed.

(** ** The goroutines *)
Inductive watcher := WatchSession | SendSignal | WatchDone.

Record tunnel_run (P : Type) := mkRun {
  tr_held : option Z;               (* the loop waits to queue this connection *)
  tr_c : chan Z;                    (* [c := make(chan net.Conn, 32)] *)
  tr_looping : bool;                (* the channel of streams is open *)
  tr_watcher : watcher;
  tr_sigs : chan unit;              (* [make(chan os.Signal, 1)] *)
  tr_pm : PeerMap P;
  tr_bye : option (option P);       (* [Some _] once [Tunnel] has returned *)
  tr_served : list Z;               (* accepted by the local HTTP server *)
  tr_piped : list (Z * Z);          (* target and stream *)
  tr_closed : list Z;
  tr_seen : list LinkConnection;    (* everything the loop received *)
}.
Arguments mkRun {_} _ _ _ _ _ _ _ _ _ _ _.
Arguments tr_held {_} _.
Arguments tr_c {_} _.
Arguments tr_looping {_} _.
Arguments tr_watcher {_} _.
Arguments tr_sigs {_} _.
Arguments tr_pm {_} _.
Arguments tr_bye {_} _.
Arguments tr_served {_} _.
Arguments tr_piped {_} _.
Arguments tr_closed {_} _.
Arguments tr_seen {_} _.

Inductive run_event :=
| RStream (l : LinkConnection) (dial : Z + error)   (* the loop receives a stream *)
| RQueue                                            (* its send on [c] goes through *)
| RAccept                                           (* the HTTP server accepts *)
| RStreamsEnd                                       (* the channel of streams is closed *)
| RSessionClosed                                    (* [NotifyClose] fires *)
| RSendSignal                                       (* the watcher's send goes through *)
| RInterrupt                                        (* a signal from outside *)
| RMain.                                            (* the main goroutine wakes up *)

Section Run.
Context {P : Type} `{MuxPeer P}.
Implicit Types r : tunnel_run P.

Definition tunnel_started (t : tunnel P) : tunnel_run P :=
  mkRun None (make_chan 32) true WatchSession (make_chan 1) (tn_pm t) None [] [] [] [].

(** The loop's part of one stream, by the action [tunnel_dispatch] chose. *)
Definition run_action r (l : LinkConnection) (act : tunnel_action) : tunnel_run P :=
  let seen := tr_seen r ++ [l] in
  match act with
  | ToForwarder conn =>
      mkRun (Some conn) (tr_c r) (tr_looping r) (tr_watcher r) (tr_sigs r) (tr_pm r) (tr_bye r)
        (tr_served r) (tr_piped r) (tr_closed r) seen
  | PipedToTarget n conn =>
      mkRun (tr_held r) (tr_c r) (tr_looping r) (tr_watcher r) (tr_sigs r) (tr_pm r) (tr_bye r)
        (tr_served r) (tr_piped r ++ [(n, conn)]) (tr_closed r) seen
  | StreamClosed conn =>
      mkRun (tr_held r) (tr_c r) (tr_looping r) (tr_watcher r) (tr_sigs r) (tr_pm r) (tr_bye r)
        (tr_served r) (tr_piped r) (tr_closed r ++ [conn]) seen
  end.

(** [None] when the goroutine of the event cannot move. *)
Definition run_step (t : tunnel P) (e : run_event) r : option (go (tunnel_run P)) :=
  match e with
  | RStream l dial =>
      if negb (tr_looping r) then None else
      match tr_held r with
      | Some _ => None
      | None => Some (act ← tunnel_dispatch (u_Scheme (tn_target t)) l dial; Ok (run_action r l act))
      end
  | RQueue =>
      match tr_held r with
      | None => None
      | Some conn =>
          match chan_send (tr_c r) conn with
          | Sent c => Some (Ok (mkRun None c (tr_looping r) (tr_watcher r) (tr_sigs r) (tr_pm r) (tr_bye r)
                              (tr_served r) (tr_piped r) (tr_closed r) (tr_seen r)))
          | SendBlocks => None
          | SendPanics => Some (Panic SendOnClosedChannel)
          end
      end
  | RAccept =>
      match client_httpAccepter_Accept (tr_c r) with
      | None => None
      | Some (c, Ok conn) =>
          Some (Ok (mkRun (tr_held r) c (tr_looping r) (tr_watcher r) (tr_sigs r) (tr_pm r) (tr_bye r)
                      (tr_served r ++ [conn]) (tr_piped r) (tr_closed r) (tr_seen r)))
      | Some (_, Err e) => None           (* [Serve] returns *)
      | Some (_, Panic p) => Some (Panic p)
      end
  | RStreamsEnd =>
      match tr_held r with
      | Some _ => None
      | None => Some (Ok (mkRun None (tr_c r) false (tr_watcher r) (tr_sigs r) (tr_pm r) (tr_bye r)
                            (tr_served r) (tr_piped r) (tr_closed r) (tr_seen r)))
      end
  | RSessionClosed =>
      match tr_watcher r with
      | WatchSession => Some (Ok (mkRun (tr_held r) (tr_c r) (tr_looping r) SendSignal (tr_sigs r) (tr_pm r)
                                   (tr_bye r) (tr_served r) (tr_piped r) (tr_closed r) (tr_seen r)))
      | _ => None
      end
  | RSendSignal =>
      match tr_watcher r with
      | SendSignal =>
          match chan_send (tr_sigs r) tt with
          | Sent s => Some (Ok (mkRun (tr_held r) (tr_c r) (tr_looping r) WatchDone s (tr_pm r)
                              (tr_bye r) (tr_served r) (tr_piped r) (tr_closed r) (tr_seen r)))
          | SendBlocks => None
          | SendPanics => Some (Panic SendOnClosedChannel)
          end
      | _ => None
      end
  | RInterrupt =>
      (* [signal.Notify] does not block: a signal is dropped when the channel is full *)
      match chan_send (tr_sigs r) tt with
      | Sent s => Some (Ok (mkRun (tr_held r) (tr_c r) (tr_looping r) (tr_watcher r) s (tr_pm r)
                          (tr_bye r) (tr_served r) (tr_piped r) (tr_closed r) (tr_seen r)))
      | SendBlocks => Some (Ok r)
      | SendPanics => Some (Panic SendOnClosedChannel)
      end
  | RMain =>
      match tr_bye r with
      | Some _ => None
      | None =>
          match chan_recv (tr_sigs r) with
          | Received _ s =>
              Some (res ← PeerMap_Remove (tr_pm r) (Peer_Peer (tn_peer t));
                    Ok (mkRun (tr_held r) (tr_c r) (tr_looping r) (tr_watcher r) s res.1
                          (Some res.2) (tr_served r) (tr_piped r) (tr_closed r) (tr_seen r)))
          | _ => None
          end
      end
  end.

(** A step that goes through. *)
Definition run_next (t : tunnel P) (e : run_event) r : option (tunnel_run P) :=
  match run_step t e r with Some (Ok r') => Some r' | _ => None end.

(** ** What holds while it serves *)

(** The streams of [ls] meant for the local HTTP server, in order. *)
Definition for_server (t : tunnel P) (ls : list LinkConnection) : list Z :=
  lc_Conn <$> filter (λ l, u_Scheme (tn_target t) ∈ ["http"; "https"] ∧ link_ALPN (lc_Link l) = alpn_HTTP) ls.

#[local] Arguments for_server : simpl never.

Record run_inv (t : tunnel P) r : Prop := {
  ri_queue : ch_cap (tr_c r) = 32%nat ∧ (length (ch_buf (tr_c r)) ≤ 32)%nat ∧ ch_closed (tr_c r) = false;
  ri_sigs : ch_cap (tr_sigs r) = 1%nat ∧ ch_closed (tr_sigs r) = false;
  ri_http : for_server t (tr_seen r) = tr_served r ++ ch_buf (tr_c r) ++ option_list (tr_held r);
  ri_all : lc_Conn <$> tr_seen r ≡ₚ
    tr_served r ++ ch_buf (tr_c r) ++ option_list (tr_held r) ++ (tr_piped r).*2 ++ tr_closed r;
  ri_pm : match tr_bye r with
          | None => tr_pm r = tn_pm t
          | Some o => PeerMap_Remove (tn_pm t) (Peer_Peer (tn_peer t)) = Ok (tr_pm r, o)
          end;
}.

Lemma run_inv_started t : run_inv t (tunnel_started t).
Proof. split; cbn; try done. split_and!; [done|lia|done]. Qed.

Lemma for_server_snoc t ls l act dial :
  tunnel_dispatch (u_Scheme (tn_target t)) l dial = Ok act →
  for_server t (ls ++ [l]) =
    for_server t ls ++ match act with ToForwarder _ => [lc_Conn l] | _ => [] end.
Proof.
  intros Hd. destruct (tunnel_dispatch_total (u_Scheme (tn_target t)) l dial) as (act' & Hd' & Hf & _).
  rewrite Hd in Hd'. injection Hd' as <-. unfold for_server. rewrite filter_app, fmap_app. f_equal.
  destruct act as [c| |].
  - assert (c = lc_Conn l) as ->.
    { unfold tunnel_dispatch in Hd. by repeat (case_match; simplify_eq). }
    by rewrite filter_cons_True by (by apply Hf).
  - rewrite filter_cons_False; [done|]. intros [? ?]. by assert (PipedToTarget target conn = ToForwarder (lc_Conn l)) by by apply Hf.
  - rewrite filter_cons_False; [done|]. intros [? ?]. by assert (StreamClosed conn = ToForwarder (lc_Conn l)) by by apply Hf.
Qed.

Lemma dispatch_conn scheme l dial act :
  tunnel_dispatch scheme l dial = Ok act →
  match act with ToForwarder c | PipedToTarget _ c | StreamClosed c => c = lc_Conn l end.
Proof. unfold tunnel_dispatch. intros Hd. by repeat (case_match; simplify_eq). Qed.

Lemma run_action_inv t r l dial act :
  run_inv t r → tr_held r = None → tunnel_dispatch (u_Scheme (tn_target t)) l dial = Ok act →
  run_inv t (run_action r l act).
Proof.
  intros [Hq Hs Hh Ha Hp] Hheld Hd. pose proof (for_server_snoc t (tr_seen r) l act dial Hd) as Hsnoc.
  pose proof (dispatch_conn _ _ _ _ Hd) as Hconn.
  rewrite Hheld in Hh, Ha. cbn [option_list app] in Hh, Ha. rewrite app_nil_r in Hh.
  destruct act as [c|n c|c]; subst c;
    (split; cbn [run_action tr_c tr_sigs tr_seen tr_served tr_held tr_piped tr_closed tr_bye tr_pm]; try done);
    rewrite ?Hsnoc, ?Hh, ?Hheld, ?fmap_app, ?Ha; cbn [option_list fmap list_fmap snd app];
    rewrite ?app_nil_r, <-?app_assoc; try done; do 2 f_equiv; cbn.
  - by rewrite app_assoc, <-Permutation_cons_append.
  - f_equiv. by rewrite <-Permutation_cons_append.
Qed.

Lemma run_next_Some t e r r' : run_next t e r = Some r' → run_step t e r = Some (Ok r').
Proof. unfold run_next. repeat case_match; naive_solver. Qed.

Lemma run_step_inv t e r r' : run_inv t r → run_step t e r = Some (Ok r') → run_inv t r'.
Proof.
  intros Hi. pose proof Hi as [[Hcap [Hlen Hcl]] [Hsc Hso] Hh Ha Hp].
  destruct e; cbn; unfold client_httpAccepter_Accept, chan_send, chan_recv; rewrite ?Hcl, ?Hso; intros Hs.
  - destruct (tr_looping r), (tr_held r) eqn:Eh; simplify_eq/=.
    apply go_bind_Ok in Hs as (act & Hd & [= <-]). by eapply run_action_inv.
  - destruct (tr_held r) as [c|] eqn:Eh; [|done].
    destruct (Nat.ltb_spec (length (ch_buf (tr_c r))) (ch_cap (tr_c r))); simplify_eq/=.
    cbn in Hh, Ha. split; cbn; try done.
    + split_and!; [done| |done]. rewrite length_app. cbn. lia.
    + by rewrite Hh, app_nil_r.
    + by rewrite Ha, <-!app_assoc.
  - destruct (ch_buf (tr_c r)) as [|x b] eqn:Eb; [done|]. simplify_eq/=. split; cbn; try done.
    + split_and!; [done|cbn in Hlen; lia|done].
    + by rewrite Hh, <-app_assoc.
    + by rewrite Ha, <-app_assoc.
  - destruct (tr_held r) eqn:Eh; simplify_eq/=. by split; cbn; rewrite ?Eh in *.
  - destruct (tr_watcher r); simplify_eq/=. by split.
  - destruct (tr_watcher r); simplify_eq/=. destruct (_ <? _)%nat; simplify_eq/=. by split.
  - destruct (_ <? _)%nat; simplify_eq/=; by split.
  - destruct (tr_bye r) eqn:Eb; [done|]. destruct (ch_buf (tr_sigs r)); [done|]. simplify_eq/=.
    apply go_bind_Ok in Hs as ([m o] & Hrm & [= <-]). split; cbn; try done. by rewrite <-Hp.
Qed.

Lemma run_reachable_inv t r : reachable (run_next t) (tunnel_started t) r → run_inv t r.
Proof.
  apply reachable_invariant; [apply run_inv_started|]. intros e r1 r2 Hi Hs%run_next_Some.
  by eapply run_step_inv.
Qed.

(** No goroutine crashes the client, except a session that panics on the
    farewell. *)
Lemma run_step_returns t e r :
  run_inv t r → e ≠ RMain → run_step t e r = None ∨ ∃ r', run_step t e r = Some (Ok r').
Proof.
  intros [[Hcap [Hlen Hcl]] [Hsc Hso] _ _ _] Hne.
  destruct e; cbn; unfold client_httpAccepter_Accept, chan_send, chan_recv; rewrite ?Hcl, ?Hso; try done;
    repeat (case_match; simplify_eq/=); eauto.
  destruct (tunnel_dispatch_total (u_Scheme (tn_target t)) l dial) as (act & -> & _). right. by eexists.
Qed.

(** The main goroutine takes what is in the channel of signals. *)
Lemma main_wakes t r res :
  run_inv t r → tr_bye r = None → ch_buf (tr_sigs r) ≠ [] →
  PeerMap_Remove (tn_pm t) (Peer_Peer (tn_peer t)) = Ok res →
  ∃ r', run_next t RMain r = Some r' ∧ tr_bye r' = Some res.2 ∧ tr_pm r' = res.1.
Proof.
  intros [_ _ _ _ Hp] Hb Hs Hr. rewrite Hb in Hp. unfold run_next. cbn. rewrite Hb. unfold chan_recv.
  destruct (ch_buf (tr_sigs r)); [done|]. rewrite Hp, Hr. cbn. by eexists.
Qed.

Lemma signal_reaches_main t r res :
  run_inv t r → tr_bye r = None → tr_watcher r = SendSignal ∨ ch_buf (tr_sigs r) ≠ [] →
  PeerMap_Remove (tn_pm t) (Peer_Peer (tn_peer t)) = Ok res →
  ∃ ls r', (length ls ≤ 2)%nat ∧ run (run_next t) ls r = Some r' ∧
    tr_bye r' = Some res.2 ∧ tr_pm r' = res.1.
Proof.
  intros Hi Hb Hw Hr. destruct (decide (ch_buf (tr_sigs r) = [])) as [Hs|Hs].
  - destruct Hw as [Hw|]; [|done]. pose proof Hi as [_ [Hcap Hcl] _ _ _].
    assert (∃ r1, run_next t RSendSignal r = Some r1 ∧ ch_buf (tr_sigs r1) = [tt] ∧ tr_bye r1 = None)
      as (r1 & H1 & Hs1 & Hb1).
    { unfold run_next. cbn. unfold chan_send. rewrite Hw, Hcl, Hs, Hcap. by eexists. }
    pose proof (run_step_inv _ _ _ _ Hi (run_next_Some _ _ _ _ H1)) as Hi1.
    destruct (main_wakes t r1 res Hi1 Hb1) as (r2 & H2 & ?); [by rewrite Hs1|done|].
    exists [RSendSignal; RMain], r2. split; [cbn; lia|]. cbn. rewrite H1. cbn. by rewrite H2.
  - destruct (main_wakes t r res Hi Hb Hs Hr) as (r2 & H2 & ?).
    exists [RMain], r2. split; [cbn; lia|]. cbn. by rewrite H2.
Qed.
End Run.

(** ** Properties *)

(** C37: the serving client loses no stream and always stops.  However its
    goroutines interleave: at most 32 connections wait for the local HTTP
    server, which is handed exactly the HTTP streams of an HTTP tunnel, in the
    order they arrived; every stream received is served, queued, about to be
    queued, piped to the target or closed, and is so once; no step crashes the
    process; and once the session has ended or a signal has arrived, the main
    goroutine returns within two steps, with the session removed from the map
    and said goodbye to. *)
Theorem tunnel_serves {P} `{MuxPeer P} (t : tunnel P) r :
  reachable (run_next t) (tunnel_started t) r →
  (length (ch_buf (tr_c r)) ≤ 32)%nat ∧
  for_server t (tr_seen r) = tr_served r ++ ch_buf (tr_c r) ++ option_list (tr_held r) ∧
  lc_Conn <$> tr_seen r ≡ₚ
    tr_served r ++ ch_buf (tr_c r) ++ option_list (tr_held r) ++ (tr_piped r).*2 ++ tr_closed r ∧
  (∀ e, e ≠ RMain → run_step t e r = None ∨ ∃ r', run_step t e r = Some (Ok r')) ∧
  (∀ m bye, PeerMap_Remove (tn_pm t) (Peer_Peer (tn_peer t)) = Ok (m, bye) →
     tr_bye r = None → tr_watcher r = SendSignal ∨ ch_buf (tr_sigs r) ≠ [] →
     ∃ ls r', (length ls ≤ 2)%nat ∧ run (run_next t) ls r = Some r' ∧
       tr_bye r' = Some bye ∧ tr_pm r' = m).
Proof.
  intros Hr%run_reachable_inv. pose proof Hr as [(_ & Hl & _) _ Hh Ha _]. split_and!; try done.
  - intros e. by apply run_step_returns.
  - intros m bye Hrm Hb Hw. by apply (signal_reaches_main t r (m, bye)).
Qed.

(** A tunnel to a web server, one HTTP stream and one raw stream, then the end
    of the session. *)
Definition sample_serving : tunnel (Z * bool * Protocol) :=
  mkTunnel (mkURL "http" "127.0.0.1:3000" "127.0.0.1" "3000") (mkLink 7 42 Mplex alpn_Multiplexer)
    (mkPM 7 {[42 := (42, true, Mplex)]} 1 []) (42, true, Mplex) "" "".
Definition sample_events : list run_event :=
  [RStream (mkLC 3 (mkLink 42 7 0 alpn_HTTP)) (inl 0); RQueue;
   RStream (mkLC 4 (mkLink 42 7 0 alpn_Raw)) (inl 0); RSessionClosed].

Lemma tunnel_serves_witness :
  ∃ r, run (@run_next _ stub_peer sample_serving) sample_events (tunnel_started sample_serving) = Some r ∧
    for_server sample_serving (tr_seen r) = [3] ∧ tr_closed r = [4] ∧
    ∃ ls r', run (@run_next _ stub_peer sample_serving) ls r = Some r' ∧
      tr_bye r' = Some (Some (42, true, Mplex)).
Proof.
  destruct (run (@run_next _ stub_peer sample_serving) sample_events (tunnel_started sample_serving))
    as [r|] eqn:E; [|exfalso; vm_compute in E; discriminate E].
  assert (tr_watcher r = SendSignal ∧ tr_bye r = None ∧ tr_closed r = [4] ∧ tr_served r = [] ∧
    ch_buf (tr_c r) = [3] ∧ tr_held r = None) as (Hw & Hb & Hc & Hs & Hq & Hh)
    by (vm_compute in E; injection E as <-; vm_compute; by split_and!).
  destruct (@tunnel_serves _ stub_peer sample_serving r) as (_ & Hf & _ & _ & Hstop).
  { by eapply run_reachable. }
  exists r. split; [done|]. rewrite Hf, Hs, Hq, Hh. split; [done|]. split; [done|].
  destruct (PeerMap_Remove (tn_pm sample_serving) (Peer_Peer (tn_peer sample_serving))) as [[m bye]| |] eqn:Er;
    [|exfalso; vm_compute in Er; discriminate Er..].
  destruct (Hstop m bye eq_refl Hb (or_introl Hw)) as (ls & r' & _ & Hrun & Hbye & _).
  exists ls, r'. split; [done|]. rewrite Hbye. vm_compute in Er. injection Er as <- <-. done.
Defined.
