(* ===== verification/Relay.v ===== *)
(** * Relay: a visitor on one server, the client on another

    The whole path of a tunnelled connection across two servers: the gateway of
    the first ([gateway/gateway.go], [gateway/tunnel_http.go]), its session with
    the second, the stream handler there ([server/peers.go]), the session with
    the client, and the client's dispatch ([client/tunnel.go]).  Every header is
    written by one side and read by the other. *)
From S2P Require Import Prelude GoStd Link Message MuxChannel Multiplexer Mux PeerGraph PeerMap Meta Acme Server Alpn Gateway Network Client.

Open Scope Z_scope.

Section Relay.
Context `{Sessions} `{XorFilter}.
Implicit Types s : Server muxPeer.

(** A stream that takes everything written to it. *)
Definition takes_all (n : Z) : go (Z * writer) := Ok (n, λ b, (zlen b, None)).

(** What is left on a stream behind the header. *)
Definition behind (data : list Z) (r : reader) : reader :=
  if bool_decide (data = []) then r else (data, None) :: r.

(** The end [q] of a session accepts one stream, which carries the header of
    [link] and then [data]. *)
Definition carried (q : muxPeer) (stream : Z) (wire data : list Z) (r : reader) (link : Link) : Prop :=
  hands_on q stream ((wire ++ data, None) :: r) (mkLC stream link) ∧
  streamHandshake ((wire ++ data, None) :: r) = Ok (link, behind data r).

Lemma Direct_carried p q far link stream data r :
  wf_Link link →
  ∃ wire, Direct p (takes_all far) link = Ok (far, wire) ∧ carried q stream wire data r link.
Proof.
  intros Hl. destruct (Direct_arrives p q far link stream data r Hl) as (wire & Hd & Hs & Hst).
  by exists wire.
Qed.

(** The stream handler of a server that has the destination as a client. *)
Lemma relay_to_client s range open p l pk :
  PeerMap_Get (s_clients s) (Destination (lc_Link l)) = Some pk → link_ALPN (lc_Link l) ≠ alpn_Unknown →
  handlePeerStream s range open p l =
    match Bidirectional pk (open pk) (lc_Conn l) (lc_Link l) with
    | Ok (far, near, wire) => Ok (Piped near far wire)
    | Err e => Ok (CloseStream (lc_Conn l) e)
    | Panic e => Panic e
    end.
Proof.
  intros Hp Ha. unfold handlePeerStream. rewrite bool_decide_eq_false_2.
  - unfold Server_Forward. rewrite (findPath_local s range _ pk Hp). done.
  - intros Heq. apply Ha. by rewrite Heq.
Qed.

(** Both hops of a stream whose header is [link]. *)
Lemma two_hops (a b : Server muxPeer) range_a range_b pa qa qc pk link v far1 far2 stream1 stream2 data1 r1 data2 r2 :
  wf_Link link → link_ALPN link ≠ alpn_Unknown → server_inv b → range_ok range_b →
  knows_home b (s_id a) (Destination link) → PeerMap_Get (s_clients a) (Destination link) = Some pk →
  ∃ wire1 wire2,
    Server_Direct b range_b (λ _, takes_all far1) link = Ok (far1, wire1) ∧
    Server_Forward b range_b (λ _, takes_all far1) v link = Ok (far1, v, wire1) ∧
    carried qa stream1 wire1 data1 r1 link ∧
    handlePeerStream a range_a (λ _, takes_all far2) pa (mkLC stream1 link) = Ok (Piped stream1 far2 wire2) ∧
    carried qc stream2 wire2 data2 r2 link.
Proof.
  intros Hl Ha Hb Hr Hk Hpk. destruct (knows_home_path range_b b (s_id a) link Hb Hr Hk) as (p & Hf & _ & _).
  destruct (Direct_carried p qa far1 link stream1 data1 r1 Hl) as (wire1 & Hd1 & Hc1).
  destruct (Direct_carried pk qc far2 link stream2 data2 r2 Hl) as (wire2 & Hd2 & Hc2).
  exists wire1, wire2. unfold Server_Direct, Server_Forward. rewrite Hf. cbn [mbind go_bind].
  cbn [Peer_Direct Peer_Bidirectional muxPeer_MuxPeer]. rewrite Bidirectional_eq, Hd1. split_and!; try done.
  rewrite (relay_to_client a range_a _ pa (mkLC stream1 link) pk) by done.
  cbn [lc_Link lc_Conn]. by rewrite Bidirectional_eq, Hd2.
Qed.
End Relay.

(** ** Properties *)

(** C4: a visitor on one server reaches a client on another.  The client
    [name] is connected to server [a]; server [b] has a session with [a] and
    only [a]'s announcement claims the client.  Then a raw visitor of the name
    on [b]'s gateway is piped to a stream of the session with [a]; [a] reads
    the header, finds its client and pipes the stream on to a stream of the
    client's session; and the client reads the same header and pipes it to its
    TCP target, or closes it when the target is an HTTP one.  An HTTP request
    takes the same way to the client's local HTTP server.  The header names
    [b], the client and the protocol at both hops, and what follows it is left
    for the next hop untouched. *)
Theorem relayed_tunnel `{Sessions} `{XorFilter} entries (a b : Server muxPeer) g name range_a range_b
    pa qa qc pk far1 far2 stream1 stream2 data1 r1 data2 r2 :
  enumerates alpn_Map entries → u64 (s_id b) → has_char (Ascii.ascii_of_nat 46) name = false →
  server_inv b → range_ok range_b → knows_home b (s_id a) (PeerHash name) →
  PeerMap_Get (s_clients a) (PeerHash name) = Some pk →
  (∀ v, ∃ wire1 wire2, let link := mkLink (s_id b) (PeerHash name) 0 alpn_Raw in
     handleConnection entries g b range_b (λ _, takes_all far1) v
       (mkCS (name +:+ "." +:+ g_RootDomain g) (ALPN_String alpn_Raw)) = Ok (PipedTo far1 wire1) ∧
     carried qa stream1 wire1 data1 r1 link ∧
     handlePeerStream a range_a (λ _, takes_all far2) pa (mkLC stream1 link) = Ok (Piped stream1 far2 wire2) ∧
     carried qc stream2 wire2 data2 r2 link ∧
     (∀ t, tunnel_dispatch "tcp" (mkLC stream2 link) (inl t) = Ok (PipedToTarget t stream2)) ∧
     (∀ dial, tunnel_dispatch "http" (mkLC stream2 link) dial = Ok (StreamClosed stream2))) ∧
  (∀ port, ∃ wire1 wire2, let link := mkLink (s_id b) (PeerHash name) 0 alpn_HTTP in
     http_dial entries b range_b (λ _, takes_all far1) (name +:+ "." +:+ g_RootDomain g +:+ port) =
       Ok (far1, wire1) ∧
     carried qa stream1 wire1 data1 r1 link ∧
     handlePeerStream a range_a (λ _, takes_all far2) pa (mkLC stream1 link) = Ok (Piped stream1 far2 wire2) ∧
     carried qc stream2 wire2 data2 r2 link ∧
     (∀ scheme dial, scheme ∈ ["http"; "https"] →
        tunnel_dispatch scheme (mkLC stream2 link) dial = Ok (ToForwarder stream2)) ∧
     (∀ dial, tunnel_dispatch "tcp" (mkLC stream2 link) dial = Ok (StreamClosed stream2))).
Proof.
  intros He Hid Hdot Hb Hr Hk Hpk.
  assert (∀ proto, u8 proto → wf_Link (mkLink (s_id b) (PeerHash name) 0 proto)) as Hwf
    by (intros proto Hp; split_and!; [done|apply fnv64a_u64|done|done]).
  split.
  - intros v. destruct (two_hops a b range_a range_b pa qa qc pk (mkLink (s_id b) (PeerHash name) 0 alpn_Raw)
      v far1 far2 stream1 stream2 data1 r1 data2 r2 (Hwf alpn_Raw ltac:(done)) ltac:(done) Hb Hr Hk Hpk)
      as (w1 & w2 & _ & Hf & Hc1 & Hh & Hc2).
    exists w1, w2. cbn zeta. split_and!; try done.
    by rewrite handleConnection_raw, Hf by done.
  - intros port. destruct (two_hops a b range_a range_b pa qa qc pk (mkLink (s_id b) (PeerHash name) 0 alpn_HTTP)
      0 far1 far2 stream1 stream2 data1 r1 data2 r2 (Hwf alpn_HTTP ltac:(done)) ltac:(done) Hb Hr Hk Hpk)
      as (w1 & w2 & Hd & _ & Hc1 & Hh & Hc2).
    exists w1, w2. cbn zeta. split_and!; try done.
    + by rewrite http_dial_under, Hd by done.
    + intros scheme dial [->|[->|[]%not_elem_of_nil]%elem_of_cons]%elem_of_cons; done.
Qed.

(** Server 43, with a session to 42 and its announcement of one client. *)
Definition relay_peer : muxPeer :=
  mkPeer KMplex 1 (mkConfig true None 42 true 0) NewChannel (make_chan 0) 0 false false.
Definition relay_server (c : ConnectedClients) : Server muxPeer :=
  mkServer 43 zero_Meta [] "" false "" (mkPM 43 {[42 := relay_peer]} 1 []) (NewPeerMap 43)
    (mkPG {[42 := c]}) (make_chan 16) None 0 0 sample_cm.

Lemma relay_server_ready k :
  ∃ c, server_inv (relay_server c) ∧ @knows_home _ exact_filter (relay_server c) 42 k.
Proof.
  assert (∃ f, @PopulateBinaryFuse8 exact_filter [k] = Ok f) as [f Hp] by (eexists; reflexivity).
  pose proof (λ x, Populate_contains [k] f x Hp) as Hf.
  exists (mkCC 42 (clients_crc 0 [k]) (Some f)). generalize (clients_crc 0 [k]) as crc. intros crc. split.
  - split; try done.
    + by apply map_Forall_singleton.
    + apply map_Forall_singleton. split; [done|by eexists].
  - split_and!; [done| | |by eexists].
    + eexists. split; [apply lookup_singleton_eq|]. unfold ConnectedClients_Has. cbn. f_equal.
      apply (Hf k). by apply list_elem_of_singleton.
    + intros id c Hid Hne. cbn in Hid. by rewrite lookup_singleton_ne in Hid.
Qed.

Lemma relayed_tunnel_witness :
  ∃ s' reply c wire1, sample_negotiation = Ok (s', reply) ∧
    @handleConnection _ _ exact_filter (map_to_list alpn_Map) (gateway_New "tunnel.example.com" 443)
      (relay_server c) map_to_list (λ _, takes_all 9) 4
      (mkCS "correct-horse.tunnel.example.com" (ALPN_String alpn_Raw)) = Ok (PipedTo 9 wire1) ∧
    tunnel_dispatch "tcp" (mkLC 3 (mkLink 43 (PeerHash "correct-horse") 0 alpn_Raw)) (inl 6) =
      Ok (PipedToTarget 6 3).
Proof.
  assert (∃ s' reply pk, sample_negotiation = Ok (s', reply) ∧ s_id s' = 42 ∧
    PeerMap_Get (s_clients s') (PeerHash "correct-horse") = Some pk) as (s' & reply & pk & E & Hid & Hpk)
    by (do 3 eexists; vm_compute; by split_and!).
  destruct (relay_server_ready (PeerHash "correct-horse")) as (c & Hinv & Hk). rewrite <-Hid in Hk.
  destruct (@relayed_tunnel sample_sessions exact_filter (map_to_list alpn_Map) s' (relay_server c)
    (gateway_New "tunnel.example.com" 443) "correct-horse" map_to_list map_to_list relay_peer relay_peer
    relay_peer pk 9 8 5 3 [] [] [] [] (enumerates_self _) ltac:(clear; done) eq_refl Hinv
    ltac:(intros m; apply enumerates_self) Hk Hpk) as [Hraw _].
  destruct (Hraw 4) as (wire1 & wire2 & H1 & _ & _ & _ & H2 & _).
  exists s', reply, c, wire1. split; [exact E|]. split; [exact H1|exact (H2 6)].
Defined.
