(* ===== verification/Startup.v ===== *)
(** * Startup: the server program put together

    [cmd/server/config.go] and [cmd/server/main.go], with the start of gossip
    ([server/gossip.go]) and of the listeners ([server/server.go]).  [main] is a
    sequence of calls that end the process on an error; what the libraries and
    the operating system answer is the record [MainEnv].  The terminal, the
    metrics and the signal handling are left out. *)
From S2P Require Import Prelude GoStd Link Message MuxChannel Multiplexer Mux PeerGraph PeerMap Meta Acme Server Gossip Alpn Gateway Provider Client.

Open Scope Z_scope.

(** ** Settings *)
Record MultiplexerConfig := mkMultiplexerConfig {
  mc_Peer : Z;
  mc_Protocol : Protocol;
  mc_RespondOnly : bool;
}.
Record GossipConfig := mkGossipConfig {
  gc_Port : Z;
  gc_Keyring : list string;
  gc_Members : list string;
}.
Record NetworkConfig := mkNetworkConfig {
  nc_AdvertiseAddr : string;
  nc_BindAddr : string;
}.
Record TLSConfig := mkTLSConfig {
  Peer_CA : string;
  Peer_Cert : string;
  Peer_Key : string;
}.

Record ConfigBundle := mkConfigBundle {
  cb_Sentry : string;
  cb_Network : NetworkConfig;
  cb_TLS : TLSConfig;
  cb_Web_Domain : string;
  cb_Multiplexer : MultiplexerConfig;
  cb_Gossip : GossipConfig;
  cb_ACME : AcmeConfig;
  cb_RFC2136 : RFC2136Config;
}.

(** [getConfig]: [loaded] is the bundle after the [MapStruct] calls, or the
    error of loading the file. *)
Definition getConfig (loaded : ConfigBundle + error) : go ConfigBundle :=
  match loaded with
  | inr e => Err (Wrapf "loading config file" e)
  | inl b =>
      let acme := mkAcmeConfig (Contact (cb_ACME b)) (Zone (cb_RFC2136 b)) ("*." +:+ cb_Web_Domain b) in
      let m := cb_Multiplexer b in
      let proto := if mc_Protocol m =? protocol_Unknown then QUIC else mc_Protocol m in
      Ok (mkConfigBundle (cb_Sentry b) (cb_Network b) (cb_TLS b) (cb_Web_Domain b)
            (mkMultiplexerConfig (mc_Peer m) proto (mc_RespondOnly m)) (cb_Gossip b) acme
            (cb_RFC2136 b))
  end.

(** The command line. *)
Record Flags := mkFlags {
  fl_gatewayPort : Z;
  fl_profile : string;
  fl_configPath : string;
  fl_peerPort : Z;
  fl_gossipPort : Z;
  fl_debug : bool;
}.
Definition defaultPeerPort : Z := 1111.
Definition defaultGossipPort : Z := 12345.
Definition default_Flags : Flags := mkFlags 443 "127.0.0.1:9090" "config.yaml" defaultPeerPort defaultGossipPort false.

(** The flags that override the file. *)
Definition override (flags : Flags) (b : ConfigBundle) : ConfigBundle :=
  let m := cb_Multiplexer b in
  let m := if negb (fl_peerPort flags =? defaultPeerPort)
           then mkMultiplexerConfig (fl_peerPort flags) (mc_Protocol m) (mc_RespondOnly m) else m in
  let g := cb_Gossip b in
  let g := if negb (fl_gossipPort flags =? defaultGossipPort)
           then mkGossipConfig (fl_gossipPort flags) (gc_Keyring g) (gc_Members g) else g in
  mkConfigBundle (cb_Sentry b) (cb_Network b) (cb_TLS b) (cb_Web_Domain b) m g (cb_ACME b) (cb_RFC2136 b).

Definition with_peer_port (port : Z) (b : ConfigBundle) : ConfigBundle :=
  let m := cb_Multiplexer b in
  mkConfigBundle (cb_Sentry b) (cb_Network b) (cb_TLS b) (cb_Web_Domain b)
    (mkMultiplexerConfig port (mc_Protocol m) (mc_RespondOnly m)) (cb_Gossip b) (cb_ACME b) (cb_RFC2136 b).

(** ** TLS *)

(** The parts of a [tls.Config] that decide who gets in; [V] is what the
    [VerifyConnection] function looks at. *)
Record tls_config (V : Type) := mkTLS {
  tc_RequireClientCert : bool;
  tc_NextProtos : list string;
  tc_VerifyConnection : V → go unit;
}.
Arguments mkTLS {_} _ _ _.
Arguments tc_RequireClientCert {_} _.
Arguments tc_NextProtos {_} _.
Arguments tc_VerifyConnection {_} _.

Definition peerTLSConfig : tls_config (list (list string)) :=
  mkTLS true [ALPN_String alpn_Multiplexer] (checkPeerSAN "t_Peer").

(** [entries] is the order in which [alpn.Map] was visited. *)
Definition gatewayTLSConfig (entries : list (Z * string)) (domain : string)
    : tls_config ConnectionState :=
  mkTLS false (alpn_Protos entries) (checkClientSNI domain).

(** ** [main] *)

(** What the outside answers.  Listening gives the port bound. *)
Record MainEnv := mkMainEnv {
  me_config : string → ConfigBundle + error;       (* by the path of the file *)
  me_sentry_Init : option error;
  me_zap_New : option error;
  me_zapsentry_NewCore : option error;
  me_RedirectStdLogAt : option error;
  me_LoadX509KeyPair : string → string → option error;
  me_acme_NewClient : option error;
  me_accounts_json : json_file AccountFile;
  me_bundle_json : json_file Bundle;
  me_CA : CA;
  me_ReadFile : string → list Z + error;
  me_AppendCertsFromPEM : list Z → bool;
  me_ListenPacket : string → Z + error;
  me_quic_Listen : string → option error;
  me_Listen : string → Z + error;
  me_Uint64 : Z;
  me_DecodeString : string → list Z + error;
  me_NewKeyring : list (list Z) → option error;
  me_template_content : option error;
  me_template_index : option error;
  me_memberlist_Create : option error;
}.

(** What runs when [main] waits for a signal. *)
Record program (P : Type) := mkProgram {
  pg_bundle : ConfigBundle;
  pg_provider : RFC2136;
  pg_gatewayTLS : tls_config ConnectionState;
  pg_peerAddr : string;
  pg_gatewayAddr : string;
  pg_peerUDP : Z;                (* the ports bound *)
  pg_peerTCP : Z;
  pg_gatewayTCP : Z;
  pg_alpn : ALPNMux;
  pg_clientListener : nat;
  pg_gatewayListener : nat;
  pg_server : Server P;
  pg_gateway : Gateway;
  pg_redirect : option string;
}.
Arguments mkProgram {_} _ _ _ _ _ _ _ _ _ _ _ _ _ _.
Arguments pg_bundle {_} _.
Arguments pg_provider {_} _.
Arguments pg_gatewayTLS {_} _.
Arguments pg_peerAddr {_} _.
Arguments pg_gatewayAddr {_} _.
Arguments pg_peerUDP {_} _.
Arguments pg_peerTCP {_} _.
Arguments pg_gatewayTCP {_} _.
Arguments pg_alpn {_} _.
Arguments pg_clientListener {_} _.
Arguments pg_gatewayListener {_} _.
Arguments pg_server {_} _.
Arguments pg_gateway {_} _.
Arguments pg_redirect {_} _.

(** An error ends the process. *)
Definition check_err (msg : string) (e : option error) : go unit :=
  match e with None => Ok tt | Some _ => fatal msg end.
Definition must {A} (msg : string) (r : go A) : go A :=
  match r with Err _ => fatal msg | _ => r end.
(** An error is dropped. *)
Definition dropping {A B} (r : B * go A) : go B :=
  match r.2 with Panic p => Panic p | _ => Ok r.1 end.

(** The address of a listener. *)
Definition host_port (host : string) (port : Z) : string := host +:+ ":" +:+ itoa port.

(** The domain given to the server: with the port unless it is the default. *)
Definition main_domain (web : string) (gatewayPort : Z) : string :=
  if negb (gatewayPort =? 443) then host_port web gatewayPort else web.

Section Main.
Context {P : Type} `{MuxPeer P} `{Crypto} `{Dns}.

(** [gateway.New] can only fail on its templates. *)
Definition new_gateway (md idx : option error) (rootDomain : string) (port : Z) : go Gateway :=
  match md, idx with
  | Some e, _ => Err (Wrapf "reading markdown for apex template" e)
  | None, Some e => Err (Wrapf "reading index for apex template" e)
  | None, None => Ok (gateway_New rootDomain port)
  end.

(** [Server.Gossip]: failing to join is only logged. *)
Definition Server_Gossip (create : option error) : go unit :=
  match create with Some e => Err e | None => Ok tt end.

(** A handshake goroutine started by a listener. *)
Inductive handshake_task :=
| PeerTLSTask (conn : Z)
| PeerQUICTask (sess : Z)
| ClientTLSTask (conn : Z)
| ClientQUICTask (sess : Z).

(** [ListenForPeers] asks for an election once its goroutines run; the
    arguments are what the two listeners accept from then on. *)
Definition ListenForPeers (s : Server P) (tls quic : list (Z + error))
    : Server P * list handshake_task :=
  (send_membership s, (PeerTLSTask <$> accept_each tls) ++ (PeerQUICTask <$> accept_each quic)).

Definition ListenForClients (tls quic : list (Z + error)) : list handshake_task :=
  (ClientTLSTask <$> accept_each tls) ++ (ClientQUICTask <$> accept_each quic).

(** The manager with what its data directory holds. *)
Definition load_certs (env : MainEnv) (conf : AcmeConfig) : go CertManager :=
  cm ← must "setting up cert manager"
    (acme_New conf (me_accounts_json env) (me_bundle_json env) (me_acme_NewClient env));
  cm ← dropping (LoadAccountFromFile (me_CA env) cm);
  dropping (LoadBundleFromFile (me_CA env) cm).

(** The listeners: the ports of the peers' UDP and TCP sockets and of the
    gateway's TCP socket. *)
Definition listen (env : MainEnv) (peerAddr gatewayAddr : string) : go (Z * Z * Z) :=
  qp ← or_fatal "setting up for peer quic connection" (me_ListenPacket env peerAddr);
  _ ← check_err "listening for peer quic connection" (me_quic_Listen env peerAddr);
  _ ← or_fatal "setting up for client quic connection" (me_ListenPacket env gatewayAddr);
  _ ← check_err "listening for client quic connection" (me_quic_Listen env gatewayAddr);
  p ← or_fatal "listening for peer tls connection" (me_Listen env peerAddr);
  g ← or_fatal "listening for gateway connection" (me_Listen env gatewayAddr);
  Ok (qp, p, g).

Definition server_config (flags : Flags) (b : ConfigBundle) (cm : CertManager) : ServerConfig :=
  mkServerConfig true true true true true true true (Some cm)
    (main_domain (cb_Web_Domain b) (fl_gatewayPort flags)) (nc_AdvertiseAddr (cb_Network b))
    (mc_Peer (cb_Multiplexer b)) (mc_Protocol (cb_Multiplexer b)) (mc_RespondOnly (cb_Multiplexer b))
    (gc_Keyring (cb_Gossip b)) (fl_debug flags).

Definition main (entries : list (Z * string)) (flags : Flags) (env : MainEnv) : go (program P) :=
  bundle ← must "loading config file" (getConfig (me_config env (fl_configPath flags)));
  let bundle := override flags bundle in
  _ ← check_err "initializing sentry" (me_sentry_Init env);
  _ ← check_err "initializing zap logger" (me_zap_New env);
  _ ← check_err "initializing zap core" (me_zapsentry_NewCore env);
  _ ← check_err "redirecting std log" (me_RedirectStdLogAt env);
  _ ← check_err "loading peer certificates"
    (me_LoadX509KeyPair env (Peer_Cert (cb_TLS bundle)) (Peer_Key (cb_TLS bundle)));
  rfc2136 ← must "setting up rfc2136 provider" (NewRFC2136Provider (cb_RFC2136 bundle));
  certManager ← load_certs env (cb_ACME bundle);
  caCert ← or_fatal "reading CA bundle" (me_ReadFile env (Peer_CA (cb_TLS bundle)));
  if negb (me_AppendCertsFromPEM env caCert) then fatal "unable to use the provided CA bundle" else
  let gatewayTLS := gatewayTLSConfig entries (cb_Web_Domain bundle) in
  let peerAddr := host_port (nc_BindAddr (cb_Network bundle)) (mc_Peer (cb_Multiplexer bundle)) in
  let gatewayAddr := host_port (nc_BindAddr (cb_Network bundle)) (fl_gatewayPort flags) in
  '(peerUDP, peerTCP, gatewayTCP) ← listen env peerAddr gatewayAddr;
  let '(alpnMux, clientListener, gatewayListener) := server_mux in
  let random := mc_Peer (cb_Multiplexer bundle) =? 0 in
  let peerAddr := if random then host_port (nc_BindAddr (cb_Network bundle)) peerTCP else peerAddr in
  let bundle := if random then with_peer_port peerTCP bundle else bundle in
  s ← must "setting up multiplexer server"
    (server_New (server_config flags bundle certManager) (me_Uint64 env)
       (me_DecodeString env) (me_NewKeyring env));
  gw ← must "setting up gateway server"
    (new_gateway (me_template_content env) (me_template_index env) (cb_Web_Domain bundle) (fl_gatewayPort flags));
  _ ← must "starting gossip" (Server_Gossip (me_memberlist_Create env));
  Ok (mkProgram bundle rfc2136 gatewayTLS peerAddr gatewayAddr peerUDP peerTCP gatewayTCP
        alpnMux clientListener gatewayListener (ListenForPeers s [] []).1 gw
        (RedirectHTTP (nc_BindAddr (cb_Network bundle)) (fl_gatewayPort flags))).
End Main.

(** ** Lemmas *)

Lemma must_Ok {A} msg (r : go A) a : must msg r = Ok a ↔ r = Ok a.
Proof. destruct r; cbn; naive_solver. Qed.

Lemma must_no_err {A} msg (r : go A) : is_err (must msg r) = false.
Proof. by destruct r. Qed.

Lemma dropping_Ok {A B} (r : B * go A) b : dropping r = Ok b → r.1 = b.
Proof. unfold dropping. case_match; naive_solver. Qed.

Section MainOk.
Context {P : Type} `{MuxPeer P} `{Crypto} `{Dns}.

Lemma load_certs_inv env conf cm :
  load_certs env conf = Ok cm → cm_inv cm ∧ config cm = conf.
Proof.
  unfold load_certs. intros (c0 & E0%must_Ok & (c1 & E1 & E2%dropping_Ok)%go_bind_Ok)%go_bind_Ok.
  apply dropping_Ok in E1. subst. pose proof (acme_New_inv _ _ _ _ _ E0) as Hi.
  assert (config c0 = conf) as <-.
  { unfold acme_New in E0. case_match; [done|]. case_match; [done|]. by simplify_eq. }
  assert (rtc assign c0 (LoadBundleFromFile (me_CA env) (LoadAccountFromFile (me_CA env) c0).1).1) as Hs.
  { etrans; [apply LoadAccountFromFile_assigns|apply LoadBundleFromFile_assigns]. }
  split; [by eapply assigns_inv|by apply assigns_config].
Qed.

(** What is known of a program that runs. *)
Lemma main_Ok entries flags env (pr : program P) :
  main entries flags env = Ok pr →
  ∃ b0 b1 cm s0,
    getConfig (me_config env (fl_configPath flags)) = Ok b0 ∧ b1 = override flags b0 ∧
    pg_bundle pr = (if mc_Peer (cb_Multiplexer b1) =? 0 then with_peer_port (pg_peerTCP pr) b1 else b1) ∧
    NewRFC2136Provider (cb_RFC2136 b1) = Ok (pg_provider pr) ∧
    load_certs env (cb_ACME b1) = Ok cm ∧
    pg_gatewayTLS pr = gatewayTLSConfig entries (cb_Web_Domain b1) ∧
    me_ListenPacket env (host_port (nc_BindAddr (cb_Network b1)) (mc_Peer (cb_Multiplexer b1))) =
      inl (pg_peerUDP pr) ∧
    me_Listen env (host_port (nc_BindAddr (cb_Network b1)) (mc_Peer (cb_Multiplexer b1))) =
      inl (pg_peerTCP pr) ∧
    (pg_alpn pr, pg_clientListener pr, pg_gatewayListener pr) = server_mux ∧
    server_New (server_config flags (pg_bundle pr) cm) (me_Uint64 env) (me_DecodeString env)
      (me_NewKeyring env) = Ok s0 ∧
    pg_server pr = send_membership s0 ∧
    pg_gateway pr = gateway_New (cb_Web_Domain b1) (fl_gatewayPort flags) ∧
    pg_gatewayAddr pr = host_port (nc_BindAddr (cb_Network b1)) (fl_gatewayPort flags).
Proof.
  unfold main. intros Hm.
  apply go_bind_Ok in Hm as (b0 & Hb%must_Ok & Hm).
  do 5 apply go_bind_Ok in Hm as ([] & _ & Hm).
  apply go_bind_Ok in Hm as (prov & Hprov%must_Ok & Hm).
  apply go_bind_Ok in Hm as (cm & Hcm & Hm).
  apply go_bind_Ok in Hm as (ca & _ & Hm). case_match; [done|].
  apply go_bind_Ok in Hm as ([[udp tcp] gtcp] & Hl & Hm).
  destruct server_mux as [[a client] gateway] eqn:Em.
  apply go_bind_Ok in Hm as (s & Hs%must_Ok & Hm).
  apply go_bind_Ok in Hm as (gw & Hgw%must_Ok & Hm).
  apply go_bind_Ok in Hm as ([] & _ & [= <-]).
  unfold listen in Hl. apply go_bind_Ok in Hl as (udp' & Hudp%or_fatal_Ok & Hl).
  do 3 apply go_bind_Ok in Hl as (? & _ & Hl).
  apply go_bind_Ok in Hl as (tcp' & Htcp%or_fatal_Ok & Hl).
  apply go_bind_Ok in Hl as (gtcp' & _ & [= <- <- <-]).
  assert (gw = gateway_New (cb_Web_Domain (override flags b0)) (fl_gatewayPort flags)) as ->.
  { unfold new_gateway in Hgw. destruct (me_template_content env), (me_template_index env); [done..|].
    destruct (mc_Peer _ =? 0); by injection Hgw as <-. }
  exists b0, (override flags b0), cm, s. cbn [pg_bundle pg_provider pg_gatewayTLS pg_peerAddr
    pg_gatewayAddr pg_peerUDP pg_peerTCP pg_alpn pg_clientListener pg_gatewayListener pg_server pg_gateway].
  by split_and!.
Qed.

(** The settings that [main] hands on unchanged. *)
Lemma getConfig_Ok loaded b :
  getConfig loaded = Ok b →
  cb_ACME b = mkAcmeConfig (Contact (cb_ACME b)) (Zone (cb_RFC2136 b)) ("*." +:+ cb_Web_Domain b) ∧
  mc_Protocol (cb_Multiplexer b) ≠ protocol_Unknown.
Proof.
  unfold getConfig. destruct loaded as [b0|]; [|done]. intros [= <-]. cbn. split; [done|].
  by destruct (Z.eqb_spec (mc_Protocol (cb_Multiplexer b0)) protocol_Unknown).
Qed.

Lemma override_keeps flags b :
  cb_ACME (override flags b) = cb_ACME b ∧ cb_RFC2136 (override flags b) = cb_RFC2136 b ∧
  cb_Web_Domain (override flags b) = cb_Web_Domain b ∧
  mc_Protocol (cb_Multiplexer (override flags b)) = mc_Protocol (cb_Multiplexer b).
Proof. unfold override. cbn. by case_match. Qed.
End MainOk.

(** The certificate name [pattern] is valid for [host] (RFC 6125: a wildcard
    stands for one whole label). *)
Definition cert_covers (pattern host : string) : Prop :=
  pattern = host ∨
  ∃ label d, pattern = "*." +:+ d ∧ host = label +:+ "." +:+ d ∧
    label ≠ "" ∧ has_char (Ascii.ascii_of_nat 46) label = false.

(** ** Properties *)

(** C8: the server that [main] starts.  In every state that any interleaving of
    its goroutines can bring it to, its invariant holds, its identifier is the
    one chosen at the start, and each session counter is the number of sessions
    in its map and of those that a racing [Store] replaced there, up to what
    calls in progress still owe it.  Its certificate manager is
    consistent and requests certificates for the configured domain; it
    describes itself with the identifier it uses, a known protocol and the port
    the peers' TCP listener is bound to, be it the configured one or the one
    the system chose when that is 0, given that listening on a port that is not
    0 binds that port; it has no sessions; and one election is due. *)
Theorem main_starts_server {P} `{MuxPeer P} `{XorFilter} `{Crypto} `{Json} `{Dns}
    (reg : gmap Z (Constructor P)) entries flags env (pr : program P) :
  ConstructorsOk reg → main entries flags env = Ok pr →
  (∀ port p, port ≠ 0 →
     me_Listen env (host_port (nc_BindAddr (cb_Network (pg_bundle pr))) port) = inl p → p = port) →
  (∀ s bg, reachable (server_step reg) (pg_server pr, idle) (s, bg) →
     server_inv s ∧ s_id s = me_Uint64 env ∧
     counted (s_peers s) (bg_lost_peers bg) (sum_owed owed_peers (bg_routines bg)) ∧
     counted (s_clients s) (bg_lost_clients bg) (sum_owed owed_clients (bg_routines bg))) ∧
  cm_inv (s_certManager (pg_server pr)) ∧
  config (s_certManager (pg_server pr)) = cb_ACME (pg_bundle pr) ∧
  self_described (pg_server pr) ∧ meta_Protocol (s_meta (pg_server pr)) ≠ protocol_Unknown ∧
  mc_Peer (cb_Multiplexer (pg_bundle pr)) = pg_peerTCP pr ∧
  ConnectPort (s_meta (pg_server pr)) = uint64_of_int (pg_peerTCP pr) ∧
  pm_peers (s_peers (pg_server pr)) = ∅ ∧ pm_peers (s_clients (pg_server pr)) = ∅ ∧
  s_membershipCh (pg_server pr) = 1%nat.
Proof.
  intros Hok (b0 & b1 & cm & s0 & Hb0 & Hb1 & Hb & _ & Hcm & _ & _ & Htcp & _ & Hs & Hps & _)%main_Ok Hbind.
  destruct (server_New_inv _ _ _ _ _ Hs) as [Hinv Hid].
  apply server_New_Ok in Hs as (cm' & mb & Hv & Hmeta & Hs).
  assert (cm' = cm) as ->.
  { unfold Config_validate in Hv. cbn in Hv. case_bool_decide; congruence. }
  destruct (getConfig_Ok _ _ Hb0) as [_ Hproto]. destruct (override_keeps flags b0) as (_ & _ & _ & Hop).
  rewrite <-Hb1 in Hop.
  destruct (load_certs_inv _ _ _ Hcm) as [Hci Hcc].
  assert (cb_ACME (pg_bundle pr) = cb_ACME b1) as Hacme by (rewrite Hb; by case_match).
  assert (mc_Protocol (cb_Multiplexer (pg_bundle pr)) = mc_Protocol (cb_Multiplexer b1)) as Hpp
    by (rewrite Hb; by case_match).
  assert (mc_Peer (cb_Multiplexer (pg_bundle pr)) = pg_peerTCP pr) as Hport.
  { assert (cb_Network (pg_bundle pr) = cb_Network b1) as Hnet by (rewrite Hb; by case_match).
    rewrite Hnet in Hbind. rewrite Hb.
    destruct (Z.eqb_spec (mc_Peer (cb_Multiplexer b1)) 0) as [|Hne]; [done|]. symmetry. by apply Hbind. }
  rewrite Hps. split.
  { intros s bg Hr. destruct (server_reachable_inv reg _ _ (send_membership_inv _ Hinv) Hr)
      as (Hsi & Hsid & _). split; [done|]. split; [rewrite <-Hid; exact Hsid|].
    apply (server_reachable_counted reg (send_membership s0) (s, bg)); [by rewrite Hs..|done]. }
  rewrite Hs. cbn. split_and!; try done; [congruence|congruence|].
  unfold server_config. cbn. by rewrite <-Hport.
Qed.

(** C7: the host names handed out lead back to this server's tunnels.  For every
    generated name without dots: the address shown to the client is that name
    under the web domain, with the gateway's port unless it is 443.  A
    connection with that server name passes the TLS check and is queued for the
    gateway whichever of the visitors' protocols it negotiated.  There, with any server
    state: a raw one is forwarded on a link to the client of that name; any
    other is queued for the reverse proxy while its queue of 1024 has room, the
    proxy asks for the same host, and its dialer opens a stream on a link to
    that client; and when the client is connected to the server, both links go
    to its own session.  The web domain itself leads to the apex site; a client
    asking [/where] is told to dial the web domain at the port the gateway listens
    on, and is queued for the multiplexer when it negotiated that protocol. *)
Theorem names_lead_back {P} `{MuxPeer P} `{XorFilter} `{Crypto} `{Dns} entries flags env
    (pr : program P) name conn :
  main entries flags env = Ok pr → has_char (Ascii.ascii_of_nat 46) name = false →
  enumerates alpn_Map entries →
  let web := cb_Web_Domain (pg_bundle pr) in
  let host := name +:+ "." +:+ web in
  let port := if negb (fl_gatewayPort flags =? 443) then ":" +:+ itoa (fl_gatewayPort flags) else "" in
  name +:+ "." +:+ s_Domain (pg_server pr) = host +:+ port ∧
  (∀ proto, proto ∈ [ALPN_String alpn_Raw; ALPN_String alpn_HTTP; ALPN_String alpn_Unknown] →
     tc_VerifyConnection (pg_gatewayTLS pr) (mkCS host proto) = Ok tt ∧
     ∃ a, ALPN_handshake (pg_alpn pr) conn true (mkCS host proto) = Queued a (pg_gatewayListener pr)) ∧
  (g_RootDomain (pg_gateway pr) = web ∧ g_http (pg_gateway pr) = make_chan 1024) ∧
  (∀ (s : Server P) range open g, g_RootDomain g = web →
     let link := mkLink (s_id s) (PeerHash name) 0 in
     handleConnection entries g s range open conn (mkCS host (ALPN_String alpn_Raw)) =
       match Server_Forward s range open conn (link alpn_Raw) with
       | Ok (far, _, wire) => Ok (PipedTo far wire)
       | Err e => Ok (CloseConn (Some e))
       | Panic p => Panic p
       end ∧
     (∀ proto, proto ∈ [ALPN_String alpn_HTTP; ALPN_String alpn_Unknown] →
        ch_closed (g_http g) = false → (length (ch_buf (g_http g)) < ch_cap (g_http g))%nat →
        (∃ g', handleConnection entries g s range open conn (mkCS host proto) = Ok (ToHTTP g') ∧
           ch_buf (g_http g') = ch_buf (g_http g) ++ [conn]) ∧
        px_Host (Director (mkCS host proto)) = host) ∧
     (∀ suffix, http_dial entries s range open (host +:+ suffix) = Server_Direct s range open (link alpn_HTTP)) ∧
     (∀ p, PeerMap_Get (s_clients s) (PeerHash name) = Some p →
        Server_Forward s range open conn (link alpn_Raw) = Peer_Bidirectional p (open p) conn (link alpn_Raw) ∧
        Server_Direct s range open (link alpn_HTTP) = Peer_Direct p (open p) (link alpn_HTTP))) ∧
  (∀ proto, tc_VerifyConnection (pg_gatewayTLS pr) (mkCS web proto) = Ok tt) ∧
  (∃ a, ALPN_handshake (pg_alpn pr) conn true (mkCS web (ALPN_String alpn_Multiplexer)) =
          Queued a (pg_clientListener pr)) ∧
  (∃ g, ∀ s range open proto,
     handleConnection entries (pg_gateway pr) (s : Server P) range open conn (mkCS web proto) = Ok (ToApex g)) ∧
  (∀ tenv where_, te_Get tenv ("https://" +:+ where_ +:+ "/where") =
       inl (200, inl (handleLookup (pg_gateway pr))) →
     discover tenv where_ = Ok (host_port web (fl_gatewayPort flags))) ∧
  pg_gatewayAddr pr = host_port (nc_BindAddr (cb_Network (pg_bundle pr))) (fl_gatewayPort flags).
Proof.
  intros (b0 & b1 & cm & s0 & _ & _ & Hb & _ & _ & Htls & _ & _ & Hmux & Hs & Hps & Hgw & Hga)%main_Ok
    Hdot He web host port.
  assert (cb_Web_Domain b1 = web) as Hweb by (unfold web; rewrite Hb; by case_match).
  assert (cb_Network (pg_bundle pr) = cb_Network b1) as Hnet by (rewrite Hb; by case_match).
  assert (pg_alpn pr = server_mux.1.1 ∧ pg_clientListener pr = server_mux.1.2 ∧
    pg_gatewayListener pr = server_mux.2) as (Ha & Hcl & Hgl) by (by rewrite <-Hmux).
  apply server_New_Ok in Hs as (cm' & mb & _ & _ & Hs).
  rewrite Hweb in *. rewrite Htls, Ha, Hcl, Hgl, Hga, Hnet, Hgw. split_and!; try done.
  - rewrite Hps, Hs. cbn. fold web. unfold main_domain, host_port, host, port.
    destruct (fl_gatewayPort flags =? 443); cbn; by rewrite ?str_app_nil_r, ?str_app_assoc.
  - intros proto Hin. split.
    + cbn [gatewayTLSConfig tc_VerifyConnection]. unfold checkClientSNI, host. cbn [ServerName].
      by rewrite <-str_app_assoc, HasSuffix_app.
    + revert Hin. rewrite !elem_of_cons. intros [Hp|[Hp|[Hp|[]%not_elem_of_nil]]]; rewrite Hp;
        eexists; vm_compute; reflexivity.
  - intros s range open g Hg link. unfold host. rewrite <-Hg. split_and!.
    + by apply handleConnection_raw.
    + intros proto Hp Hc Hroom. split; [|done]. eexists. split; [by apply handleConnection_http|done].
    + intros suffix. rewrite <-!str_app_assoc, (str_app_assoc name), str_app_assoc. by apply http_dial_under.
    + intros p Hp. unfold Server_Forward, Server_Direct.
      by rewrite !(findPath_local s range _ p) by done.
  - intros proto. cbn. unfold checkClientSNI. cbn.
    pose proof (HasSuffix_app "" web) as Hsuf. cbn in Hsuf. by rewrite Hsuf.
  - eexists. vm_compute. reflexivity.
  - eexists. intros s range open proto. by rewrite handleConnection_root.
  - intros tenv where_ Hg. apply discover_Ok. by eexists _, _.
Qed.

(** A configuration of a server at 10.0.200.7, and an environment that agrees
    to everything. *)
Definition sample_bundle (peer : Z) : ConfigBundle :=
  mkConfigBundle "" (mkNetworkConfig "10.0.200.7" "0.0.0.0") (mkTLSConfig "ca" "cert" "key")
    "tunnel.example.com" (mkMultiplexerConfig peer protocol_Unknown false)
    (mkGossipConfig 12345 ["a2V5"] []) (mkAcmeConfig "ops@example.com" "" "") sample_rfc2136.
Definition sample_Listen (peer tcp : Z) (addr : string) : Z + error :=
  if bool_decide (addr = host_port "0.0.0.0" 443) then inl 443 else
  if bool_decide (addr = host_port "0.0.0.0" 8443) then inl 8443 else
  if bool_decide (addr = host_port "0.0.0.0" peer) then inl tcp else inr (Foreign 9).
Definition sample_env (peer udp tcp : Z) : MainEnv :=
  mkMainEnv (λ _, inl (sample_bundle peer)) None None None None (λ _ _, None) None NoFile NoFile
    (sample_ca 5) (λ _, inl []) (λ _, true) (λ _, inl udp) (λ _, None) (sample_Listen peer tcp) 42
    (λ _, inl [107; 101; 121]) (λ _, None) None None None.
Definition sample_main (flags : Flags) (env : MainEnv) : go (program muxPeer) :=
  @main _ sample_crypto sample_dns (map_to_list alpn_Map) flags env.

Lemma host_port_inj host p q : host_port host p = host_port host q → p = q.
Proof. unfold host_port. by intros ?%(inj (String.append host))%(inj (String.append ":"))%(inj itoa). Qed.

Lemma sample_Listen_binds peer port p :
  port ≠ 0 → sample_Listen peer peer (host_port "0.0.0.0" port) = inl p → p = port.
Proof.
  intros _. unfold sample_Listen. repeat case_bool_decide; intros [= <-];
    by match goal with E : host_port _ _ = host_port _ _ |- _ => apply host_port_inj in E end.
Qed.

Lemma main_starts_server_witness :
  ∃ pr, sample_main default_Flags (sample_env 1111 1111 1111) = Ok pr ∧
    ConnectPort (s_meta (pg_server pr)) = uint64_of_int (pg_peerTCP pr) ∧ server_inv (pg_server pr).
Proof.
  assert (is_ok (sample_main default_Flags (sample_env 1111 1111 1111)) = true) as Hok
    by (vm_compute; reflexivity).
  destruct (sample_main default_Flags (sample_env 1111 1111 1111)) as [pr| |] eqn:E; [|discriminate Hok..].
  exists pr. split; [reflexivity|].
  assert (nc_BindAddr (cb_Network (pg_bundle pr)) = "0.0.0.0") as Hbind.
  { clear -E. vm_compute in E. injection E as <-. reflexivity. }
  destruct (@main_starts_server _ _ exact_filter sample_crypto (sample_json (mkSync 0 None None)) sample_dns
    (@protocolRegistry sample_sessions) (map_to_list alpn_Map) default_Flags (sample_env 1111 1111 1111) pr
    (@protocolRegistry_ok sample_sessions) E) as (Hinv & _ & _ & _ & _ & _ & Hport & _).
  { rewrite Hbind. apply sample_Listen_binds. }
  split; [exact Hport|]. apply (Hinv (pg_server pr) idle). apply reach_start.
Defined.

Lemma names_lead_back_witness :
  ∃ pr, sample_main (mkFlags 8443 "" "config.yaml" 1111 12345 false) (sample_env 1111 1111 1111) = Ok pr ∧
    "correct-horse." +:+ s_Domain (pg_server pr) = "correct-horse.tunnel.example.com:8443".
Proof.
  assert (is_ok (sample_main (mkFlags 8443 "" "config.yaml" 1111 12345 false) (sample_env 1111 1111 1111)) = true) as Hok
    by (vm_compute; reflexivity).
  destruct (sample_main (mkFlags 8443 "" "config.yaml" 1111 12345 false) (sample_env 1111 1111 1111)) as [pr| |] eqn:E;
    [|discriminate Hok..].
  exists pr. split; [reflexivity|].
  destruct (@names_lead_back _ _ exact_filter sample_crypto sample_dns (map_to_list alpn_Map)
    (mkFlags 8443 "" "config.yaml" 1111 12345 false) (sample_env 1111 1111 1111) pr "correct-horse" 7 E eq_refl
    (enumerates_self _)) as [Hn _].
  assert (cb_Web_Domain (pg_bundle pr) = "tunnel.example.com") as Hw.
  { clear -E. vm_compute in E. injection E as <-. reflexivity. }
  rewrite Hw in Hn. exact Hn.
Defined.

(** C15: the certificate requested by a running server is valid for every name
    it hands out.  When the web domain lies below the DNS zone, the names of the
    certificate request of the server's own manager include one that covers the
    web domain and one that covers every one-label name under it, and the
    challenge record is written by the server's own provider into that zone. *)
Theorem certificates_cover_tunnels {P} `{MuxPeer P} `{Crypto} `{Dns} entries flags env (pr : program P) sub :
  main entries flags env = Ok pr →
  cb_Web_Domain (pg_bundle pr) = sub +:+ "." +:+ Zone (cb_RFC2136 (pg_bundle pr)) →
  sub ≠ "" → HasPrefix sub "*" = false →
  ∃ host common names,
    certificate_names (config (s_certManager (pg_server pr))) = Ok (host, common, names) ∧
    host = "_acme-challenge." +:+ sub ∧ common = cb_Web_Domain (pg_bundle pr) ∧
    (∃ n, n ∈ names ∧ cert_covers n (cb_Web_Domain (pg_bundle pr))) ∧
    (∀ label, label ≠ "" → has_char (Ascii.ascii_of_nat 46) label = false →
       ∃ n, n ∈ names ∧ cert_covers n (label +:+ "." +:+ cb_Web_Domain (pg_bundle pr))) ∧
    r_zone (pg_provider pr) = Fqdn (Zone (cb_RFC2136 (pg_bundle pr))).
Proof.
  intros (b0 & b1 & cm & s0 & Hb0 & Hb1 & Hb & Hprov & Hcm & _ & _ & _ & _ & Hs & Hps & _)%main_Ok
    Hweb Hne Hstar.
  apply server_New_Ok in Hs as (cm' & mb & Hv & _ & Hs).
  assert (cm' = cm) as ->.
  { unfold Config_validate in Hv. cbn in Hv. case_bool_decide; congruence. }
  destruct (load_certs_inv _ _ _ Hcm) as [_ Hcc]. destruct (getConfig_Ok _ _ Hb0) as [Hacme _].
  destruct (override_keeps flags b0) as (Ho1 & Ho2 & Ho3 & _). rewrite <-Hb1 in *.
  assert (cb_Web_Domain (pg_bundle pr) = cb_Web_Domain b1) as Hw by (rewrite Hb; by case_match).
  assert (cb_RFC2136 (pg_bundle pr) = cb_RFC2136 b1) as Hz by (rewrite Hb; by case_match).
  rewrite Hz in Hweb |- *. rewrite Hw in Hweb |- *. rewrite Hps, Hs. cbn [s_certManager send_membership
    with_events]. rewrite Hcc, Ho1, Hacme, <-Ho2, <-Ho3, Hweb.
  destruct (acme_names (Contact (cb_ACME b0)) (Zone (cb_RFC2136 b1)) sub Hne Hstar) as (_ & -> & _).
  eexists _, _, _. split; [done|]. split_and!; try done.
  - eexists. split; [apply list_elem_of_here|]. by left.
  - intros label Hl Hd. eexists. split; [apply list_elem_of_further, list_elem_of_here|].
    right. by eexists label, _.
  - unfold NewRFC2136Provider in Hprov. by injection Hprov as <-.
Qed.

Lemma certificates_cover_tunnels_witness :
  ∃ pr host common names, sample_main default_Flags (sample_env 1111 1111 1111) = Ok pr ∧
    certificate_names (config (s_certManager (pg_server pr))) = Ok (host, common, names) ∧
    ∃ n, n ∈ names ∧ cert_covers n ("correct-horse." +:+ cb_Web_Domain (pg_bundle pr)).
Proof.
  assert (is_ok (sample_main default_Flags (sample_env 1111 1111 1111)) = true) as Hok
    by (vm_compute; reflexivity).
  destruct (sample_main default_Flags (sample_env 1111 1111 1111)) as [pr| |] eqn:E; [|discriminate Hok..].
  assert (cb_Web_Domain (pg_bundle pr) = "tunnel." +:+ Zone (cb_RFC2136 (pg_bundle pr))) as Hw.
  { clear -E. vm_compute in E. injection E as <-. reflexivity. }
  destruct (@certificates_cover_tunnels _ _ sample_crypto sample_dns _ _ _ pr "tunnel" E Hw)
    as (host & common & names & Hn & _ & _ & _ & Hc & _); [done|done|].
  exists pr, host, common, names. split; [reflexivity|]. split; [exact Hn|]. by apply (Hc "correct-horse").
Defined.

(** When the web domain is the zone itself, the first certificate request of
    any manager that has an account panics. *)
Lemma zone_apex_panics `{Crypto} ca c loaded b :
  getConfig loaded = Ok b → cb_Web_Domain b = Zone (cb_RFC2136 b) →
  config c = cb_ACME b → hasAcc c = true →
  (RequestCertificate ca c).2 = Panic SliceOutOfRange.
Proof.
  intros [Hacme _]%getConfig_Ok Hz Hc Ha. unfold RequestCertificate. rewrite M_bind_eq.
  cbn [get fst snd]. rewrite Ha, Hc, Hacme, Hz. cbn [negb]. rewrite M_bind_eq.
  unfold certificate_names. cbn [lift fst snd RootZone Domain].
  change ("*." +:+ Zone (cb_RFC2136 b)) with ("*" +:+ "." +:+ Zone (cb_RFC2136 b)).
  by rewrite <-(str_app_assoc "*" "." (Zone (cb_RFC2136 b))), !TrimSuffix_app.
Qed.

(** With the peer port left to the system, the UDP and the TCP listener get
    ports of their own and only the TCP one is advertised, also when the peers
    are told to use QUIC. *)
Lemma random_peer_port_diverges :
  ∃ pr, sample_main default_Flags (sample_env 0 40001 40002) = Ok pr ∧
    meta_Protocol (s_meta (pg_server pr)) = QUIC ∧
    ConnectPort (s_meta (pg_server pr)) = pg_peerTCP pr ∧ pg_peerTCP pr ≠ pg_peerUDP pr.
Proof.
  destruct (sample_main default_Flags (sample_env 0 40001 40002)) as [pr| |] eqn:E;
    vm_compute in E; try discriminate E.
  exists pr. injection E as <-. by split_and!.
Qed.
